(** * Message reconciliation and delivery buffer of the Elektro Scheppers backend

    A shallow embedding of the in-memory message buffer of the chat backend,
    in its two versions:

    - the webhook backend (N8N): [POST /api/track-user-message],
      [GET /api/bot-response/:conversationId], [POST /api/botpress-webhook]
      with its six-second finalize timeout and its cleanup loop;
    - the direct backend (backend.js): the same tracking and polling
      handlers, [startBotResponseMonitoring] and [finalizeMessages].

    JavaScript objects are shared by reference: the array stored in
    [globalMessages] becomes the [messages] array of the conversation data
    at finalization, a message object sits in several arrays at once, and a
    fallback timer closes over its conversation data object.  The state
    therefore carries four heaps (message objects, arrays, conversation data
    objects, timers), each a list indexed by reference; [new] appends, so a
    reference is never reused.

    Modelling conventions.
    - Conversation ids and payloads are JSON strings; [None] is a missing
      field ([undefined]).  Strings are sequences of 8-bit characters.
    - [Date.now()] and the timer clock are one clock, [clock]; ISO time
      stamps ([receivedAt], [trackedAt]) are kept as clock values.
    - [global.conversationTimeouts] is a map; the [undefined] it holds before
      its first use behaves as the empty map in every test the code makes.
    - [Math.random()] is an input of the webhook handler.
    - The timers of the state are the finalize countdowns.  The monitor
      interval of the direct backend and its thirty-second stop timer are
      not among them: they only decide when a monitor tick runs, a tick is
      an event, and nothing of the model stops a monitor, so a tick can
      follow any event, the clear-all call too.
    - Time passes by the event [Elapse] and a timer goes off by the event
      [Fire], which [fire] allows once the timer is due.  [run] takes any
      sequence of events, also one that moves the clock past the due time
      of a pending timer, which the program never does.  What is proved of
      every run therefore holds of every execution; what is said of one
      course of events is said of [punctual] runs, in which the clock never
      passes the due time of a pending timer, and every example is one.
    - [webhookQueue] is never written and is left out.
    - [globalMessages] and [global.conversationTimeouts] are plain objects
      used as maps, and maps here.  For a conversation id that names a
      property every object inherits ([constructor], [toString], ...,
      [Js.inherited]) the code reads the inherited value where a map has no
      entry: the [isBot] branch of the webhook and the monitor throw before
      they change anything, inside a [try] that only logs, and a poll
      answers with an error or with a made-up count.  So an execution with
      such calls is the run without them, and what is said of the answers
      for one conversation id is said of ids that are not such names.
    - The [createdAt] of a vendor message is taken to parse to a time; the
      record holds the result of [new Date(msg.createdAt).getTime()].
    - A message reference is the position of the object in the heap of
      message objects, so references grow in the order of creation.

    Besides the message buffer the development covers the request-level
    middleware of the servers (allowed origins, request timeout), the text
    preview of the debug endpoint, the upload handler of the direct backend,
    the polling loops of the two chat front ends and the link formatter of
    the chat window.  There
    - the answer of a remote service to a request is an input of the
      handler, one per request it can make;
    - the upload directory is the set of the paths that exist;
    - an error is carried by the place that raised it, with the message the
      code gives it; a message made by the runtime is not spelled out;
    - a state variable a function reads from its closure
      ([displayedMessageIds], [conversationId]) is an argument, a state
      variable it sets through an updater is part of the state;
    - of the white space [\s] matches, the 8-bit characters are tab, line
      feed, vertical tab, form feed, carriage return, space and no-break
      space. *)

From Stdlib Require Import ZArith String Ascii DecimalString Sorted Permutation.
From stdpp Require Import gmap strings list fin_maps sorting.

Local Open Scope string_scope.
Local Open Scope list_scope.
Local Open Scope Z_scope.

(** ** JavaScript helpers *)

Module Js.

(** Truthiness of an optional string: [undefined] and [""] are falsy. *)
Definition truthy (v : option string) : bool :=
  match v with
  | Some s => negb (String.eqb s "")
  | None => false
  end.

(** [a || b] *)
Definition or (a b : option string) : option string :=
  if truthy a then a else b.

(** [a || null] *)
Definition or_null (a : option string) : option string :=
  if truthy a then a else None.

(** [s.includes(needle)] *)
Fixpoint includes (needle s : string) : bool :=
  if String.prefix needle s then true
  else match s with
       | EmptyString => false
       | String _ s' => includes needle s'
       end.

Definition is_upper (c : ascii) : bool :=
  (65 <=? nat_of_ascii c)%nat && (nat_of_ascii c <=? 90)%nat.
Definition is_lower (c : ascii) : bool :=
  (97 <=? nat_of_ascii c)%nat && (nat_of_ascii c <=? 122)%nat.
Definition is_end_punct (c : ascii) : bool :=
  (nat_of_ascii c =? 46)%nat || (nat_of_ascii c =? 33)%nat || (nat_of_ascii c =? 63)%nat.
Definition is_line_terminator (c : ascii) : bool :=
  (nat_of_ascii c =? 10)%nat || (nat_of_ascii c =? 13)%nat.

(** The rest of a match of [.*[.!?]]: some end punctuation before the next
    line terminator. *)
Fixpoint reaches_punct (s : string) : bool :=
  match s with
  | EmptyString => false
  | String c s' =>
      if is_end_punct c then true
      else if is_line_terminator c then false
      else reaches_punct s'
  end.

(** The rest of a match of [.*[a-z].*[.!?]]. *)
Fixpoint reaches_lower (s : string) : bool :=
  match s with
  | EmptyString => false
  | String c s' =>
      if is_lower c && reaches_punct s' then true
      else if is_line_terminator c then false
      else reaches_lower s'
  end.

(** [/[A-Z].*[a-z].*[.!?]/.test(s)] *)
Fixpoint sentence_like (s : string) : bool :=
  match s with
  | EmptyString => false
  | String c s' =>
      if is_upper c && reaches_lower s' then true else sentence_like s'
  end.

(** The names of the properties a plain object inherits from
    [Object.prototype]: for such a key [obj[key]] is the inherited value,
    and truthy, whatever was stored in the object. *)
Definition inherited (key : string) : bool :=
  existsb (String.eqb key)
    ["constructor"; "toString"; "toLocaleString"; "valueOf"; "hasOwnProperty";
     "isPrototypeOf"; "propertyIsEnumerable"; "__proto__"; "__defineGetter__";
     "__defineSetter__"; "__lookupGetter__"; "__lookupSetter__"].

(** Decimal rendering of a number inside a template string. *)
Definition number_to_string (z : Z) : string :=
  NilZero.string_of_int (Z.to_int z).

Section Sort.
Context {A : Type} (cmp : A -> A -> Z).

(** [Array.prototype.sort(cmp)] is stable: among elements the comparator
    does not separate, the earlier one stays first.  [insert x l] puts [x]
    in front of the first element it does not have to follow. *)
Fixpoint insert (x : A) (l : list A) : list A :=
  match l with
  | [] => [x]
  | y :: l' => if cmp x y <=? 0 then x :: y :: l' else y :: insert x l'
  end.

Fixpoint sort (l : list A) : list A :=
  match l with
  | [] => []
  | x :: l' => insert x (sort l')
  end.
End Sort.

End Js.

(** ** Data *)

(** A stored bot message. *)
Record Message := {
  text : option string;
  image : option string;
  timestamp : Z;
  receivedAt : Z;
  msgId : string;
  delivered : bool
}.

(** An entry of [botMessages]; [messages] is a reference to an array. *)
Record ConversationData := {
  messages : nat;
  lastDelivered : Z;
  allMessagesReceived : bool;
  deliveryTimeoutId : option nat
}.

(** An entry of [userMessages]. *)
Record UserMessage := {
  um_text : string;
  um_timestamp : Z;
  um_trackedAt : Z
}.

(** What a timer runs when it fires. *)
Inductive Callback :=
| GlobalFinalize (conversationId : string)   (* webhook backend, 6000 ms *)
| FallbackFinalize (conversationData : nat)  (* webhook backend fallback, 6000 ms *)
| DirectFinalize (conversationId : string).  (* direct backend, 5000 ms *)

Record Timer := {
  due : Z;
  callback : Callback;
  pending : bool
}.

Record State := {
  clock : Z;
  objs : list Message;
  arrs : list (list nat);
  convs : list ConversationData;
  timers : list Timer;
  botMessages : gmap string nat;
  globalMessages : gmap string nat;
  userMessages : gmap string UserMessage;
  conversationTimeouts : gmap string nat
}.

Definition initial : State :=
  {| clock := 0; objs := []; arrs := []; convs := []; timers := [];
     botMessages := ∅; globalMessages := ∅; userMessages := ∅;
     conversationTimeouts := ∅ |}.

Global Instance Callback_eq_dec : EqDecision Callback.
Proof. solve_decision. Defined.

(** *** Field updates *)

Definition set_clock (f : Z -> Z) (s : State) : State :=
  {| clock := f (clock s); objs := objs s; arrs := arrs s; convs := convs s;
     timers := timers s; botMessages := botMessages s;
     globalMessages := globalMessages s; userMessages := userMessages s;
     conversationTimeouts := conversationTimeouts s |}.
Definition set_objs (f : list Message -> list Message) (s : State) : State :=
  {| clock := clock s; objs := f (objs s); arrs := arrs s; convs := convs s;
     timers := timers s; botMessages := botMessages s;
     globalMessages := globalMessages s; userMessages := userMessages s;
     conversationTimeouts := conversationTimeouts s |}.
Definition set_arrs (f : list (list nat) -> list (list nat)) (s : State) : State :=
  {| clock := clock s; objs := objs s; arrs := f (arrs s); convs := convs s;
     timers := timers s; botMessages := botMessages s;
     globalMessages := globalMessages s; userMessages := userMessages s;
     conversationTimeouts := conversationTimeouts s |}.
Definition set_convs (f : list ConversationData -> list ConversationData) (s : State) : State :=
  {| clock := clock s; objs := objs s; arrs := arrs s; convs := f (convs s);
     timers := timers s; botMessages := botMessages s;
     globalMessages := globalMessages s; userMessages := userMessages s;
     conversationTimeouts := conversationTimeouts s |}.
Definition set_timers (f : list Timer -> list Timer) (s : State) : State :=
  {| clock := clock s; objs := objs s; arrs := arrs s; convs := convs s;
     timers := f (timers s); botMessages := botMessages s;
     globalMessages := globalMessages s; userMessages := userMessages s;
     conversationTimeouts := conversationTimeouts s |}.
Definition set_botMessages (f : gmap string nat -> gmap string nat) (s : State) : State :=
  {| clock := clock s; objs := objs s; arrs := arrs s; convs := convs s;
     timers := timers s; botMessages := f (botMessages s);
     globalMessages := globalMessages s; userMessages := userMessages s;
     conversationTimeouts := conversationTimeouts s |}.
Definition set_globalMessages (f : gmap string nat -> gmap string nat) (s : State) : State :=
  {| clock := clock s; objs := objs s; arrs := arrs s; convs := convs s;
     timers := timers s; botMessages := botMessages s;
     globalMessages := f (globalMessages s); userMessages := userMessages s;
     conversationTimeouts := conversationTimeouts s |}.
Definition set_userMessages (f : gmap string UserMessage -> gmap string UserMessage) (s : State) : State :=
  {| clock := clock s; objs := objs s; arrs := arrs s; convs := convs s;
     timers := timers s; botMessages := botMessages s;
     globalMessages := globalMessages s; userMessages := f (userMessages s);
     conversationTimeouts := conversationTimeouts s |}.
Definition set_conversationTimeouts (f : gmap string nat -> gmap string nat) (s : State) : State :=
  {| clock := clock s; objs := objs s; arrs := arrs s; convs := convs s;
     timers := timers s; botMessages := botMessages s;
     globalMessages := globalMessages s; userMessages := userMessages s;
     conversationTimeouts := f (conversationTimeouts s) |}.

(** *** Heap primitives *)

Definition mark_delivered (m : Message) : Message :=
  {| text := text m; image := image m; timestamp := timestamp m;
     receivedAt := receivedAt m; msgId := msgId m; delivered := true |}.

Definition cancel (t : Timer) : Timer :=
  {| due := due t; callback := callback t; pending := false |}.

(** The content of the array behind a reference. *)
Definition array_of (s : State) (a : nat) : list nat :=
  default [] (arrs s !! a).

(** [a.timestamp - b.timestamp] on two message references. *)
Definition timestamp_of (s : State) (m : nat) : Z :=
  from_option timestamp 0 (objs s !! m).

Definition by_timestamp (s : State) (a b : nat) : Z :=
  timestamp_of s a - timestamp_of s b.

(** [!msg.delivered] *)
Definition undelivered (s : State) (m : nat) : bool :=
  from_option (fun o => negb (delivered o)) false (objs s !! m).

(** [setTimeout(cb, delay)]: a new timer object. *)
Definition setTimeout (cb : Callback) (delay : Z) (s : State) : nat * State :=
  (length (timers s),
   set_timers (fun ts => ts ++ [{| due := clock s + delay; callback := cb; pending := true |}]) s).

(** [clearTimeout(h)]: nothing happens when the timer has fired already. *)
Definition clearTimeout (h : nat) (s : State) : State :=
  set_timers (alter cancel h) s.

(** [if (h) clearTimeout(h)] on an optional handle. *)
Definition clear_if_set (h : option nat) (s : State) : State :=
  match h with
  | Some t => clearTimeout t s
  | None => s
  end.

(** A new array object. *)
Definition new_array (l : list nat) (s : State) : nat * State :=
  (length (arrs s), set_arrs (fun h => h ++ [l]) s).

(** A new message object. *)
Definition new_message (m : Message) (s : State) : nat * State :=
  (length (objs s), set_objs (fun h => h ++ [m]) s).

(** [{ messages: [], lastDelivered: 0, allMessagesReceived: false,
      deliveryTimeoutId: null }] *)
Definition new_conversationData (s : State) : nat * State :=
  let '(a, s1) := new_array [] s in
  (length (convs s1),
   set_convs (fun h => h ++ [{| messages := a; lastDelivered := 0;
                                allMessagesReceived := false;
                                deliveryTimeoutId := None |}]) s1).

(** [array.push(m)] *)
Definition push (a m : nat) (s : State) : State :=
  set_arrs (alter (fun l => l ++ [m]) a) s.

(** [array.sort((a, b) => a.timestamp - b.timestamp)], in place. *)
Definition sort_in_place (a : nat) (s : State) : State :=
  set_arrs (alter (Js.sort (by_timestamp s)) a) s.

Definition has {A : Type} (o : option A) : bool :=
  match o with
  | Some _ => true
  | None => false
  end.

(** ** Handlers shared by the two backends *)

(** *** POST /api/track-user-message *)

Inductive TrackResponse :=
| TrackOk          (* 200 { success: true } *)
| TrackBadRequest. (* 400 { error: 'Missing conversationId or text' } *)

Definition track_user_message (conversationId text : option string) (s : State)
  : TrackResponse * State :=
  match conversationId, text with
  | Some cid, Some txt =>
      if String.eqb cid "" || String.eqb txt "" then (TrackBadRequest, s)
      else
        let s1 :=
          match botMessages s !! cid with
          | Some c =>
              let s' := clear_if_set (convs s !! c ≫= deliveryTimeoutId) s in
              set_botMessages (delete cid) s'
          | None => s
          end in
        let s2 := set_globalMessages (delete cid) s1 in
        let s3 := set_userMessages
                    (<[cid := {| um_text := txt; um_timestamp := clock s;
                                 um_trackedAt := clock s |}]>) s2 in
        (TrackOk, s3)
  | _, _ => (TrackBadRequest, s)
  end.

(** *** GET /api/bot-response/:conversationId *)

Inductive PollResponse :=
| Ready (undeliveredMessages : list nat)   (* { success: true, messages } *)
| AlreadyDelivered                         (* 'All messages already delivered' *)
| StillCollecting (messagesReceived : nat) (timeoutActive : bool)
| NoMessages.                              (* 'No bot messages available' *)

(** The [conversationData] the handler works on: the entry of [botMessages],
    or else one made up from [globalMessages]; given as its [messages] array
    and its [allMessagesReceived] flag. *)
Definition conversationData_for (conversationId : string) (s : State)
  : option (nat * bool) :=
  match botMessages s !! conversationId with
  | Some c => (fun v => (messages v, allMessagesReceived v)) <$> convs s !! c
  | None =>
      match globalMessages s !! conversationId with
      | Some a => Some (a, negb (has (conversationTimeouts s !! conversationId)))
      | None => None
      end
  end.

Definition undelivered_sorted (s : State) (l : list nat) : list nat :=
  Js.sort (by_timestamp s) (filter (fun m => undelivered s m = true) l).

Definition deliver (l : list nat) (s : State) : State :=
  set_objs (fun h => foldr (alter mark_delivered) h l) s.

Definition bot_response (conversationId : string) (s : State)
  : PollResponse * State :=
  match conversationData_for conversationId s with
  | Some (a, allReceived) =>
      let msgs := array_of s a in
      if (0 <? length msgs)%nat then
        if allReceived then
          let undeliveredMessages := undelivered_sorted s msgs in
          if (0 <? length undeliveredMessages)%nat
          then (Ready undeliveredMessages, deliver undeliveredMessages s)
          else (AlreadyDelivered, s)
        else (StillCollecting (length msgs)
                (has (conversationTimeouts s !! conversationId)), s)
      else (NoMessages, s)
  | None => (NoMessages, s)
  end.

(** ** The webhook backend *)

Module N8N.

(** The value of an [isBot] field. *)
Inductive Flag :=
| FlagTrue | FlagFalse | FlagString (s : string) | FlagAbsent.

(** The fields the handler reads, at the top of the body or under
    [body.body.data]. *)
Record Fields := {
  f_conversationId : option string;
  f_payload_text : option string;
  f_payload_image : option string;
  f_payload_imageUrl : option string;
  f_text : option string;
  f_image : option string;
  f_imageUrl : option string;
  f_isBot : Flag
}.

Record WebhookBody := {
  body_data : option Fields;  (* body.body.data *)
  top : Fields
}.

Record Extracted := {
  conversationId : option string;
  botText : option string;
  botImage : option string;
  isBot : Flag
}.

Definition extract (body : WebhookBody) : Extracted :=
  match body_data body with
  | Some d =>
      {| conversationId := f_conversationId d;
         botText := Js.or (f_payload_text d) (f_text d);
         botImage := Js.or (Js.or (Js.or (f_payload_image d) (f_payload_imageUrl d))
                                  (f_image d)) (f_imageUrl d);
         isBot := f_isBot d |}
  | None =>
      let b := top body in
      if Js.truthy (f_conversationId b) then
        {| conversationId := f_conversationId b;
           botText := Js.or (f_payload_text b) (f_text b);
           botImage := Js.or (Js.or (Js.or (f_payload_image b) (f_payload_imageUrl b))
                                    (f_image b)) (f_imageUrl b);
           isBot := f_isBot b |}
      else if Js.truthy (f_text b) || Js.truthy (f_image b) || Js.truthy (f_imageUrl b) then
        {| conversationId := None;
           botText := f_text b;
           botImage := Js.or (f_image b) (f_imageUrl b);
           isBot := f_isBot b |}
      else
        {| conversationId := None; botText := None; botImage := None;
           isBot := FlagAbsent |}
  end.

Definition isBotMessage (f : Flag) : bool :=
  match f with
  | FlagTrue => true
  | FlagString s => String.eqb s "true"
  | _ => false
  end.

Definition isUserMessage (f : Flag) : bool :=
  match f with
  | FlagFalse => true
  | FlagString s => String.eqb s "false"
  | _ => false
  end.

(** [!botText || !botText.includes('{{ $json')] *)
Definition placeholder_free (botText : option string) : bool :=
  negb (Js.truthy botText) || negb (Js.includes "{{ $json" (default "" botText)).

(** [conversationId && (botText || botImage) && (!botText || ...)] *)
Definition storable (x : Extracted) : bool :=
  Js.truthy (conversationId x)
  && (Js.truthy (botText x) || Js.truthy (botImage x))
  && placeholder_free (botText x).

Definition looksLikeBotResponse (botText : option string) : bool :=
  Js.truthy botText &&
  let t := default "" botText in
  ((20 <? String.length t)%nat || Js.includes "!" t || Js.includes "?" t
   || Js.includes "helpen" t || Js.includes "kan ik" t || Js.sentence_like t).

(** The callback of the six-second timeout. *)
Definition finalize_timeout (cid : string) (s : State) : State :=
  let '(a, s1) := match globalMessages s !! cid with
                  | Some a => (a, s)
                  | None => new_array [] s
                  end in
  let s2 := sort_in_place a s1 in
  let '(c, s3) := match botMessages s2 !! cid with
                  | Some c => (c, s2)
                  | None => let '(c, s') := new_conversationData s2 in
                            (c, set_botMessages (<[cid := c]>) s')
                  end in
  let s4 := set_convs
              (alter (fun v => {| messages := a; lastDelivered := lastDelivered v;
                                  allMessagesReceived := true;
                                  deliveryTimeoutId := None |}) c) s3 in
  let s5 := set_userMessages (delete cid) s4 in
  set_conversationTimeouts (delete cid) s5.

(** The callback of the fallback timeout, closed over [conversationData]. *)
Definition fallback_timeout (c : nat) (s : State) : State :=
  set_convs
    (alter (fun v => {| messages := messages v; lastDelivered := lastDelivered v;
                        allMessagesReceived := true;
                        deliveryTimeoutId := None |}) c) s.

(** The branch [if (isBotMessage)], when the message is stored. *)
Definition store_bot_message (cid : string) (x : Extracted) (random : string)
  (s : State) : State :=
  let '(a, s1) := match globalMessages s !! cid with
                  | Some a => (a, s)
                  | None => let '(a, s') := new_array [] s in
                            (a, set_globalMessages (<[cid := a]>) s')
                  end in
  let messageTimestamp := clock s in
  let '(m, s2) := new_message
                    {| text := Js.or_null (botText x);
                       image := Js.or_null (botImage x);
                       timestamp := messageTimestamp;
                       receivedAt := clock s;
                       msgId := "bot-msg-" +:+ Js.number_to_string messageTimestamp
                                +:+ "-" +:+ random;
                       delivered := false |} s1 in
  let s3 := push a m s2 in
  let s4 := clear_if_set (conversationTimeouts s3 !! cid) s3 in
  let '(h, s5) := setTimeout (GlobalFinalize cid) 6000 s4 in
  set_conversationTimeouts (<[cid := h]>) s5.

(** The fallback branch, when the message is stored. *)
Definition store_fallback_message (cid : string) (x : Extracted) (s : State) : State :=
  let '(c, s1) := match botMessages s !! cid with
                  | Some c => (c, s)
                  | None => let '(c, s') := new_conversationData s in
                            (c, set_botMessages (<[cid := c]>) s')
                  end in
  let a := from_option messages 0%nat (convs s1 !! c) in
  let messageTimestamp := clock s in
  let '(m, s2) := new_message
                    {| text := Js.or_null (botText x);
                       image := Js.or_null (botImage x);
                       timestamp := messageTimestamp;
                       receivedAt := clock s;
                       msgId := "bot-fallback-" +:+ Js.number_to_string messageTimestamp;
                       delivered := false |} s1 in
  let s3 := sort_in_place a (push a m s2) in
  let s4 := clear_if_set (convs s3 !! c ≫= deliveryTimeoutId) s3 in
  let '(h, s5) := setTimeout (FallbackFinalize c) 6000 s4 in
  let s6 := set_convs
              (alter (fun v => {| messages := messages v;
                                  lastDelivered := lastDelivered v;
                                  allMessagesReceived := allMessagesReceived v;
                                  deliveryTimeoutId := Some h |}) c) s5 in
  set_userMessages (delete cid) s6.

(** The first part of the webhook processing: classify and store. *)
Definition process (x : Extracted) (random : string) (s : State) : State :=
  if isBotMessage (isBot x) then
    if storable x then store_bot_message (default "" (conversationId x)) x random s
    else s
  else if isUserMessage (isBot x) then s
  else
    let trackedUserMessage := conversationId x ≫= (fun cid => userMessages s !! cid) in
    let differs := match trackedUserMessage with
                   | None => true
                   | Some t => negb (bool_decide (botText x = Some (um_text t)))
                   end in
    if differs
       && (looksLikeBotResponse (botText x) || Js.truthy (botImage x))
       && storable x
    then store_fallback_message (default "" (conversationId x)) x s
    else s.

(** One round of the cleanup loop over [botMessages.entries()]. *)
Definition cleanup_entry (fiveMinutesAgo : Z) (s : State) (entry : string * nat) : State :=
  let '(key, c) := entry in
  match convs s !! c with
  | None => s
  | Some value =>
      if negb (allMessagesReceived value) && has (deliveryTimeoutId value) then s
      else
        let old := array_of s (messages value) in
        let filteredMessages :=
          filter (fun m => fiveMinutesAgo <= timestamp_of s m) old in
        let s1 :=
          if bool_decide (length filteredMessages ≠ length old) then
            let '(a, s') := new_array filteredMessages s in
            set_convs
              (alter (fun v => {| messages := a; lastDelivered := lastDelivered v;
                                  allMessagesReceived := allMessagesReceived v;
                                  deliveryTimeoutId := deliveryTimeoutId v |}) c) s'
          else s in
        if bool_decide (length filteredMessages = 0%nat) then
          set_botMessages (delete key) (clear_if_set (deliveryTimeoutId value) s1)
        else s1
  end.

(** The cleanup at the end of every webhook processing. *)
Definition cleanup (s : State) : State :=
  let fiveMinutesAgo := clock s - 5 * 60 * 1000 in
  let s1 := foldl (cleanup_entry fiveMinutesAgo) s (map_to_list (botMessages s)) in
  set_userMessages (filter (fun kv => ¬ (um_timestamp kv.2 < fiveMinutesAgo))) s1.

Inductive WebhookResponse :=
| WebhookReceived. (* 200 { success: true, ... }, sent before the processing *)

(** POST /api/botpress-webhook *)
Definition botpress_webhook (body : WebhookBody) (random : string) (s : State)
  : WebhookResponse * State :=
  (WebhookReceived, cleanup (process (extract body) random s)).

(** POST /api/debug/clear-all: [botMessages] and [userMessages] only. *)
Definition clear_all (s : State) : State :=
  set_botMessages (fun _ => ∅) (set_userMessages (fun _ => ∅) s).

(** The request timeout middleware:
    [req.url.includes('/webhook') ? 5000 : 30000]. *)
Definition request_timeout (url : string) : Z :=
  if Js.includes "/webhook" url then 5000 else 30000.

(** The [origin] function of the CORS configuration (the same in both
    backends); the result is the second argument of [callback]. *)
Definition cors_origin (VERCEL_LINK VERCEL_LINK_2 origin : option string) : bool :=
  if negb (Js.truthy origin) then true
  else
    let o := default "" origin in
    if Js.includes "vercel.app" o || Js.includes "localhost" o
       || Js.includes "127.0.0.1" o
       || bool_decide (origin = VERCEL_LINK) || bool_decide (origin = VERCEL_LINK_2)
    then true
    else true.

(** GET /api/debug/stored-responses, the [text] of a listed message:
    [msg.text ? msg.text.substring(0, 50) + (msg.text.length > 50 ? '...' : '') : null]
    (the same in both backends). *)
Definition text_preview (text : option string) : option string :=
  if Js.truthy text then
    let t := default "" text in
    Some (substring 0 50 t +:+ (if (50 <? String.length t)%nat then "..." else ""))
  else None.

End N8N.

(** ** The direct backend *)

Module Direct.

(** A message of the vendor's conversation listing. *)
Record VendorMessage := {
  v_id : string;
  v_userId : string;
  v_conversationId : string;
  v_payload_text : option string;
  v_payload_image : option string;
  v_createdAt : Z   (* new Date(msg.createdAt).getTime() *)
}.

(** [stored.id === id] *)
Definition has_id (s : State) (id : string) (m : nat) : bool :=
  from_option (fun o => String.eqb (msgId o) id) false (objs s !! m).

(** The filter of [startBotResponseMonitoring]. *)
Definition is_new_bot_message (cid : string) (s : State) (msg : VendorMessage) : bool :=
  negb (String.eqb (v_userId msg) (v_conversationId msg))
  && match userMessages s !! cid with
     | None => true
     | Some trackedUserMessage =>
         negb (bool_decide (v_payload_text msg = Some (um_text trackedUserMessage)))
     end
  && Js.truthy (v_payload_text msg)
  && negb (existsb (has_id s (v_id msg))
             (from_option (array_of s) [] (globalMessages s !! cid))).

Definition to_message (now : Z) (msg : VendorMessage) : Message :=
  {| text := Js.or_null (v_payload_text msg);
     image := Js.or_null (v_payload_image msg);
     timestamp := v_createdAt msg;
     receivedAt := now;
     msgId := v_id msg;
     delivered := false |}.

(** [array.push(...ms)] of new message objects. *)
Definition push_all (a : nat) (ms : list Message) (s : State) : State :=
  foldl (fun acc m => let '(r, acc') := new_message m acc in push a r acc') s ms.

(** [finalizeMessages(conversationId)] *)
Definition finalizeMessages (cid : string) (s : State) : State :=
  let s3 :=
    match globalMessages s !! cid with
    | Some a =>
        if (0 <? length (array_of s a))%nat then
          let s1 := sort_in_place a s in
          let '(c, s2) := match botMessages s1 !! cid with
                          | Some c => (c, s1)
                          | None => let '(c, s') := new_conversationData s1 in
                                    (c, set_botMessages (<[cid := c]>) s')
                          end in
          set_convs
            (alter (fun v => {| messages := a; lastDelivered := lastDelivered v;
                                allMessagesReceived := true;
                                deliveryTimeoutId := None |}) c) s2
        else s
    | None => s
    end in
  let s4 := set_userMessages (delete cid) s3 in
  set_conversationTimeouts (delete cid) s4.

(** The body of one monitor tick, once the listing [data.messages] is in. *)
Definition monitor_tick (cid : string) (data_messages : list VendorMessage)
  (s : State) : State :=
  let newBotMessages :=
    to_message (clock s) <$> filter (fun msg => is_new_bot_message cid s msg = true) data_messages in
  if (0 <? length newBotMessages)%nat then
    let '(a, s1) := match globalMessages s !! cid with
                    | Some a => (a, s)
                    | None => let '(a, s') := new_array [] s in
                              (a, set_globalMessages (<[cid := a]>) s')
                    end in
    let s2 := push_all a newBotMessages s1 in
    let s3 := clear_if_set (conversationTimeouts s2 !! cid) s2 in
    let '(h, s4) := setTimeout (DirectFinalize cid) 5000 s3 in
    set_conversationTimeouts (<[cid := h]>) s4
  else s.

(** POST /api/debug/clear-all *)
Definition clear_all (s : State) : State :=
  let handles := (map_to_list (conversationTimeouts s)).*2 in
  {| clock := clock s; objs := objs s; arrs := arrs s; convs := convs s;
     timers := foldr (alter cancel) (timers s) handles;
     botMessages := ∅; globalMessages := ∅; userMessages := ∅;
     conversationTimeouts := ∅ |}.

(** *** POST /api/upload *)

(** [KNOWLEDGE_BASE_ID.startsWith('kb-') ? KNOWLEDGE_BASE_ID : `kb-${KNOWLEDGE_BASE_ID}`] *)
Definition kbIdForKey (KNOWLEDGE_BASE_ID : string) : string :=
  if String.prefix "kb-" KNOWLEDGE_BASE_ID then KNOWLEDGE_BASE_ID
  else "kb-" +:+ KNOWLEDGE_BASE_ID.

(** [KNOWLEDGE_BASE_ID.replace(/^kb-/, '')] *)
Definition kbId_tag (KNOWLEDGE_BASE_ID : string) : string :=
  if String.prefix "kb-" KNOWLEDGE_BASE_ID
  then substring 3 (String.length KNOWLEDGE_BASE_ID - 3) KNOWLEDGE_BASE_ID
  else KNOWLEDGE_BASE_ID.

(** [req.file], as multer leaves it. *)
Record UploadedFile := {
  originalname : string;
  mimetype : string;
  size : Z;
  path : string
}.

(** [fileObj]: the [uploadUrl] and [id] of the registered file. *)
Record FileObject := {
  uploadUrl : option string;
  fileId : option string
}.

(** The outcome of the registration request. *)
Inductive RegisterResult :=
| RegisterRejects (message : string)            (* fetch rejects *)
| RegisterNotOk (status : Z) (errorText : string)
| RegisterNoJson (message : string)             (* registerRes.json() rejects *)
| RegisterOk (file : option FileObject) (registerData : FileObject).

(** The outcome of the request that sends the content. *)
Inductive ContentResult :=
| ContentRejects (message : string)
| ContentNotOk (status : Z)
| ContentOk.

(** The requests the handler sends. *)
Inductive Request :=
| PutFile (key contentType : string) (size : Z) (kbId title : string)
| PutContent (url contentType : string).

(** What the handler can fail on. *)
Inductive Failure :=
| KnowledgeBaseUnset          (* KNOWLEDGE_BASE_ID is undefined *)
| Rejected (message : string) (* a rejected request or an unreadable answer *)
| RegistrationFailed (status : Z) (errorText : string)
| NoUploadUrl
| ReadFailed                  (* fs.readFileSync throws *)
| ContentFailed (status : Z).

(** [error.message || 'Failed to upload file to knowledge base'], where the
    code makes the message. *)
Definition error_text (f : Failure) : option string :=
  match f with
  | Rejected message =>
      Js.or (Some message) (Some "Failed to upload file to knowledge base")
  | RegistrationFailed status errorText =>
      Some ("File registration failed: " +:+ Js.number_to_string status
            +:+ " - " +:+ errorText)
  | NoUploadUrl => Some "No uploadUrl or fileId in Botpress response"
  | ContentFailed status =>
      Some ("File content upload failed: " +:+ Js.number_to_string status)
  | KnowledgeBaseUnset | ReadFailed => None
  end.

Inductive UploadResponse :=
| UploadOk (fileId fileName fileKey title : string) (* 200 { success: true, ... } *)
| UploadNoFile                                      (* 400 'No file uploaded' *)
| UploadFailed (failure : Failure).                 (* 500 { error } *)

(** The [catch] block: [if (req.file && fs.existsSync(req.file.path))
    fs.unlinkSync(req.file.path)]. *)
Definition unlink_if_exists (p : string) (files : gset string) : gset string :=
  if decide (p ∈ files) then files ∖ {[p]} else files.

(** The handler, given the answers of the two requests it can make; it
    returns the response, the requests sent and the upload directory. *)
Definition upload (KNOWLEDGE_BASE_ID : option string) (file : option UploadedFile)
  (title : option string) (now : Z)
  (register : RegisterResult) (content : ContentResult) (files : gset string)
  : UploadResponse * list Request * gset string :=
  match file with
  | None => (UploadNoFile, [], files)
  | Some f =>
      let failed failure sent :=
        (UploadFailed failure, sent, unlink_if_exists (path f) files) in
      match KNOWLEDGE_BASE_ID with
      | None => failed KnowledgeBaseUnset []
      | Some kb =>
          let filename := originalname f in
          let fileKey := kbIdForKey kb +:+ "/" +:+ Js.number_to_string now
                         +:+ "-" +:+ filename in
          let title := default filename (Js.or title (Some filename)) in
          let registration :=
            PutFile fileKey (mimetype f) (size f) (kbId_tag kb) title in
          match register with
          | RegisterRejects message => failed (Rejected message) [registration]
          | RegisterNotOk status errorText =>
              failed (RegistrationFailed status errorText) [registration]
          | RegisterNoJson message => failed (Rejected message) [registration]
          | RegisterOk file registerData =>
              let fileObj := default registerData file in
              if Js.truthy (uploadUrl fileObj) && Js.truthy (fileId fileObj) then
                let url := default "" (uploadUrl fileObj) in
                let id := default "" (fileId fileObj) in
                if decide (path f ∈ files) then
                  let sent := [registration; PutContent url (mimetype f)] in
                  match content with
                  | ContentRejects message => failed (Rejected message) sent
                  | ContentNotOk status => failed (ContentFailed status) sent
                  | ContentOk =>
                      (UploadOk id filename fileKey title, sent, files ∖ {[path f]})
                  end
                else failed ReadFailed [registration]
              else failed NoUploadUrl [registration]
          end
      end
  end.

End Direct.

(** ** The chat front end *)

Module Chat.

(** [interface Message] *)
Record ChatMessage := {
  id : string;
  text : option string;
  image : option string;
  isBot : bool;
  receivedAt : option Z;
  timestamp : option Z
}.

(** The state the polling loop works on. *)
Record ChatState := {
  messages : list ChatMessage;
  displayedMessageIds : gset string;
  isLoading : bool
}.

(** What one polling request comes back with. *)
Inductive Attempt :=
| AttemptRejects               (* fetch or response.json() rejects *)
| AttemptNotOk (status : Z)    (* !response.ok *)
| AttemptData (success : bool) (* data.success *)
    (data_messages : option (list Message)). (* data.messages, when an array *)

Definition maxAttempts : nat := 30.

(** [{ id: msg.id, text: msg.text || '', image: msg.image || undefined,
       isBot: true, timestamp: msg.timestamp, receivedAt: msg.receivedAt }] *)
Definition of_backend (msg : Message) : ChatMessage :=
  let 'Build_Message msg_text msg_image msg_timestamp msg_receivedAt msg_id _ := msg in
  {| id := msg_id;
     text := Js.or msg_text (Some "");
     image := Js.or_null msg_image;
     isBot := true;
     receivedAt := Some msg_receivedAt;
     timestamp := Some msg_timestamp |}.

Definition timeoutMessage (now : Z) : ChatMessage :=
  {| id := "timeout-" +:+ Js.number_to_string now;
     text := Some "Het duurt langer dan verwacht om een antwoord te krijgen. Probeer uw vraag opnieuw te stellen of neem contact op met Elektro Scheppers.";
     image := None; isBot := true; receivedAt := None; timestamp := Some now |}.

Definition errorMessage (now : Z) : ChatMessage :=
  {| id := "error-" +:+ Js.number_to_string now;
     text := Some "Er is een probleem opgetreden bij het ophalen van het antwoord. Probeer het opnieuw.";
     image := None; isBot := true; receivedAt := None; timestamp := Some now |}.

(** [setMessages(prev => [...prev, message]); setIsLoading(false)] *)
Definition stop_with (message : ChatMessage) (st : ChatState) : ChatState :=
  {| messages := messages st ++ [message];
     displayedMessageIds := displayedMessageIds st;
     isLoading := false |}.

(** The inner function [poll] of [pollForBotResponse]: [attempt n] is what
    request number [n] comes back with and [now n] the time at that moment;
    the result is the final state and the number of requests made.  The
    function calls itself through [setTimeout(poll, 2000)]; [fuel] bounds
    the number of these calls. *)
Fixpoint poll (fuel : nat) (attempts : nat) (attempt : nat -> Attempt) (now : nat -> Z)
  (st : ChatState) : option (ChatState * nat) :=
  match fuel with
  | O => None
  | S fuel' =>
      match attempt attempts with
      | AttemptData true (Some data_messages) =>
          let newBotMessages := of_backend <$> data_messages in
          Some ({| messages := messages st ++ newBotMessages;
                   displayedMessageIds :=
                     displayedMessageIds st ∪ list_to_set (id <$> newBotMessages);
                   isLoading := false |}, S attempts)
      | AttemptRejects =>
          if (maxAttempts <=? S attempts)%nat
          then Some (stop_with (errorMessage (now attempts)) st, S attempts)
          else poll fuel' (S attempts) attempt now st
      | _ =>
          if (maxAttempts <=? S attempts)%nat
          then Some (stop_with (timeoutMessage (now attempts)) st, S attempts)
          else poll fuel' (S attempts) attempt now st
      end
  end.

Definition pollForBotResponse (fuel : nat) (conversationId : option string)
  (attempt : nat -> Attempt) (now : nat -> Z) (st : ChatState)
  : option (ChatState * nat) :=
  if Js.truthy conversationId then poll fuel 0 attempt now st
  else Some ({| messages := messages st;
                displayedMessageIds := displayedMessageIds st;
                isLoading := false |}, 0%nat).

End Chat.

(** ** The chat front end of the webhook backend (ChatProvider.tsx) *)

Module ChatProvider.

(** A message of the chat window: a bot message with the fields the backend
    gave it, [{ ...msg, isBot: true }], or a message the front end made. *)
Inductive ChatMessage :=
| FromBackend (msg : Message)
| Local (id : string) (text : string) (isBot : bool) (timestamp : option Z).

Definition id (m : ChatMessage) : string :=
  match m with
  | FromBackend msg => msgId msg
  | Local i _ _ _ => i
  end.

Record ChatState := {
  messages : list ChatMessage;
  displayedMessageIds : gset string;
  isLoading : bool
}.

(** What one polling request comes back with; [data.messages] is an array
    when it is there, as in every answer of the backend. *)
Inductive Attempt :=
| AttemptRejects               (* fetch or botResponseRes.json() rejects *)
| AttemptNotOk (status : Z)    (* !botResponseRes.ok *)
| AttemptData (data_messages : option (list Message)).

Definition maxAttempts : nat := 60.
Definition maxEmptyPolls : nat := 20.

(** The local variables of [pollForBotResponse]. *)
Record Counters := {
  attempts : nat;
  consecutiveEmptyPolls : nat;
  lastMessageCount : nat
}.

Definition timeoutMessage (now : Z) : ChatMessage :=
  Local ("timeout-" +:+ Js.number_to_string now)
    "Het duurt langer dan verwacht om een antwoord te krijgen. Probeer uw vraag opnieuw te stellen of neem contact op met Elektro Scheppers."
    true (Some now).

Definition errorMessage (now : Z) : ChatMessage :=
  Local ("error-" +:+ Js.number_to_string now)
    "Er is een probleem opgetreden bij het ophalen van het antwoord. Probeer het opnieuw."
    true (Some now).

(** [setIsLoading(false); setMessages(prev => [...prev, ...more])] *)
Definition stop_with (more : list ChatMessage) (st : ChatState) : ChatState :=
  {| messages := messages st ++ more;
     displayedMessageIds := displayedMessageIds st;
     isLoading := false |}.

(** One run of [poll] ends the loop or schedules the next run. *)
Inductive Outcome :=
| Stop (st : ChatState)
| Again (k : Counters).

(** The end of the [try] block, after an answer that added nothing:
    [consecutiveEmptyPolls++] has happened, [attempts++] happens here. *)
Definition after_empty (k : Counters) (now : Z) (st : ChatState) : Outcome :=
  let attempts' := S (attempts k) in
  if (maxAttempts <=? attempts')%nat then Stop (stop_with [timeoutMessage now] st)
  else if (maxEmptyPolls <=? consecutiveEmptyPolls k)%nat then Stop (stop_with [] st)
  else Again {| attempts := attempts';
                consecutiveEmptyPolls := consecutiveEmptyPolls k;
                lastMessageCount := lastMessageCount k |}.

Definition empty_poll (k : Counters) : Counters :=
  {| attempts := attempts k;
     consecutiveEmptyPolls := S (consecutiveEmptyPolls k);
     lastMessageCount := lastMessageCount k |}.

(** One run of the inner function [poll]; [displayed] is the
    [displayedMessageIds] of the render that started the loop, [a] what the
    request comes back with. *)
Definition poll_once (displayed : gset string) (k : Counters) (a : Attempt) (now : Z)
  (st : ChatState) : Outcome :=
  match a with
  | AttemptRejects =>
      let attempts' := S (attempts k) in
      if (maxAttempts <=? attempts')%nat then Stop (stop_with [errorMessage now] st)
      else Again {| attempts := attempts';
                    consecutiveEmptyPolls := consecutiveEmptyPolls k;
                    lastMessageCount := lastMessageCount k |}
  | AttemptNotOk _ => after_empty (empty_poll k) now st
  | AttemptData data_messages =>
      let botData_messages := default [] data_messages in
      if (0 <? length botData_messages)%nat then
        let currentMessageCount := length botData_messages in
        let k1 := if (lastMessageCount k <? currentMessageCount)%nat
                  then {| attempts := attempts k; consecutiveEmptyPolls := 0;
                          lastMessageCount := currentMessageCount |}
                  else k in
        let newMessages :=
          FromBackend <$> filter (fun msg => msgId msg ∉ displayed) botData_messages in
        if (0 <? length newMessages)%nat then
          Stop {| messages := messages st ++ newMessages;
                  displayedMessageIds :=
                    displayedMessageIds st ∪ list_to_set (id <$> newMessages);
                  isLoading := false |}
        else after_empty (empty_poll k1) now st
      else after_empty (empty_poll k) now st
  end.

(** The loop: [attempt n] is what request number [n] comes back with and
    [now n] the time at that moment; the result is the final state and the
    number of requests made.  [poll] calls itself through [setTimeout];
    [fuel] bounds the number of these calls. *)
Fixpoint poll (fuel : nat) (displayed : gset string) (k : Counters)
  (attempt : nat -> Attempt) (now : nat -> Z) (st : ChatState)
  : option (ChatState * nat) :=
  match fuel with
  | O => None
  | S fuel' =>
      match poll_once displayed k (attempt (attempts k)) (now (attempts k)) st with
      | Stop st' => Some (st', S (attempts k))
      | Again k' => poll fuel' displayed k' attempt now st
      end
  end.

Definition pollForBotResponse (fuel : nat) (conversationId : option string)
  (displayed : gset string) (attempt : nat -> Attempt) (now : nat -> Z) (st : ChatState)
  : option (ChatState * nat) :=
  if Js.truthy conversationId then
    poll fuel displayed
      {| attempts := 0; consecutiveEmptyPolls := 0; lastMessageCount := 0 |}
      attempt now st
  else Some (stop_with [] st, 0%nat).

End ChatProvider.

(** ** The chat window (WebChat) *)

Module WebChat.

(** [\s], on 8-bit characters: tab, line feed, vertical tab, form feed,
    carriage return, space and no-break space. *)
Definition is_space (c : ascii) : bool :=
  let n := nat_of_ascii c in
  ((9 <=? n)%nat && (n <=? 13)%nat) || (n =? 32)%nat || (n =? 160)%nat.

(** [[^\s\)\]\}]] *)
Definition url_char (c : ascii) : bool :=
  let n := nat_of_ascii c in
  negb (is_space c || (n =? 41)%nat || (n =? 93)%nat || (n =? 125)%nat).

(** The longest run of such characters at the start of [s]: what the greedy
    [[^\s\)\]\}]+] takes. *)
Fixpoint url_chars (s : string) : string :=
  match s with
  | EmptyString => EmptyString
  | String c s' => if url_char c then String c (url_chars s') else EmptyString
  end.

(** [s] without its prefix [p], when it starts with [p]. *)
Fixpoint strip_prefix (p s : string) : option string :=
  match p, s with
  | EmptyString, _ => Some s
  | String a p', String b s' => if Ascii.eqb a b then strip_prefix p' s' else None
  | String _ _, EmptyString => None
  end.

(** A match that starts with the scheme [p]. *)
Definition match_scheme (p s : string) : option string :=
  match strip_prefix p s with
  | Some r =>
      match url_chars r with
      | EmptyString => None
      | u => Some (p +:+ u)
      end
  | None => None
  end.

(** The match of [https?:\/\/[^\s\)\]\}]+] at the start of [s]: the greedy
    [s?] is tried with the [s] first. *)
Definition match_here (s : string) : option string :=
  match match_scheme "https://" s with
  | Some m => Some m
  | None => match_scheme "http://" s
  end.

(** [text.split(urlRegex)]: the pieces between the matches and, as the
    pattern is one capturing group, the matches themselves.  The scan goes
    through [s] from left to right; [text] is the piece under way and
    [skip] the number of characters still to pass of the match just
    found. *)
Fixpoint split_from (s : string) (skip : nat) (text : string) : list string :=
  match s with
  | EmptyString => [text]
  | String c s' =>
      match skip with
      | S skip' => split_from s' skip' text
      | O =>
          match match_here s with
          | Some m => text :: m :: split_from s' (String.length m - 1) EmptyString
          | None => split_from s' 0 (text +:+ String c EmptyString)
          end
      end
  end.

Definition split (text : string) : list string := split_from text 0 EmptyString.

(** [part.match(urlRegex)] is not [null]: the pattern matches somewhere in
    [part]. *)
Fixpoint matches (part : string) : bool :=
  match match_here part with
  | Some _ => true
  | None =>
      match part with
      | EmptyString => false
      | String _ part' => matches part'
      end
  end.

(** What the message is rendered as: a link [<a href={part}>{part}</a>] or
    the text as it is. *)
Inductive Piece :=
| Link (part : string)
| Text (part : string).

Definition formatMessageWithLinks (text : string) : list Piece :=
  (fun part => if matches part then Link part else Text part) <$> split text.

End WebChat.

(** ** Timers and events *)

Definition run_callback (cb : Callback) (s : State) : State :=
  match cb with
  | GlobalFinalize cid => N8N.finalize_timeout cid s
  | FallbackFinalize c => N8N.fallback_timeout c s
  | DirectFinalize cid => Direct.finalizeMessages cid s
  end.

(** A pending timer fires once its delay has passed, never before. *)
Definition fire (h : nat) (s : State) : option State :=
  match timers s !! h with
  | Some t =>
      if pending t && (due t <=? clock s)
      then Some (run_callback (callback t) (clearTimeout h s))
      else None
  | None => None
  end.

Inductive Event :=
| Track (conversationId text : option string)
| Poll (conversationId : string)
| Webhook (body : N8N.WebhookBody) (random : string)
| MonitorTick (conversationId : string) (data_messages : list Direct.VendorMessage)
| Fire (timer : nat)
| Elapse (ms : N)
| ClearAllN8N
| ClearAllDirect.

Definition step (s : State) (e : Event) : State :=
  match e with
  | Track cid txt => (track_user_message cid txt s).2
  | Poll cid => (bot_response cid s).2
  | Webhook body random => (N8N.botpress_webhook body random s).2
  | MonitorTick cid data_messages => Direct.monitor_tick cid data_messages s
  | Fire h => default s (fire h s)
  | Elapse ms => set_clock (fun t => t + Z.of_N ms) s
  | ClearAllN8N => N8N.clear_all s
  | ClearAllDirect => Direct.clear_all s
  end.

Definition run (s : State) (es : list Event) : State := foldl step s es.

(** No pending timer is due before [now]. *)
Definition none_overdue (now : Z) (s : State) : bool :=
  forallb (fun t => negb (pending t) || (now <=? due t)) (timers s).

(** The runs in which the timers go off on time: whenever time passes, it
    does not pass the due time of a pending timer.  So a timer that comes
    due is fired, or was cancelled, before the clock moves on. *)
Fixpoint punctual (s : State) (es : list Event) : bool :=
  match es with
  | [] => true
  | e :: es' =>
      match e with
      | Elapse ms => none_overdue (clock s + Z.of_N ms) s
      | _ => true
      end && punctual (step s e) es'
  end.

(** The events of each backend. *)
Definition n8n_event (e : Event) : bool :=
  match e with
  | MonitorTick _ _ | ClearAllDirect => false
  | _ => true
  end.

Definition direct_event (e : Event) : bool :=
  match e with
  | Webhook _ _ | ClearAllN8N => false
  | _ => true
  end.

(** ** Scenario building blocks *)

(** A webhook call with [conversationId], [text] and [isBot] at the top of
    its body. *)
Definition webhook (cid text : string) (flag : N8N.Flag) (random : string) : Event :=
  Webhook {| N8N.body_data := None;
             N8N.top := {| N8N.f_conversationId := Some cid;
                           N8N.f_payload_text := None;
                           N8N.f_payload_image := None;
                           N8N.f_payload_imageUrl := None;
                           N8N.f_text := Some text;
                           N8N.f_image := None; N8N.f_imageUrl := None;
                           N8N.f_isBot := flag |} |} random.

(** One tagged fragment of the webhook backend, collected and finalized by
    its timeout. *)
Definition finalized_events : list Event :=
  [Track (Some "c1") (Some "hello");
   webhook "c1" "Hi there" N8N.FlagTrue "k3x9pq";
   Elapse 5500; Elapse 500; Fire 0].

Definition example_finalized : State := run initial finalized_events.

(** One tagged fragment of the webhook backend whose timeout is due and
    has not fired yet. *)
Definition collecting_events : list Event :=
  [Track (Some "c1") (Some "hello");
   webhook "c1" "Hi there" N8N.FlagTrue "k3x9pq";
   Elapse 6000].

Definition example_collecting : State := run initial collecting_events.

(** Untagged fragments for ["c1"], one every five seconds from 0 to 300 s,
    each one putting off the timer of the buffer; and one tagged fragment
    for ["c2"] at 0, finalized at 6 s.  Five seconds after the last
    fragment: *)
Definition sweep_events : list Event :=
  [webhook "c1" "Goedemiddag, waarmee kan ik u helpen?" N8N.FlagAbsent "";
   webhook "c2" "Hi there" N8N.FlagTrue "k3x9pq";
   Elapse 5000;
   webhook "c1" "Goedemiddag, waarmee kan ik u helpen?" N8N.FlagAbsent "";
   Elapse 1000; Fire 1; Elapse 4000]
  ++ concat (replicate 59
       [webhook "c1" "Goedemiddag, waarmee kan ik u helpen?" N8N.FlagAbsent "";
        Elapse 5000]).

(** An old buffer that is still collecting (["c1"], its first fragment 305
    seconds old, its timer due in a second) next to an old finalized one
    (["c2"]). *)
Definition example_sweep : State := run initial sweep_events.

(** One vendor message collected by the monitor of the direct backend. *)
Definition collected_events : list Event :=
  [Track (Some "c1") (Some "hello");
   MonitorTick "c1" [{| Direct.v_id := "m1"; Direct.v_userId := "bot";
                        Direct.v_conversationId := "c1";
                        Direct.v_payload_text := Some "Hi there";
                        Direct.v_payload_image := None;
                        Direct.v_createdAt := 1000 |}];
   Elapse 2000].

Definition example_collected : State := run initial collected_events.

(** After one tagged fragment is finalized, a second one arrives: the
    buffer is finalized and the registry holds a pending timer for it. *)
Definition late_fragment_events : list Event :=
  [webhook "c1" "Hi there" N8N.FlagTrue "k3x9pq"; Elapse 6000; Fire 0;
   Elapse 1000; webhook "c1" "One more thing" N8N.FlagTrue "p0q1r2"].

Definition example_late_fragment : State := run initial late_fragment_events.

(** * Vocabulary of the properties *)

(** A comparator that subtracts keys, as [(a, b) => a.timestamp - b.timestamp]
    does. *)
Definition by_key {A : Type} (key : A → Z) (a b : A) : Z := key a - key b.

(** [s'] has every message object of [s], the same but for a [delivered]
    flag that may have gone up. *)
Definition objs_le (s s' : State) : Prop :=
  ∀ m o, objs s !! m = Some o →
    ∃ o', objs s' !! m = Some o'
          ∧ (delivered o = true → delivered o' = true)
          ∧ timestamp o' = timestamp o ∧ receivedAt o' = receivedAt o
          ∧ msgId o' = msgId o.



(** A request field that is absent or the empty string. *)
Definition missing (v : option string) : Prop := v = None ∨ v = Some "".

(** The event is a successful tracking call for [cid]. *)
Definition tracks (cid : string) (e : Event) : Prop :=
  match e with
  | Track (Some c) _ => c = cid
  | _ => False
  end.

(** The [messages] array of a conversation data object. *)
Definition content (s : State) (v : ConversationData) : list nat :=
  array_of s (messages v).

(** [!value.allMessagesReceived && value.deliveryTimeoutId]: still
    collecting, with a timer handle. *)
Definition collecting (v : ConversationData) : bool :=
  negb (allMessagesReceived v) && has (deliveryTimeoutId v).

(** The message is not older than the retention limit. *)
Definition recent (ago : Z) (s : State) (m : nat) : Prop :=
  ago <= timestamp_of s m.

Global Instance recent_dec ago s m : Decision (recent ago s m).
Proof. unfold recent. apply _. Defined.

(** The same conversation data but for its [messages] array. *)
Definition same_flags (v v' : ConversationData) : Prop :=
  allMessagesReceived v' = allMessagesReceived v
  ∧ deliveryTimeoutId v' = deliveryTimeoutId v
  ∧ lastDelivered v' = lastDelivered v.

(** No timer is created or re-armed between [s] and [s']. *)
Definition timers_le (s s' : State) : Prop :=
  length (timers s') = length (timers s)
  ∧ ∀ h t', timers s' !! h = Some t' →
      ∃ t, timers s !! h = Some t ∧ due t' = due t ∧ callback t' = callback t
           ∧ (pending t' = true → pending t = true).

(** Every conversation data object points to an array that exists. *)
Definition allocated (s : State) : Prop :=
  ∀ c v, convs s !! c = Some v → (messages v < length (arrs s))%nat.

(** Every reference the state holds points to an object that exists: the
    array of a conversation data object, the arrays in [globalMessages], the
    conversation data objects in [botMessages]; and no two conversations
    share a conversation data object. *)
Definition heap_closed (s : State) : Prop :=
  allocated s
  ∧ (∀ cid a, globalMessages s !! cid = Some a → (a < length (arrs s))%nat)
  ∧ (∀ cid c, botMessages s !! cid = Some c → (c < length (convs s))%nat)
  ∧ (∀ cid1 cid2 c, botMessages s !! cid1 = Some c → botMessages s !! cid2 = Some c →
       cid1 = cid2).

(** What holds of every state the loop goes through. *)
Record swept (ago : Z) (s0 s : State) : Prop := {
  swept_objs : objs s = objs s0;
  swept_clock : clock s = clock s0;
  swept_globalMessages : globalMessages s = globalMessages s0;
  swept_conversationTimeouts : conversationTimeouts s = conversationTimeouts s0;
  swept_arrs : ∃ ext, arrs s = arrs s0 ++ ext;
  swept_convs_length : length (convs s) = length (convs s0);
  swept_allocated : allocated s;
  swept_convs : ∀ c v0, convs s0 !! c = Some v0 →
      ∃ v, convs s !! c = Some v ∧ same_flags v0 v
           ∧ (collecting v0 = true → v = v0)
           ∧ (content s v = content s0 v0
              ∨ (collecting v0 = false
                 ∧ content s v = filter (recent ago s0) (content s0 v0)));
  swept_timers : timers_le s0 s;
  swept_botMessages : botMessages s ⊆ botMessages s0
}.

(** The loop has dealt with the entry [(key, c)], whose conversation data
    was [v0] at the start. *)
Definition visited (ago : Z) (s0 : State) (key : string) (c : nat)
  (v0 : ConversationData) (s : State) : Prop :=
  if collecting v0
  then botMessages s !! key = Some c ∧ convs s !! c = Some v0
       ∧ content s v0 = content s0 v0
  else
    let kept := filter (recent ago s0) (content s0 v0) in
    ∃ v, convs s !! c = Some v ∧ same_flags v0 v ∧ content s v = kept
         ∧ if decide (kept = [])
           then botMessages s !! key = None
                ∧ ∀ h t, deliveryTimeoutId v0 = Some h →
                         timers s !! h = Some t → pending t = false
           else botMessages s !! key = Some c.

(** The messages of the buffer a poll would read, by id. *)
Definition buffer_ids (s : State) (cid : string) : list string :=
  match conversationData_for cid s with
  | Some (a, _) => (fun m => from_option msgId "" (objs s !! m)) <$> array_of s a
  | None => []
  end.

(** A finalized buffer holds no timer handle, neither its own nor one in
    the registry of its conversation. *)
Definition quiet (s : State) : Prop :=
  ∀ cid c v, botMessages s !! cid = Some c → convs s !! c = Some v →
    allMessagesReceived v = true →
    deliveryTimeoutId v = None ∧ conversationTimeouts s !! cid = None.

(** The conversation a registry timer works for; the fallback timer works
    on a conversation data object and is not in the registry. *)
Definition timer_conversation (cb : Callback) : option string :=
  match cb with
  | GlobalFinalize cid | DirectFinalize cid => Some cid
  | FallbackFinalize _ => None
  end.

(** The length of the countdown. *)
Definition quiet_period (cb : Callback) : Z :=
  match cb with
  | GlobalFinalize _ | FallbackFinalize _ => 6000
  | DirectFinalize _ => 5000
  end.

(** Every pending registry timer is the one [global.conversationTimeouts]
    holds for its conversation: at most one per conversation. *)
Definition single_timer (s : State) : Prop :=
  ∀ h t cid, timers s !! h = Some t → pending t = true →
    timer_conversation (callback t) = Some cid →
    conversationTimeouts s !! cid = Some h.

(** Every pending registry timer of [s'] was the same pending timer in [s]. *)
Definition countdowns_le (s s' : State) : Prop :=
  ∀ h t' cid, timers s' !! h = Some t' → pending t' = true →
    timer_conversation (callback t') = Some cid →
    ∃ t, timers s !! h = Some t ∧ pending t = true
         ∧ callback t = callback t' ∧ due t = due t'.

(** The end of both storing paths: cancel the registered countdown, start a
    new one, register it. *)
Definition rearmed (cb : Callback) (cid : string) (s s' : State) : Prop :=
  timers s'
  = timers (clear_if_set (conversationTimeouts s !! cid) s)
    ++ [{| due := clock s + quiet_period cb; callback := cb; pending := true |}]
  ∧ conversationTimeouts s' = <[cid := length (timers s)]> (conversationTimeouts s).

(** The webhook carries an [isBot] flag, so the fallback branch is not
    taken. *)
Definition tagged (e : Event) : bool :=
  match e with
  | Webhook body _ =>
      N8N.isBotMessage (N8N.isBot (N8N.extract body))
      || N8N.isUserMessage (N8N.isBot (N8N.extract body))
  | _ => true
  end.

(** What holds in every state of such a run: a pending registry timer of a
    conversation is due at least one quiet period after the arrival of every
    message collected for that conversation. *)
Record debounced (s : State) : Prop := {
  db_single : single_timer s;
  db_received : ∀ m o, objs s !! m = Some o → receivedAt o <= clock s;
  db_allocated : ∀ cid a, globalMessages s !! cid = Some a → (a < length (arrs s))%nat;
  db_distinct : ∀ cid1 cid2 a,
      globalMessages s !! cid1 = Some a → globalMessages s !! cid2 = Some a → cid1 = cid2;
  db_elements : ∀ a m, m ∈ array_of s a → (m < length (objs s))%nat;
  db_quiet : ∀ cid a h t m o,
      globalMessages s !! cid = Some a →
      timers s !! h = Some t → pending t = true →
      timer_conversation (callback t) = Some cid →
      m ∈ array_of s a → objs s !! m = Some o →
      receivedAt o + quiet_period (callback t) <= due t
}.

(** No array of [s'] holds a message that no array of [s] held, and the
    arrays of [s] have not grown. *)
Definition arrays_from (s s' : State) : Prop :=
  (length (arrs s) ≤ length (arrs s'))%nat
  ∧ (∀ a m, (a < length (arrs s))%nat → m ∈ array_of s' a → m ∈ array_of s a)
  ∧ (∀ a m, m ∈ array_of s' a → ∃ a0, m ∈ array_of s a0).

(** The message objects of [s'] are those of [s], arrival times unchanged. *)
Definition received_same (s s' : State) : Prop :=
  ∀ m, receivedAt <$> objs s' !! m = receivedAt <$> objs s !! m.

(** No conversation data object holds a timer handle of its own: the case
    as long as the fallback branch has stored nothing. *)
Definition no_own_handle (s : State) : Prop :=
  ∀ c v, convs s !! c = Some v → deliveryTimeoutId v = None.

(** Every handle a conversation data object of [s'] holds, it held in [s]. *)
Definition handles_le (s s' : State) : Prop :=
  ∀ c v', convs s' !! c = Some v' →
    deliveryTimeoutId v' = None
    ∨ ∃ v, convs s !! c = Some v ∧ deliveryTimeoutId v = deliveryTimeoutId v'.

(** The [timestamp] of the message at a reference, over a bare heap of
    message objects. *)
Definition ts_of (o : list Message) (m : nat) : Z :=
  from_option timestamp 0 (o !! m).

(** A message object is created when it is stored, and a reference is the
    position of the object in the heap: of two messages the one with the
    smaller reference was inserted first.  So here messages of equal
    timestamp stand in insertion order. *)
Definition ties_ordered (o : list Message) (l : list nat) : Prop :=
  ∀ t, StronglySorted lt (filter (fun m => ts_of o m = t) l).

(** An array of allocated messages whose ties stand in insertion order. *)
Definition well_ordered (o : list Message) (l : list nat) : Prop :=
  Forall (fun m => (m < length o)%nat) l ∧ ties_ordered o l.

(** Every array of the heap is such an array. *)
Definition ordered_heap (o : list Message) (h : list (list nat)) : Prop :=
  ∀ l, l ∈ h → well_ordered o l.

(** What holds of every reachable state. *)
Definition ordered (s : State) : Prop := ordered_heap (objs s) (arrs s).

(** The message object a webhook call stores, with the id the branch
    gives it. *)
Definition webhook_message (x : N8N.Extracted) (now : Z) (id : string) : Message :=
  {| text := Js.or_null (N8N.botText x); image := Js.or_null (N8N.botImage x);
     timestamp := now; receivedAt := now; msgId := id; delivered := false |}.

(** The messages of the entry of [botMessages] for a conversation; none when
    there is no entry. *)
Definition buffer_of (s : State) (cid : string) : list nat :=
  match botMessages s !! cid with
  | Some c => from_option (content s) [] (convs s !! c)
  | None => []
  end.

(** No character of the string is a line terminator. *)
Fixpoint one_line (s : string) : bool :=
  match s with
  | EmptyString => true
  | String c s' => negb (Js.is_line_terminator c) && one_line s'
  end.

(** [needle] occurs in [t]. *)
Definition contains (needle t : string) : Prop :=
  ∃ pre post, t = pre +:+ needle +:+ post.

(** An upper-case letter, later on the same line a lower-case letter, later
    on the same line one of [.], [!], [?]. *)
Definition sentence_shaped (t : string) : Prop :=
  ∃ pre u mid1 l mid2 p post,
    t = pre +:+ String u (mid1 +:+ String l (mid2 +:+ String p post))
    ∧ Js.is_upper u = true ∧ one_line mid1 = true ∧ Js.is_lower l = true
    ∧ one_line mid2 = true ∧ Js.is_end_punct p = true.

(** A stored message has a text or an image, and neither is the empty
    string. *)
Definition has_content (o : Message) : Prop :=
  text o ≠ Some "" ∧ image o ≠ Some "" ∧ (is_Some (text o) ∨ is_Some (image o)).

(** Every pending timer is a timer of the registry. *)
Definition registry_only (s : State) : Prop :=
  ∀ h t, timers s !! h = Some t → pending t = true →
    is_Some (timer_conversation (callback t)).

(** The messages an answer to a polling request carries:
    [data.success && data.messages && Array.isArray(data.messages)]. *)
Definition delivers (a : Chat.Attempt) : option (list Message) :=
  match a with
  | Chat.AttemptData true (Some data_messages) => Some data_messages
  | _ => None
  end.

(** The message the polling loop ends with when the answer [a] used up the
    last attempt. *)
Definition last_word (a : Chat.Attempt) (now : Z) : Chat.ChatMessage :=
  match a with
  | Chat.AttemptRejects => Chat.errorMessage now
  | _ => Chat.timeoutMessage now
  end.

(** One fragment of an answer as the webhook receives it: the time since
    the event before it, its text, and the random part of its id. *)
Record Fragment := {
  gap : N;
  fragment_text : string;
  fragment_random : string
}.

(** The fragment arrives, flagged [isBot: true]. *)
Definition arrival (cid : string) (f : Fragment) : list Event :=
  [Elapse (gap f); webhook cid (fragment_text f) N8N.FlagTrue (fragment_random f)].

(** One cycle of the webhook backend: the question is tracked, the
    fragments of the answer arrive, and then nothing arrives for [wait]
    milliseconds. *)
Definition cycle (cid question : string) (fragments : list Fragment) (wait : N)
  : list Event :=
  Track (Some cid) (Some question) :: concat (arrival cid <$> fragments) ++ [Elapse wait].

(** The texts of the messages behind a list of references. *)
Definition texts_of (s : State) (ms : list nat) : list (option string) :=
  (fun m => objs s !! m ≫= text) <$> ms.

(** What [globalMessages] holds for a conversation. *)
Definition collected (cid : string) (s : State) : list nat :=
  from_option (array_of s) [] (globalMessages s !! cid).

(** A cycle under way: the conversation has no entry in [botMessages];
    the fragments with the texts [texts] are collected, in this order, by
    non-decreasing time stamp and undelivered; and once there is one, the
    registry holds a pending timer for the conversation, due at most six
    seconds from now. *)
Definition collecting_cycle (cid : string) (texts : list string) (s : State) : Prop :=
  botMessages s !! cid = None
  ∧ texts_of s (collected cid s) = Some <$> texts
  ∧ Forall (fun m => undelivered s m = true) (collected cid s)
  ∧ StronglySorted (fun x y => by_timestamp s x y <= 0) (collected cid s)
  ∧ Forall (fun m => timestamp_of s m <= clock s) (collected cid s)
  ∧ (texts ≠ [] →
     is_Some (globalMessages s !! cid)
     ∧ ∃ h t, conversationTimeouts s !! cid = Some h ∧ timers s !! h = Some t
              ∧ pending t = true ∧ callback t = GlobalFinalize cid
              ∧ due t <= clock s + 6000).

(** One tick of the monitor of the direct backend: the time since the event
    before it, and the messages the vendor lists. *)
Record Listing := {
  since : N;
  listed : list Direct.VendorMessage
}.

(** The tick happens. *)
Definition tick (cid : string) (l : Listing) : list Event :=
  [Elapse (since l); MonitorTick cid (listed l)].

(** One cycle of the direct backend: the question is tracked, the monitor
    ticks, and then nothing happens for [wait] milliseconds. *)
Definition direct_cycle (cid question : string) (listings : list Listing) (wait : N)
  : list Event :=
  Track (Some cid) (Some question) :: concat (tick cid <$> listings) ++ [Elapse wait].

(** The filter of the monitor, on the listing alone: [seen] are the messages
    collected so far. *)
Definition is_answer (question : string) (seen : list Direct.VendorMessage)
  (msg : Direct.VendorMessage) : bool :=
  negb (String.eqb (Direct.v_userId msg) (Direct.v_conversationId msg))
  && negb (bool_decide (Direct.v_payload_text msg = Some question))
  && Js.truthy (Direct.v_payload_text msg)
  && negb (existsb (fun v => String.eqb (Direct.v_id v) (Direct.v_id msg)) seen).

(** What a sequence of ticks collects, after [seen]: every tick adds the
    listed messages that pass the filter, in the order of the listing. *)
Fixpoint answers (question : string) (seen : list Direct.VendorMessage)
  (listings : list Listing) : list Direct.VendorMessage :=
  match listings with
  | [] => seen
  | l :: ls =>
      answers question
        (seen ++ filter (fun msg => is_answer question seen msg = true) (listed l)) ls
  end.

(** What a client sees of a message: id, text, image and time stamp. *)
Definition Shown : Type := string * option string * option string * Z.

(** The same, of a stored message. *)
Definition shown (o : Message) : Shown := (msgId o, text o, image o, timestamp o).

(** What a client sees of the messages behind a list of references. *)
Definition shown_of (s : State) (ms : list nat) : list (option Shown) :=
  (fun m => shown <$> objs s !! m) <$> ms.

(** What the monitor makes of a listed message that has a text. *)
Definition listed_as (v : Direct.VendorMessage) : Shown :=
  (Direct.v_id v, Direct.v_payload_text v, Js.or_null (Direct.v_payload_image v),
   Direct.v_createdAt v).

(** The listed messages by creation time. *)
Definition by_createdAt (v w : Direct.VendorMessage) : Z :=
  Direct.v_createdAt v - Direct.v_createdAt w.

(** A cycle of the direct backend under way: the conversation has no entry
    in [botMessages], its question is tracked, the messages [seen] are
    collected, in this order and undelivered; and once there is one, the
    registry holds a pending timer for the conversation, due at most five
    seconds from now. *)
Definition monitoring (cid question : string) (seen : list Direct.VendorMessage)
  (s : State) : Prop :=
  botMessages s !! cid = None
  ∧ (∃ um, userMessages s !! cid = Some um ∧ um_text um = question)
  ∧ shown_of s (collected cid s) = Some ∘ listed_as <$> seen
  ∧ Forall (fun m => undelivered s m = true) (collected cid s)
  ∧ (seen ≠ [] →
     is_Some (globalMessages s !! cid)
     ∧ ∃ h t, conversationTimeouts s !! cid = Some h ∧ timers s !! h = Some t
              ∧ pending t = true ∧ callback t = DirectFinalize cid
              ∧ due t <= clock s + 5000).

(** The messages of an answer the chat window does not show yet. *)
Definition undisplayed (displayed : gset string) (a : ChatProvider.Attempt) : list Message :=
  match a with
  | ChatProvider.AttemptData (Some l) => filter (fun msg => msgId msg ∉ displayed) l
  | _ => []
  end.

(** An answer that carries no message at all and is not a rejection. *)
Definition empty_answer (a : ChatProvider.Attempt) : bool :=
  match a with
  | ChatProvider.AttemptRejects => false
  | ChatProvider.AttemptNotOk _ => true
  | ChatProvider.AttemptData l => bool_decide (default [] l = [])
  end.

(** The message the loop of ChatProvider.tsx ends with when the answer [a]
    used up the last attempt. *)
Definition final_word (a : ChatProvider.Attempt) (now : Z) : ChatProvider.ChatMessage :=
  match a with
  | ChatProvider.AttemptRejects => ChatProvider.errorMessage now
  | _ => ChatProvider.timeoutMessage now
  end.

(** The string a piece shows. *)
Definition piece_text (p : WebChat.Piece) : string :=
  match p with
  | WebChat.Link part | WebChat.Text part => part
  end.

(** The strings of a list, one after the other. *)
Definition join (l : list string) : string := foldr String.append EmptyString l.

(** Every character of [s] is one a URL can hold. *)
Fixpoint all_url_chars (s : string) : bool :=
  match s with
  | EmptyString => true
  | String c s' => WebChat.url_char c && all_url_chars s'
  end.

(** No position of [t] starts a match of the pattern. *)
Definition url_free (t : string) : Prop :=
  ∀ pre post, t = pre +:+ post → WebChat.match_here post = None.

(** What a link is: [http://] or [https://] and then at least one
    character, none of them white space or one of [)], []], [}]. *)
Definition link_shaped (m : string) : Prop :=
  ∃ scheme rest, (scheme = "http://" ∨ scheme = "https://") ∧ m = scheme +:+ rest
                 ∧ rest ≠ "" ∧ all_url_chars rest = true.

(** Plain texts and links in turn, a plain text first and last; no plain
    text holds a URL, and the text after a link does not go on with a
    character the link could have taken. *)
Inductive alternating : list WebChat.Piece → Prop :=
| alternating_text t : url_free t → alternating [WebChat.Text t]
| alternating_link t m t' l :
    url_free t → link_shaped m → WebChat.url_chars t' = "" →
    alternating (WebChat.Text t' :: l) →
    alternating (WebChat.Text t :: WebChat.Link m :: WebChat.Text t' :: l).

(** The array [a] is the buffer of the conversation: the one
    [globalMessages] holds for it, or the [messages] of its entry of
    [botMessages]. *)
Definition owns (s : State) (cid : string) (a : nat) : Prop :=
  globalMessages s !! cid = Some a
  ∨ ∃ c v, botMessages s !! cid = Some c ∧ convs s !! c = Some v ∧ messages v = a.

(** No array is the buffer of two conversations. *)
Definition one_owner (s : State) : Prop :=
  ∀ cid1 cid2 a, owns s cid1 a → owns s cid2 a → cid1 = cid2.

(** The conversation an event stores messages for. *)
Definition event_conversation (e : Event) : option string :=
  match e with
  | Webhook body _ => N8N.conversationId (N8N.extract body)
  | MonitorTick cid _ => Some cid
  | _ => None
  end.

(** Every message in a buffer of [s'] was in a buffer of the same
    conversation in [s], or is new and stored for the conversation
    [born]. *)
Definition custody (born : option string) (s s' : State) : Prop :=
  ∀ cid a x, owns s' cid a → x ∈ array_of s' a →
    (∃ a0, owns s cid a0 ∧ x ∈ array_of s a0)
    ∨ ((length (objs s) ≤ x)%nat ∧ born = Some cid).

(** What the cleanup loop makes of the buffers: every conversation data
    object has a buffer of messages it had before; the buffer is the array
    it was or an array the loop made, and no two objects share an array the
    loop made. *)
Definition pruned (s0 s : State) : Prop :=
  ∀ c v, convs s !! c = Some v →
    ∃ v0, convs s0 !! c = Some v0
          ∧ (∀ x, x ∈ array_of s (messages v) → x ∈ array_of s0 (messages v0))
          ∧ (messages v = messages v0
             ∨ (length (arrs s0) ≤ messages v)%nat
               ∧ ∀ c2 v2, convs s !! c2 = Some v2 → messages v2 = messages v → c2 = c).

(** Every timer handle a conversation data object holds is the handle of a
    timer that exists. *)
Definition handles_bound (s : State) : Prop :=
  ∀ c v h, convs s !! c = Some v → deliveryTimeoutId v = Some h →
    (h < length (timers s))%nat.

(** Every timer of [s] is a timer of [s'], the same but that it may have
    ceased to be pending: a timer that is cancelled or has fired stays so. *)
Definition timers_ext (s s' : State) : Prop :=
  ∀ h t, timers s !! h = Some t →
    ∃ t', timers s' !! h = Some t' ∧ due t' = due t ∧ callback t' = callback t
          ∧ (pending t' = true → pending t = true).

(** The countdown registered for the conversation is due. *)
Definition countdown_due (cid : string) (s : State) : bool :=
  match conversationTimeouts s !! cid with
  | Some h => from_option (fun t => due t <=? clock s) false (timers s !! h)
  | None => false
  end.

(** The id of the message at a reference, over a bare heap of message
    objects. *)
Definition id_of (o : list Message) (m : nat) : option string := msgId <$> o !! m.

(** An array of allocated messages, no two of the same id. *)
Definition distinct_ids (o : list Message) (l : list nat) : Prop :=
  Forall (fun m => (m < length o)%nat) l ∧ NoDup (id_of o <$> l).

(** Every array of the heap is such an array. *)
Definition distinct_heap (s : State) : Prop :=
  ∀ l, l ∈ arrs s → distinct_ids (objs s) l.

(** The listing of a monitor tick names no id twice. *)
Definition distinct_listing (e : Event) : Prop :=
  match e with
  | MonitorTick _ data_messages => NoDup (Direct.v_id <$> data_messages)
  | _ => True
  end.

(** The event stores a fragment for the conversation through the [isBot]
    branch of the webhook or through the monitor. *)
Definition stores_tagged (cid : string) (s : State) (e : Event) : Prop :=
  match e with
  | Webhook body _ =>
      N8N.isBotMessage (N8N.isBot (N8N.extract body)) = true
      ∧ N8N.storable (N8N.extract body) = true
      ∧ N8N.conversationId (N8N.extract body) = Some cid
  | MonitorTick c msgs =>
      c = cid ∧ filter (fun msg => Direct.is_new_bot_message cid s msg = true) msgs ≠ []
  | _ => False
  end.

(** The time [T] is not in the future, and every pending registry timer of
    the conversation is due at least one quiet period after it. *)
Definition waits_since (cid : string) (T : Z) (s : State) : Prop :=
  T <= clock s
  ∧ ∀ h t, timers s !! h = Some t → pending t = true →
      timer_conversation (callback t) = Some cid →
      T + quiet_period (callback t) <= due t.

(** * Facts about the operations *)

(** ** The stable sort *)

Section SortFacts.
Context {A : Type} (key : A -> Z).

Lemma insert_perm x l : Js.insert (by_key key) x l ≡ₚ x :: l.
Proof.
  induction l as [|y l IH]; simpl; [done|].
  destruct ((by_key key) x y <=? 0); [done|].
  rewrite IH. apply Permutation_swap.
Qed.

Lemma sort_perm l : Js.sort (by_key key) l ≡ₚ l.
Proof.
  induction l as [|x l IH]; simpl; [done|].
  by rewrite insert_perm, IH.
Qed.

Lemma insert_sorted x l :
  StronglySorted (fun a b => key a <= key b) l ->
  StronglySorted (fun a b => key a <= key b) (Js.insert (by_key key) x l).
Proof.
  induction 1 as [|y l Hs IH Hy]; simpl.
  - repeat constructor.
  - unfold by_key at 1. destruct (Z.leb_spec (key x - key y) 0) as [Hle|Hgt].
    + constructor; [by constructor|].
      constructor; [lia|].
      eapply Forall_impl; [exact Hy|]. simpl. intros; lia.
    + constructor; [exact IH|].
      rewrite insert_perm. constructor; [lia|exact Hy].
Qed.

Lemma sort_sorted l :
  StronglySorted (fun a b => key a <= key b) (Js.sort (by_key key) l).
Proof.
  induction l as [|x l IH]; simpl; [constructor|]. by apply insert_sorted.
Qed.

(** Stability: the elements of one key keep their order. *)
Lemma insert_class t x l :
  filter (fun a => key a = t) (Js.insert (by_key key) x l)
  = filter (fun a => key a = t) (x :: l).
Proof.
  induction l as [|y l IH]; simpl; [done|].
  unfold by_key at 1. destruct (Z.leb_spec (key x - key y) 0) as [Hle|Hgt]; [done|].
  rewrite (filter_cons _ y), IH, !filter_cons.
  repeat case_decide; try done; lia.
Qed.

Lemma sort_stable t l :
  filter (fun a => key a = t) (Js.sort (by_key key) l)
  = filter (fun a => key a = t) l.
Proof.
  induction l as [|x l IH]; simpl; [done|].
  by rewrite insert_class, !filter_cons, IH.
Qed.

Lemma sort_nil_inv l : Js.sort (by_key key) l = [] -> l = [].
Proof.
  intros H. apply Permutation_nil. by rewrite <- (sort_perm l), H.
Qed.
End SortFacts.

Lemma by_timestamp_key s : by_timestamp s = by_key (timestamp_of s).
Proof. reflexivity. Qed.

(** ** Message objects only gain the [delivered] mark *)

Lemma objs_le_refl s : objs_le s s.
Proof. intros m o H. exists o. done. Qed.

Lemma objs_le_trans s1 s2 s3 : objs_le s1 s2 → objs_le s2 s3 → objs_le s1 s3.
Proof.
  intros H12 H23 m o H.
  destruct (H12 m o H) as (o2 & H2 & Hd2 & Ht2 & Hr2 & Hi2).
  destruct (H23 m o2 H2) as (o3 & H3 & Hd3 & Ht3 & Hr3 & Hi3).
  exists o3. repeat split; [done|tauto|congruence..].
Qed.

Lemma objs_le_eq s s' : objs s' = objs s → objs_le s s'.
Proof. intros E m o H. exists o. by rewrite E. Qed.

Lemma objs_le_app s s' l : objs s' = objs s ++ l → objs_le s s'.
Proof.
  intros E m o H. exists o. rewrite E, lookup_app_l; [done|].
  by eapply lookup_lt_Some.
Qed.

Lemma lookup_foldr_mark (l : list nat) (h : list Message) (m : nat) :
  foldr (alter mark_delivered) h l !! m
  = if decide (m ∈ l) then mark_delivered <$> h !! m else h !! m.
Proof.
  induction l as [|x l IH]; simpl; [done|].
  rewrite list_lookup_alter.
  destruct (decide (x = m)) as [->|Hne]; rewrite IH.
  - rewrite (decide_True (P := m ∈ m :: l)) by left.
    case_decide; by destruct (h !! m).
  - destruct (decide (m ∈ l)) as [Hin|Hnin].
    + rewrite decide_True by (by right). done.
    + rewrite decide_False; [done|]. intros Hc. apply elem_of_cons in Hc.
      destruct Hc; congruence.
Qed.

Lemma objs_le_deliver l s : objs_le s (deliver l s).
Proof.
  intros m o H. unfold deliver; simpl. rewrite lookup_foldr_mark, H.
  case_decide; eexists; (split; [reflexivity|]); simpl; done.
Qed.

Lemma undelivered_deliver l s m :
  undelivered (deliver l s) m = if decide (m ∈ l) then false else undelivered s m.
Proof.
  unfold undelivered, deliver; simpl. rewrite lookup_foldr_mark.
  case_decide; [|done]. by destruct (objs s !! m).
Qed.

Lemma objs_le_undelivered s s' m :
  objs_le s s' → undelivered s' m = true → objs s !! m = None ∨ undelivered s m = true.
Proof.
  intros Hle Hu. destruct (objs s !! m) as [o|] eqn:E; [right|by left].
  destruct (Hle m o E) as (o' & E' & Hd & _).
  unfold undelivered in *. rewrite E' in Hu. rewrite E. simpl in *.
  destruct (delivered o); [|done]. by rewrite Hd in Hu.
Qed.

(** ** Proof tools *)

Arguments N8N.finalize_timeout : simpl never.
Arguments N8N.fallback_timeout : simpl never.
Arguments N8N.store_bot_message : simpl never.
Arguments N8N.store_fallback_message : simpl never.
Arguments N8N.process : simpl never.
Arguments N8N.cleanup_entry : simpl never.
Arguments N8N.cleanup : simpl never.
Arguments Direct.finalizeMessages : simpl never.
Arguments Direct.monitor_tick : simpl never.
Arguments Direct.push_all : simpl never.
Arguments track_user_message : simpl never.
Arguments bot_response : simpl never.
Arguments clear_if_set : simpl never.

(** Case analysis on a [match] whose scrutinee holds no other [match]. *)
Ltac innermost :=
  match goal with
  | |- context [match ?x with _ => _ end] =>
      lazymatch x with
      | context [match _ with _ => _ end] => fail
      | _ => destruct x eqn:?
      end
  end.

Ltac crush := repeat (innermost; simpl in *); try done; try reflexivity.

Lemma foldl_invariant {A B : Type} (P : A → Prop) (f : A → B → A) (l : list B) (a : A) :
  P a → (∀ x b, b ∈ l → P x → P (f x b)) → P (foldl f a l).
Proof.
  revert a. induction l as [|b l IH]; simpl; intros a Ha Hf; [done|].
  apply IH; [apply Hf; [left|done]|].
  intros x b' Hb' Hx. apply Hf; [by right|done].
Qed.

(** ** What each operation does to the message objects *)

Lemma objs_clear_if_set h s : objs (clear_if_set h s) = objs s.
Proof. by destruct h. Qed.

Lemma objs_track cid txt s : objs (track_user_message cid txt s).2 = objs s.
Proof. unfold track_user_message. crush. by rewrite objs_clear_if_set. Qed.

Lemma objs_cleanup_entry ago s e : objs (N8N.cleanup_entry ago s e) = objs s.
Proof.
  destruct e as [key c]. unfold N8N.cleanup_entry.
  crush; by rewrite ?objs_clear_if_set.
Qed.

Lemma objs_cleanup s : objs (N8N.cleanup s) = objs s.
Proof.
  unfold N8N.cleanup; simpl.
  apply (foldl_invariant (fun x => objs x = objs s)); [done|].
  intros x b _ Hx. by rewrite objs_cleanup_entry.
Qed.

Lemma objs_store_bot_message cid x random s :
  ∃ o, objs (N8N.store_bot_message cid x random s) = objs s ++ [o]
       ∧ delivered o = false ∧ receivedAt o = clock s ∧ timestamp o = clock s.
Proof.
  unfold N8N.store_bot_message.
  crush; eexists; rewrite objs_clear_if_set; simpl; done.
Qed.

Lemma objs_store_fallback_message cid x s :
  ∃ o, objs (N8N.store_fallback_message cid x s) = objs s ++ [o]
       ∧ delivered o = false ∧ receivedAt o = clock s ∧ timestamp o = clock s.
Proof.
  unfold N8N.store_fallback_message.
  crush; eexists; rewrite objs_clear_if_set; simpl; done.
Qed.

Lemma objs_le_process x random s : objs_le s (N8N.process x random s).
Proof.
  unfold N8N.process.
  destruct (N8N.isBotMessage _); [destruct (N8N.storable x)|];
    [| apply objs_le_refl |].
  - destruct (objs_store_bot_message (default "" (N8N.conversationId x)) x random s)
      as (o & E & _). by eapply objs_le_app.
  - destruct (N8N.isUserMessage _); [apply objs_le_refl|].
    match goal with |- context [if ?b then _ else _] => destruct b end;
      [|apply objs_le_refl].
    destruct (objs_store_fallback_message (default "" (N8N.conversationId x)) x s)
      as (o & E & _). by eapply objs_le_app.
Qed.

Lemma objs_finalize_timeout cid s : objs (N8N.finalize_timeout cid s) = objs s.
Proof. unfold N8N.finalize_timeout. crush. Qed.

Lemma objs_finalizeMessages cid s : objs (Direct.finalizeMessages cid s) = objs s.
Proof. unfold Direct.finalizeMessages. crush. Qed.

Lemma objs_fire h s s' : fire h s = Some s' → objs s' = objs s.
Proof.
  unfold fire. destruct (timers s !! h) as [t|]; [|done].
  destruct (_ && _); [|done]. intros [= <-].
  destruct (callback t); cbn [run_callback];
    rewrite ?objs_finalize_timeout, ?objs_finalizeMessages; reflexivity.
Qed.

Lemma objs_push_all a ms s :
  objs (Direct.push_all a ms s) = objs s ++ ms.
Proof.
  unfold Direct.push_all. revert s.
  induction ms as [|m ms IH]; intros s; simpl; [by rewrite app_nil_r|].
  rewrite IH. simpl. by rewrite <- app_assoc.
Qed.

Lemma objs_le_monitor_tick cid msgs s : objs_le s (Direct.monitor_tick cid msgs s).
Proof.
  unfold Direct.monitor_tick.
  destruct (0 <? length _)%nat; [|apply objs_le_refl].
  destruct (globalMessages s !! cid); simpl;
    (eapply objs_le_app; simpl; rewrite objs_clear_if_set, objs_push_all; simpl; done).
Qed.

Lemma objs_le_poll cid s : objs_le s (bot_response cid s).2.
Proof.
  unfold bot_response. crush; first [apply objs_le_deliver | apply objs_le_refl].
Qed.

Lemma objs_le_step s e : objs_le s (step s e).
Proof.
  destruct e; simpl.
  - apply objs_le_eq, objs_track.
  - apply objs_le_poll.
  - eapply objs_le_trans; [apply objs_le_process|]. apply objs_le_eq, objs_cleanup.
  - apply objs_le_monitor_tick.
  - destruct (fire timer s) eqn:E; simpl; [|apply objs_le_refl].
    by apply objs_le_eq, (objs_fire timer).
  - by apply objs_le_eq.
  - by apply objs_le_eq.
  - by apply objs_le_eq.
Qed.


(** ** The delivery gateway *)

Lemma poll_ready_inv cid s ms s' :
  bot_response cid s = (Ready ms, s') →
  ∃ a, conversationData_for cid s = Some (a, true)
       ∧ ms = undelivered_sorted s (array_of s a)
       ∧ ms ≠ [] ∧ s' = deliver ms s.
Proof.
  unfold bot_response.
  destruct (conversationData_for cid s) as [[a [|]]|]; [| |done].
  - destruct (0 <? length (array_of s a))%nat; [|done].
    destruct (0 <? length (undelivered_sorted s (array_of s a)))%nat eqn:E; [|done].
    intros [= <- <-]. exists a. repeat split; try done.
    intros Hnil. rewrite Hnil in E. done.
  - destruct (0 <? length (array_of s a))%nat; done.
Qed.

Lemma elem_of_undelivered_sorted s l m :
  m ∈ undelivered_sorted s l ↔ undelivered s m = true ∧ m ∈ l.
Proof.
  unfold undelivered_sorted. rewrite by_timestamp_key, sort_perm.
  by rewrite list_elem_of_filter.
Qed.

Lemma conversationData_for_deliver cid l s :
  conversationData_for cid (deliver l s) = conversationData_for cid s.
Proof. reflexivity. Qed.

Lemma filter_none {A : Type} (P : A → Prop) `{∀ x, Decision (P x)} (l : list A) :
  (∀ x, x ∈ l → ¬ P x) → filter P l = [].
Proof.
  induction l as [|x l IH]; intros Hl; [done|].
  rewrite filter_cons, decide_False by (apply Hl; left).
  apply IH. intros y Hy. apply Hl. by right.
Qed.

Lemma undelivered_sorted_after_deliver s l :
  undelivered_sorted (deliver (undelivered_sorted s l) s) l = [].
Proof.
  unfold undelivered_sorted at 1.
  replace (filter _ l) with (@nil nat); [done|].
  symmetry. apply filter_none. intros m Hm.
  rewrite undelivered_deliver. case_decide as Hin; [done|].
  intros Hu. apply Hin, elem_of_undelivered_sorted. done.
Qed.



(** ** The conversation tracker *)

Lemma truthy_false_missing v : Js.truthy v = false ↔ missing v.
Proof.
  unfold missing. destruct v as [x|]; simpl; [|by split; [left|]].
  destruct (String.eqb_spec x "") as [->|Hx]; simpl.
  - by split; [right|].
  - split; [done|]. intros [|]; congruence.
Qed.

(** ** What each operation does to the tracked user messages *)

Lemma userMessages_clear_if_set h s :
  userMessages (clear_if_set h s) = userMessages s.
Proof. by destruct h. Qed.

Lemma userMessages_cleanup_entry ago s e :
  userMessages (N8N.cleanup_entry ago s e) = userMessages s.
Proof.
  destruct e as [key c]. unfold N8N.cleanup_entry.
  crush; by rewrite ?userMessages_clear_if_set.
Qed.

Lemma userMessages_cleanup s :
  userMessages (N8N.cleanup s)
  = filter (fun kv => ¬ (um_timestamp kv.2 < clock s - 5 * 60 * 1000)) (userMessages s).
Proof.
  unfold N8N.cleanup; simpl. f_equal.
  apply (foldl_invariant (fun x => userMessages x = userMessages s)); [done|].
  intros x b _ Hx. by rewrite userMessages_cleanup_entry.
Qed.

Lemma userMessages_store_bot_message cid x random s :
  userMessages (N8N.store_bot_message cid x random s) = userMessages s.
Proof.
  unfold N8N.store_bot_message. crush; by rewrite userMessages_clear_if_set.
Qed.

Lemma userMessages_store_fallback_message cid x s :
  userMessages (N8N.store_fallback_message cid x s) = delete cid (userMessages s).
Proof.
  unfold N8N.store_fallback_message. crush; by rewrite userMessages_clear_if_set.
Qed.

Lemma userMessages_finalize_timeout cid s :
  userMessages (N8N.finalize_timeout cid s) = delete cid (userMessages s).
Proof. unfold N8N.finalize_timeout. crush. Qed.

Lemma userMessages_finalizeMessages cid s :
  userMessages (Direct.finalizeMessages cid s) = delete cid (userMessages s).
Proof. unfold Direct.finalizeMessages. crush. Qed.

Lemma userMessages_push_all a ms s :
  userMessages (Direct.push_all a ms s) = userMessages s.
Proof.
  unfold Direct.push_all. revert s.
  induction ms as [|m ms IH]; intros s; simpl; [done|]. by rewrite IH.
Qed.

Lemma userMessages_monitor_tick cid msgs s :
  userMessages (Direct.monitor_tick cid msgs s) = userMessages s.
Proof.
  unfold Direct.monitor_tick. crush;
    rewrite userMessages_clear_if_set, userMessages_push_all; reflexivity.
Qed.

Lemma userMessages_poll cid s : userMessages (bot_response cid s).2 = userMessages s.
Proof. unfold bot_response. crush. Qed.

Lemma untracked_step cid s e :
  ¬ tracks cid e → userMessages s !! cid = None → userMessages (step s e) !! cid = None.
Proof.
  intros Hnt Hnone.
  destruct e as [oc otxt|c|body random|c msgs|timer|ms| |]; cbn [step].
  - unfold track_user_message.
    destruct oc as [c|], otxt as [txt|]; simpl; try done.
    destruct (_ || _); [done|]. simpl in Hnt.
    destruct (botMessages s !! c); simpl;
      rewrite lookup_insert_ne by done; by rewrite ?userMessages_clear_if_set.
  - by rewrite userMessages_poll.
  - unfold N8N.botpress_webhook; cbn [snd]. rewrite userMessages_cleanup.
    apply map_lookup_filter_None. left.
    unfold N8N.process.
    repeat (match goal with |- context [if ?b then _ else _] => destruct b end);
      rewrite ?userMessages_store_bot_message, ?userMessages_store_fallback_message;
      try done.
    destruct (decide (default "" (N8N.conversationId (N8N.extract body)) = cid)) as [->|];
      [apply lookup_delete_eq | by rewrite lookup_delete_ne].
  - by rewrite userMessages_monitor_tick.
  - unfold fire. destruct (timers s !! timer) as [t|]; [|done].
    destruct (_ && _); [|done]. simpl.
    destruct (callback t) as [c|c|c]; cbn [run_callback];
      rewrite ?userMessages_finalize_timeout, ?userMessages_finalizeMessages;
      try done;
      (destruct (decide (c = cid)) as [->|];
       [apply lookup_delete_eq | by rewrite lookup_delete_ne]).
  - done.
  - done.
  - done.
Qed.

Lemma untracked_run cid es s :
  Forall (fun e => ¬ tracks cid e) es →
  userMessages s !! cid = None → userMessages (run s es) !! cid = None.
Proof.
  intros Hes. revert s. induction Hes as [|e es He _ IH]; intros s Hs; [done|].
  simpl. apply IH. by apply untracked_step.
Qed.

(** ** The cleanup loop *)

Lemma timers_le_refl s : timers_le s s.
Proof. split; [done|]. intros h t H. by exists t. Qed.

Lemma timers_le_trans s1 s2 s3 : timers_le s1 s2 → timers_le s2 s3 → timers_le s1 s3.
Proof.
  intros [L12 H12] [L23 H23]. split; [congruence|].
  intros h t3 E3. destruct (H23 h t3 E3) as (t2 & E2 & Ed2 & Ec2 & Ep2).
  destruct (H12 h t2 E2) as (t1 & E1 & Ed1 & Ec1 & Ep1).
  exists t1. repeat split; [done|congruence..|tauto].
Qed.

Lemma timers_le_clearTimeout h s : timers_le s (clearTimeout h s).
Proof.
  split; [apply length_alter|]. intros h' t' H. simpl in H.
  rewrite list_lookup_alter in H. destruct (decide (h = h')) as [->|]; [|by exists t'].
  destruct (timers s !! h') as [t|]; [|done]. simpl in H.
  injection H as <-. by exists t.
Qed.

Lemma timers_le_clear_if_set h s : timers_le s (clear_if_set h s).
Proof. destruct h; [apply timers_le_clearTimeout|apply timers_le_refl]. Qed.

Lemma convs_clear_if_set h s : convs (clear_if_set h s) = convs s.
Proof. by destruct h. Qed.

Lemma arrs_clear_if_set h s : arrs (clear_if_set h s) = arrs s.
Proof. by destruct h. Qed.

Lemma botMessages_clear_if_set h s : botMessages (clear_if_set h s) = botMessages s.
Proof. by destruct h. Qed.

Lemma globalMessages_clear_if_set h s : globalMessages (clear_if_set h s) = globalMessages s.
Proof. by destruct h. Qed.

Lemma conversationTimeouts_clear_if_set h s :
  conversationTimeouts (clear_if_set h s) = conversationTimeouts s.
Proof. by destruct h. Qed.

Lemma clock_clear_if_set h s : clock (clear_if_set h s) = clock s.
Proof. by destruct h. Qed.

Lemma timers_le_eq s s' : timers s' = timers s → timers_le s s'.
Proof. intros E. unfold timers_le. rewrite E. apply timers_le_refl. Qed.

Lemma not_pending_clear_if_set h o s t :
  o = Some h → timers (clear_if_set o s) !! h = Some t → pending t = false.
Proof.
  intros -> H. simpl in H. unfold clear_if_set, clearTimeout in H. simpl in H.
  rewrite list_lookup_alter_eq in H. destruct (timers s !! h); [|done].
  by injection H as <-.
Qed.

Lemma filter_length_eq {A : Type} (P : A → Prop) `{∀ x, Decision (P x)} (l : list A) :
  length (filter P l) = length l → filter P l = l.
Proof.
  induction l as [|x l IH]; [done|]. rewrite filter_cons.
  case_decide; simpl; intros Hlen.
  - f_equal. apply IH. lia.
  - pose proof (length_filter P l). lia.
Qed.

Lemma filter_filter_same {A : Type} (P : A → Prop) `{∀ x, Decision (P x)} (l : list A) :
  filter P (filter P l) = filter P l.
Proof. by apply list_filter_filter_l. Qed.

Lemma array_of_app s s' ext a :
  arrs s' = arrs s ++ ext → (a < length (arrs s))%nat → array_of s' a = array_of s a.
Proof. intros E Ha. unfold array_of. by rewrite E, lookup_app_l. Qed.

Section CleanupEntry.
Context (ago : Z) (s : State) (key : string) (c : nat).
Let s' := N8N.cleanup_entry ago s (key, c).

Lemma cleanup_entry_frame :
  clock s' = clock s ∧ globalMessages s' = globalMessages s
  ∧ conversationTimeouts s' = conversationTimeouts s
  ∧ length (convs s') = length (convs s)
  ∧ ∀ c', c' ≠ c → convs s' !! c' = convs s !! c'.
Proof.
  subst s'. unfold N8N.cleanup_entry.
  crush; unfold clear_if_set; crush;
    repeat split; try done; rewrite ?length_alter; try done;
    intros c' Hc'; by rewrite list_lookup_alter_ne.
Qed.

Lemma cleanup_entry_arrs :
  arrs s' = arrs s
  ∨ ∃ v, convs s !! c = Some v ∧ collecting v = false
         ∧ arrs s' = arrs s ++ [filter (recent ago s) (content s v)].
Proof.
  subst s'. unfold N8N.cleanup_entry.
  destruct (convs s !! c) as [v|] eqn:Ev; [|by left].
  fold (collecting v). destruct (collecting v) eqn:Ec; [by left|].
  crush; unfold clear_if_set; crush; (by left) || (right; by exists v).
Qed.

Lemma cleanup_entry_timers : timers_le s s'.
Proof.
  subst s'. unfold N8N.cleanup_entry.
  crush; first [apply timers_le_refl | apply timers_le_eq; reflexivity | idtac];
    match goal with
    | |- timers_le _ (set_botMessages _ (clear_if_set ?o ?x)) =>
        eapply timers_le_trans; [|apply (timers_le_eq (clear_if_set o x)); reflexivity];
        eapply timers_le_trans; [|apply timers_le_clear_if_set];
        apply timers_le_eq; reflexivity
    end.
Qed.

Lemma cleanup_entry_botMessages :
  botMessages s' = botMessages s ∨ botMessages s' = delete key (botMessages s).
Proof.
  subst s'. unfold N8N.cleanup_entry.
  crush; unfold clear_if_set; crush; (by left) || (by right).
Qed.

Lemma cleanup_entry_absent :
  convs s !! c = None → s' = s.
Proof. subst s'. unfold N8N.cleanup_entry. by intros ->. Qed.

Lemma cleanup_entry_collecting v :
  convs s !! c = Some v → collecting v = true → s' = s.
Proof.
  subst s'. unfold N8N.cleanup_entry. intros -> Hc.
  fold (collecting v). by rewrite Hc.
Qed.

(** What a round does to the entry it visits, when it does not skip it. *)
Lemma cleanup_entry_visited v :
  convs s !! c = Some v → collecting v = false →
  (messages v < length (arrs s))%nat →
  let kept := filter (recent ago s) (content s v) in
  ∃ v', convs s' !! c = Some v' ∧ same_flags v v'
        ∧ content s' v' = kept
        ∧ (messages v' < length (arrs s'))%nat
        ∧ botMessages s' = (if decide (kept = []) then delete key (botMessages s)
                            else botMessages s)
        ∧ (kept = [] → ∀ h t, deliveryTimeoutId v = Some h →
                        timers s' !! h = Some t → pending t = false).
Proof.
  intros Ev Hc Ha kept. subst s'. unfold N8N.cleanup_entry. rewrite Ev.
  fold (collecting v). rewrite Hc. fold (content s v).
  change (filter _ (content s v)) with kept.
  assert (Hlt : (c < length (convs s))%nat) by (by eapply lookup_lt_Some).
  destruct (bool_decide_reflect (length kept ≠ length (content s v))) as [Hne|Heq].
  - (* some message was dropped: a new array *)
    simpl. set (v' := {| messages := length (arrs s); lastDelivered := lastDelivered v;
                         allMessagesReceived := allMessagesReceived v;
                         deliveryTimeoutId := deliveryTimeoutId v |}).
    exists v'.
    assert (Hcontent : default [] ((arrs s ++ [kept]) !! length (arrs s)) = kept).
    { rewrite lookup_app_r by done. by rewrite Nat.sub_diag. }
    assert (Hconv : alter (fun v0 => {| messages := length (arrs s);
                            lastDelivered := lastDelivered v0;
                            allMessagesReceived := allMessagesReceived v0;
                            deliveryTimeoutId := deliveryTimeoutId v0 |}) c (convs s) !! c
                    = Some v').
    { by rewrite list_lookup_alter_eq, Ev. }
    destruct (bool_decide_reflect (length kept = 0%nat)) as [H0|H0].
    + apply length_zero_iff_nil in H0. rewrite decide_True by done.
      repeat split; unfold content, array_of; simpl;
        rewrite ?convs_clear_if_set, ?arrs_clear_if_set,
          ?botMessages_clear_if_set; simpl; try done.
      * rewrite length_app; simpl; lia.
      * intros _ h t Hh Ht.
        eapply (not_pending_clear_if_set h); [exact Hh|exact Ht].
    + rewrite decide_False by (intros E; apply H0; by rewrite E).
      repeat split; unfold content, array_of; simpl; try done.
      * rewrite length_app; simpl; lia.
      * intros E. exfalso. apply H0. by rewrite E.
  - (* nothing was dropped *)
    assert (Hk : kept = content s v).
    { apply filter_length_eq. destruct (decide (length kept = length (content s v))); [done|].
      exfalso. by apply Heq. }
    exists v.
    destruct (bool_decide_reflect (length kept = 0%nat)) as [H0|H0].
    + apply length_zero_iff_nil in H0. rewrite decide_True by done.
      repeat split; simpl; rewrite ?convs_clear_if_set, ?arrs_clear_if_set,
        ?botMessages_clear_if_set; simpl; try done.
      * unfold content, array_of in *. simpl.
        rewrite arrs_clear_if_set. by rewrite Hk.
      * intros _ h t Hh Ht.
        eapply (not_pending_clear_if_set h); [exact Hh|exact Ht].
    + rewrite decide_False by (intros E; apply H0; by rewrite E).
      repeat split; try done.
      intros E. exfalso. apply H0. by rewrite E.
Qed.
End CleanupEntry.

Lemma filter_recent_objs ago s s' (l : list nat) :
  objs s' = objs s → filter (recent ago s') l = filter (recent ago s) l.
Proof.
  intros E. apply list_filter_iff. intros m.
  unfold recent, timestamp_of. by rewrite E.
Qed.

Lemma same_flags_refl v : same_flags v v.
Proof. by repeat split. Qed.

Lemma same_flags_trans v1 v2 v3 : same_flags v1 v2 → same_flags v2 v3 → same_flags v1 v3.
Proof. intros (? & ? & ?) (? & ? & ?). repeat split; congruence. Qed.

Lemma collecting_same_flags v v' : same_flags v v' → collecting v' = collecting v.
Proof. intros (Ha & Hd & _). unfold collecting. by rewrite Ha, Hd. Qed.

Section CleanupLoop.
Context (ago : Z) (s0 : State).

Lemma swept_start : allocated s0 → swept ago s0 s0.
Proof.
  intros Ha. split; try done.
  - exists []. by rewrite app_nil_r.
  - intros c v0 E. exists v0. repeat split; try done. by left.
  - apply timers_le_refl.
Qed.

Lemma swept_step s entry : swept ago s0 s → swept ago s0 (N8N.cleanup_entry ago s entry).
Proof.
  intros [Ho Hc Hg Ht (ext & Ha) Hlen Hal Hcv Htm Hb]. destruct entry as [key c].
  destruct (cleanup_entry_frame ago s key c) as (Fc & Fg & Ft & Fl & Fo).
  pose proof (cleanup_entry_arrs ago s key c) as Farr.
  assert (Hgrow : ∃ ext', arrs (N8N.cleanup_entry ago s (key, c)) = arrs s ++ ext').
  { destruct Farr as [E|(v & _ & _ & E)]; rewrite E; [exists []; by rewrite app_nil_r|eauto]. }
  destruct Hgrow as (ext' & Hgrow).
  split.
  - by rewrite objs_cleanup_entry.
  - congruence.
  - congruence.
  - congruence.
  - exists (ext ++ ext'). by rewrite Hgrow, Ha, app_assoc.
  - congruence.
  - (* allocated *)
    intros c' v' E'. destruct (decide (c' = c)) as [->|Hne].
    + destruct (convs s !! c) as [v|] eqn:Ev;
        [|rewrite (cleanup_entry_absent ago s key c Ev) in *; by eapply Hal].
      destruct (collecting v) eqn:Ecol;
        [rewrite (cleanup_entry_collecting ago s key c v Ev Ecol) in *; by eapply Hal|].
      destruct (cleanup_entry_visited ago s key c v Ev Ecol (Hal _ _ Ev))
        as (v2 & E2 & _ & _ & Hlt & _).
      rewrite E2 in E'. by injection E' as <-.
    + rewrite Fo in E' by done. rewrite Hgrow, length_app.
      pose proof (Hal _ _ E'). lia.
  - (* conversation data *)
    intros c' v0 E0. destruct (Hcv c' v0 E0) as (v & Ev & Hsf & Hcol & Hcont).
    destruct (decide (c' = c)) as [->|Hne].
    + destruct (collecting v) eqn:Ecol.
      { rewrite (cleanup_entry_collecting ago s key c v Ev Ecol). by exists v. }
      destruct (cleanup_entry_visited ago s key c v Ev Ecol (Hal _ _ Ev))
        as (v2 & E2 & Hsf2 & Hc2 & _).
      assert (Ecol0 : collecting v0 = false)
        by (by rewrite <- (collecting_same_flags _ _ Hsf)).
      exists v2. split; [done|]. split; [by eapply same_flags_trans|].
      split; [congruence|].
      right. split; [done|]. rewrite Hc2.
      rewrite (filter_recent_objs ago s0 s) by done.
      destruct Hcont as [-> | [_ ->]]; [done|]. apply filter_filter_same.
    + exists v. rewrite Fo by done. split; [done|]. split; [done|]. split; [done|].
      assert (content (N8N.cleanup_entry ago s (key, c)) v = content s v) as ->; [|done].
      eapply array_of_app; [exact Hgrow|]. by eapply Hal.
  - eapply timers_le_trans; [exact Htm|]. apply cleanup_entry_timers.
  - destruct (cleanup_entry_botMessages ago s key c) as [-> | ->]; [done|].
    etransitivity; [apply delete_subseteq|done].
Qed.

Lemma visit s key c v0 :
  swept ago s0 s → convs s0 !! c = Some v0 → botMessages s !! key = Some c →
  visited ago s0 key c v0 (N8N.cleanup_entry ago s (key, c)).
Proof.
  intros Hs E0 Hb. pose proof Hs as [Ho _ _ _ _ _ Hal Hcv _ _].
  destruct (Hcv c v0 E0) as (v & Ev & Hsf & Hcol & Hcont).
  unfold visited. destruct (collecting v0) eqn:Ecol0.
  - rewrite (Hcol eq_refl) in *.
    rewrite (cleanup_entry_collecting ago s key c v0 Ev Ecol0).
    repeat split; try done. by destruct Hcont as [?|[? _]].
  - assert (Ecol : collecting v = false) by (by rewrite (collecting_same_flags _ _ Hsf)).
    destruct (cleanup_entry_visited ago s key c v Ev Ecol (Hal _ _ Ev))
      as (v2 & E2 & Hsf2 & Hc2 & _ & Hbm & Htm).
    assert (Hkept : filter (recent ago s) (content s v)
                    = filter (recent ago s0) (content s0 v0)).
    { rewrite (filter_recent_objs ago s0 s) by done.
      destruct Hcont as [-> | [_ ->]]; [done|]. apply filter_filter_same. }
    rewrite Hkept in *.
    exists v2. split; [done|]. split; [by eapply same_flags_trans|].
    split; [done|].
    rewrite Hbm. case_decide as Hk; [|done].
    split; [apply lookup_delete_eq|]. intros h t Hh Ht.
    eapply Htm; [done| |exact Ht]. destruct Hsf as (_ & -> & _). done.
Qed.

Lemma visited_stable s key c v0 key' c' :
  swept ago s0 s → convs s0 !! c = Some v0 → key' ≠ key →
  visited ago s0 key c v0 s → visited ago s0 key c v0 (N8N.cleanup_entry ago s (key', c')).
Proof.
  intros Hs E0 Hk Hv. pose proof (swept_step s (key', c') Hs) as Hs'.
  pose proof Hs as [Ho _ _ _ _ _ Hal _ _ _].
  destruct (cleanup_entry_frame ago s key' c') as (_ & _ & _ & _ & Fo).
  assert (Hbm : ∀ x, botMessages (N8N.cleanup_entry ago s (key', c')) !! key = x
                     ↔ botMessages s !! key = x).
  { intros x. destruct (cleanup_entry_botMessages ago s key' c') as [-> | ->]; [done|].
    by rewrite lookup_delete_ne. }
  assert (Hgrow : ∃ ext', arrs (N8N.cleanup_entry ago s (key', c')) = arrs s ++ ext').
  { destruct (cleanup_entry_arrs ago s key' c') as [E|(v & _ & _ & E)]; rewrite E;
      [exists []; by rewrite app_nil_r|eauto]. }
  destruct Hgrow as (ext' & Hgrow).
  unfold visited in *. destruct (collecting v0) eqn:Ecol0.
  - destruct Hv as (Hb & Ev & Hc). repeat split.
    + by apply Hbm.
    + destruct (decide (c' = c)) as [->|Hne]; [|by rewrite Fo].
      by rewrite (cleanup_entry_collecting ago s key' c v0 Ev Ecol0).
    + rewrite <- Hc. eapply array_of_app; [exact Hgrow|]. by eapply Hal.
  - destruct Hv as (v & Ev & Hsf & Hc & Hrest).
    assert (Ecol : collecting v = false) by (by rewrite (collecting_same_flags _ _ Hsf)).
    assert (Hconv : ∃ v2, convs (N8N.cleanup_entry ago s (key', c')) !! c = Some v2
              ∧ same_flags v0 v2
              ∧ content (N8N.cleanup_entry ago s (key', c')) v2
                = filter (recent ago s0) (content s0 v0)).
    { destruct (decide (c' = c)) as [->|Hne].
      - destruct (cleanup_entry_visited ago s key' c v Ev Ecol (Hal _ _ Ev))
          as (v2 & E2 & Hsf2 & Hc2 & _).
        exists v2. split; [done|]. split; [by eapply same_flags_trans|].
        rewrite Hc2, Hc. rewrite (filter_recent_objs ago s0 s) by done.
        apply filter_filter_same.
      - exists v. rewrite Fo by done. split; [done|]. split; [done|].
        rewrite <- Hc. eapply array_of_app; [exact Hgrow|]. by eapply Hal. }
    destruct Hconv as (v2 & E2 & Hsf2 & Hc2).
    exists v2. split; [done|]. split; [done|]. split; [done|].
    case_decide as Hkept.
    + destruct Hrest as [Hb Ht]. split; [by apply Hbm|].
      intros h t Hh Hth.
      destruct (cleanup_entry_timers ago s key' c') as [_ Hle].
      destruct (Hle h t Hth) as (t1 & Et1 & _ & _ & Hp).
      specialize (Ht h t1 Hh Et1). destruct (pending t); [|done].
      rewrite Hp in Ht; done.
    + by apply Hbm.
Qed.

Lemma visited_loop entries s key c v0 :
  key ∉ entries.*1 → swept ago s0 s → convs s0 !! c = Some v0 →
  visited ago s0 key c v0 s → visited ago s0 key c v0 (foldl (N8N.cleanup_entry ago) s entries).
Proof.
  revert s. induction entries as [|[k2 c2] entries IH]; intros s Hnotin Hs E0 Hv; [done|].
  simpl in *. apply not_elem_of_cons in Hnotin as [Hne Hnotin].
  apply IH; [done|by apply swept_step|done|].
  by apply visited_stable.
Qed.

Lemma cleanup_loop entries s key c v0 :
  NoDup entries.*1 → swept ago s0 s → convs s0 !! c = Some v0 →
  (key, c) ∈ entries → botMessages s !! key = Some c →
  visited ago s0 key c v0 (foldl (N8N.cleanup_entry ago) s entries).
Proof.
  revert s. induction entries as [|[key' c'] entries IH]; intros s Hnd Hs E0 Hin Hb.
  - by apply elem_of_nil in Hin.
  - simpl in *. apply NoDup_cons in Hnd as [Hnotin Hnd].
    apply elem_of_cons in Hin as [[= <- <-]|Hin].
    + apply visited_loop; [done|by apply swept_step|done|by apply visit].
    + apply IH; [done|by apply swept_step|done|done|].
      destruct (cleanup_entry_botMessages ago s key' c') as [-> | ->]; [done|].
      rewrite lookup_delete_ne; [done|]. intros ->. apply Hnotin.
      apply list_elem_of_fmap. by exists (key, c).
Qed.

Lemma swept_loop entries s :
  swept ago s0 s → swept ago s0 (foldl (N8N.cleanup_entry ago) s entries).
Proof.
  intros Hs. apply (foldl_invariant (swept ago s0)); [done|].
  intros x b _ Hx. by apply swept_step.
Qed.
End CleanupLoop.

Lemma allocated_Forall s :
  Forall (fun v => (messages v < length (arrs s))%nat) (convs s) → allocated s.
Proof. intros H c v E. by eapply (Forall_lookup_1 _ _ _ _ H). Qed.

Lemma cleanup_swept s :
  allocated s → swept (clock s - 5 * 60 * 1000) s (N8N.cleanup s).
Proof.
  intros Ha. unfold N8N.cleanup.
  pose proof (swept_loop (clock s - 5 * 60 * 1000) s (map_to_list (botMessages s)) s
                (swept_start _ s Ha)) as [? ? ? ? ? ? ? ? ? ?].
  split; try done.
Qed.

(** ** Rejected fragments *)

Lemma includes_placeholder_truthy t :
  Js.includes "{{ $json" t = true → Js.truthy (Some t) = true.
Proof. by destruct t. Qed.

Lemma process_not_storable x random s :
  N8N.storable x = false → N8N.process x random s = s.
Proof.
  intros Hs. unfold N8N.process. rewrite Hs.
  destruct (N8N.isBotMessage _); [done|]. destruct (N8N.isUserMessage _); [done|].
  by rewrite andb_false_r.
Qed.

(** ** Deduplication by id *)

Lemma push_all_arrs a ms s :
  arrs (Direct.push_all a ms s)
  = alter (fun l => l ++ seq (length (objs s)) (length ms)) a (arrs s).
Proof.
  unfold Direct.push_all. revert s.
  induction ms as [|m ms IH]; intros s; simpl.
  - symmetry. apply list_alter_id. intros l. apply app_nil_r.
  - rewrite IH. simpl. rewrite list_alter_alter_eq.
    apply list_alter_ext; [|done]. intros l _. simpl.
    rewrite length_app, <- app_assoc. simpl. do 3 f_equal. lia.
Qed.

Lemma push_all_frame a ms s :
  globalMessages (Direct.push_all a ms s) = globalMessages s
  ∧ botMessages (Direct.push_all a ms s) = botMessages s
  ∧ conversationTimeouts (Direct.push_all a ms s) = conversationTimeouts s
  ∧ timers (Direct.push_all a ms s) = timers s
  ∧ convs (Direct.push_all a ms s) = convs s
  ∧ clock (Direct.push_all a ms s) = clock s.
Proof.
  unfold Direct.push_all.
  apply (foldl_invariant (fun x =>
    globalMessages x = globalMessages s ∧ botMessages x = botMessages s
    ∧ conversationTimeouts x = conversationTimeouts s ∧ timers x = timers s
    ∧ convs x = convs s ∧ clock x = clock s)); [done|].
  intros x m _ (? & ? & ? & ? & ? & ?). simpl. done.
Qed.

Lemma not_new_when_stored cid s msg m :
  m ∈ from_option (array_of s) [] (globalMessages s !! cid) →
  Direct.has_id s (Direct.v_id msg) m = true →
  Direct.is_new_bot_message cid s msg = false.
Proof.
  intros Hin Hid. unfold Direct.is_new_bot_message.
  assert (existsb (Direct.has_id s (Direct.v_id msg))
            (from_option (array_of s) [] (globalMessages s !! cid)) = true) as ->.
  { apply existsb_exists. exists m. split; [by apply list_elem_of_In|done]. }
  simpl. apply andb_false_r.
Qed.

Lemma new_has_fresh_id cid s msg m :
  Direct.is_new_bot_message cid s msg = true →
  m ∈ from_option (array_of s) [] (globalMessages s !! cid) →
  Direct.has_id s (Direct.v_id msg) m = false.
Proof.
  intros Hnew Hin. destruct (Direct.has_id s (Direct.v_id msg) m) eqn:E; [|done].
  by rewrite (not_new_when_stored cid s msg m Hin E) in Hnew.
Qed.

(** ** A new cycle *)

(** What a successful tracking call does. *)
Lemma track_resets_buffer (cid txt : string) (s : State) :
  cid ≠ "" → txt ≠ "" →
  let s' := (track_user_message (Some cid) (Some txt) s).2 in
  userMessages s' !! cid
    = Some {| um_text := txt; um_timestamp := clock s; um_trackedAt := clock s |}
  ∧ botMessages s' !! cid = None
  ∧ globalMessages s' !! cid = None
  ∧ bot_response cid s' = (NoMessages, s')
  ∧ conversationTimeouts s' = conversationTimeouts s
  ∧ (∀ c v h t, botMessages s !! cid = Some c → convs s !! c = Some v →
       deliveryTimeoutId v = Some h → timers s' !! h = Some t → pending t = false)
  ∧ (∀ h, (∀ c v, botMessages s !! cid = Some c → convs s !! c = Some v →
             deliveryTimeoutId v ≠ Some h) →
          timers s' !! h = timers s !! h).
Proof.
  intros Hc Ht s'. subst s'. unfold track_user_message.
  destruct (String.eqb_spec cid ""); [done|]. destruct (String.eqb_spec txt ""); [done|].
  cbn [orb snd].
  assert (Hb : botMessages
     (match botMessages s !! cid with
      | Some c => set_botMessages (delete cid)
                    (clear_if_set (convs s !! c ≫= deliveryTimeoutId) s)
      | None => s
      end) !! cid = None).
  { destruct (botMessages s !! cid) eqn:E; simpl; [|done].
    rewrite botMessages_clear_if_set. apply lookup_delete_eq. }
  split; [simpl; apply lookup_insert_eq|].
  split; [simpl; exact Hb|].
  split; [simpl; apply lookup_delete_eq|].
  split.
  { unfold bot_response, conversationData_for. simpl.
    rewrite Hb, lookup_delete_eq. done. }
  split.
  { simpl. destruct (botMessages s !! cid); simpl; [|done].
    by rewrite conversationTimeouts_clear_if_set. }
  split.
  - intros c v h t Hbm Hv Hh. simpl. rewrite Hbm, Hv. simpl. rewrite Hh. simpl.
    rewrite list_lookup_alter_eq. destruct (timers s !! h); [|done].
    by intros [= <-].
  - intros h Hh. simpl. destruct (botMessages s !! cid) as [c|] eqn:Hbm; [|done].
    simpl. destruct (convs s !! c) as [v|] eqn:Hv; [|done]. simpl.
    destruct (deliveryTimeoutId v) as [h'|] eqn:Hd; [|done]. simpl.
    rewrite list_lookup_alter_ne; [done|]. intros ->. by eapply Hh.
Qed.

(** ** Finalized buffers and timers *)

Lemma lookup_alter_new {A : Type} (f : A → A) (l : list A) (x : A) :
  alter f (length l) (l ++ [x]) !! length l = Some (f x).
Proof.
  rewrite list_lookup_alter_eq, lookup_app_r by done.
  by rewrite Nat.sub_diag.
Qed.

Lemma finalize_timeout_spec cid s :
  (∀ c, botMessages s !! cid = Some c → is_Some (convs s !! c)) →
  ∃ c v, botMessages (N8N.finalize_timeout cid s) !! cid = Some c
         ∧ convs (N8N.finalize_timeout cid s) !! c = Some v
         ∧ allMessagesReceived v = true ∧ deliveryTimeoutId v = None
         ∧ conversationTimeouts (N8N.finalize_timeout cid s) !! cid = None
         ∧ timers (N8N.finalize_timeout cid s) = timers s.
Proof.
  intros Hwf. unfold N8N.finalize_timeout.
  destruct (globalMessages s !! cid) as [a|]; simpl;
    (destruct (botMessages s !! cid) as [c|] eqn:Hb; simpl;
     [destruct (Hwf c eq_refl) as [v Hv]; exists c; eexists;
      rewrite Hb, list_lookup_alter_eq, Hv, lookup_delete_eq; simpl; done
     |eexists; eexists; rewrite lookup_insert_eq, lookup_alter_new, lookup_delete_eq;
      simpl; done]).
Qed.

Lemma finalizeMessages_spec cid a s :
  globalMessages s !! cid = Some a → array_of s a ≠ [] →
  (∀ c, botMessages s !! cid = Some c → is_Some (convs s !! c)) →
  ∃ c v, botMessages (Direct.finalizeMessages cid s) !! cid = Some c
         ∧ convs (Direct.finalizeMessages cid s) !! c = Some v
         ∧ allMessagesReceived v = true ∧ deliveryTimeoutId v = None
         ∧ conversationTimeouts (Direct.finalizeMessages cid s) !! cid = None
         ∧ timers (Direct.finalizeMessages cid s) = timers s.
Proof.
  intros Hg Hne Hwf. unfold Direct.finalizeMessages. rewrite Hg.
  destruct (array_of s a) as [|m l] eqn:El; [done|]. simpl.
  destruct (botMessages s !! cid) as [c|] eqn:Hb; simpl.
  - destruct (Hwf c eq_refl) as [v Hv]. exists c. eexists.
    rewrite Hb, list_lookup_alter_eq, Hv, lookup_delete_eq. simpl. done.
  - eexists. eexists. rewrite lookup_insert_eq, lookup_alter_new, lookup_delete_eq.
    simpl. done.
Qed.

Lemma quiet_track oc otxt s : quiet s → quiet (track_user_message oc otxt s).2.
Proof.
  intros Hq. unfold track_user_message.
  destruct oc as [cid|], otxt as [txt|]; try done.
  destruct (_ || _); [done|]. cbn [snd].
  intros k c v Hb Hv Hfin. simpl in *.
  destruct (botMessages s !! cid) as [c0|] eqn:Hb0; simpl in *.
  - rewrite botMessages_clear_if_set in Hb. rewrite convs_clear_if_set in Hv.
    rewrite conversationTimeouts_clear_if_set.
    apply lookup_delete_Some in Hb as [_ Hb]. by eapply Hq.
  - by eapply Hq.
Qed.

Lemma quiet_poll cid s : quiet s → quiet (bot_response cid s).2.
Proof.
  intros Hq. unfold bot_response. crush.
Qed.

Lemma quiet_cleanup s : allocated s → quiet s → quiet (N8N.cleanup s).
Proof.
  intros Ha Hq k c v' Hb Hv' Hfin.
  destruct (cleanup_swept s Ha) as [_ _ _ Ht _ Hlen _ Hcv _ Hsub].
  assert (is_Some (convs s !! c)) as [v Hv].
  { apply lookup_lt_is_Some. rewrite <- Hlen. by eapply lookup_lt_Some. }
  destruct (Hcv c v Hv) as (v2 & Hv2 & (Hf & Hd & _) & _).
  rewrite Hv' in Hv2. injection Hv2 as <-.
  rewrite Ht, Hd. eapply Hq; [by eapply lookup_weaken|done|congruence].
Qed.

(** ** The quiet-period countdown *)

Lemma countdowns_le_refl s : countdowns_le s s.
Proof. intros h t cid Ht Hp Hc. by exists t. Qed.

Lemma countdowns_le_trans s1 s2 s3 :
  countdowns_le s1 s2 → countdowns_le s2 s3 → countdowns_le s1 s3.
Proof.
  intros H12 H23 h t3 cid Ht Hp Hc.
  destruct (H23 h t3 cid Ht Hp Hc) as (t2 & Ht2 & Hp2 & Hc2 & Hd2).
  destruct (H12 h t2 cid Ht2 Hp2) as (t1 & Ht1 & Hp1 & Hc1 & Hd1); [congruence|].
  exists t1. repeat split; congruence.
Qed.

Lemma countdowns_le_timers_le s s' : timers_le s s' → countdowns_le s s'.
Proof.
  intros [_ H] h t' cid Ht Hp Hc.
  destruct (H h t' Ht) as (t & Ht0 & Hd & Hcb & Hpp).
  exists t. repeat split; [done|by apply Hpp|done..].
Qed.

Lemma countdowns_le_eq s s' : timers s' = timers s → countdowns_le s s'.
Proof. intros E. by apply countdowns_le_timers_le, timers_le_eq. Qed.

Lemma single_timer_le s s' :
  countdowns_le s s' → conversationTimeouts s' = conversationTimeouts s →
  single_timer s → single_timer s'.
Proof.
  intros Hle Hreg Hs h t' cid Ht Hp Hc.
  destruct (Hle h t' cid Ht Hp Hc) as (t & Ht0 & Hp0 & Hcb & _).
  rewrite Hreg. eapply Hs; [done..|]. by rewrite Hcb.
Qed.

Lemma length_timers_clear_if_set o s :
  length (timers (clear_if_set o s)) = length (timers s).
Proof. destruct o; [apply length_alter|done]. Qed.

Lemma rearmed_fresh cb cid s s' :
  rearmed cb cid s s' →
  conversationTimeouts s' !! cid = Some (length (timers s))
  ∧ timers s' !! length (timers s)
    = Some {| due := clock s + quiet_period cb; callback := cb; pending := true |}.
Proof.
  intros [Ht Hr]. rewrite Hr, Ht, lookup_insert_eq. split; [done|].
  rewrite lookup_app_r by (by rewrite length_timers_clear_if_set).
  by rewrite length_timers_clear_if_set, Nat.sub_diag.
Qed.

Lemma rearmed_old cb cid s s' h0 t0 :
  rearmed cb cid s s' →
  conversationTimeouts s !! cid = Some h0 → timers s !! h0 = Some t0 →
  timers s' !! h0 = Some (cancel t0).
Proof.
  intros [Ht _] Hr Ht0. rewrite Ht, Hr. simpl.
  rewrite lookup_app_l by (rewrite length_alter; by eapply lookup_lt_Some).
  by rewrite list_lookup_alter_eq, Ht0.
Qed.

Lemma rearmed_others cb cid s s' h t' :
  rearmed cb cid s s' → timers s' !! h = Some t' → pending t' = true →
  h = length (timers s)
  ∨ ∃ t, timers s !! h = Some t ∧ pending t = true ∧ callback t = callback t'
         ∧ due t = due t' ∧ conversationTimeouts s !! cid ≠ Some h.
Proof.
  intros [Ht _] Hh Hp. rewrite Ht in Hh.
  destruct (decide (h < length (timers s))%nat) as [Hlt|Hge].
  - right. rewrite lookup_app_l in Hh by (by rewrite length_timers_clear_if_set).
    destruct (conversationTimeouts s !! cid) as [h0|]; simpl in Hh.
    + rewrite list_lookup_alter in Hh. destruct (decide (h0 = h)) as [->|Hne].
      * destruct (timers s !! h); [|done]. injection Hh as <-. done.
      * exists t'. repeat split; try done. congruence.
    + exists t'. by repeat split.
  - left. apply lookup_lt_Some in Hh.
    rewrite length_app, length_timers_clear_if_set in Hh. simpl in Hh. lia.
Qed.

Lemma single_timer_rearmed cb cid s s' :
  timer_conversation cb = Some cid →
  rearmed cb cid s s' → single_timer s → single_timer s'.
Proof.
  intros Hcb Hre Hs h t' cid' Ht Hp Hc.
  destruct (rearmed_fresh _ _ _ _ Hre) as [Hreg Hnew].
  destruct (rearmed_others _ _ _ _ _ _ Hre Ht Hp) as [->|(t & Ht0 & Hp0 & Hcb0 & _ & Hne)].
  - rewrite Hnew in Ht. injection Ht as <-. simpl in Hc.
    rewrite Hcb in Hc. injection Hc as <-. done.
  - rewrite <- Hcb0 in Hc. pose proof (Hs h t cid' Ht0 Hp0 Hc) as Hr.
    destruct Hre as [_ ->]. rewrite lookup_insert_ne; [done|]. congruence.
Qed.

Lemma rearmed_store_bot_message cid x random s :
  rearmed (GlobalFinalize cid) cid s (N8N.store_bot_message cid x random s).
Proof.
  unfold N8N.store_bot_message, rearmed.
  destruct (globalMessages s !! cid); simpl;
    destruct (conversationTimeouts s !! cid); unfold clear_if_set, clearTimeout;
    simpl; by rewrite ?length_alter.
Qed.

Lemma rearmed_monitor_tick cid msgs s :
  filter (fun msg => Direct.is_new_bot_message cid s msg = true) msgs ≠ [] →
  rearmed (DirectFinalize cid) cid s (Direct.monitor_tick cid msgs s).
Proof.
  intros Hne. unfold Direct.monitor_tick, rearmed.
  destruct (filter _ msgs) as [|m l] eqn:E; [done|]. rewrite fmap_cons.
  set (new := Direct.to_message (clock s) m :: (Direct.to_message (clock s) <$> l)).
  replace (0 <? length new)%nat with true by reflexivity.
  destruct (globalMessages s !! cid) as [a|]; cbn beta iota delta [new_array setTimeout].
  - destruct (push_all_frame a new s) as (_ & _ & Hr & Ht & _ & Hc).
    simpl. rewrite clock_clear_if_set, Hc, Hr, length_timers_clear_if_set, Ht.
    rewrite conversationTimeouts_clear_if_set, Hr.
    split; [|done]. f_equal.
    unfold clear_if_set, clearTimeout. destruct (conversationTimeouts s !! cid); simpl;
      by rewrite Ht.
  - set (s1 := set_globalMessages _ _).
    destruct (push_all_frame (length (arrs s)) new s1) as (_ & _ & Hr & Ht & _ & Hc).
    simpl. rewrite clock_clear_if_set, Hc, Hr, length_timers_clear_if_set, Ht.
    rewrite conversationTimeouts_clear_if_set, Hr.
    split; [|done]. f_equal.
    unfold clear_if_set, clearTimeout. simpl.
    destruct (conversationTimeouts s !! cid); simpl; by rewrite Ht.
Qed.

(** What the cleanup leaves alone, for any state. *)
Lemma cleanup_frame s :
  timers_le s (N8N.cleanup s)
  ∧ conversationTimeouts (N8N.cleanup s) = conversationTimeouts s
  ∧ globalMessages (N8N.cleanup s) = globalMessages s
  ∧ clock (N8N.cleanup s) = clock s
  ∧ ∃ ext, arrs (N8N.cleanup s) = arrs s ++ ext.
Proof.
  unfold N8N.cleanup. cbn [timers conversationTimeouts globalMessages clock arrs set_userMessages].
  apply (foldl_invariant (fun x =>
    timers_le s x ∧ conversationTimeouts x = conversationTimeouts s
    ∧ globalMessages x = globalMessages s ∧ clock x = clock s
    ∧ ∃ ext, arrs x = arrs s ++ ext)).
  - repeat split; try done; [by intros; eexists|exists []; by rewrite app_nil_r].
  - intros x [key c] _ (Ht & Hr & Hg & Hc & ext & Ha).
    destruct (cleanup_entry_frame (clock s - 5 * 60 * 1000) x key c) as (Fc & Fg & Ft & _).
    split; [eapply timers_le_trans; [exact Ht|apply cleanup_entry_timers]|].
    split; [congruence|]. split; [congruence|]. split; [congruence|].
    destruct (cleanup_entry_arrs (clock s - 5 * 60 * 1000) x key c)
      as [E|(v & _ & _ & E)]; rewrite E, Ha; [by exists ext|].
    eexists. by rewrite <- app_assoc.
Qed.

Lemma store_fallback_message_timers cid x s :
  ∃ o c, timers (N8N.store_fallback_message cid x s)
         = timers (clear_if_set o s)
           ++ [{| due := clock s + 6000; callback := FallbackFinalize c; pending := true |}]
  ∧ conversationTimeouts (N8N.store_fallback_message cid x s) = conversationTimeouts s
  ∧ globalMessages (N8N.store_fallback_message cid x s) = globalMessages s
  ∧ clock (N8N.store_fallback_message cid x s) = clock s.
Proof.
  unfold N8N.store_fallback_message.
  destruct (botMessages s !! cid) as [c|]; simpl.
  - match goal with |- context [clear_if_set ?o _] => exists o end. exists c.
    rewrite clock_clear_if_set, conversationTimeouts_clear_if_set,
      globalMessages_clear_if_set. simpl.
    repeat split. f_equal. unfold clear_if_set.
    match goal with |- context [match ?o with _ => _ end] => by destruct o end.
  - match goal with |- context [clear_if_set ?o _] => exists o end.
    exists (length (convs s)).
    rewrite clock_clear_if_set, conversationTimeouts_clear_if_set,
      globalMessages_clear_if_set. simpl.
    repeat split. f_equal. unfold clear_if_set.
    match goal with |- context [match ?o with _ => _ end] => by destruct o end.
Qed.

Lemma countdowns_le_store_fallback_message cid x s :
  countdowns_le s (N8N.store_fallback_message cid x s).
Proof.
  destruct (store_fallback_message_timers cid x s) as (o & c & Ht & _).
  intros h t' cid' Hh Hp Hc. rewrite Ht in Hh.
  destruct (decide (h < length (timers s))%nat) as [Hlt|Hge].
  - rewrite lookup_app_l in Hh by (by rewrite length_timers_clear_if_set).
    by eapply (countdowns_le_timers_le _ _ (timers_le_clear_if_set o s)).
  - rewrite lookup_app_r in Hh by (rewrite length_timers_clear_if_set; lia).
    apply list_lookup_singleton_Some in Hh as [_ <-]. done.
Qed.

Lemma single_timer_process x random s :
  single_timer s → single_timer (N8N.process x random s).
Proof.
  intros Hs. unfold N8N.process.
  destruct (N8N.isBotMessage _); [destruct (N8N.storable x); [|done]|].
  - eapply single_timer_rearmed; [|apply rearmed_store_bot_message|done]. done.
  - destruct (N8N.isUserMessage _); [done|].
    match goal with |- context [if ?b then _ else _] => destruct b end; [|done].
    eapply single_timer_le; [apply countdowns_le_store_fallback_message| |done].
    by destruct (store_fallback_message_timers (default "" (N8N.conversationId x)) x s)
      as (? & ? & _ & -> & _).
Qed.

Lemma lookup_foldr_cancel (handles : list nat) (ts : list Timer) (h : nat) :
  foldr (alter cancel) ts handles !! h
  = if decide (h ∈ handles) then cancel <$> ts !! h else ts !! h.
Proof.
  induction handles as [|x l IH]; simpl; [done|].
  rewrite list_lookup_alter.
  destruct (decide (x = h)) as [->|Hne]; rewrite IH.
  - rewrite (decide_True (P := h ∈ h :: l)) by left.
    case_decide; by destruct (ts !! h).
  - destruct (decide (h ∈ l)) as [Hin|Hnin].
    + rewrite decide_True by (by right). done.
    + rewrite decide_False; [done|]. intros Hc. apply elem_of_cons in Hc.
      destruct Hc; congruence.
Qed.

Lemma single_timer_fire h s s' : fire h s = Some s' → single_timer s → single_timer s'.
Proof.
  unfold fire. destruct (timers s !! h) as [t|] eqn:Ht; [|done].
  destruct (pending t) eqn:Hp; [|done]. destruct (due t <=? clock s); [|done].
  intros [= <-] Hs.
  assert (Hafter : ∀ x cid,
            timers x = timers (clearTimeout h s) →
            conversationTimeouts x = delete cid (conversationTimeouts s) →
            timer_conversation (callback t) = Some cid → single_timer x).
  { intros x cid Etm Ereg Hcb h2 t2 cid2 Ht2 Hp2 Hc2.
    rewrite Etm in Ht2. simpl in Ht2. rewrite list_lookup_alter in Ht2.
    destruct (decide (h = h2)) as [->|Hne].
    - rewrite Ht in Ht2. injection Ht2 as <-. done.
    - pose proof (Hs h2 t2 cid2 Ht2 Hp2 Hc2) as Hr2.
      rewrite Ereg, lookup_delete_ne; [done|]. intros <-.
      pose proof (Hs h t cid Ht Hp Hcb). congruence. }
  destruct (callback t) as [cid|c|cid] eqn:Hcb; cbn [run_callback].
  - apply (Hafter _ cid); [|by unfold N8N.finalize_timeout; crush|done].
    unfold N8N.finalize_timeout; crush.
  - eapply single_timer_le; [| |exact Hs].
    + apply countdowns_le_timers_le, timers_le_clearTimeout.
    + done.
  - apply (Hafter _ cid); [|by unfold Direct.finalizeMessages; crush|done].
    unfold Direct.finalizeMessages; crush.
Qed.

Lemma track_frame oc otxt s :
  timers_le s (track_user_message oc otxt s).2
  ∧ conversationTimeouts (track_user_message oc otxt s).2 = conversationTimeouts s.
Proof.
  unfold track_user_message.
  destruct oc as [cid|], otxt as [txt|]; try (split; [apply timers_le_refl|done]).
  destruct (_ || _); [split; [apply timers_le_refl|done]|]. cbn [snd].
  destruct (botMessages s !! cid) as [c|]; simpl.
  - rewrite conversationTimeouts_clear_if_set. split; [|done].
    eapply timers_le_trans; [apply (timers_le_clear_if_set (convs s !! c ≫= deliveryTimeoutId))|].
    by apply timers_le_eq.
  - split; [by apply timers_le_eq|done].
Qed.

Lemma single_timer_step s e : single_timer s → single_timer (step s e).
Proof.
  intros Hs. destruct e as [oc otxt|c|body random|c msgs|timer|ms| |]; cbn [step].
  - destruct (track_frame oc otxt s) as [Ht Hr].
    eapply single_timer_le; [by apply countdowns_le_timers_le|done|done].
  - unfold bot_response. crush.
  - unfold N8N.botpress_webhook. cbn [snd].
    destruct (cleanup_frame (N8N.process (N8N.extract body) random s)) as (Ht & Hr & _).
    eapply single_timer_le; [by apply countdowns_le_timers_le|done|].
    by apply single_timer_process.
  - destruct (filter (fun msg => Direct.is_new_bot_message c s msg = true) msgs) eqn:E.
    + unfold Direct.monitor_tick. by rewrite E.
    + eapply single_timer_rearmed; [|apply rearmed_monitor_tick|done]; [done|].
      by rewrite E.
  - destruct (fire timer s) eqn:E; simpl; [|done]. by eapply single_timer_fire.
  - done.
  - done.
  - intros h t cid Ht Hp Hc. simpl in Ht. rewrite lookup_foldr_cancel in Ht.
    case_decide as Hin.
    + destruct (timers s !! h); [|done]. by injection Ht as <-.
    + exfalso. apply Hin. apply list_elem_of_fmap.
      exists (cid, h). split; [done|]. apply elem_of_map_to_list. by eapply Hs.
Qed.

Lemma single_timer_run es s : single_timer s → single_timer (run s es).
Proof.
  revert s. induction es as [|e es IH]; intros s Hs; [done|].
  simpl. apply IH. by apply single_timer_step.
Qed.

Lemma single_timer_initial : single_timer initial.
Proof. intros h t cid Ht. done. Qed.

(** *** Debounce, over runs of tagged fragments *)

Lemma arrays_from_refl s : arrays_from s s.
Proof. split; [done|]. split; [done|]. intros a m H. by exists a. Qed.

Lemma arrays_from_trans s1 s2 s3 :
  arrays_from s1 s2 → arrays_from s2 s3 → arrays_from s1 s3.
Proof.
  intros (L12 & A12 & B12) (L23 & A23 & B23). split; [lia|]. split.
  - intros a m Ha Hm. apply A12; [done|]. apply A23; [lia|done].
  - intros a m Hm. destruct (B23 a m Hm) as (a2 & Hm2). by apply (B12 a2).
Qed.

Lemma arrays_from_eq s s' : arrs s' = arrs s → arrays_from s s'.
Proof.
  intros E. unfold arrays_from, array_of. rewrite E.
  split; [done|]. split; [done|]. intros a m H. by exists a.
Qed.

Lemma array_of_elem s a m : m ∈ array_of s a → (a < length (arrs s))%nat.
Proof.
  unfold array_of. destruct (arrs s !! a) eqn:E; simpl; [|by intros ?%elem_of_nil].
  intros _. by eapply lookup_lt_Some.
Qed.

Lemma arrays_from_app_nil s s' :
  arrs s' = arrs s ++ [[]] → arrays_from s s'.
Proof.
  intros E. split; [rewrite E, length_app; simpl; lia|].
  assert (H : ∀ a m, m ∈ array_of s' a → m ∈ array_of s a).
  { intros a m. unfold array_of. rewrite E.
    destruct (decide (a < length (arrs s))%nat).
    - by rewrite lookup_app_l.
    - rewrite lookup_app_r by lia. destruct (a - length (arrs s))%nat; simpl.
      + by intros ?%elem_of_nil.
      + by intros ?%elem_of_nil. }
  split; [intros a m _; apply H|]. intros a m Hm. exists a. by apply H.
Qed.

Lemma arrays_from_sort_in_place a s : arrays_from s (sort_in_place a s).
Proof.
  assert (H : ∀ a' m, m ∈ array_of (sort_in_place a s) a' → m ∈ array_of s a').
  { intros a' m. unfold array_of, sort_in_place. simpl. rewrite list_lookup_alter.
    destruct (decide (a = a')) as [->|]; [|done].
    destruct (arrs s !! a'); simpl; [|done].
    by rewrite by_timestamp_key, sort_perm. }
  split; [simpl; by rewrite length_alter|].
  split; [intros a' m _; apply H|]. intros a' m Hm. exists a'. by apply H.
Qed.

Lemma received_same_eq s s' : objs s' = objs s → received_same s s'.
Proof. intros E m. by rewrite E. Qed.

Lemma received_same_length s s' : received_same s s' → length (objs s') = length (objs s).
Proof.
  intros H. destruct (Nat.lt_trichotomy (length (objs s')) (length (objs s))) as [Hlt|[?|Hlt]];
    [|done|]; exfalso.
  - specialize (H (length (objs s'))).
    rewrite (lookup_ge_None_2 (objs s')) in H by done.
    destruct (lookup_lt_is_Some_2 (objs s) _ Hlt) as [o Ho]. by rewrite Ho in H.
  - specialize (H (length (objs s))).
    rewrite (lookup_ge_None_2 (objs s)) in H by done.
    destruct (lookup_lt_is_Some_2 (objs s') _ Hlt) as [o Ho]. by rewrite Ho in H.
Qed.

(** Operations that store nothing and arm no registry timer. *)
Lemma debounced_mono s s' :
  single_timer s' → clock s <= clock s' → received_same s s' →
  globalMessages s' ⊆ globalMessages s → arrays_from s s' → countdowns_le s s' →
  debounced s → debounced s'.
Proof.
  intros Hst Hclk Hrec Hsub (Hlen & Hold & Hany) Hcd [Hs Hr Ha Hd He Hq].
  split.
  - done.
  - intros m o' Ho'. specialize (Hrec m). rewrite Ho' in Hrec.
    destruct (objs s !! m) as [o|] eqn:Ho; [|done]. simpl in Hrec.
    injection Hrec as Hrec. specialize (Hr m o Ho). lia.
  - intros cid a Hg. pose proof (Ha cid a (lookup_weaken _ _ _ _ Hg Hsub)). lia.
  - intros cid1 cid2 a H1 H2.
    eapply Hd; by eapply lookup_weaken.
  - intros a m Hm. destruct (Hany a m Hm) as (a0 & Hm0).
    rewrite (received_same_length s s' Hrec). by eapply He.
  - intros cid a h t' m o' Hg Ht Hp Hc Hm Ho'.
    pose proof (lookup_weaken _ _ _ _ Hg Hsub) as Hg0.
    destruct (Hcd h t' cid Ht Hp Hc) as (t & Ht0 & Hp0 & Hcb & Hdue).
    specialize (Hrec m). rewrite Ho' in Hrec.
    destruct (objs s !! m) as [o|] eqn:Ho; [|done]. simpl in Hrec.
    injection Hrec as Hrec.
    rewrite <- Hcb, <- Hdue, Hrec.
    eapply (Hq cid a h t m o); try done; [by rewrite Hcb|].
    apply Hold; [by eapply Ha|done].
Qed.

(** The storing paths: new messages at the end of the conversation's array,
    and the countdown re-armed. *)
Lemma debounced_rearm cb cid a new s s' :
  timer_conversation cb = Some cid → rearmed cb cid s s' →
  clock s' = clock s →
  objs s' = objs s ++ new → Forall (fun o => receivedAt o = clock s) new →
  0 <= quiet_period cb →
  globalMessages s' = <[cid := a]> (globalMessages s) →
  (globalMessages s !! cid = Some a
   ∨ globalMessages s !! cid = None ∧ (length (arrs s) ≤ a)%nat) →
  (a < length (arrs s'))%nat → (length (arrs s) ≤ length (arrs s'))%nat →
  (∀ a' m, a' ≠ a → m ∈ array_of s' a' → m ∈ array_of s a') →
  (∀ m, m ∈ array_of s' a → m ∈ array_of s a ∨ (m < length (objs s'))%nat) →
  debounced s → debounced s'.
Proof.
  intros Hcb Hre Hclk Hobjs Hnew Hpos Hglob Hcase Hlt Hlen Hother Hown
    [Hs Hr Ha Hd He Hq].
  assert (Hrecv : ∀ m o, objs s' !! m = Some o → receivedAt o <= clock s).
  { intros m o Ho. rewrite Hobjs in Ho. apply lookup_app_Some in Ho as [Ho|[_ Ho]].
    - by eapply Hr.
    - apply list_elem_of_lookup_2 in Ho.
      rewrite Forall_forall in Hnew. rewrite (Hnew o Ho). lia. }
  assert (Hdist : ∀ cid2 a2, cid2 ≠ cid → globalMessages s !! cid2 = Some a2 → a2 ≠ a).
  { intros cid2 a2 Hne H2 ->. destruct Hcase as [H1|[_ Hge]].
    - by apply Hne, (Hd cid2 cid a).
    - pose proof (Ha cid2 a H2). lia. }
  split.
  - by eapply single_timer_rearmed.
  - intros m o Ho. rewrite Hclk. by eapply Hrecv.
  - intros cid2 a2. rewrite Hglob. intros [[<- <-]|[Hne H2]]%lookup_insert_Some; [done|].
    pose proof (Ha cid2 a2 H2). lia.
  - intros cid1 cid2 a2 H1 H2. rewrite Hglob in H1, H2.
    apply lookup_insert_Some in H1 as [[E1 E1']|[Hne1 H1]];
      apply lookup_insert_Some in H2 as [[E2 E2']|[Hne2 H2]].
    + congruence.
    + subst. by destruct (Hdist cid2 a2 (not_eq_sym Hne2) H2).
    + subst. by destruct (Hdist cid1 a2 (not_eq_sym Hne1) H1).
    + by eapply Hd.
  - intros a2 m Hm. destruct (decide (a2 = a)) as [->|Hne].
    + destruct (Hown m Hm) as [H0|H0]; [|done].
      pose proof (He a m H0). rewrite Hobjs, length_app. lia.
    + pose proof (He a2 m (Hother a2 m Hne Hm)). rewrite Hobjs, length_app. lia.
  - intros cid2 a2 h t' m o Hg Ht Hp Hc Hm Ho.
    destruct (rearmed_fresh _ _ _ _ Hre) as [Hreg Hfresh].
    destruct (rearmed_others _ _ _ _ _ _ Hre Ht Hp) as [->|(t & Ht0 & Hp0 & Hcb0 & Hdue & Hnr)].
    + rewrite Hfresh in Ht. injection Ht as <-. simpl. specialize (Hrecv m o Ho). lia.
    + rewrite <- Hcb0 in Hc.
      assert (cid2 ≠ cid) as Hne.
      { intros ->. apply Hnr. by eapply Hs. }
      rewrite Hglob, lookup_insert_ne in Hg by done.
      pose proof (Hdist cid2 a2 Hne Hg) as Ha2.
      pose proof (Hother a2 m Ha2 Hm) as Hm0.
      assert (objs s !! m = Some o) as Ho0.
      { rewrite Hobjs in Ho. rewrite lookup_app_l in Ho; [done|]. by eapply He. }
      rewrite <- Hcb0, <- Hdue. by eapply (Hq cid2 a2 h t m o).
Qed.

Lemma pushed_arrays s s' a refs base :
  arrs s' = alter (fun l => l ++ refs) a base →
  base = arrs s ∨ base = arrs s ++ [[]] →
  (∀ m, m ∈ refs → (m < length (objs s'))%nat) →
  (length (arrs s) ≤ length (arrs s'))%nat
  ∧ (∀ a' m, a' ≠ a → m ∈ array_of s' a' → m ∈ array_of s a')
  ∧ (∀ m, m ∈ array_of s' a → m ∈ array_of s a ∨ (m < length (objs s'))%nat).
Proof.
  intros E Hbase Hrefs.
  assert (Hb : ∀ a' m, m ∈ default [] (base !! a') → m ∈ array_of s a').
  { intros a' m. unfold array_of. destruct Hbase as [-> | ->]; [done|].
    destruct (decide (a' < length (arrs s))%nat).
    - by rewrite lookup_app_l.
    - rewrite lookup_app_r by lia.
      destruct (a' - length (arrs s))%nat; simpl; by intros ?%elem_of_nil. }
  split; [|split].
  - rewrite E, length_alter. destruct Hbase as [-> | ->]; [done|].
    rewrite length_app. lia.
  - intros a' m Hne. unfold array_of at 1. rewrite E, list_lookup_alter_ne by done.
    apply Hb.
  - intros m. unfold array_of at 1. rewrite E, list_lookup_alter_eq.
    destruct (base !! a) as [l|] eqn:El; simpl; [|by intros ?%elem_of_nil].
    intros [Hm|Hm]%elem_of_app; [left|right; by apply Hrefs].
    apply Hb. by rewrite El.
Qed.

Lemma store_bot_message_shape cid x random s :
  ∃ a o base,
    objs (N8N.store_bot_message cid x random s) = objs s ++ [o]
    ∧ receivedAt o = clock s
    ∧ clock (N8N.store_bot_message cid x random s) = clock s
    ∧ globalMessages (N8N.store_bot_message cid x random s) = <[cid := a]> (globalMessages s)
    ∧ arrs (N8N.store_bot_message cid x random s)
      = alter (fun l => l ++ [length (objs s)]) a base
    ∧ (globalMessages s !! cid = Some a ∧ base = arrs s
       ∨ globalMessages s !! cid = None ∧ a = length (arrs s) ∧ base = arrs s ++ [[]]).
Proof.
  unfold N8N.store_bot_message.
  destruct (globalMessages s !! cid) as [a|] eqn:Hg; simpl.
  - exists a. eexists. exists (arrs s).
    rewrite objs_clear_if_set, clock_clear_if_set, globalMessages_clear_if_set,
      arrs_clear_if_set. simpl.
    repeat split; try done; [by rewrite insert_id|by left].
  - exists (length (arrs s)). eexists. exists (arrs s ++ [[]]).
    rewrite objs_clear_if_set, clock_clear_if_set, globalMessages_clear_if_set,
      arrs_clear_if_set. simpl.
    repeat split; try done. by right.
Qed.

Lemma debounced_store_bot_message cid x random s :
  debounced s → debounced (N8N.store_bot_message cid x random s).
Proof.
  intros Hdb.
  destruct (store_bot_message_shape cid x random s)
    as (a & o & base & Hobjs & Hrec & Hclk & Hglob & Harr & Hcase).
  assert (Hbase : base = arrs s ∨ base = arrs s ++ [[]])
    by (destruct Hcase as [(_ & ->)|(_ & _ & ->)]; [by left|by right]).
  destruct (pushed_arrays s _ a _ base Harr Hbase) as (Hlen & Hother & Hown).
  { intros m ->%list_elem_of_singleton. rewrite Hobjs, length_app. simpl. lia. }
  eapply (debounced_rearm (GlobalFinalize cid) cid a [o]); try done.
  - apply rearmed_store_bot_message.
  - by constructor.
  - destruct Hcase as [(Hg & _)|(Hg & -> & _)]; [by left|by right].
  - rewrite Harr, length_alter.
    destruct Hcase as [(Hg & ->)|(Hg & -> & ->)].
    + by eapply (db_allocated s Hdb).
    + rewrite length_app. simpl. lia.
Qed.

Lemma monitor_tick_shape cid msgs s :
  let fresh := filter (fun msg => Direct.is_new_bot_message cid s msg = true) msgs in
  fresh ≠ [] →
  ∃ a base,
    objs (Direct.monitor_tick cid msgs s) = objs s ++ (Direct.to_message (clock s) <$> fresh)
    ∧ clock (Direct.monitor_tick cid msgs s) = clock s
    ∧ globalMessages (Direct.monitor_tick cid msgs s) = <[cid := a]> (globalMessages s)
    ∧ arrs (Direct.monitor_tick cid msgs s)
      = alter (fun l => l ++ seq (length (objs s)) (length fresh)) a base
    ∧ (globalMessages s !! cid = Some a ∧ base = arrs s
       ∨ globalMessages s !! cid = None ∧ a = length (arrs s) ∧ base = arrs s ++ [[]]).
Proof.
  intros fresh Hne. unfold Direct.monitor_tick. fold fresh.
  destruct fresh as [|m l] eqn:E; [done|]. rewrite fmap_cons.
  set (new := Direct.to_message (clock s) m :: (Direct.to_message (clock s) <$> l)).
  replace (0 <? length new)%nat with true by reflexivity.
  assert (Hlnew : length new = length (m :: l)) by (subst new; simpl; by rewrite length_fmap).
  destruct (globalMessages s !! cid) as [a|] eqn:Hg; cbn beta iota delta [new_array setTimeout].
  - exists a, (arrs s).
    destruct (push_all_frame a new s) as (Hgm & _ & _ & _ & _ & Hc).
    simpl. rewrite objs_clear_if_set, clock_clear_if_set, globalMessages_clear_if_set,
      arrs_clear_if_set, objs_push_all, push_all_arrs, Hgm, Hc, Hlnew.
    repeat split; try done; [by rewrite insert_id|by left].
  - exists (length (arrs s)), (arrs s ++ [[]]).
    set (s1 := set_globalMessages _ _).
    destruct (push_all_frame (length (arrs s)) new s1) as (Hgm & _ & _ & _ & _ & Hc).
    simpl. rewrite objs_clear_if_set, clock_clear_if_set, globalMessages_clear_if_set,
      arrs_clear_if_set, objs_push_all, push_all_arrs, Hgm, Hc, Hlnew.
    repeat split; try done. by right.
Qed.

Lemma debounced_monitor_tick cid msgs s :
  debounced s → debounced (Direct.monitor_tick cid msgs s).
Proof.
  intros Hdb.
  destruct (filter (fun msg => Direct.is_new_bot_message cid s msg = true) msgs)
    as [|m0 l0] eqn:E.
  { unfold Direct.monitor_tick. by rewrite E. }
  destruct (monitor_tick_shape cid msgs s) as (a & base & Hobjs & Hclk & Hglob & Harr & Hcase);
    [by rewrite E|]. rewrite E in *.
  assert (Hbase : base = arrs s ∨ base = arrs s ++ [[]])
    by (destruct Hcase as [(_ & ->)|(_ & _ & ->)]; [by left|by right]).
  destruct (pushed_arrays s _ a _ base Harr Hbase) as (Hlen & Hother & Hown).
  { intros m Hm%elem_of_seq. rewrite Hobjs, length_app, length_fmap. lia. }
  eapply (debounced_rearm (DirectFinalize cid) cid a); try done.
  - apply rearmed_monitor_tick. by rewrite E.
  - apply Forall_fmap, Forall_forall. done.
  - destruct Hcase as [(Hg & _)|(Hg & -> & _)]; [by left|by right].
  - rewrite Harr, length_alter.
    destruct Hcase as [(Hg & ->)|(Hg & -> & ->)].
    + by eapply (db_allocated s Hdb).
    + rewrite length_app. simpl. lia.
Qed.

Lemma track_heap oc otxt s :
  clock (track_user_message oc otxt s).2 = clock s
  ∧ arrs (track_user_message oc otxt s).2 = arrs s
  ∧ globalMessages (track_user_message oc otxt s).2 ⊆ globalMessages s.
Proof.
  unfold track_user_message.
  destruct oc as [cid|], otxt as [txt|]; try done.
  destruct (_ || _); [done|]. cbn [snd].
  destruct (botMessages s !! cid) as [c|]; simpl;
    rewrite ?clock_clear_if_set, ?arrs_clear_if_set, ?globalMessages_clear_if_set;
    repeat split; apply delete_subseteq.
Qed.

Lemma received_same_deliver l s : received_same s (deliver l s).
Proof.
  intros m. unfold deliver; simpl. rewrite lookup_foldr_mark.
  case_decide; [|done]. by destruct (objs s !! m).
Qed.

Lemma arrays_from_cleanup_entry ago s key c :
  arrays_from s (N8N.cleanup_entry ago s (key, c)).
Proof.
  destruct (cleanup_entry_arrs ago s key c) as [E|(v & Hv & _ & E)];
    [by apply arrays_from_eq|].
  assert (H : ∀ a m, m ∈ array_of (N8N.cleanup_entry ago s (key, c)) a →
                     m ∈ array_of s a ∨ m ∈ content s v).
  { intros a m. unfold array_of at 1. rewrite E.
    destruct (decide (a < length (arrs s))%nat).
    - rewrite lookup_app_l by done. by left.
    - rewrite lookup_app_r by lia. destruct (a - length (arrs s))%nat; simpl.
      + intros [_ Hm]%list_elem_of_filter. by right.
      + by intros ?%elem_of_nil. }
  split; [rewrite E, length_app; simpl; lia|]. split.
  - intros a m Ha. unfold array_of at 1. by rewrite E, lookup_app_l.
  - intros a m Hm. destruct (H a m Hm); [by exists a|by exists (messages v)].
Qed.

Lemma arrays_from_cleanup s : arrays_from s (N8N.cleanup s).
Proof.
  unfold N8N.cleanup.
  eapply arrays_from_trans; [|by apply arrays_from_eq].
  apply (foldl_invariant (arrays_from s)); [apply arrays_from_refl|].
  intros x [key c] _ Hx. eapply arrays_from_trans; [exact Hx|].
  apply arrays_from_cleanup_entry.
Qed.

Lemma debounced_cleanup s : debounced s → debounced (N8N.cleanup s).
Proof.
  intros Hdb. destruct (cleanup_frame s) as (Ht & Hr & Hg & Hc & _).
  apply (debounced_mono s); try done.
  - eapply single_timer_le; [by apply countdowns_le_timers_le|done|apply (db_single s Hdb)].
  - lia.
  - apply received_same_eq, objs_cleanup.
  - by rewrite Hg.
  - apply arrays_from_cleanup.
  - by apply countdowns_le_timers_le.
Qed.

Lemma arrays_from_new_conversationData s :
  arrays_from s (new_conversationData s).2.
Proof. by apply arrays_from_app_nil. Qed.

(** [arrays_from] only looks at the array heaps. *)
Lemma arrays_from_heaps s s' x x' :
  arrs x = arrs s → arrs x' = arrs s' → arrays_from x x' → arrays_from s s'.
Proof. unfold arrays_from, array_of. by intros -> ->. Qed.

Lemma arrays_from_permuted (f : list nat → list nat) a s s' :
  (∀ l, f l ≡ₚ l) → arrs s' = alter f a (arrs s) → arrays_from s s'.
Proof.
  intros Hf E.
  assert (H : ∀ a' m, m ∈ array_of s' a' → m ∈ array_of s a').
  { intros a' m. unfold array_of. rewrite E, list_lookup_alter.
    destruct (decide (a = a')) as [->|]; [|done].
    destruct (arrs s !! a'); simpl; [|done]. by rewrite Hf. }
  split; [by rewrite E, length_alter|].
  split; [intros a' m _; apply H|]. intros a' m Hm. exists a'. by apply H.
Qed.

Lemma sort_permuted s l : Js.sort (by_timestamp s) l ≡ₚ l.
Proof. rewrite by_timestamp_key. apply sort_perm. Qed.

Lemma finalize_timeout_heap cid s :
  clock (N8N.finalize_timeout cid s) = clock s
  ∧ timers (N8N.finalize_timeout cid s) = timers s
  ∧ globalMessages (N8N.finalize_timeout cid s) = globalMessages s
  ∧ arrays_from s (N8N.finalize_timeout cid s).
Proof.
  unfold N8N.finalize_timeout.
  destruct (globalMessages s !! cid) as [a|]; simpl;
    destruct (botMessages s !! cid) as [c|]; simpl;
    (split; [done|split; [done|split; [done|]]]).
  - by eapply arrays_from_permuted; [apply sort_permuted|].
  - eapply arrays_from_trans; [apply (arrays_from_sort_in_place a)|].
    by apply arrays_from_app_nil.
  - eapply arrays_from_trans; [apply (arrays_from_app_nil s (set_arrs (fun h => h ++ [[]]) s)); done|].
    by eapply arrays_from_permuted; [apply sort_permuted|].
  - eapply arrays_from_trans; [apply (arrays_from_app_nil s (set_arrs (fun h => h ++ [[]]) s)); done|].
    eapply arrays_from_trans;
      [apply (arrays_from_sort_in_place (length (arrs s)))|].
    by apply arrays_from_app_nil.
Qed.

Lemma finalizeMessages_heap cid s :
  clock (Direct.finalizeMessages cid s) = clock s
  ∧ timers (Direct.finalizeMessages cid s) = timers s
  ∧ globalMessages (Direct.finalizeMessages cid s) = globalMessages s
  ∧ arrays_from s (Direct.finalizeMessages cid s).
Proof.
  unfold Direct.finalizeMessages.
  destruct (globalMessages s !! cid) as [a|]; simpl;
    [destruct (0 <? length (array_of s a))%nat; simpl;
     [destruct (botMessages s !! cid) as [c|]; simpl|]|];
    (split; [done|split; [done|split; [done|]]]).
  - by eapply arrays_from_permuted; [apply sort_permuted|].
  - eapply arrays_from_trans; [apply (arrays_from_sort_in_place a)|].
    by apply arrays_from_app_nil.
  - by apply arrays_from_eq.
  - by apply arrays_from_eq.
Qed.

Lemma fire_heap h s s' :
  fire h s = Some s' →
  clock s' = clock s ∧ globalMessages s' = globalMessages s
  ∧ arrays_from s s' ∧ timers_le s s'.
Proof.
  unfold fire. destruct (timers s !! h) as [t|]; [|done].
  destruct (_ && _); [|done]. intros [= <-].
  pose proof (timers_le_clearTimeout h s) as Hle.
  destruct (callback t) as [cid|c|cid]; cbn [run_callback].
  - destruct (finalize_timeout_heap cid (clearTimeout h s)) as (-> & Ht & -> & Ha).
    split; [done|]. split; [done|]. split.
    + by eapply (arrays_from_heaps _ _ (clearTimeout h s)).
    + eapply timers_le_trans; [exact Hle|by apply timers_le_eq].
  - split; [done|]. split; [done|]. split; [by apply arrays_from_eq|].
    eapply timers_le_trans; [exact Hle|by apply timers_le_eq].
  - destruct (finalizeMessages_heap cid (clearTimeout h s)) as (-> & Ht & -> & Ha).
    split; [done|]. split; [done|]. split.
    + by eapply (arrays_from_heaps _ _ (clearTimeout h s)).
    + eapply timers_le_trans; [exact Hle|by apply timers_le_eq].
Qed.

Lemma debounced_step s e : tagged e = true → debounced s → debounced (step s e).
Proof.
  intros Htag Hdb. pose proof (single_timer_step s e (db_single s Hdb)) as Hst.
  destruct e as [oc otxt|c|body random|c msgs|timer|ms| |]; cbn [step] in *.
  - destruct (track_heap oc otxt s) as (Hc & Ha & Hg).
    destruct (track_frame oc otxt s) as [Ht _].
    apply (debounced_mono s _ Hst); [lia| |done| | |done].
    + apply received_same_eq, objs_track.
    + by apply arrays_from_eq.
    + by apply countdowns_le_timers_le.
  - unfold bot_response in *.
    destruct (conversationData_for c s) as [[a [|]]|]; try done;
      destruct (0 <? length (array_of s a))%nat; try done.
    destruct (0 <? length (undelivered_sorted s (array_of s a)))%nat; try done.
    cbn [snd] in *.
    apply (debounced_mono s _ Hst); [simpl; lia| |done| | |done].
    + apply received_same_deliver.
    + by apply arrays_from_eq.
    + by apply countdowns_le_eq.
  - unfold N8N.botpress_webhook. cbn [snd]. apply debounced_cleanup.
    unfold N8N.process. simpl in Htag.
    destruct (N8N.isBotMessage _); [destruct (N8N.storable _); [|done]|].
    + by apply debounced_store_bot_message.
    + simpl in Htag. by rewrite Htag.
  - by apply debounced_monitor_tick.
  - destruct (fire timer s) as [s'|] eqn:E; simpl in *; [|done].
    destruct (fire_heap timer s s' E) as (Hc & Hg & Ha & Ht).
    apply (debounced_mono s _ Hst); [lia| |by rewrite Hg|done| |done].
    + by apply received_same_eq, (objs_fire timer).
    + by apply countdowns_le_timers_le.
  - apply (debounced_mono s _ Hst); [simpl; lia| |done| | |done].
    + by apply received_same_eq.
    + by apply arrays_from_eq.
    + by apply countdowns_le_eq.
  - apply (debounced_mono s _ Hst); [simpl; lia| |done| | |done].
    + by apply received_same_eq.
    + by apply arrays_from_eq.
    + by apply countdowns_le_eq.
  - apply (debounced_mono s _ Hst); [simpl; lia| | | | |done].
    + by apply received_same_eq.
    + apply map_empty_subseteq.
    + by apply arrays_from_eq.
    + intros h t' cid Ht Hp Hcb. simpl in Ht. rewrite lookup_foldr_cancel in Ht.
      case_decide.
      * destruct (timers s !! h); [|done]. by injection Ht as <-.
      * by exists t'.
Qed.

Lemma debounced_initial : debounced initial.
Proof.
  split; try done.
  - intros a m Hm. unfold array_of in Hm. simpl in Hm. by apply elem_of_nil in Hm.
Qed.

Lemma debounced_run es s :
  Forall (fun e => tagged e = true) es → debounced s → debounced (run s es).
Proof.
  intros Hes. revert s. induction Hes as [|e es He _ IH]; intros s Hs; [done|].
  simpl. apply IH. by apply debounced_step.
Qed.

Lemma handles_le_eq s s' : convs s' = convs s → handles_le s s'.
Proof. intros E c v' H. right. exists v'. by rewrite <- E. Qed.

Lemma no_own_handle_le s s' : handles_le s s' → no_own_handle s → no_own_handle s'.
Proof.
  intros Hle Hs c v' Hv'. destruct (Hle c v' Hv') as [?|(v & Hv & <-)]; [done|].
  by eapply Hs.
Qed.

Lemma handles_le_alter_app (f : ConversationData → ConversationData) c ext s s' :
  (∀ v, deliveryTimeoutId (f v) = None ∨ deliveryTimeoutId (f v) = deliveryTimeoutId v) →
  Forall (fun v => deliveryTimeoutId (f v) = None ∧ deliveryTimeoutId v = None) ext →
  convs s' = alter f c (convs s ++ ext) → handles_le s s'.
Proof.
  intros Hf Hext E c' v' Hv'. rewrite E, list_lookup_alter in Hv'.
  rewrite Forall_forall in Hext.
  destruct (decide (c = c')) as [->|Hne].
  - destruct ((convs s ++ ext) !! c') as [v|] eqn:Ev; [|done].
    injection Hv' as <-. apply lookup_app_Some in Ev as [Ev|[_ Ev]].
    + destruct (Hf v) as [?|Hsame]; [by left|]. right. by exists v.
    + left. apply list_elem_of_lookup_2 in Ev. by apply (Hext v).
  - apply lookup_app_Some in Hv' as [Ev|[_ Ev]].
    + right. by exists v'.
    + left. apply list_elem_of_lookup_2 in Ev. by apply (Hext v').
Qed.

Lemma handles_le_finalize_timeout cid s : handles_le s (N8N.finalize_timeout cid s).
Proof.
  unfold N8N.finalize_timeout.
  destruct (globalMessages s !! cid) as [a|]; simpl;
    destruct (botMessages s !! cid) as [c|]; simpl.
  - eapply (handles_le_alter_app _ c []); [| |simpl; by rewrite app_nil_r]; [by intros; left|done].
  - eapply (handles_le_alter_app _ _ [_]); [| |reflexivity]; [by intros; left|by repeat constructor].
  - eapply (handles_le_alter_app _ c []); [| |simpl; by rewrite app_nil_r]; [by intros; left|done].
  - eapply (handles_le_alter_app _ _ [_]); [| |reflexivity]; [by intros; left|by repeat constructor].
Qed.

Lemma handles_le_finalizeMessages cid s : handles_le s (Direct.finalizeMessages cid s).
Proof.
  unfold Direct.finalizeMessages.
  destruct (globalMessages s !! cid) as [a|]; simpl; [|by apply handles_le_eq].
  destruct (0 <? length (array_of s a))%nat; simpl; [|by apply handles_le_eq].
  destruct (botMessages s !! cid) as [c|]; simpl.
  - eapply (handles_le_alter_app _ c []); [| |simpl; by rewrite app_nil_r]; [by intros; left|done].
  - eapply (handles_le_alter_app _ _ [_]); [| |reflexivity]; [by intros; left|by repeat constructor].
Qed.

Lemma handles_le_fire h s s' : fire h s = Some s' → handles_le s s'.
Proof.
  unfold fire. destruct (timers s !! h) as [t|]; [|done].
  destruct (_ && _); [|done]. intros [= <-].
  destruct (callback t) as [cid|c|cid]; cbn [run_callback].
  - intros c v' Hv'.
    by destruct (handles_le_finalize_timeout cid (clearTimeout h s) c v' Hv'); [left|right].
  - eapply (handles_le_alter_app _ c []);
      [| |unfold N8N.fallback_timeout; simpl; by rewrite app_nil_r];
      [by intros; left|done].
  - intros c v' Hv'.
    by destruct (handles_le_finalizeMessages cid (clearTimeout h s) c v' Hv'); [left|right].
Qed.

Lemma handles_le_cleanup_entry ago s key c :
  handles_le s (N8N.cleanup_entry ago s (key, c)).
Proof.
  unfold N8N.cleanup_entry. destruct (convs s !! c) as [value|]; [|by apply handles_le_eq].
  destruct (_ && _); [by apply handles_le_eq|].
  destruct (bool_decide (length _ ≠ _)); destruct (bool_decide (length _ = 0%nat)); simpl.
  - eapply (handles_le_alter_app _ c []);
      [| |simpl; rewrite convs_clear_if_set; simpl; by rewrite app_nil_r];
      [by intros; right|done].
  - eapply (handles_le_alter_app _ c []);
      [| |simpl; by rewrite app_nil_r]; [by intros; right|done].
  - apply handles_le_eq. simpl. by rewrite convs_clear_if_set.
  - by apply handles_le_eq.
Qed.

Lemma no_own_handle_cleanup s :
  no_own_handle s →
  no_own_handle (N8N.cleanup s) ∧ timers (N8N.cleanup s) = timers s.
Proof.
  intros Hs. unfold N8N.cleanup. cbn [convs timers set_userMessages].
  apply (foldl_invariant (fun x => no_own_handle x ∧ timers x = timers s)); [done|].
  intros x [key c] _ [Hx Ht]. split.
  - eapply no_own_handle_le; [apply handles_le_cleanup_entry|done].
  - rewrite <- Ht. unfold N8N.cleanup_entry.
    destruct (convs x !! c) as [value|] eqn:Ev; [|done].
    rewrite (Hx c value Ev). crush.
Qed.

Lemma no_own_handle_step s e :
  tagged e = true → no_own_handle s → no_own_handle (step s e).
Proof.
  intros Htag Hs.
  destruct e as [oc otxt|c|body random|c msgs|timer|ms| |]; cbn [step] in *.
  - eapply no_own_handle_le; [apply handles_le_eq|done].
    unfold track_user_message. crush. by rewrite convs_clear_if_set.
  - eapply no_own_handle_le; [apply handles_le_eq|done].
    unfold bot_response. crush.
  - unfold N8N.botpress_webhook. cbn [snd]. apply no_own_handle_cleanup.
    eapply no_own_handle_le; [apply handles_le_eq|done].
    unfold N8N.process. simpl in Htag.
    destruct (N8N.isBotMessage _); [destruct (N8N.storable _); [|done]|].
    + unfold N8N.store_bot_message. crush; by rewrite convs_clear_if_set.
    + simpl in Htag. by rewrite Htag.
  - eapply no_own_handle_le; [apply handles_le_eq|done].
    unfold Direct.monitor_tick. destruct (0 <? _)%nat; [|done].
    destruct (globalMessages s !! c); simpl; rewrite convs_clear_if_set;
      match goal with
      | |- context [Direct.push_all ?a ?l ?x] =>
          by destruct (push_all_frame a l x) as (_ & _ & _ & _ & -> & _)
      end.
  - destruct (fire timer s) as [s'|] eqn:E; simpl; [|done].
    eapply no_own_handle_le; [by eapply handles_le_fire|done].
  - done.
  - done.
  - done.
Qed.

Lemma no_own_handle_run es s :
  Forall (fun e => tagged e = true) es → no_own_handle s → no_own_handle (run s es).
Proof.
  intros Hes. revert s. induction Hes as [|e es He _ IH]; intros s Hs; [done|].
  simpl. apply IH. by apply no_own_handle_step.
Qed.

Lemma fire_inv h s s' :
  fire h s = Some s' → ∃ t, timers s !! h = Some t ∧ pending t = true ∧ due t <= clock s.
Proof.
  unfold fire. destruct (timers s !! h) as [t|]; [|done].
  destruct (pending t) eqn:Hp; [|done]. simpl.
  destruct (Z.leb_spec (due t) (clock s)); [|done].
  intros _. by exists t.
Qed.

Lemma no_own_handle_initial : no_own_handle initial.
Proof. intros c v H. done. Qed.

(** ** Insertion order *)

Lemma Forall_filter_keep {A : Type} (Q P : A → Prop) `{∀ x, Decision (P x)} (l : list A) :
  Forall Q l → Forall Q (filter P l).
Proof.
  rewrite !Forall_forall. intros Hl x [_ Hx]%list_elem_of_filter. by apply Hl.
Qed.

Lemma StronglySorted_filter {A : Type} (R : A → A → Prop) (P : A → Prop)
  `{∀ x, Decision (P x)} (l : list A) :
  StronglySorted R l → StronglySorted R (filter P l).
Proof.
  induction 1 as [|x l Hs IH Hx]; [constructor|].
  rewrite filter_cons. case_decide; [|done].
  constructor; [done|]. by apply Forall_filter_keep.
Qed.

Lemma filter_ext_elem {A : Type} (P Q : A → Prop) `{∀ x, Decision (P x)}
  `{∀ x, Decision (Q x)} (l : list A) :
  (∀ x, x ∈ l → P x ↔ Q x) → filter P l = filter Q l.
Proof.
  induction l as [|x l IH]; intros Hl; [done|].
  rewrite !filter_cons.
  assert (P x ↔ Q x) by (apply Hl; left).
  rewrite IH by (intros y Hy; apply Hl; by right).
  repeat case_decide; tauto.
Qed.

Lemma well_ordered_nil o : well_ordered o [].
Proof. split; [constructor|]. intros t. constructor. Qed.

Lemma well_ordered_filter (P : nat → Prop) `{∀ x, Decision (P x)} o l :
  well_ordered o l → well_ordered o (filter P l).
Proof.
  intros [Ha Ht]. split; [by apply Forall_filter_keep|].
  intros t. rewrite list_filter_filter.
  rewrite (list_filter_iff _ (fun m => P m ∧ ts_of o m = t)) by (intros; tauto).
  rewrite <- list_filter_filter. by apply StronglySorted_filter.
Qed.

Lemma well_ordered_sort o o' l :
  (∀ m, ts_of o' m = ts_of o m) →
  well_ordered o l → well_ordered o (Js.sort (by_key (ts_of o')) l).
Proof.
  intros Hts [Ha Ht]. split; [by rewrite sort_perm|].
  intros t. rewrite (list_filter_iff _ (fun m => ts_of o' m = t))
    by (intros m; by rewrite Hts).
  rewrite sort_stable.
  rewrite (list_filter_iff _ (fun m => ts_of o m = t)) by (intros m; by rewrite Hts).
  apply Ht.
Qed.

Lemma ts_of_app o new m : (m < length o)%nat → ts_of (o ++ new) m = ts_of o m.
Proof. intros Hm. unfold ts_of. by rewrite lookup_app_l. Qed.

Lemma well_ordered_app o new l : well_ordered o l → well_ordered (o ++ new) l.
Proof.
  intros [Ha Ht]. split.
  - eapply Forall_impl; [exact Ha|]. simpl. intros m Hm. rewrite length_app. lia.
  - intros t. rewrite (filter_ext_elem _ (fun m => ts_of o m = t)); [apply Ht|].
    intros m Hm. rewrite ts_of_app; [done|].
    rewrite Forall_forall in Ha. by apply Ha.
Qed.

Lemma StronglySorted_seq n k : StronglySorted lt (seq n k).
Proof.
  revert n. induction k as [|k IH]; intros n; simpl; [constructor|].
  constructor; [apply IH|]. apply Forall_forall. intros m Hm%elem_of_seq. lia.
Qed.

(** New messages, pushed in the order of their creation. *)
Lemma well_ordered_push o new l :
  well_ordered o l →
  well_ordered (o ++ new) (l ++ seq (length o) (length new)).
Proof.
  intros Hl. pose proof (well_ordered_app o new l Hl) as [Ha Ht].
  destruct Hl as [Ha0 _]. split.
  - apply Forall_app. split; [done|]. apply Forall_forall.
    intros m Hm%elem_of_seq. rewrite length_app. lia.
  - intros t. rewrite filter_app. apply StronglySorted_app_2.
    + intros x y [_ Hx]%list_elem_of_filter [_ Hy%elem_of_seq]%list_elem_of_filter.
      rewrite Forall_forall in Ha0. specialize (Ha0 x Hx). lia.
    + apply Ht.
    + apply StronglySorted_filter, StronglySorted_seq.
Qed.

Lemma elem_of_alter_list {A : Type} (f : A → A) (a : nat) (h : list A) (x : A) :
  x ∈ alter f a h → x ∈ h ∨ ∃ y, h !! a = Some y ∧ x = f y.
Proof.
  intros [i Hi]%list_elem_of_lookup. rewrite list_lookup_alter in Hi.
  destruct (decide (a = i)) as [->|].
  - destruct (h !! i) as [y|] eqn:E; [|done]. injection Hi as <-. right. by exists y.
  - left. by eapply list_elem_of_lookup_2.
Qed.

Lemma ordered_heap_alter (f : list nat → list nat) a o o' h :
  (∀ l, well_ordered o l → well_ordered o' l) →
  (∀ l, h !! a = Some l → well_ordered o l → well_ordered o' (f l)) →
  ordered_heap o h → ordered_heap o' (alter f a h).
Proof.
  intros Hkeep Hf Hh l [Hl|(y & Hy & ->)]%elem_of_alter_list.
  - by apply Hkeep, Hh.
  - apply Hf; [done|]. apply Hh. by eapply list_elem_of_lookup_2.
Qed.

Lemma ordered_heap_app o h l :
  well_ordered o l → ordered_heap o h → ordered_heap o (h ++ [l]).
Proof.
  intros Hl Hh l' [Hl'|Hl']%elem_of_app; [by apply Hh|].
  by apply list_elem_of_singleton in Hl' as ->.
Qed.

Lemma ordered_heap_array_of o s a :
  ordered_heap o (arrs s) → well_ordered o (array_of s a).
Proof.
  intros Hh. unfold array_of. destruct (arrs s !! a) as [l|] eqn:E; simpl.
  - apply Hh. by eapply list_elem_of_lookup_2.
  - apply well_ordered_nil.
Qed.

Lemma ts_of_mark l o m : ts_of (foldr (alter mark_delivered) o l) m = ts_of o m.
Proof.
  unfold ts_of. rewrite lookup_foldr_mark. case_decide; [|done].
  by destruct (o !! m).
Qed.

Lemma length_foldr_mark l (o : list Message) :
  length (foldr (alter mark_delivered) o l) = length o.
Proof. induction l as [|x l IH]; simpl; [done|]. by rewrite length_alter. Qed.

Lemma well_ordered_mark l o k :
  well_ordered o k → well_ordered (foldr (alter mark_delivered) o l) k.
Proof.
  intros [Ha Ht]. split; [by rewrite length_foldr_mark|].
  intros t. rewrite (list_filter_iff _ (fun m => ts_of o m = t)); [apply Ht|].
  intros m. by rewrite ts_of_mark.
Qed.

Lemma well_ordered_sort_state o x l :
  (∀ m, timestamp_of x m = ts_of o m) →
  well_ordered o l → well_ordered o (Js.sort (by_timestamp x) l).
Proof.
  intros Hts Hl. change (by_timestamp x) with (by_key (ts_of (objs x))).
  by apply well_ordered_sort.
Qed.

Lemma ordered_sort_heap o x a h :
  (∀ m, timestamp_of x m = ts_of o m) →
  ordered_heap o h → ordered_heap o (alter (Js.sort (by_timestamp x)) a h).
Proof.
  intros Hts. apply ordered_heap_alter; [done|].
  intros l _. by apply well_ordered_sort_state.
Qed.

Lemma ordered_nil_heap o h : ordered_heap o h → ordered_heap o (h ++ [[]]).
Proof. apply ordered_heap_app, well_ordered_nil. Qed.

Lemma ordered_push_heap o new a h :
  ordered_heap o h →
  ordered_heap (o ++ new) (alter (fun l => l ++ seq (length o) (length new)) a h).
Proof.
  apply ordered_heap_alter.
  - apply well_ordered_app.
  - intros l _. apply well_ordered_push.
Qed.

Lemma ordered_push1_heap o x a h :
  ordered_heap o h →
  ordered_heap (o ++ [x]) (alter (fun l => l ++ [length o]) a h).
Proof. apply (ordered_push_heap o [x]). Qed.

Lemma ordered_same s s' : objs s' = objs s → arrs s' = arrs s → ordered s → ordered s'.
Proof. unfold ordered. by intros -> ->. Qed.

Lemma ordered_finalize_timeout cid s : ordered s → ordered (N8N.finalize_timeout cid s).
Proof.
  intros Ho. unfold N8N.finalize_timeout, ordered in *.
  destruct (globalMessages s !! cid) as [a|]; simpl;
    destruct (botMessages s !! cid) as [c|]; simpl;
    repeat first [ apply ordered_nil_heap | apply ordered_sort_heap; [done|] ]; done.
Qed.

Lemma ordered_finalizeMessages cid s : ordered s → ordered (Direct.finalizeMessages cid s).
Proof.
  intros Ho. unfold Direct.finalizeMessages, ordered in *.
  destruct (globalMessages s !! cid) as [a|]; simpl; [|done].
  destruct (0 <? length (array_of s a))%nat; simpl; [|done].
  destruct (botMessages s !! cid) as [c|]; simpl;
    repeat first [ apply ordered_nil_heap | apply ordered_sort_heap; [done|] ]; done.
Qed.

Lemma ordered_fire h s s' : fire h s = Some s' → ordered s → ordered s'.
Proof.
  unfold fire. destruct (timers s !! h) as [t|]; [|done].
  destruct (_ && _); [|done]. intros [= <-] Ho.
  destruct (callback t) as [cid|c|cid]; cbn [run_callback].
  - by apply ordered_finalize_timeout.
  - done.
  - by apply ordered_finalizeMessages.
Qed.

Lemma ordered_cleanup s : ordered s → ordered (N8N.cleanup s).
Proof.
  intros Ho. unfold N8N.cleanup.
  eapply ordered_same; [reflexivity|reflexivity|].
  apply (foldl_invariant ordered); [done|].
  intros x [key c] _ Hx. unfold ordered.
  rewrite objs_cleanup_entry.
  destruct (cleanup_entry_arrs (clock s - 5 * 60 * 1000) x key c)
    as [->|(v & _ & _ & ->)]; [done|].
  apply ordered_heap_app; [|done].
  apply well_ordered_filter. by apply ordered_heap_array_of.
Qed.

Lemma ordered_store_bot_message cid x random s :
  ordered s → ordered (N8N.store_bot_message cid x random s).
Proof.
  intros Ho. unfold ordered.
  destruct (store_bot_message_shape cid x random s)
    as (a & o & base & -> & _ & _ & _ & -> & Hcase).
  apply ordered_push1_heap.
  destruct Hcase as [(_ & ->)|(_ & _ & ->)]; [done|by apply ordered_nil_heap].
Qed.

Lemma ordered_store_fallback_message cid x s :
  ordered s → ordered (N8N.store_fallback_message cid x s).
Proof.
  intros Ho. unfold N8N.store_fallback_message, ordered in *.
  destruct (botMessages s !! cid) as [c|]; simpl;
    rewrite objs_clear_if_set, arrs_clear_if_set; simpl;
    (apply ordered_sort_heap; [done|]); apply ordered_push1_heap;
    [done|by apply ordered_nil_heap].
Qed.

Lemma ordered_process x random s : ordered s → ordered (N8N.process x random s).
Proof.
  intros Ho. unfold N8N.process.
  destruct (N8N.isBotMessage _); [destruct (N8N.storable x); [|done]|].
  - by apply ordered_store_bot_message.
  - destruct (N8N.isUserMessage _); [done|].
    match goal with |- context [if ?b then _ else _] => destruct b end; [|done].
    by apply ordered_store_fallback_message.
Qed.

Lemma ordered_monitor_tick cid msgs s : ordered s → ordered (Direct.monitor_tick cid msgs s).
Proof.
  intros Ho.
  destruct (filter (fun msg => Direct.is_new_bot_message cid s msg = true) msgs)
    as [|m0 l0] eqn:E.
  { unfold Direct.monitor_tick. by rewrite E. }
  destruct (monitor_tick_shape cid msgs s) as (a & base & Hobjs & _ & _ & Harr & Hcase);
    [by rewrite E|].
  unfold ordered. rewrite Hobjs, Harr.
  rewrite <- (length_fmap (Direct.to_message (clock s))).
  apply ordered_push_heap.
  destruct Hcase as [(_ & ->)|(_ & _ & ->)]; [done|by apply ordered_nil_heap].
Qed.

Lemma ordered_step s e : ordered s → ordered (step s e).
Proof.
  intros Ho. destruct e as [oc otxt|c|body random|c msgs|timer|ms| |]; cbn [step].
  - destruct (track_heap oc otxt s) as (_ & Ha & _).
    eapply ordered_same; [apply objs_track|done|done].
  - unfold bot_response.
    destruct (conversationData_for c s) as [[a [|]]|]; try done;
      destruct (0 <? length (array_of s a))%nat; try done.
    destruct (0 <? length (undelivered_sorted s (array_of s a)))%nat; try done.
    cbn [snd]. unfold ordered, deliver; simpl.
    intros l Hl. apply well_ordered_mark. by apply Ho.
  - unfold N8N.botpress_webhook. cbn [snd]. by apply ordered_cleanup, ordered_process.
  - by apply ordered_monitor_tick.
  - destruct (fire timer s) as [s'|] eqn:E; simpl; [|done]. by eapply ordered_fire.
  - done.
  - done.
  - done.
Qed.

Lemma ordered_run es s : ordered s → ordered (run s es).
Proof.
  revert s. induction es as [|e es IH]; intros s Hs; [done|].
  simpl. by apply IH, ordered_step.
Qed.

Lemma ordered_initial : ordered initial.
Proof. intros l Hl. by apply elem_of_nil in Hl. Qed.

(** Two messages of one list, the first standing before the second. *)
Lemma ties_ordered_pair o l i j x y :
  ties_ordered o l → (i < j)%nat → l !! i = Some x → l !! j = Some y →
  ts_of o x = ts_of o y → (x < y)%nat.
Proof.
  intros Ht Hij Hi Hj Hts.
  pose proof (take_drop_middle l j y Hj) as Hsplit.
  assert (Hx : x ∈ take j l).
  { apply list_elem_of_lookup. exists i. by rewrite lookup_take_lt. }
  specialize (Ht (ts_of o y)). rewrite <- Hsplit, filter_app, filter_cons in Ht.
  rewrite decide_True in Ht by done.
  eapply (StronglySorted_app_1_elem_of _ _ _ x y Ht).
  - by apply list_elem_of_filter.
  - left.
Qed.

(** ** Allocation *)

(** Every reference is the result of an allocation, and nothing is ever
    freed: in every reachable state the references point to objects that
    exist. *)

Lemma heap_closed_frame (k : string) s s' :
  heap_closed s →
  (length (arrs s) ≤ length (arrs s'))%nat →
  (∀ c v', convs s' !! c = Some v' →
     (messages v' < length (arrs s'))%nat
     ∨ ∃ c0 v, convs s !! c0 = Some v ∧ messages v' = messages v) →
  (∀ cid a, globalMessages s' !! cid = Some a →
     (a < length (arrs s'))%nat ∨ ∃ cid0, globalMessages s !! cid0 = Some a) →
  (length (convs s) ≤ length (convs s'))%nat →
  (∀ cid c, botMessages s' !! cid = Some c →
     botMessages s !! cid = Some c
     ∨ (length (convs s) ≤ c < length (convs s'))%nat ∧ cid = k) →
  heap_closed s'.
Proof.
  intros (Ha & Hg & Hb & Hi) Hlen Hc Hgm Hlen' Hbm. split; [|split; [|split]].
  - intros c v' E. destruct (Hc c v' E) as [|(c0 & v & E0 & ->)]; [done|].
    specialize (Ha c0 v E0). lia.
  - intros cid a E. destruct (Hgm cid a E) as [|(cid0 & E0)]; [done|].
    specialize (Hg cid0 a E0). lia.
  - intros cid c E. destruct (Hbm cid c E) as [E0|[? _]]; [|lia].
    specialize (Hb cid c E0). lia.
  - intros cid1 cid2 c E1 E2.
    destruct (Hbm cid1 c E1) as [E1'|[H1 ->]], (Hbm cid2 c E2) as [E2'|[H2 ->]].
    + by eapply Hi.
    + specialize (Hb cid1 c E1'). lia.
    + specialize (Hb cid2 c E2'). lia.
    + done.
Qed.

Ltac lengths := repeat (rewrite length_alter || rewrite length_app); simpl.

Lemma lookup_alter_inv {A : Type} (f : A → A) (c c' : nat) (l : list A) (v' : A) :
  alter f c l !! c' = Some v' → ∃ v, l !! c' = Some v ∧ (v' = v ∨ (c' = c ∧ v' = f v)).
Proof.
  destruct (decide (c = c')) as [->|Hne].
  - rewrite list_lookup_alter_eq. destruct (l !! c') as [v|]; [|done].
    intros [= <-]. exists v. split; [done|]. by right.
  - rewrite list_lookup_alter_ne by done. intros E. exists v'. split; [done|]. by left.
Qed.

Lemma lookup_insert_inv {V : Type} (m : gmap string V) (k k' : string) (v v' : V) :
  <[k := v]> m !! k' = Some v' → v' = v ∨ m !! k' = Some v'.
Proof.
  destruct (decide (k = k')) as [->|Hne].
  - rewrite lookup_insert_eq. intros [= <-]. by left.
  - rewrite lookup_insert_ne by done. by right.
Qed.

Lemma heap_closed_track oc otxt s :
  heap_closed s → heap_closed (track_user_message oc otxt s).2.
Proof.
  intros H. apply (heap_closed_frame "" s); [done| | | | |].
  - unfold track_user_message. crush; by rewrite ?arrs_clear_if_set.
  - intros c v'. unfold track_user_message. crush; rewrite ?convs_clear_if_set; eauto.
  - intros cid a. unfold track_user_message. crush; rewrite ?globalMessages_clear_if_set.
    all: try (intros [_ E]%lookup_delete_Some; eauto). all: eauto.
  - unfold track_user_message. crush; by rewrite ?convs_clear_if_set.
  - intros cid c. unfold track_user_message. crush; rewrite ?botMessages_clear_if_set.
    all: try (intros [_ E]%lookup_delete_Some; eauto). all: eauto.
Qed.

Lemma heap_closed_poll cid s : heap_closed s → heap_closed (bot_response cid s).2.
Proof.
  intros H. apply (heap_closed_frame "" s); [done| | | | |];
    unfold bot_response; crush; eauto.
Qed.

Lemma heap_closed_cleanup s : heap_closed s → heap_closed (N8N.cleanup s).
Proof.
  intros H. pose proof H as (Ha & Hg & Hb & Hi).
  destruct (cleanup_swept s Ha) as [_ _ Hgm _ (ext & Harr) Hlen Hal _ _ Hsub].
  split; [done|]. split; [|split].
  - intros cid a. rewrite Hgm, Harr, length_app. intros E.
    specialize (Hg cid a E). lia.
  - intros cid c E. rewrite Hlen. apply (Hb cid). by eapply lookup_weaken.
  - intros cid1 cid2 c E1 E2. apply (Hi cid1 cid2 c); by eapply lookup_weaken.
Qed.

Lemma heap_closed_store_bot_message cid x random s :
  heap_closed s → heap_closed (N8N.store_bot_message cid x random s).
Proof.
  intros H. apply (heap_closed_frame "" s); [done| | | | |].
  - unfold N8N.store_bot_message. crush; rewrite ?arrs_clear_if_set; simpl; lengths; lia.
  - intros c v'. unfold N8N.store_bot_message. crush;
      rewrite ?convs_clear_if_set; simpl; eauto.
  - intros cid' a. unfold N8N.store_bot_message. crush;
      rewrite ?globalMessages_clear_if_set, ?arrs_clear_if_set; simpl; lengths.
    + eauto.
    + intros [->|E]%lookup_insert_inv; [left; lia|eauto].
  - unfold N8N.store_bot_message. crush; rewrite ?convs_clear_if_set; simpl; lia.
  - intros cid' c. unfold N8N.store_bot_message. crush;
      rewrite ?botMessages_clear_if_set; simpl; eauto.
Qed.

Lemma heap_closed_store_fallback_message cid x s :
  heap_closed s → heap_closed (N8N.store_fallback_message cid x s).
Proof.
  intros H. apply (heap_closed_frame cid s); [done| | | | |].
  - unfold N8N.store_fallback_message. crush;
      rewrite ?arrs_clear_if_set; simpl; lengths; lia.
  - intros c v'. unfold N8N.store_fallback_message. crush;
      rewrite ?convs_clear_if_set, ?arrs_clear_if_set; simpl; lengths.
    all: intros (v & E & [-> | [-> ->]])%lookup_alter_inv; simpl.
    all: try (apply lookup_app_Some in E as [E|[_ E]];
              [eauto|apply list_lookup_singleton_Some in E as [_ <-]; simpl; left; lia]).
    all: eauto.
  - intros cid' a. unfold N8N.store_fallback_message. crush;
      rewrite ?globalMessages_clear_if_set; simpl; eauto.
  - unfold N8N.store_fallback_message. crush;
      rewrite ?convs_clear_if_set; simpl; lengths; lia.
  - intros cid' c. unfold N8N.store_fallback_message. crush;
      rewrite ?botMessages_clear_if_set, ?convs_clear_if_set; simpl; lengths.
    + eauto.
    + destruct (decide (cid = cid')) as [->|Hne].
      * rewrite lookup_insert_eq. intros [= <-]. right. split; [lia|done].
      * rewrite lookup_insert_ne by done. eauto.
Qed.

Lemma heap_closed_process x random s :
  heap_closed s → heap_closed (N8N.process x random s).
Proof.
  intros H. unfold N8N.process.
  repeat match goal with |- context [if ?b then _ else _] => destruct b end;
    try done; [by apply heap_closed_store_bot_message
              |by apply heap_closed_store_fallback_message].
Qed.

Lemma heap_closed_finalize_timeout cid s :
  heap_closed s → heap_closed (N8N.finalize_timeout cid s).
Proof.
  intros H. pose proof H as (Ha & Hg & Hb & Hi).
  apply (heap_closed_frame cid s); [done| | | | |].
  - unfold N8N.finalize_timeout. crush; lengths; lia.
  - intros c v'. unfold N8N.finalize_timeout. crush; lengths.
    all: intros (v & E & [-> | [-> ->]])%lookup_alter_inv; simpl.
    all: try (apply lookup_app_Some in E as [E|[_ E]];
              [eauto|apply list_lookup_singleton_Some in E as [_ <-]; simpl; left; lia]).
    all: eauto.
    all: try (left; lia).
    all: try (left; match goal with H : globalMessages _ !! _ = Some _ |- _ =>
                pose proof (Hg _ _ H) end; lia).
  - intros cid' a. unfold N8N.finalize_timeout. crush; eauto.
  - unfold N8N.finalize_timeout. crush; lengths; lia.
  - intros cid' c. unfold N8N.finalize_timeout. crush; lengths; eauto.
    all: destruct (decide (cid = cid')) as [->|Hne];
      [rewrite lookup_insert_eq; intros [= <-]; right; split; [lia|done]
      |rewrite lookup_insert_ne by done; eauto].
Qed.

Lemma heap_closed_fallback_timeout c s :
  heap_closed s → heap_closed (N8N.fallback_timeout c s).
Proof.
  intros H. apply (heap_closed_frame "" s); [done| | | | |];
    unfold N8N.fallback_timeout; simpl.
  - done.
  - intros c' v' (v & E & [-> | [-> ->]])%lookup_alter_inv; simpl; eauto.
  - eauto.
  - by rewrite length_alter.
  - eauto.
Qed.

Lemma heap_closed_finalizeMessages cid s :
  heap_closed s → heap_closed (Direct.finalizeMessages cid s).
Proof.
  intros H. pose proof H as (Ha & Hg & Hb & Hi).
  apply (heap_closed_frame cid s); [done| | | | |].
  - unfold Direct.finalizeMessages. crush; lengths; lia.
  - intros c v'. unfold Direct.finalizeMessages. crush; lengths.
    all: try (intros (v & E & [-> | [-> ->]])%lookup_alter_inv; simpl).
    all: try (apply lookup_app_Some in E as [E|[_ E]];
              [eauto|apply list_lookup_singleton_Some in E as [_ <-]; simpl; left; lia]).
    all: eauto.
    all: try (left; lia).
    all: try (left; match goal with H : globalMessages _ !! _ = Some _ |- _ =>
                pose proof (Hg _ _ H) end; lia).
  - intros cid' a. unfold Direct.finalizeMessages. crush; eauto.
  - unfold Direct.finalizeMessages. crush; lengths; lia.
  - intros cid' c. unfold Direct.finalizeMessages. crush; lengths; eauto.
    all: destruct (decide (cid = cid')) as [->|Hne];
      [rewrite lookup_insert_eq; intros [= <-]; right; split; [lia|done]
      |rewrite lookup_insert_ne by done; eauto].
Qed.

Lemma heap_closed_fire h s s' : fire h s = Some s' → heap_closed s → heap_closed s'.
Proof.
  unfold fire. destruct (timers s !! h) as [t|]; [|done].
  destruct (_ && _); [|done]. intros [= <-] H.
  assert (H' : heap_closed (clearTimeout h s)) by exact H.
  destruct (callback t); cbn [run_callback];
    [by apply heap_closed_finalize_timeout
    |by apply heap_closed_fallback_timeout
    |by apply heap_closed_finalizeMessages].
Qed.

Lemma heap_closed_monitor_tick cid msgs s :
  heap_closed s → heap_closed (Direct.monitor_tick cid msgs s).
Proof.
  intros H. unfold Direct.monitor_tick.
  destruct (0 <? length _)%nat; [|done].
  apply (heap_closed_frame "" s); [done| | | | |].
  - crush; rewrite ?arrs_clear_if_set, push_all_arrs; simpl; lengths; lia.
  - intros c v'. crush; rewrite ?convs_clear_if_set;
      match goal with |- context [Direct.push_all ?a ?ms ?s] =>
        destruct (push_all_frame a ms s) as (_ & _ & _ & _ & -> & _) end;
      simpl; eauto.
  - intros cid' a. crush; rewrite ?globalMessages_clear_if_set, ?arrs_clear_if_set;
      rewrite ?push_all_arrs;
      match goal with |- context [globalMessages (Direct.push_all ?a ?ms ?s)] =>
        destruct (push_all_frame a ms s) as (-> & _) end;
      simpl; lengths.
    + eauto.
    + intros [->|E]%lookup_insert_inv; [left; lia|eauto].
  - crush; rewrite ?convs_clear_if_set;
      match goal with |- context [Direct.push_all ?a ?ms ?s] =>
        destruct (push_all_frame a ms s) as (_ & _ & _ & _ & -> & _) end;
      simpl; lia.
  - intros cid' c. crush; rewrite ?botMessages_clear_if_set;
      match goal with |- context [Direct.push_all ?a ?ms ?s] =>
        destruct (push_all_frame a ms s) as (_ & -> & _) end;
      simpl; eauto.
Qed.

Lemma heap_closed_step s e : heap_closed s → heap_closed (step s e).
Proof.
  intros H. destruct e as [oc otxt|c|body random|c msgs|timer|ms| |]; cbn [step].
  - by apply heap_closed_track.
  - by apply heap_closed_poll.
  - unfold N8N.botpress_webhook. cbn [snd].
    by apply heap_closed_cleanup, heap_closed_process.
  - by apply heap_closed_monitor_tick.
  - destruct (fire timer s) eqn:E; simpl; [by eapply heap_closed_fire|done].
  - done.
  - destruct H as (Ha & Hg & Hb & Hi). split; [done|]. split; [done|].
    split; [intros cid c|intros cid1 cid2 c]; simpl; by rewrite lookup_empty.
  - destruct H as (Ha & Hg & Hb & Hi). split; [done|].
    split; [|split]; [intros cid a|intros cid c|intros cid1 cid2 c];
      simpl; by rewrite lookup_empty.
Qed.

Lemma heap_closed_run es s : heap_closed s → heap_closed (run s es).
Proof.
  revert s. induction es as [|e es IH]; intros s H; [done|].
  simpl. by apply IH, heap_closed_step.
Qed.

Lemma heap_closed_initial : heap_closed initial.
Proof.
  split; [intros c v E; by destruct c|].
  split; [|split]; [intros cid a E|intros cid c E|intros cid1 cid2 c E];
    simpl in E; by rewrite lookup_empty in E.
Qed.

(** The states the program can be in. *)
Lemma heap_closed_reachable es : heap_closed (run initial es).
Proof. apply (heap_closed_run es initial heap_closed_initial). Qed.

(** ** Finalization through the registry *)

(** The six-second timeout and [finalizeMessages] finalize the buffer of one
    conversation and drop the registry entry of that conversation; no other
    conversation shares the buffer. *)

Ltac quiet_after_finalize Hq Hb Hi :=
  let E := fresh "E" in
  let Hbk := fresh "Hbk" in
  let Hfin := fresh "Hfin" in
  let v0 := fresh "v0" in
  intros Hbk (v0 & E & [-> | [-> ->]])%lookup_alter_inv Hfin;
  [ try (apply lookup_app_Some in E as [E|[_ E]];
         [|apply list_lookup_singleton_Some in E as [_ <-]; done]);
    try (injection Hbk as <-;
         rewrite lookup_app_r, Nat.sub_diag in E by done;
         injection E as <-; done);
    try (destruct (Hq _ _ _ Hbk E Hfin) as [? ?]; done);
    try (injection Hbk as <-; apply lookup_lt_Some in E; lia)
  | simpl; split; [done|]; try done;
    try (exfalso; match goal with
         | H1 : botMessages _ !! ?k = Some ?c, H2 : botMessages _ !! ?cid = Some ?c,
           Hne : ?k ≠ ?cid |- _ => apply Hne, (Hi k cid c H1 H2)
         end);
    try (exfalso; match goal with
         | H1 : botMessages _ !! _ = Some (length _) |- _ =>
             pose proof (Hb _ _ H1); lia
         end) ].

Lemma quiet_finalize_timeout cid s :
  heap_closed s → quiet s → quiet (N8N.finalize_timeout cid s).
Proof.
  intros (Ha & Hg & Hb & Hi) Hq k c v. unfold N8N.finalize_timeout.
  crush.
  all: destruct (decide (k = cid)) as [->|Hk].
  all: rewrite ?lookup_delete_eq, ?lookup_delete_ne by done.
  all: rewrite ?lookup_insert_eq, ?lookup_insert_ne by done.
  all: quiet_after_finalize Hq Hb Hi.
Qed.

Lemma quiet_finalizeMessages cid s :
  heap_closed s → quiet s → quiet (Direct.finalizeMessages cid s).
Proof.
  intros (Ha & Hg & Hb & Hi) Hq k c v. unfold Direct.finalizeMessages.
  crush.
  all: destruct (decide (k = cid)) as [->|Hk].
  all: rewrite ?lookup_delete_eq, ?lookup_delete_ne by done.
  all: rewrite ?lookup_insert_eq, ?lookup_insert_ne by done.
  all: try quiet_after_finalize Hq Hb Hi.
  all: intros Hbk E Hfin; destruct (Hq _ _ _ Hbk E Hfin) as [? ?]; done.
Qed.

Lemma quiet_fire_registry h t cid s s' :
  timers s !! h = Some t →
  callback t = GlobalFinalize cid ∨ callback t = DirectFinalize cid →
  fire h s = Some s' → heap_closed s → quiet s → quiet s'.
Proof.
  intros Ht Hcb. unfold fire. rewrite Ht.
  destruct (_ && _); [|done]. intros [= <-] H Hq.
  assert (H' : heap_closed (clearTimeout h s)) by exact H.
  assert (Hq' : quiet (clearTimeout h s)) by exact Hq.
  destruct Hcb as [-> | ->]; cbn [run_callback];
    [by apply quiet_finalize_timeout|by apply quiet_finalizeMessages].
Qed.

(** ** The examples are executions *)

Lemma examples_punctual :
  punctual initial finalized_events = true
  ∧ punctual initial collecting_events = true
  ∧ punctual initial sweep_events = true
  ∧ punctual initial collected_events = true
  ∧ punctual initial late_fragment_events = true.
Proof. vm_compute. repeat split; reflexivity. Qed.

(** ** Timer handles *)

Lemma timers_le_clear_all s : timers_le s (Direct.clear_all s).
Proof.
  split; simpl.
  - induction ((map_to_list (conversationTimeouts s)).*2) as [|h l IH]; simpl; [done|].
    by rewrite length_alter.
  - intros h t'. rewrite lookup_foldr_cancel.
    case_decide; [|by intros E; exists t'].
    destruct (timers s !! h) as [t|]; [|done]. intros [= <-]. by exists t.
Qed.

Lemma timers_poll cid s : timers (bot_response cid s).2 = timers s.
Proof. unfold bot_response. crush. Qed.

Lemma handles_bound_le s s' :
  handles_le s s' → (length (timers s) ≤ length (timers s'))%nat →
  handles_bound s → handles_bound s'.
Proof.
  intros Hle Hlen Hs c v' h Hv' Hh.
  destruct (Hle c v' Hv') as [E|(v & Hv & E)]; [congruence|].
  rewrite <- E in Hh. pose proof (Hs c v h Hv Hh). lia.
Qed.

Lemma timers_le_length s s' : timers_le s s' → length (timers s') = length (timers s).
Proof. by intros [? _]. Qed.

Lemma handles_bound_store_fallback_message cid x s :
  handles_bound s → handles_bound (N8N.store_fallback_message cid x s).
Proof.
  intros Hs c v h. unfold N8N.store_fallback_message. crush;
    rewrite ?convs_clear_if_set; simpl; lengths; rewrite ?length_timers_clear_if_set; simpl.
  all: intros (v0 & E & [-> | [-> ->]])%lookup_alter_inv; simpl.
  all: try (intros [= <-]; lengths; rewrite ?length_timers_clear_if_set; simpl; lia).
  all: try (apply lookup_app_Some in E as [E|[_ E]];
            [|apply list_lookup_singleton_Some in E as [_ <-]; by simpl]).
  all: intros Hh; pose proof (Hs _ _ _ E Hh); lia.
Qed.

Lemma handles_bound_cleanup s : handles_bound s → handles_bound (N8N.cleanup s).
Proof.
  intros Hs. unfold N8N.cleanup.
  assert (H : handles_bound (foldl (N8N.cleanup_entry (clock s - 5 * 60 * 1000)) s
                               (map_to_list (botMessages s)))).
  { apply (foldl_invariant handles_bound); [done|].
    intros x [key c] _ Hx. eapply handles_bound_le; [apply handles_le_cleanup_entry| |done].
    by rewrite (timers_le_length _ _ (cleanup_entry_timers _ x key c)). }
  exact H.
Qed.

Lemma handles_bound_step s e : handles_bound s → handles_bound (step s e).
Proof.
  intros Hs.
  destruct e as [oc otxt|c|body random|c msgs|timer|ms| |]; cbn [step].
  - apply (handles_bound_le s); [apply handles_le_eq| |done].
    + unfold track_user_message. crush. by rewrite convs_clear_if_set.
    + by rewrite (timers_le_length _ _ (proj1 (track_frame oc otxt s))).
  - apply (handles_bound_le s); [apply handles_le_eq| |done].
    + unfold bot_response. crush.
    + by rewrite timers_poll.
  - unfold N8N.botpress_webhook. cbn [snd]. apply handles_bound_cleanup.
    unfold N8N.process.
    destruct (N8N.isBotMessage _); [destruct (N8N.storable _); [|done]|].
    + apply (handles_bound_le s); [apply handles_le_eq| |done].
      * unfold N8N.store_bot_message. crush; by rewrite convs_clear_if_set.
      * destruct (rearmed_store_bot_message (default "" (N8N.conversationId (N8N.extract body)))
                    (N8N.extract body) random s) as [-> _].
        rewrite length_app, length_timers_clear_if_set. lia.
    + destruct (N8N.isUserMessage _); [done|].
      match goal with |- context [if ?b then _ else _] => destruct b end; [|done].
      by apply handles_bound_store_fallback_message.
  - destruct (decide (filter (fun msg => Direct.is_new_bot_message c s msg = true) msgs = []))
      as [E|E].
    + unfold Direct.monitor_tick. by rewrite E.
    + apply (handles_bound_le s); [apply handles_le_eq| |done].
      * unfold Direct.monitor_tick. destruct (0 <? _)%nat; [|done].
        destruct (globalMessages s !! c); simpl; rewrite convs_clear_if_set;
          match goal with
          | |- context [Direct.push_all ?a ?l ?x] =>
              by destruct (push_all_frame a l x) as (_ & _ & _ & _ & -> & _)
          end.
      * destruct (rearmed_monitor_tick c msgs s E) as [-> _].
        rewrite length_app, length_timers_clear_if_set. lia.
  - destruct (fire timer s) as [s'|] eqn:E; simpl; [|done].
    eapply handles_bound_le; [by eapply handles_le_fire| |done].
    destruct (fire_heap _ _ _ E) as (_ & _ & _ & Hle).
    by rewrite (timers_le_length _ _ Hle).
  - done.
  - done.
  - apply (handles_bound_le s); [by apply handles_le_eq| |done].
    by rewrite (timers_le_length _ _ (timers_le_clear_all s)).
Qed.

Lemma handles_bound_run es s : handles_bound s → handles_bound (run s es).
Proof.
  revert s. induction es as [|e es IH]; intros s Hs; [done|].
  simpl. by apply IH, handles_bound_step.
Qed.

Lemma handles_bound_initial : handles_bound initial.
Proof. intros c v h H. done. Qed.

(** The cleanup cancels timers of conversation data objects only. *)
Lemma cleanup_other_timers h s :
  (∀ c v, convs s !! c = Some v → deliveryTimeoutId v ≠ Some h) →
  timers (N8N.cleanup s) !! h = timers s !! h.
Proof.
  intros Hs. unfold N8N.cleanup. cbn [timers set_userMessages].
  apply (foldl_invariant (fun x =>
    (∀ c v, convs x !! c = Some v → deliveryTimeoutId v ≠ Some h)
    ∧ timers x !! h = timers s !! h)); [done|].
  intros x [key c] _ [Hx Ht]. split.
  - intros c' v' Hv' Hh.
    destruct (handles_le_cleanup_entry (clock s - 5 * 60 * 1000) x key c c' v' Hv')
      as [E|(v & Hv & E)]; [congruence|].
    apply (Hx c' v Hv). congruence.
  - rewrite <- Ht. unfold N8N.cleanup_entry.
    destruct (convs x !! c) as [value|] eqn:Ev; [|done].
    pose proof (Hx c value Ev) as Hne.
    destruct (_ && _); [done|].
    destruct (bool_decide (length _ ≠ _)); destruct (bool_decide (length _ = 0%nat)); simpl;
      try done.
    all: destruct (deliveryTimeoutId value) as [h'|]; simpl; [|done].
    all: rewrite list_lookup_alter_ne; [done|congruence].
Qed.

Lemma cancelled_stays t t' :
  due t' = due t → callback t' = callback t → pending t = false →
  (pending t' = true → pending t = true) → t' = t.
Proof.
  destruct t as [d c p], t' as [d' c' p']. simpl. intros -> -> -> H. f_equal.
  destruct p'; [by specialize (H eq_refl)|done].
Qed.

(** ** Timers are never revived *)

Lemma timers_ext_refl s : timers_ext s s.
Proof. intros h t H. by exists t. Qed.

Lemma timers_ext_trans s1 s2 s3 : timers_ext s1 s2 → timers_ext s2 s3 → timers_ext s1 s3.
Proof.
  intros H12 H23 h t1 E1.
  destruct (H12 h t1 E1) as (t2 & E2 & Ed2 & Ec2 & Ep2).
  destruct (H23 h t2 E2) as (t3 & E3 & Ed3 & Ec3 & Ep3).
  exists t3. repeat split; [done|congruence..|tauto].
Qed.

Lemma timers_ext_le s s' : timers_le s s' → timers_ext s s'.
Proof.
  intros [Hlen Hle] h t Ht.
  destruct (lookup_lt_is_Some_2 (timers s') h) as [t' Ht'].
  { rewrite Hlen. by eapply lookup_lt_Some. }
  destruct (Hle h t' Ht') as (t0 & Ht0 & Hd & Hc & Hp).
  assert (t0 = t) as -> by congruence. by exists t'.
Qed.

Lemma timers_ext_app s s' s0 l :
  timers_le s s0 → timers s' = timers s0 ++ l → timers_ext s s'.
Proof.
  intros Hle E h t Ht.
  destruct (timers_ext_le _ _ Hle h t Ht) as (t' & Ht' & H).
  exists t'. split; [|done]. rewrite E. by apply lookup_app_l_Some.
Qed.

Lemma timers_ext_step s e : timers_ext s (step s e).
Proof.
  destruct e as [oc otxt|c|body random|c msgs|timer|ms| |]; cbn [step].
  - apply timers_ext_le, track_frame.
  - apply timers_ext_le, timers_le_eq, timers_poll.
  - unfold N8N.botpress_webhook. cbn [snd].
    eapply timers_ext_trans; [|apply timers_ext_le, cleanup_frame].
    unfold N8N.process.
    destruct (N8N.isBotMessage _); [destruct (N8N.storable _); [|apply timers_ext_refl]|].
    + eapply timers_ext_app; [apply timers_le_clear_if_set|].
      apply rearmed_store_bot_message.
    + destruct (N8N.isUserMessage _); [apply timers_ext_refl|].
      match goal with |- context [if ?b then _ else _] => destruct b end;
        [|apply timers_ext_refl].
      destruct (store_fallback_message_timers
                  (default "" (N8N.conversationId (N8N.extract body))) (N8N.extract body) s)
        as (o & c & Ht & _).
      eapply timers_ext_app; [apply (timers_le_clear_if_set o)|exact Ht].
  - destruct (decide (filter (fun msg => Direct.is_new_bot_message c s msg = true) msgs = []))
      as [E|E].
    + unfold Direct.monitor_tick. rewrite E. apply timers_ext_refl.
    + eapply timers_ext_app; [apply timers_le_clear_if_set|].
      by apply rearmed_monitor_tick.
  - destruct (fire timer s) as [s'|] eqn:E; simpl; [|apply timers_ext_refl].
    apply timers_ext_le. by eapply fire_heap.
  - intros h t H. by exists t.
  - intros h t H. by exists t.
  - apply timers_ext_le, timers_le_clear_all.
Qed.

Lemma timers_ext_run es s : timers_ext s (run s es).
Proof.
  revert s. induction es as [|e es IH]; intros s; [apply timers_ext_refl|].
  simpl. eapply timers_ext_trans; [apply timers_ext_step|apply IH].
Qed.

(** ** No countdown fires early *)

Lemma waits_since_le cid T s s' :
  countdowns_le s s' → clock s <= clock s' → waits_since cid T s → waits_since cid T s'.
Proof.
  intros Hle Hclk [HT Hw]. split; [lia|].
  intros h t' Ht' Hp Hc.
  destruct (Hle h t' cid Ht' Hp Hc) as (t & Ht & Hpt & Hcb & Hdue).
  rewrite <- Hcb, <- Hdue. apply (Hw h t Ht Hpt). by rewrite Hcb.
Qed.

Lemma waits_since_rearmed cb c cid T s s' :
  rearmed cb c s s' → clock s' = clock s → waits_since cid T s → waits_since cid T s'.
Proof.
  intros Hre Hclk [HT Hw]. split; [lia|].
  intros h t' Ht' Hp Hc.
  destruct (rearmed_others _ _ _ _ _ _ Hre Ht' Hp) as [->|(t & Ht & Hpt & Hcb & Hdue & _)].
  - destruct (rearmed_fresh _ _ _ _ Hre) as [_ Hf]. rewrite Hf in Ht'.
    injection Ht' as <-. simpl. lia.
  - rewrite <- Hcb, <- Hdue. apply (Hw h t Ht Hpt). by rewrite Hcb.
Qed.

Lemma clock_process x random s : clock (N8N.process x random s) = clock s.
Proof.
  unfold N8N.process.
  destruct (N8N.isBotMessage _); [destruct (N8N.storable x); [|done]|].
  - by destruct (store_bot_message_shape (default "" (N8N.conversationId x)) x random s)
      as (? & ? & ? & _ & _ & -> & _).
  - destruct (N8N.isUserMessage _); [done|].
    match goal with |- context [if ?b then _ else _] => destruct b end; [|done].
    by destruct (store_fallback_message_timers (default "" (N8N.conversationId x)) x s)
      as (? & ? & _ & _ & _ & ->).
Qed.

Lemma waits_since_process cid T x random s :
  waits_since cid T s → waits_since cid T (N8N.process x random s).
Proof.
  intros Hw. pose proof (clock_process x random s) as Hclk. revert Hclk.
  unfold N8N.process.
  destruct (N8N.isBotMessage _); [destruct (N8N.storable x); [|done]|].
  - intros Hclk. eapply waits_since_rearmed; [apply rearmed_store_bot_message|done|done].
  - destruct (N8N.isUserMessage _); [done|].
    match goal with |- context [if ?b then _ else _] => destruct b end; [|done].
    intros Hclk. eapply waits_since_le; [apply countdowns_le_store_fallback_message| |done].
    lia.
Qed.

Lemma waits_since_step cid T s e : waits_since cid T s → waits_since cid T (step s e).
Proof.
  intros Hw. destruct e as [oc otxt|c|body random|c msgs|timer|ms| |]; cbn [step].
  - destruct (track_frame oc otxt s) as [Ht _].
    destruct (track_heap oc otxt s) as (Hc & _).
    eapply waits_since_le; [by apply countdowns_le_timers_le| |done]. lia.
  - eapply waits_since_le; [apply countdowns_le_eq, timers_poll| |done].
    unfold bot_response. crush; lia.
  - unfold N8N.botpress_webhook. cbn [snd].
    destruct (cleanup_frame (N8N.process (N8N.extract body) random s)) as (Ht & _ & _ & Hc & _).
    eapply waits_since_le; [by apply countdowns_le_timers_le| |by apply waits_since_process].
    lia.
  - destruct (decide (filter (fun msg => Direct.is_new_bot_message c s msg = true) msgs = []))
      as [E|E].
    + unfold Direct.monitor_tick. by rewrite E.
    + destruct (monitor_tick_shape c msgs s E) as (? & ? & _ & Hc & _).
      eapply waits_since_rearmed; [by apply rearmed_monitor_tick|done|done].
  - destruct (fire timer s) as [s'|] eqn:E; simpl; [|done].
    destruct (fire_heap _ _ _ E) as (Hc & _ & _ & Ht).
    eapply waits_since_le; [by apply countdowns_le_timers_le| |done]. lia.
  - destruct Hw as [HT Hw]. split; [simpl; lia|]. exact Hw.
  - done.
  - eapply waits_since_le; [apply countdowns_le_timers_le, timers_le_clear_all| |done].
    simpl. lia.
Qed.

Lemma waits_since_run cid T es s : waits_since cid T s → waits_since cid T (run s es).
Proof.
  revert s. induction es as [|e es IH]; intros s Hs; [done|].
  simpl. by apply IH, waits_since_step.
Qed.

(** After a fragment is stored through the [isBot] branch or the monitor,
    the registry has one pending timer for the conversation, due one quiet
    period later. *)
Lemma waits_since_stored cid s e :
  single_timer s → stores_tagged cid s e → waits_since cid (clock s) (step s e).
Proof.
  intros Hs He.
  assert (Hgen : ∀ cb s1, timer_conversation cb = Some cid → rearmed cb cid s s1 →
            clock s1 = clock s → waits_since cid (clock s) s1).
  { intros cb s1 Hcb Hre Hclk. split; [lia|]. intros h t Ht Hp Hc.
    pose proof (single_timer_rearmed cb cid s s1 Hcb Hre Hs h t cid Ht Hp Hc) as Hr.
    destruct (rearmed_fresh _ _ _ _ Hre) as [Hreg Hf].
    assert (h = length (timers s)) as -> by congruence.
    rewrite Hf in Ht. injection Ht as <-. simpl. lia. }
  destruct e as [oc otxt|c|body random|c msgs|timer|ms| |]; try done; cbn [step].
  - destruct He as (Hbot & Hst & Hcid).
    unfold N8N.botpress_webhook, N8N.process. cbn [snd]. rewrite Hbot, Hst, Hcid. simpl.
    set (s1 := N8N.store_bot_message cid (N8N.extract body) random s).
    destruct (cleanup_frame s1) as (Ht & _ & _ & Hc & _).
    eapply waits_since_le; [by apply countdowns_le_timers_le|lia|].
    apply (Hgen (GlobalFinalize cid)); [done|apply rearmed_store_bot_message|].
    subst s1. by destruct (store_bot_message_shape cid (N8N.extract body) random s)
      as (? & ? & ? & _ & _ & -> & _).
  - destruct He as [-> Hne].
    apply (Hgen (DirectFinalize cid)); [done|by apply rearmed_monitor_tick|].
    by destruct (monitor_tick_shape cid msgs s Hne) as (? & ? & _ & -> & _).
Qed.

(** * The properties of the specification *)

(** ** At-most-once delivery *)




(** ** The order of a delivery *)

(** C2.  When the conversation data is complete and holds an undelivered
    message, the poll answers READY with exactly the undelivered messages of
    the buffer, in ascending [timestamp] order, messages of equal [timestamp]
    in the order the buffer has them; in every reachable state that order is
    the order of insertion; and three vendor messages created at 300, 100 and
    200, collected in that order and finalized, are returned in the order
    100, 200, 300. *)
Theorem poll_ready_sorted :
  (∀ (cid : string) (s : State) (a : nat),
     conversationData_for cid s = Some (a, true) →
     (∃ m, m ∈ array_of s a ∧ undelivered s m = true) →
     ∃ ms, bot_response cid s = (Ready ms, deliver ms s)
       ∧ ms ≡ₚ filter (fun m => undelivered s m = true) (array_of s a)
       ∧ StronglySorted (fun x y => timestamp_of s x <= timestamp_of s y) ms
       ∧ ∀ t, filter (fun m => timestamp_of s m = t) ms
              = filter (fun m => timestamp_of s m = t)
                  (filter (fun m => undelivered s m = true) (array_of s a)))
  ∧ (∀ es cid ms s' i j x y,
       bot_response cid (run initial es) = (Ready ms, s') →
       (i < j)%nat → ms !! i = Some x → ms !! j = Some y →
       timestamp_of (run initial es) x = timestamp_of (run initial es) y →
       (x < y)%nat)
  ∧ (let vendor id created :=
       {| Direct.v_id := id; Direct.v_userId := "bot";
          Direct.v_conversationId := "c1";
          Direct.v_payload_text := Some "part"; Direct.v_payload_image := None;
          Direct.v_createdAt := created |} in
     let s := run initial
                [Track (Some "c1") (Some "hello");
                 MonitorTick "c1" [vendor "m1" 300; vendor "m2" 100; vendor "m3" 200];
                 Elapse 5000; Fire 0] in
     ∃ ms, (bot_response "c1" s).1 = Ready ms
           ∧ (fun m => from_option msgId "" (objs s !! m)) <$> ms = ["m2"; "m3"; "m1"]
           ∧ timestamp_of s <$> ms = [100; 200; 300]).
Proof.
  split; [|split].
  - intros cid s a Hc (m & Hm & Hu).
    exists (undelivered_sorted s (array_of s a)).
    assert (Hin : m ∈ undelivered_sorted s (array_of s a))
      by (by apply elem_of_undelivered_sorted).
    split; [|split; [|split]].
    + unfold bot_response. rewrite Hc.
      destruct (array_of s a) as [|x l] eqn:El; [by apply elem_of_nil in Hm|].
      simpl. destruct (undelivered_sorted s (x :: l)); [by apply elem_of_nil in Hin|done].
    + unfold undelivered_sorted. rewrite by_timestamp_key. apply sort_perm.
    + unfold undelivered_sorted. rewrite by_timestamp_key. apply sort_sorted.
    + intros t. unfold undelivered_sorted. rewrite by_timestamp_key.
      apply sort_stable.
  - intros es cid ms s' i j x y Hpoll Hij Hi Hj Hts.
    destruct (poll_ready_inv _ _ _ _ Hpoll) as (a & _ & -> & _).
    pose proof (ordered_run es initial ordered_initial) as Ho.
    eapply (ties_ordered_pair (objs (run initial es))); [|exact Hij|exact Hi|exact Hj|exact Hts].
    apply (well_ordered_sort_state (objs (run initial es))); [done|].
    apply well_ordered_filter. by apply ordered_heap_array_of.
  - exists [1%nat; 2%nat; 0%nat]. vm_compute. done.
Qed.

Lemma poll_ready_sorted_witness :
  (∃ ms, bot_response "c1" example_finalized = (Ready ms, deliver ms example_finalized)
         ∧ ms ≡ₚ [0%nat])
  ∧ (0 < 1)%nat.
Proof.
  split.
  - destruct (proj1 poll_ready_sorted "c1" example_finalized 0%nat)
      as (ms & H1 & H2 & _).
    + vm_compute. reflexivity.
    + exists 0%nat. split; [vm_compute; left | vm_compute; reflexivity].
    + exists ms. split; [exact H1|]. rewrite H2. vm_compute. reflexivity.
  - apply (proj1 (proj2 poll_ready_sorted)
             [Track (Some "c1") (Some "hello");
              MonitorTick "c1"
                [{| Direct.v_id := "m1"; Direct.v_userId := "bot";
                    Direct.v_conversationId := "c1";
                    Direct.v_payload_text := Some "first";
                    Direct.v_payload_image := None; Direct.v_createdAt := 100 |};
                 {| Direct.v_id := "m2"; Direct.v_userId := "bot";
                    Direct.v_conversationId := "c1";
                    Direct.v_payload_text := Some "second";
                    Direct.v_payload_image := None; Direct.v_createdAt := 100 |}];
              Elapse 5000; Fire 0]
             "c1" [0%nat; 1%nat]
             (deliver [0%nat; 1%nat]
                (run initial
                   [Track (Some "c1") (Some "hello");
                    MonitorTick "c1"
                      [{| Direct.v_id := "m1"; Direct.v_userId := "bot";
                          Direct.v_conversationId := "c1";
                          Direct.v_payload_text := Some "first";
                          Direct.v_payload_image := None; Direct.v_createdAt := 100 |};
                       {| Direct.v_id := "m2"; Direct.v_userId := "bot";
                          Direct.v_conversationId := "c1";
                          Direct.v_payload_text := Some "second";
                          Direct.v_payload_image := None; Direct.v_createdAt := 100 |}];
                    Elapse 5000; Fire 0]))
             0%nat 1%nat 0%nat 1%nat);
      [vm_compute; reflexivity | lia | reflexivity | reflexivity
      | vm_compute; reflexivity].
Defined.

(** ** A new cycle *)

(** C3, at the input where the code departs from it.  A fragment of the
    first cycle arms the six-second timeout; one second later a new user
    message is tracked for the same conversation.  Tracking overwrites the
    tracked message and clears both buffers, and a poll finds nothing; but
    the timeout of the first cycle is still pending, and when it fires it
    deletes the user message that was just tracked and files an empty
    finalized buffer. *)
Theorem track_leaves_finalize_timer_running :
  let before := run initial
                  [Track (Some "c1") (Some "hello");
                   webhook "c1" "Hi there" N8N.FlagTrue "k3x9pq"; Elapse 1000] in
  let after := step before (Track (Some "c1") (Some "next question")) in
  let fired := run after [Elapse 5000; Fire 0] in
  timers before !! 0%nat
    = Some {| due := 6000; callback := GlobalFinalize "c1"; pending := true |}
  ∧ um_text <$> userMessages after !! "c1" = Some "next question"
  ∧ botMessages after !! "c1" = None ∧ globalMessages after !! "c1" = None
  ∧ (bot_response "c1" after).1 = NoMessages
  ∧ conversationTimeouts after !! "c1" = Some 0%nat
  ∧ timers after !! 0%nat
    = Some {| due := 6000; callback := GlobalFinalize "c1"; pending := true |}
  ∧ userMessages fired !! "c1" = None
  ∧ (botMessages fired !! "c1" ≫= fun c => allMessagesReceived <$> convs fired !! c)
    = Some true
  ∧ (bot_response "c1" fired).1 = NoMessages.
Proof. vm_compute. repeat split; reflexivity. Qed.

(** ** The quiet-period countdown *)

(** C4, as the code has it.  The registry [global.conversationTimeouts]
    holds at most one live timer per conversation in every reachable state.
    Whatever happened before, a fragment stored by the [isBot] branch of the
    webhook, or collected by the monitor, for a conversation whose id is not
    the name of an inherited property, cancels the countdown registered for
    the conversation and arms a fresh one of fixed length (6000 ms for the
    webhook, 5000 ms for the monitor), which is then the only live registry
    timer of the conversation.  A timer never fires before it is due.  So,
    whatever happens before and after such a fragment, no countdown of the
    registry goes off for its conversation less than one quiet period after
    it; and in a run without untagged fragments, when the countdown of a
    conversation fires, every fragment collected for the conversation
    arrived at least one quiet period earlier. *)
Theorem tagged_append_debounces :
  (∀ es, single_timer (run initial es))
  ∧ (∀ es body random cid,
       Js.inherited cid = false →
       N8N.isBotMessage (N8N.isBot (N8N.extract body)) = true →
       N8N.storable (N8N.extract body) = true →
       N8N.conversationId (N8N.extract body) = Some cid →
       let s := run initial es in
       let s' := step s (Webhook body random) in
       conversationTimeouts s' !! cid = Some (length (timers s))
       ∧ timers s' !! length (timers s)
         = Some {| due := clock s + 6000; callback := GlobalFinalize cid; pending := true |}
       ∧ (∀ h0 t0, conversationTimeouts s !! cid = Some h0 → timers s !! h0 = Some t0 →
            timers s' !! h0 = Some (cancel t0))
       ∧ (∀ h t, timers s' !! h = Some t → pending t = true →
            timer_conversation (callback t) = Some cid → h = length (timers s)))
  ∧ (∀ es cid msgs,
       Js.inherited cid = false →
       filter (fun msg => Direct.is_new_bot_message cid (run initial es) msg = true) msgs ≠ [] →
       let s := run initial es in
       let s' := step s (MonitorTick cid msgs) in
       conversationTimeouts s' !! cid = Some (length (timers s))
       ∧ timers s' !! length (timers s)
         = Some {| due := clock s + 5000; callback := DirectFinalize cid; pending := true |}
       ∧ (∀ h0 t0, conversationTimeouts s !! cid = Some h0 → timers s !! h0 = Some t0 →
            timers s' !! h0 = Some (cancel t0))
       ∧ (∀ h t, timers s' !! h = Some t → pending t = true →
            timer_conversation (callback t) = Some cid → h = length (timers s)))
  ∧ (∀ h s s', fire h s = Some s' →
       ∃ t, timers s !! h = Some t ∧ pending t = true ∧ due t <= clock s)
  ∧ (∀ es e cid es' h t s'',
       Js.inherited cid = false →
       stores_tagged cid (run initial es) e →
       let s := run initial es in
       let x := run (step s e) es' in
       timers x !! h = Some t → timer_conversation (callback t) = Some cid →
       fire h x = Some s'' →
       clock s + quiet_period (callback t) <= clock x)
  ∧ (∀ es h t cid a m o s',
       Forall (fun e => tagged e = true) es →
       let s := run initial es in
       timers s !! h = Some t → timer_conversation (callback t) = Some cid →
       fire h s = Some s' →
       globalMessages s !! cid = Some a → m ∈ array_of s a → objs s !! m = Some o →
       receivedAt o + quiet_period (callback t) <= clock s).
Proof.
  split; [|split; [|split; [|split; [|split]]]].
  - intros es. apply single_timer_run, single_timer_initial.
  - intros es body random cid _ Hbot Hst Hcid s s'.
    pose proof (single_timer_run es initial single_timer_initial) as Hsingle.
    pose proof (handles_bound_run es initial handles_bound_initial) as Hhb.
    fold s in Hsingle, Hhb.
    set (s1 := N8N.store_bot_message cid (N8N.extract body) random s).
    assert (Hs' : s' = N8N.cleanup s1).
    { subst s' s1. cbn [step]. unfold N8N.botpress_webhook, N8N.process.
      by rewrite Hbot, Hst, Hcid. }
    assert (Hre : rearmed (GlobalFinalize cid) cid s s1) by apply rearmed_store_bot_message.
    assert (Hcv : convs s1 = convs s).
    { subst s1. unfold N8N.store_bot_message. crush; by rewrite convs_clear_if_set. }
    destruct (cleanup_frame s1) as (Hle & Hreg & _).
    destruct (rearmed_fresh _ _ _ _ Hre) as [Hr Hf].
    assert (Hsingle' : single_timer s').
    { rewrite Hs'. eapply single_timer_le; [by apply countdowns_le_timers_le|done|].
      by eapply single_timer_rearmed; [|exact Hre|]. }
    assert (Hr' : conversationTimeouts s' !! cid = Some (length (timers s)))
      by by rewrite Hs', Hreg.
    split; [done|]. split; [|split].
    + rewrite Hs', cleanup_other_timers; [done|].
      intros c v Hv Hh. rewrite Hcv in Hv. pose proof (Hhb c v _ Hv Hh). lia.
    + intros h0 t0 Hh0 Ht0.
      pose proof (rearmed_old _ _ _ _ _ _ Hre Hh0 Ht0) as H1.
      destruct (timers_ext_le _ _ Hle h0 _ H1) as (t' & Ht' & Hd & Hc & Hp).
      rewrite Hs', Ht'. f_equal. by apply cancelled_stays.
    + intros h t Ht Hp Hc. pose proof (Hsingle' h t cid Ht Hp Hc). congruence.
  - intros es cid msgs _ Hne s s'.
    pose proof (single_timer_run es initial single_timer_initial) as Hsingle.
    fold s in Hsingle, Hne.
    assert (Hre : rearmed (DirectFinalize cid) cid s s') by (by apply rearmed_monitor_tick).
    destruct (rearmed_fresh _ _ _ _ Hre) as [Hr Hf].
    split; [done|]. split; [done|]. split.
    + intros h0 t0 Hh0 Ht0. by eapply rearmed_old.
    + intros h t Ht Hp Hc.
      pose proof (single_timer_rearmed (DirectFinalize cid) cid s s' eq_refl Hre Hsingle
                    h t cid Ht Hp Hc).
      congruence.
  - apply fire_inv.
  - intros es e cid es' h t s'' _ He s x Ht Hc Hfire.
    pose proof (single_timer_run es initial single_timer_initial) as Hsingle.
    pose proof (waits_since_run cid (clock s) es' (step s e)
                  (waits_since_stored cid s e Hsingle He)) as [_ Hw].
    destruct (fire_inv h x s'' Hfire) as (t' & Ht' & Hp & Hdue).
    fold x in Hw. rewrite Ht in Ht'. injection Ht' as <-.
    pose proof (Hw h t Ht Hp Hc). lia.
  - intros es h t cid a m o s' Hes s Ht Hc Hfire Hg Hm Ho.
    destruct (fire_inv h s s' Hfire) as (t' & Ht' & Hp & Hdue).
    rewrite Ht in Ht'. injection Ht' as <-.
    pose proof (debounced_run es initial Hes debounced_initial) as Hdb. fold s in Hdb.
    pose proof (db_quiet s Hdb cid a h t m o Hg Ht Hp Hc Hm Ho). lia.
Qed.

Lemma tagged_append_debounces_witness :
  (let es := [webhook "c1" "Goedemiddag, waarmee kan ik u helpen?" N8N.FlagAbsent "";
              Elapse 1000;
              webhook "c1" "Hi there" N8N.FlagTrue "k3x9pq";
              Elapse 2000] in
   let s' := step (run initial es) (webhook "c1" "One more thing" N8N.FlagTrue "p0q1r2") in
   punctual initial (es ++ [webhook "c1" "One more thing" N8N.FlagTrue "p0q1r2"]) = true
   ∧ conversationTimeouts s' !! "c1" = Some 2%nat
   ∧ timers s' !! 2%nat
     = Some {| due := 9000; callback := GlobalFinalize "c1"; pending := true |}
   ∧ timers s' !! 1%nat
     = Some {| due := 7000; callback := GlobalFinalize "c1"; pending := false |})
  ∧ (let es := [webhook "c1" "Goedemiddag, waarmee kan ik u helpen?" N8N.FlagAbsent "";
                Elapse 1000] in
     let e := webhook "c1" "Hi there" N8N.FlagTrue "k3x9pq" in
     let es' := [Elapse 5000; Fire 0; Poll "c1"; Elapse 1000] in
     punctual initial (es ++ e :: es') = true
     ∧ is_Some (fire 1 (run (step (run initial es) e) es'))
     ∧ clock (run initial es) + 6000 <= clock (run (step (run initial es) e) es'))
  ∧ (let es := [Track (Some "c1") (Some "hello");
                webhook "c1" "Hi there" N8N.FlagTrue "k3x9pq";
                Elapse 2000;
                webhook "c1" "One more thing" N8N.FlagTrue "p0q1r2";
                Elapse 6000] in
     punctual initial es = true
     ∧ fire 0 (run initial es) = None
     ∧ is_Some (fire 1 (run initial es))
     ∧ receivedAt {| text := Some "One more thing"; image := None; timestamp := 2000;
                     receivedAt := 2000; msgId := "bot-msg-2000-p0q1r2";
                     delivered := false |}
       + quiet_period (GlobalFinalize "c1")
       <= clock (run initial es)).
Proof.
  destruct tagged_append_debounces as (_ & Hrearm & _ & _ & Hlate & Hdebounce).
  split; [|split].
  - split; [vm_compute; reflexivity|].
    destruct (Hrearm
                [webhook "c1" "Goedemiddag, waarmee kan ik u helpen?" N8N.FlagAbsent "";
                 Elapse 1000;
                 webhook "c1" "Hi there" N8N.FlagTrue "k3x9pq";
                 Elapse 2000]
                {| N8N.body_data := None;
                   N8N.top := {| N8N.f_conversationId := Some "c1";
                                 N8N.f_payload_text := None;
                                 N8N.f_payload_image := None;
                                 N8N.f_payload_imageUrl := None;
                                 N8N.f_text := Some "One more thing";
                                 N8N.f_image := None; N8N.f_imageUrl := None;
                                 N8N.f_isBot := N8N.FlagTrue |} |}
                "p0q1r2" "c1") as (H1 & H2 & H3 & _).
    + reflexivity.
    + reflexivity.
    + reflexivity.
    + reflexivity.
    + split; [exact H1|]. split; [exact H2|].
      apply (H3 1%nat {| due := 7000; callback := GlobalFinalize "c1"; pending := true |}).
      * vm_compute. reflexivity.
      * vm_compute. reflexivity.
  - split; [vm_compute; reflexivity|]. split; [vm_compute; eauto|].
    eapply (Hlate
              [webhook "c1" "Goedemiddag, waarmee kan ik u helpen?" N8N.FlagAbsent "";
               Elapse 1000]
              (webhook "c1" "Hi there" N8N.FlagTrue "k3x9pq") "c1"
              [Elapse 5000; Fire 0; Poll "c1"; Elapse 1000] 1%nat
              {| due := 7000; callback := GlobalFinalize "c1"; pending := true |}).
    + reflexivity.
    + repeat split; reflexivity.
    + vm_compute. reflexivity.
    + reflexivity.
    + vm_compute. reflexivity.
  - split; [vm_compute; reflexivity|]. split; [vm_compute; reflexivity|].
    split; [vm_compute; eauto|].
    eapply (Hdebounce
              [Track (Some "c1") (Some "hello");
               webhook "c1" "Hi there" N8N.FlagTrue "k3x9pq";
               Elapse 2000;
               webhook "c1" "One more thing" N8N.FlagTrue "p0q1r2";
               Elapse 6000]
              1%nat {| due := 8000; callback := GlobalFinalize "c1"; pending := true |}
              "c1" 0%nat 1%nat).
    + repeat constructor.
    + vm_compute. reflexivity.
    + reflexivity.
    + vm_compute. reflexivity.
    + vm_compute. reflexivity.
    + vm_compute. right. left.
    + vm_compute. reflexivity.
Defined.

(** Two fragments of one reply, the first untagged and the second tagged:
    two countdowns run for the conversation, and the first one finalizes the
    buffer four seconds after the second fragment arrived. *)
Lemma append_leaves_other_countdown_running :
  let es := [webhook "c1" "Goedemiddag, waarmee kan ik u helpen?" N8N.FlagAbsent "";
             Elapse 2000;
             webhook "c1" "Hi there" N8N.FlagTrue "k3x9pq"] in
  let s := run initial es in
  let s' := run s [Elapse 4000; Fire 0] in
  punctual initial (es ++ [Elapse 4000; Fire 0]) = true
  ∧ timers s = [{| due := 6000; callback := FallbackFinalize 0; pending := true |};
                {| due := 8000; callback := GlobalFinalize "c1"; pending := true |}]
  ∧ botMessages s !! "c1" = Some 0%nat
  ∧ (receivedAt <$> objs s) = [0; 2000]
  ∧ clock s' = 6000
  ∧ (bot_response "c1" s').1 = Ready [0%nat].
Proof. vm_compute. repeat split; reflexivity. Qed.

(** ** Deduplication by id *)

(** C5, as the code has it.  In the direct backend a listed message whose id
    is already in the collected buffer of the conversation is skipped: a tick
    appends exactly the listed messages that pass the filter, none of which
    has an id the buffer held, and a tick that lists only ids the buffer
    holds leaves the whole state as it is; listing the same message in two
    ticks gives a buffer of size 1. *)
Theorem monitor_skips_stored_ids
  (cid : string) (msgs : list Direct.VendorMessage) (s : State) (a : nat) :
  globalMessages s !! cid = Some a → (a < length (arrs s))%nat →
  let stored := array_of s a in
  let fresh := filter (fun msg => Direct.is_new_bot_message cid s msg = true) msgs in
  let s' := Direct.monitor_tick cid msgs s in
  (∀ msg m, msg ∈ fresh → m ∈ stored → Direct.has_id s (Direct.v_id msg) m = false)
  ∧ ((∀ msg, msg ∈ msgs → ∃ m, m ∈ stored ∧ Direct.has_id s (Direct.v_id msg) m = true) →
     s' = s)
  ∧ globalMessages s' !! cid = Some a
  ∧ objs s' = objs s ++ (Direct.to_message (clock s) <$> fresh)
  ∧ array_of s' a = stored ++ seq (length (objs s)) (length fresh)
  ∧ (let m1 := {| Direct.v_id := "m1"; Direct.v_userId := "bot";
                  Direct.v_conversationId := "c1";
                  Direct.v_payload_text := Some "Hi there";
                  Direct.v_payload_image := None; Direct.v_createdAt := 1000 |} in
     let twice := run initial [MonitorTick "c1" [m1]; Elapse 2000; MonitorTick "c1" [m1]] in
     from_option (array_of twice) [] (globalMessages twice !! "c1") = [0%nat]).
Proof.
  intros Hg Ha stored fresh s'.
  assert (Hstored : from_option (array_of s) [] (globalMessages s !! cid) = stored)
    by (by rewrite Hg).
  split; [|split; [|split; [|split; [|split]]]].
  - intros msg m Hmsg Hm. apply list_elem_of_filter in Hmsg as [Hnew _].
    apply (new_has_fresh_id cid); [done|by rewrite Hstored].
  - intros Hall. subst s'. unfold Direct.monitor_tick. fold fresh.
    assert (fresh = []) as ->; [|done].
    apply filter_none. intros msg Hmsg Hnew.
    destruct (Hall msg Hmsg) as (m & Hm & Hid).
    rewrite (not_new_when_stored cid s msg m) in Hnew; [done| |done].
    by rewrite Hstored.
  - subst s'. unfold Direct.monitor_tick. fold fresh. rewrite Hg.
    destruct (0 <? _)%nat; [|done]. simpl.
    rewrite globalMessages_clear_if_set.
    by destruct (push_all_frame a (Direct.to_message (clock s) <$> fresh) s) as (-> & _).
  - subst s'. unfold Direct.monitor_tick. fold fresh. rewrite Hg.
    destruct (0 <? _)%nat eqn:E.
    + simpl. by rewrite objs_clear_if_set, objs_push_all.
    + destruct fresh; [by rewrite app_nil_r|done].
  - subst s'. unfold Direct.monitor_tick. fold fresh. rewrite Hg.
    destruct (0 <? _)%nat eqn:E.
    + unfold array_of. simpl. rewrite arrs_clear_if_set, push_all_arrs.
      rewrite list_lookup_alter_eq, length_fmap.
      destruct (lookup_lt_is_Some_2 (arrs s) a Ha) as [l Hl].
      subst stored. unfold array_of. by rewrite Hl.
    + destruct fresh; [by rewrite app_nil_r|done].
  - vm_compute. reflexivity.
Qed.

Lemma monitor_skips_stored_ids_witness :
  Direct.monitor_tick "c1"
    [{| Direct.v_id := "m1"; Direct.v_userId := "bot";
        Direct.v_conversationId := "c1";
        Direct.v_payload_text := Some "Hi there";
        Direct.v_payload_image := None; Direct.v_createdAt := 1000 |}]
    example_collected
  = example_collected.
Proof.
  destruct (monitor_skips_stored_ids "c1"
    [{| Direct.v_id := "m1"; Direct.v_userId := "bot";
        Direct.v_conversationId := "c1";
        Direct.v_payload_text := Some "Hi there";
        Direct.v_payload_image := None; Direct.v_createdAt := 1000 |}]
    example_collected 0%nat) as (_ & Hskip & _).
  - vm_compute. reflexivity.
  - vm_compute. lia.
  - apply Hskip. intros msg Hmsg. apply list_elem_of_singleton in Hmsg as ->.
    exists 0%nat. split; [vm_compute; left|vm_compute; reflexivity].
Defined.

(** In the webhook backend two untagged fragments that arrive in the same
    millisecond get the same id, and both are stored. *)
Lemma append_same_id_stored_twice :
  let first := webhook "c1" "Goedemiddag, waarmee kan ik u helpen?" N8N.FlagAbsent "" in
  let second := webhook "c1" "Nog iets anders, kan ik helpen?" N8N.FlagAbsent "" in
  buffer_ids (run initial [first]) "c1" = ["bot-fallback-0"]
  ∧ buffer_ids (run initial [first; second]) "c1" = ["bot-fallback-0"; "bot-fallback-0"].
Proof. vm_compute. done. Qed.

(** ** Rejected fragments *)

(** C6, as the code has it.  A webhook call whose fragment has neither text
    nor image, or whose text holds the characters [{{ $json], stores
    nothing: the classify-and-store step leaves the state as it is, the
    caller gets the usual acknowledgement, and the handler's whole effect is
    that of the cleanup, which creates no message, lets no buffer grow and
    creates or re-arms no timer.  The condition [allocated] holds in every
    reachable state ([heap_closed_reachable]). *)
Theorem rejected_fragment_no_effect
  (body : N8N.WebhookBody) (random : string) (s : State) :
  let x := N8N.extract body in
  (Js.truthy (N8N.botText x) = false ∧ Js.truthy (N8N.botImage x) = false)
  ∨ (∃ t, N8N.botText x = Some t ∧ Js.includes "{{ $json" t = true) →
  allocated s →
  N8N.process x random s = s
  ∧ ∃ s', N8N.botpress_webhook body random s = (N8N.WebhookReceived, s')
      ∧ s' = N8N.cleanup s
      ∧ objs s' = objs s
      ∧ (∀ key a l, globalMessages s !! key = Some a → arrs s !! a = Some l →
           globalMessages s' !! key = Some a ∧ arrs s' !! a = Some l)
      ∧ (∀ key c v', botMessages s' !! key = Some c → convs s' !! c = Some v' →
           botMessages s !! key = Some c
           ∧ ∃ v, convs s !! c = Some v
                  ∧ (length (content s' v') ≤ length (content s v))%nat)
      ∧ timers_le s s'.
Proof.
  intros x Hrej Ha.
  assert (Hns : N8N.storable x = false).
  { unfold N8N.storable, N8N.placeholder_free.
    destruct Hrej as [[Ht Hi]|(t & Ht & Hinc)].
    - rewrite Ht, Hi. simpl. by rewrite andb_false_r.
    - rewrite Ht. rewrite (includes_placeholder_truthy t Hinc). simpl.
      rewrite Hinc. apply andb_false_r. }
  pose proof (process_not_storable x random s Hns) as Hp.
  split; [exact Hp|]. exists (N8N.cleanup s).
  unfold N8N.botpress_webhook. fold x. rewrite Hp.
  destruct (cleanup_swept s Ha) as [Ho _ Hg _ (ext & Harr) Hlen _ Hcv Htm Hb].
  split; [done|]. split; [done|]. split; [done|]. split; [|split].
  - intros key a l Hk Hl. split; [by rewrite Hg|].
    rewrite Harr. by apply lookup_app_l_Some.
  - intros key c v' Hbm Hv'. split; [by eapply lookup_weaken|].
    assert (is_Some (convs s !! c)) as [v Hv].
    { apply lookup_lt_is_Some. rewrite <- Hlen. by eapply lookup_lt_Some. }
    exists v. split; [done|].
    destruct (Hcv c v Hv) as (v2 & Hv2 & _ & _ & Hcont).
    rewrite Hv' in Hv2. injection Hv2 as <-.
    destruct Hcont as [-> | [_ ->]]; [done|]. apply length_filter.
  - exact Htm.
Qed.

Lemma rejected_fragment_no_effect_witness :
  N8N.botpress_webhook
    {| N8N.body_data := None;
       N8N.top := {| N8N.f_conversationId := Some "c1";
                     N8N.f_payload_text := None; N8N.f_payload_image := None;
                     N8N.f_payload_imageUrl := None;
                     N8N.f_text := Some "{{ $json.output }}";
                     N8N.f_image := None; N8N.f_imageUrl := None;
                     N8N.f_isBot := N8N.FlagTrue |} |} "k3x9pq" example_collecting
  = (N8N.WebhookReceived, N8N.cleanup example_collecting).
Proof.
  destruct (rejected_fragment_no_effect
              {| N8N.body_data := None;
                 N8N.top := {| N8N.f_conversationId := Some "c1";
                               N8N.f_payload_text := None; N8N.f_payload_image := None;
                               N8N.f_payload_imageUrl := None;
                               N8N.f_text := Some "{{ $json.output }}";
                               N8N.f_image := None; N8N.f_imageUrl := None;
                               N8N.f_isBot := N8N.FlagTrue |} |} "k3x9pq"
              example_collecting) as (_ & s' & Hw & -> & _).
  - right. exists "{{ $json.output }}". split; vm_compute; reflexivity.
  - apply allocated_Forall. vm_compute. repeat constructor.
  - exact Hw.
Defined.

(** A placeholder the handler does not know.  It looks for the characters
    [{{ $json] only: the same placeholder written without the blank, or a
    placeholder of another variable, is stored like any text, arms the
    countdown and is delivered. *)
Lemma unfiltered_placeholder_is_delivered :
  let arrives t :=
    let es := [Track (Some "c1") (Some "hello");
               webhook "c1" t N8N.FlagTrue "k3x9pq"] in
    let s := run initial es in
    let s' := run s [Elapse 6000; Fire 0] in
    punctual initial (es ++ [Elapse 6000; Fire 0]) = true
    ∧ collected "c1" s = [0%nat]
    ∧ timers s = [{| due := 6000; callback := GlobalFinalize "c1"; pending := true |}]
    ∧ (bot_response "c1" s').1 = Ready [0%nat]
    ∧ texts_of s' [0%nat] = [Some t] in
  arrives "{{$json.output}}" ∧ arrives "{{ $('Agent').item.json.output }}".
Proof. vm_compute. repeat split; reflexivity. Qed.

(** ** The cleanup *)

(** C7, as the code has it.  One run of the cleanup, which works on the
    entries of [botMessages] and on [userMessages].  An entry that is not
    finalized and holds a timer handle stays in [botMessages] with all its
    messages, whatever their age.  Of every other entry the messages older
    than five minutes are dropped from the entry; if none is left, the
    entry's timer is cancelled and the entry is deleted, otherwise the entry
    stays.  The tracked user messages older than five minutes are deleted,
    the others stay.  Nothing else is pruned: [globalMessages], the arrays
    it holds, the timer registry and the message objects are what they
    were.  The condition [allocated] holds in every reachable state
    ([heap_closed_reachable]). *)
Theorem cleanup_spec (s : State) :
  allocated s →
  let ago := clock s - 5 * 60 * 1000 in
  let s' := N8N.cleanup s in
  (∀ key c v, botMessages s !! key = Some c → convs s !! c = Some v →
     allMessagesReceived v = false → is_Some (deliveryTimeoutId v) →
     botMessages s' !! key = Some c ∧ convs s' !! c = Some v
     ∧ content s' v = content s v)
  ∧ (∀ key c v, botMessages s !! key = Some c → convs s !! c = Some v →
     allMessagesReceived v = true ∨ deliveryTimeoutId v = None →
     let kept := filter (recent ago s) (content s v) in
     ∃ v', convs s' !! c = Some v' ∧ same_flags v v' ∧ content s' v' = kept
           ∧ (kept ≠ [] → botMessages s' !! key = Some c)
           ∧ (kept = [] →
              botMessages s' !! key = None
              ∧ ∀ h t, deliveryTimeoutId v = Some h →
                       timers s' !! h = Some t → pending t = false))
  ∧ (∀ key um, userMessages s !! key = Some um →
       userMessages s' !! key = if decide (um_timestamp um < ago) then None else Some um)
  ∧ (globalMessages s' = globalMessages s
     ∧ conversationTimeouts s' = conversationTimeouts s
     ∧ objs s' = objs s
     ∧ ∀ a l, arrs s !! a = Some l → arrs s' !! a = Some l).
Proof.
  intros Ha ago s'.
  assert (Hloop : ∀ key c v, botMessages s !! key = Some c → convs s !! c = Some v →
            visited ago s key c v s').
  { intros key c v Hb Hv. subst s'. unfold N8N.cleanup.
    pose proof (cleanup_loop ago s (map_to_list (botMessages s)) s key c v
                  (NoDup_fst_map_to_list _) (swept_start _ s Ha) Hv) as H.
    specialize (H (proj2 (elem_of_map_to_list _ _ _) Hb) Hb).
    unfold visited in *. exact H. }
  split; [|split; [|split]].
  - intros key c v Hb Hv Hfin [h Hh].
    specialize (Hloop key c v Hb Hv). unfold visited in Hloop.
    assert (collecting v = true) as Hc by (unfold collecting; by rewrite Hfin, Hh).
    by rewrite Hc in Hloop.
  - intros key c v Hb Hv Hfin kept.
    specialize (Hloop key c v Hb Hv). unfold visited in Hloop.
    assert (collecting v = false) as Hc.
    { unfold collecting. destruct Hfin as [-> | ->]; [done|]. apply andb_false_r. }
    rewrite Hc in Hloop. destruct Hloop as (v' & E' & Hsf & Hcont & Hrest).
    exists v'. split; [done|]. split; [done|]. split; [done|].
    fold kept in Hrest. case_decide; split; done.
  - intros key um Hu. subst s'. rewrite userMessages_cleanup. fold ago.
    case_decide as Hold.
    + apply map_lookup_filter_None. right. intros um' Hu'. simpl.
      rewrite Hu in Hu'. injection Hu' as <-. tauto.
    + apply map_lookup_filter_Some. split; [done|]. simpl. done.
  - destruct (cleanup_frame s) as (_ & Hreg & Hg & _ & ext & Harr).
    split; [done|]. split; [done|]. split; [apply objs_cleanup|].
    intros a l Hl. subst s'. rewrite Harr. by apply lookup_app_l_Some.
Qed.

Lemma cleanup_spec_witness :
  punctual initial sweep_events = true
  ∧ clock example_sweep = 305000
  ∧ (∃ v, botMessages (N8N.cleanup example_sweep) !! "c1" = Some 0%nat
          ∧ convs (N8N.cleanup example_sweep) !! 0%nat = Some v
          ∧ content (N8N.cleanup example_sweep) v = content example_sweep v
          ∧ length (content example_sweep v) = 61%nat
          ∧ timestamp_of example_sweep <$> content example_sweep v !! 0%nat = Some 0)
  ∧ botMessages example_sweep !! "c2" = Some 1%nat
  ∧ botMessages (N8N.cleanup example_sweep) !! "c2" = None.
Proof.
  assert (Ha : allocated example_sweep).
  { apply allocated_Forall. vm_compute. repeat constructor. }
  destruct (cleanup_spec example_sweep Ha) as (Hkeep & Hdrop & _).
  split; [vm_compute; reflexivity|]. split; [vm_compute; reflexivity|]. split; [|split].
  - destruct (Hkeep "c1" 0%nat
                {| messages := 0; lastDelivered := 0; allMessagesReceived := false;
                   deliveryTimeoutId := Some 61%nat |})
      as (H1 & H2 & H3).
    + vm_compute. reflexivity.
    + vm_compute. reflexivity.
    + reflexivity.
    + simpl. eauto.
    + eexists. split; [exact H1|]. split; [exact H2|]. split; [exact H3|].
      split; vm_compute; reflexivity.
  - vm_compute. reflexivity.
  - destruct (Hdrop "c2" 1%nat
                {| messages := 1; lastDelivered := 0; allMessagesReceived := true;
                   deliveryTimeoutId := None |})
      as (v' & _ & _ & _ & _ & Hgone).
    + vm_compute. reflexivity.
    + vm_compute. reflexivity.
    + by left.
    + apply Hgone. vm_compute. reflexivity.
Defined.

(** What the cleanup drops from an entry, or deletes with it, is still
    delivered.  A tagged fragment at 0 is finalized at 6 s; the cleanup of
    a webhook call at 306 s deletes the entry of the conversation, and the
    poll after it answers READY with the fragment, from [globalMessages].
    And when a second tagged fragment arrives at 301 s, the cleanup of that
    call drops the first fragment from the entry, and the finalization at
    307 s puts it back. *)
Lemma sweep_leaves_old_fragment_deliverable :
  (let es := [webhook "c1" "Hi there" N8N.FlagTrue "k3x9pq"; Elapse 6000; Fire 0;
              Elapse 300000] in
   let s := run initial es in
   let s' := step s (webhook "c2" "hello" N8N.FlagFalse "") in
   punctual initial (es ++ [webhook "c2" "hello" N8N.FlagFalse ""]) = true
   ∧ buffer_of s "c1" = [0%nat]
   ∧ botMessages s' !! "c1" = None
   ∧ clock s' = 306000 ∧ timestamp_of s' 0%nat = 0
   ∧ (bot_response "c1" s').1 = Ready [0%nat])
  ∧ (let es := [webhook "c1" "Hi there" N8N.FlagTrue "k3x9pq"; Elapse 6000; Fire 0;
                Elapse 295000] in
     let s := run initial es in
     let s' := step s (webhook "c1" "One more thing" N8N.FlagTrue "p0q1r2") in
     let s'' := run s' [Elapse 6000; Fire 1] in
     punctual initial
       (es ++ [webhook "c1" "One more thing" N8N.FlagTrue "p0q1r2"; Elapse 6000; Fire 1])
     = true
     ∧ buffer_of s "c1" = [0%nat]
     ∧ buffer_of s' "c1" = [1%nat]
     ∧ buffer_of s'' "c1" = [0%nat; 1%nat]
     ∧ clock s'' = 307000 ∧ timestamp_of s'' 0%nat = 0
     ∧ (bot_response "c1" s'').1 = Ready [0%nat; 1%nat]).
Proof. vm_compute. repeat split; reflexivity. Qed.

(** ** Validation of a tracking call *)

(** C8.  Tracking fails exactly when the conversation id or the text is
    missing or empty; the caller then gets the validation error at once and
    the whole state (tracked messages, buffers, timers) is what it was;
    in every other case the call succeeds. *)
Theorem track_validation (conversationId text : option string) (s : State) :
  ((missing conversationId ∨ missing text)
   ∧ track_user_message conversationId text s = (TrackBadRequest, s))
  ∨ (¬ missing conversationId ∧ ¬ missing text
     ∧ (track_user_message conversationId text s).1 = TrackOk).
Proof.
  unfold track_user_message, missing.
  destruct conversationId as [cid|]; [|left; split; [left; by left|done]].
  destruct text as [txt|]; [|left; split; [right; by left|done]].
  destruct (String.eqb_spec cid "") as [->|Hc]; simpl;
    [left; split; [left; by right|done]|].
  destruct (String.eqb_spec txt "") as [->|Ht]; simpl;
    [left; split; [right; by right|done]|].
  right. repeat split; try done; intros [|]; congruence.
Qed.

(** ** Finalized buffers and timers *)

(** C9, as the code has it.  The finalization step clears the timer handle
    in the step that sets the finalized flag: the six-second timeout and
    [finalizeMessages] leave the buffer finalized with no handle of its own
    and none in the registry, the fallback timeout leaves its buffer
    finalized with no handle of its own, and the fired timer is no longer
    pending.  Tracking, polling, the cleanup and the finalization through
    the registry keep every finalized buffer free of timer handles ([quiet]).
    The conditions on the heap ([heap_closed], [allocated], a conversation
    data object behind every entry of [botMessages]) hold in every reachable
    state. *)
Theorem finalization_clears_timer_handle :
  (∀ h t cid s,
     timers s !! h = Some t → pending t = true → due t <= clock s →
     callback t = GlobalFinalize cid →
     (∀ c, botMessages s !! cid = Some c → is_Some (convs s !! c)) →
     ∃ s' c v, fire h s = Some s'
       ∧ botMessages s' !! cid = Some c ∧ convs s' !! c = Some v
       ∧ allMessagesReceived v = true ∧ deliveryTimeoutId v = None
       ∧ conversationTimeouts s' !! cid = None
       ∧ timers s' !! h = Some (cancel t))
  ∧ (∀ h t cid a s,
     timers s !! h = Some t → pending t = true → due t <= clock s →
     callback t = DirectFinalize cid →
     globalMessages s !! cid = Some a → array_of s a ≠ [] →
     (∀ c, botMessages s !! cid = Some c → is_Some (convs s !! c)) →
     ∃ s' c v, fire h s = Some s'
       ∧ botMessages s' !! cid = Some c ∧ convs s' !! c = Some v
       ∧ allMessagesReceived v = true ∧ deliveryTimeoutId v = None
       ∧ conversationTimeouts s' !! cid = None
       ∧ timers s' !! h = Some (cancel t))
  ∧ (∀ h t c v s,
     timers s !! h = Some t → pending t = true → due t <= clock s →
     callback t = FallbackFinalize c → convs s !! c = Some v →
     ∃ s' v', fire h s = Some s' ∧ convs s' !! c = Some v'
       ∧ allMessagesReceived v' = true ∧ deliveryTimeoutId v' = None
       ∧ timers s' !! h = Some (cancel t))
  ∧ (∀ oc otxt s, quiet s → quiet (track_user_message oc otxt s).2)
  ∧ (∀ cid s, quiet s → quiet (bot_response cid s).2)
  ∧ (∀ s, allocated s → quiet s → quiet (N8N.cleanup s))
  ∧ (∀ h t cid s s',
     timers s !! h = Some t →
     callback t = GlobalFinalize cid ∨ callback t = DirectFinalize cid →
     fire h s = Some s' → heap_closed s → quiet s → quiet s')
  ∧ (∀ es, heap_closed (run initial es) ∧ allocated (run initial es)).
Proof.
  assert (Hfire : ∀ h t s, timers s !! h = Some t → pending t = true → due t <= clock s →
            fire h s = Some (run_callback (callback t) (clearTimeout h s))
            ∧ timers (clearTimeout h s) !! h = Some (cancel t)).
  { intros h t s Ht Hp Hd. unfold fire. rewrite Ht, Hp.
    destruct (Z.leb_spec (due t) (clock s)); [|lia]. split; [done|].
    simpl. by rewrite list_lookup_alter_eq, Ht. }
  split; [|split; [|split; [|split; [|split; [|split; [|split]]]]]].
  - intros h t cid s Ht Hp Hd Hcb Hwf.
    destruct (Hfire h t s Ht Hp Hd) as [-> Hh]. rewrite Hcb. cbn [run_callback].
    destruct (finalize_timeout_spec cid (clearTimeout h s) Hwf)
      as (c & v & Hb & Hv & Hf & Hdt & Hr & Htm).
    exists (N8N.finalize_timeout cid (clearTimeout h s)), c, v.
    rewrite Htm. done.
  - intros h t cid a s Ht Hp Hd Hcb Hg Hne Hwf.
    destruct (Hfire h t s Ht Hp Hd) as [-> Hh]. rewrite Hcb. cbn [run_callback].
    destruct (finalizeMessages_spec cid a (clearTimeout h s) Hg Hne Hwf)
      as (c & v & Hb & Hv & Hf & Hdt & Hr & Htm).
    exists (Direct.finalizeMessages cid (clearTimeout h s)), c, v.
    rewrite Htm. done.
  - intros h t c v s Ht Hp Hd Hcb Hv.
    destruct (Hfire h t s Ht Hp Hd) as [-> Hh]. rewrite Hcb. cbn [run_callback].
    eexists. eexists. split; [done|]. unfold N8N.fallback_timeout. simpl.
    rewrite list_lookup_alter_eq, Hv. simpl.
    rewrite list_lookup_alter_eq, Ht. done.
  - apply quiet_track.
  - apply quiet_poll.
  - apply quiet_cleanup.
  - apply quiet_fire_registry.
  - intros es. pose proof (heap_closed_reachable es) as H.
    split; [exact H|exact (proj1 H)].
Qed.

Lemma finalization_clears_timer_handle_witness :
  ∃ s' c v, fire 0 example_collecting = Some s'
    ∧ botMessages s' !! "c1" = Some c ∧ convs s' !! c = Some v
    ∧ allMessagesReceived v = true ∧ deliveryTimeoutId v = None
    ∧ conversationTimeouts s' !! "c1" = None.
Proof.
  destruct (proj1 finalization_clears_timer_handle 0%nat
              {| due := 6000; callback := GlobalFinalize "c1"; pending := true |}
              "c1" example_collecting)
    as (s' & c & v & H1 & H2 & H3 & H4 & H5 & H6 & _).
  - vm_compute. reflexivity.
  - reflexivity.
  - vm_compute. discriminate.
  - reflexivity.
  - intros c Hc. vm_compute in Hc. discriminate.
  - by exists s', c, v.
Defined.

(** Two ways to a finalized buffer with a pending timer.  A fragment that
    arrives after the finalization, with no tracking call in between, arms a
    timer for the finalized buffer.  And when an untagged fragment is
    followed by a tagged one, the fallback timeout finalizes the buffer while
    the timer of the registry is still pending: before it fires no buffer is
    finalized, after it the finalized buffer of ["c1"] has a live timer. *)
Lemma finalized_buffer_with_pending_timer :
  (let s := example_late_fragment in
   (botMessages s !! "c1" ≫= fun c => allMessagesReceived <$> convs s !! c) = Some true
   ∧ conversationTimeouts s !! "c1" = Some 1%nat
   ∧ timers s !! 1%nat
     = Some {| due := 13000; callback := GlobalFinalize "c1"; pending := true |}
   ∧ ¬ quiet s)
  ∧ (let s := run initial
                [webhook "c1" "Goedemiddag, waarmee kan ik u helpen?" N8N.FlagAbsent "";
                 Elapse 1000;
                 webhook "c1" "Hi there" N8N.FlagTrue "k3x9pq";
                 Elapse 5000] in
     let s' := step s (Fire 0) in
     quiet s
     ∧ (botMessages s' !! "c1" ≫= fun c => allMessagesReceived <$> convs s' !! c) = Some true
     ∧ conversationTimeouts s' !! "c1" = Some 1%nat
     ∧ timers s' !! 1%nat
       = Some {| due := 7000; callback := GlobalFinalize "c1"; pending := true |}
     ∧ clock s' = 6000
     ∧ ¬ quiet s').
Proof.
  split.
  - split; [vm_compute; reflexivity|]. split; [vm_compute; reflexivity|].
    split; [vm_compute; reflexivity|].
    intros Hq.
    destruct (Hq "c1" 0%nat
                {| messages := 0; lastDelivered := 0; allMessagesReceived := true;
                   deliveryTimeoutId := None |}) as [_ Hreg];
      [vm_compute; reflexivity..|].
    vm_compute in Hreg. discriminate.
  - intros s s'. split; [|split; [|split; [|split; [|split]]]];
      try (vm_compute; reflexivity).
    + intros cid c v Hb Hv Hfin.
      assert (Hbm : botMessages s = {[ "c1" := 0%nat ]}) by (vm_compute; reflexivity).
      rewrite Hbm in Hb. apply lookup_singleton_Some in Hb as [<- <-].
      vm_compute in Hv. injection Hv as <-. discriminate Hfin.
    + intros Hq.
      destruct (Hq "c1" 0%nat
                  {| messages := 0; lastDelivered := 0; allMessagesReceived := true;
                     deliveryTimeoutId := None |}) as [_ Hreg];
        [vm_compute; reflexivity..|].
      vm_compute in Hreg. discriminate.
Qed.

(** ** Finalization and the tracked user message *)

(** C10.  When the quiet-period timer of a conversation is due and fires
    (the six-second timeout of the webhook backend, [finalizeMessages] of
    the direct backend), the tracked user message of that conversation is
    deleted in the same step, whatever its age, and it stays absent until a
    tracking call for the conversation succeeds. *)
Theorem finalize_deletes_tracked_user_message
  (h : nat) (t : Timer) (cid : string) (s : State) :
  timers s !! h = Some t → pending t = true → due t <= clock s →
  callback t = GlobalFinalize cid ∨ callback t = DirectFinalize cid →
  ∃ s', fire h s = Some s'
        ∧ userMessages s' !! cid = None
        ∧ ∀ es, Forall (fun e => ¬ tracks cid e) es →
                userMessages (run s' es) !! cid = None.
Proof.
  intros Ht Hp Hd Hcb. unfold fire. rewrite Ht, Hp.
  destruct (Z.leb_spec (due t) (clock s)); [|lia]. simpl.
  eexists. split; [reflexivity|].
  assert (Hgone : userMessages (run_callback (callback t) (clearTimeout h s)) !! cid = None).
  { destruct Hcb as [-> | ->]; cbn [run_callback];
      rewrite ?userMessages_finalize_timeout, ?userMessages_finalizeMessages;
      apply lookup_delete_eq. }
  split; [exact Hgone|]. intros es Hes. by apply untracked_run.
Qed.

Lemma finalize_deletes_tracked_user_message_witness :
  is_Some (userMessages example_collecting !! "c1")
  ∧ ∃ s', fire 0 example_collecting = Some s' ∧ userMessages s' !! "c1" = None.
Proof.
  split; [vm_compute; eauto|].
  destruct (finalize_deletes_tracked_user_message 0
              {| due := 6000; callback := GlobalFinalize "c1"; pending := true |}
              "c1" example_collecting) as (s' & Hf & Hn & _).
  - vm_compute. reflexivity.
  - reflexivity.
  - vm_compute. discriminate.
  - by left.
  - exists s'. by split.
Defined.

(** * Further properties of the code *)

(** ** Strings *)

Lemma append_cons a s t : String a s +:+ t = String a (s +:+ t).
Proof. reflexivity. Qed.

Lemma append_nil_r s : s +:+ "" = s.
Proof. induction s as [|c s IH]; [done|]. by rewrite append_cons, IH. Qed.

Lemma append_assoc s t u : (s +:+ t) +:+ u = s +:+ t +:+ u.
Proof. induction s as [|c s IH]; [done|]. by rewrite !append_cons, IH. Qed.

Lemma length_append s t :
  String.length (s +:+ t) = (String.length s + String.length t)%nat.
Proof. induction s as [|c s IH]; [done|]. rewrite append_cons. simpl. by rewrite IH. Qed.

Lemma prefix_spec p s : String.prefix p s = true ↔ ∃ post, s = p +:+ post.
Proof.
  revert s. induction p as [|a p IH]; intros s.
  - split; [intros _; by exists s|]. intros _. by destruct s.
  - destruct s as [|b s]; simpl; [split; [done|by intros [post ?]]|].
    destruct (ascii_dec a b) as [->|Hne].
    + rewrite IH. split; intros [post H]; exists post;
        rewrite append_cons in *; congruence.
    + split; [done|]. intros [post H]. rewrite append_cons in H. congruence.
Qed.

Lemma includes_spec needle s : Js.includes needle s = true ↔ contains needle s.
Proof.
  unfold contains. split.
  - induction s as [|c s IH].
    + destruct needle; [|done]. intros _. by exists "", "".
    + unfold Js.includes; fold Js.includes.
      destruct (String.prefix needle (String c s)) eqn:E.
      * intros _. apply prefix_spec in E as [post E]. by exists "", post.
      * intros (pre & post & ->)%IH. by exists (String c pre), post.
  - intros (pre & post & ->). induction pre as [|c pre IH].
    + assert (E : String.prefix needle (needle +:+ post) = true)
        by (apply prefix_spec; by exists post).
      change ("" +:+ needle +:+ post) with (needle +:+ post).
      destruct (needle +:+ post) eqn:En; unfold Js.includes; by rewrite E.
    + rewrite append_cons. unfold Js.includes; fold Js.includes.
      destruct (String.prefix needle _); [done|]. apply IH.
Qed.

Lemma includes_cons_ne needle c s :
  String.prefix needle (String c s) = false →
  Js.includes needle (String c s) = Js.includes needle s.
Proof. intros H. unfold Js.includes; fold Js.includes. by rewrite H. Qed.

Lemma substring_0_short n s : (String.length s ≤ n)%nat → substring 0 n s = s.
Proof.
  revert s. induction n as [|n IH]; intros [|c s] H; simpl in *; try done; [lia|].
  rewrite IH; [done|lia].
Qed.

Lemma substring_0_split n s :
  (n ≤ String.length s)%nat →
  ∃ rest, s = substring 0 n s +:+ rest ∧ String.length (substring 0 n s) = n.
Proof.
  revert s. induction n as [|n IH]; intros s H.
  - exists s. by destruct s.
  - destruct s as [|c s]; simpl in H; [lia|].
    destruct (IH s) as (rest & E & L); [lia|].
    exists rest. simpl. rewrite append_cons. split; [congruence|]. simpl. by rewrite L.
Qed.

Lemma substring_drop n s :
  (n ≤ String.length s)%nat →
  s = substring 0 n s +:+ substring n (String.length s - n) s.
Proof.
  revert s. induction n as [|n IH]; intros s H.
  - rewrite Nat.sub_0_r. destruct s as [|c s]; [done|].
    change (substring 0 0 (String c s)) with "".
    change ("" +:+ ?x) with x. symmetry. by apply substring_0_short.
  - destruct s as [|c s]; simpl in H; [lia|].
    simpl. rewrite append_cons. f_equal. apply IH. lia.
Qed.

Lemma or_null_not_empty v : Js.or_null v ≠ Some "".
Proof.
  unfold Js.or_null. destruct v as [x|]; simpl; [|done].
  destruct (String.eqb_spec x ""); simpl; congruence.
Qed.

Lemma or_null_truthy v : Js.truthy v = true → Js.or_null v = v.
Proof. unfold Js.or_null. by intros ->. Qed.

Lemma truthy_is_Some v : Js.truthy v = true → is_Some v.
Proof. destruct v; [eauto|done]. Qed.

(** ** The heuristics of the fallback branch *)

Lemma reaches_punct_spec s :
  Js.reaches_punct s = true
  ↔ ∃ mid p post, s = mid +:+ String p post ∧ one_line mid = true
                  ∧ Js.is_end_punct p = true.
Proof.
  split.
  - induction s as [|c s IH]; simpl; [done|].
    destruct (Js.is_end_punct c) eqn:Ep.
    + intros _. by exists "", c, s.
    + destruct (Js.is_line_terminator c) eqn:Et; [done|].
      intros (mid & p & post & -> & Hm & Hp)%IH.
      exists (String c mid), p, post. simpl. by rewrite Et.
  - intros (mid & p & post & -> & Hm & Hp). induction mid as [|c mid IH]; simpl.
    + by rewrite Hp.
    + simpl in Hm. apply andb_true_iff in Hm as [Hc Hm].
      destruct (Js.is_end_punct c); [done|].
      apply negb_true_iff in Hc. rewrite Hc. by apply IH.
Qed.

Lemma reaches_lower_spec s :
  Js.reaches_lower s = true
  ↔ ∃ mid1 l mid2 p post,
      s = mid1 +:+ String l (mid2 +:+ String p post)
      ∧ one_line mid1 = true ∧ Js.is_lower l = true
      ∧ one_line mid2 = true ∧ Js.is_end_punct p = true.
Proof.
  split.
  - induction s as [|c s IH]; simpl; [done|].
    destruct (Js.is_lower c && Js.reaches_punct s) eqn:E.
    + intros _.
      apply andb_true_iff in E as [Hl (mid & p & post & -> & Hm & Hp)%reaches_punct_spec].
      by exists "", c, mid, p, post.
    + destruct (Js.is_line_terminator c) eqn:Et; [done|].
      intros (mid1 & l & mid2 & p & post & -> & H1 & Hl & H2 & Hp)%IH.
      exists (String c mid1), l, mid2, p, post. simpl. by rewrite Et.
  - intros (mid1 & l & mid2 & p & post & -> & H1 & Hl & H2 & Hp).
    induction mid1 as [|c mid1 IH]; simpl.
    + rewrite Hl. simpl.
      replace (Js.reaches_punct (mid2 +:+ String p post)) with true; [done|].
      symmetry. apply reaches_punct_spec. by exists mid2, p, post.
    + simpl in H1. apply andb_true_iff in H1 as [Hc H1].
      destruct (Js.is_lower c && _); [done|].
      apply negb_true_iff in Hc. rewrite Hc. by apply IH.
Qed.

Lemma sentence_like_spec (s : string) : Js.sentence_like s = true ↔ sentence_shaped s.
Proof.
  unfold sentence_shaped. split.
  - induction s as [|c s IH]; simpl; [done|].
    destruct (Js.is_upper c && Js.reaches_lower s) eqn:E.
    + intros _. apply andb_true_iff in E as [Hu H%reaches_lower_spec].
      destruct H as (mid1 & l & mid2 & p & post & -> & H1 & Hl & H2 & Hp).
      by exists "", c, mid1, l, mid2, p, post.
    + intros (pre & u & mid1 & l & mid2 & p & post & -> & Hu & H1 & Hl & H2 & Hp)%IH.
      by exists (String c pre), u, mid1, l, mid2, p, post.
  - intros (pre & u & mid1 & l & mid2 & p & post & -> & Hu & H1 & Hl & H2 & Hp).
    induction pre as [|c pre IH]; simpl.
    + rewrite Hu. simpl.
      replace (Js.reaches_lower _) with true; [done|].
      symmetry. apply reaches_lower_spec. by exists mid1, l, mid2, p, post.
    + destruct (Js.is_upper c && _); [done|]. apply IH.
Qed.

(** X1.  What makes a text look like a bot response to the fallback branch:
    the text is there and not empty, and it is longer than 20 characters, or
    contains [!], [?], [helpen] or [kan ik], or has an upper-case letter
    followed, on the same line, by a lower-case letter and then by one of
    [.], [!], [?]. *)
Theorem looks_like_bot_response_spec (botText : option string) :
  N8N.looksLikeBotResponse botText = true
  ↔ ∃ t, botText = Some t ∧ t ≠ ""
         ∧ ((20 < String.length t)%nat
            ∨ contains "!" t ∨ contains "?" t
            ∨ contains "helpen" t ∨ contains "kan ik" t
            ∨ sentence_shaped t).
Proof.
  unfold N8N.looksLikeBotResponse. destruct botText as [t|]; simpl.
  2:{ split; [done|]. by intros (t & ? & _). }
  destruct (String.eqb_spec t "") as [->|Hne]; simpl.
  { split; [done|]. by intros (t & [= <-] & ? & _). }
  rewrite !orb_true_iff, Nat.ltb_lt, !includes_spec, sentence_like_spec.
  split.
  - intros H. exists t. split; [done|]. split; [done|]. tauto.
  - intros (t' & [= <-] & _ & H). tauto.
Qed.

(** ** Webhook calls that store nothing *)

Lemma storable_needs_conversation x :
  Js.truthy (N8N.conversationId x) = false → N8N.storable x = false.
Proof. unfold N8N.storable. by intros ->. Qed.


(** X2.  A webhook call stores nothing, and its whole effect is that of the
    cleanup, in each of these cases: the place the handler reads
    ([body.body.data] when it is there, the top of the body otherwise) gives
    no conversation id, whatever the other place holds; the call is flagged
    as a user message ([isBot] is [false] or ['false']); the call is not
    flagged as a bot message and its text is the tracked user message of the
    conversation, even with an image; the call is not flagged as a bot
    message, has no image and its text does not look like a bot response. *)
Theorem webhook_stores_nothing
  (body : N8N.WebhookBody) (random : string) (s : State) :
  let x := N8N.extract body in
  match N8N.body_data body with
  | Some d => Js.truthy (N8N.f_conversationId d) = false
  | None => Js.truthy (N8N.f_conversationId (N8N.top body)) = false
  end
  ∨ N8N.isBot x = N8N.FlagFalse ∨ N8N.isBot x = N8N.FlagString "false"
  ∨ (N8N.isBotMessage (N8N.isBot x) = false
     ∧ ∃ cid um, N8N.conversationId x = Some cid ∧ userMessages s !! cid = Some um
                 ∧ N8N.botText x = Some (um_text um))
  ∨ (N8N.isBotMessage (N8N.isBot x) = false
     ∧ N8N.looksLikeBotResponse (N8N.botText x) = false
     ∧ Js.truthy (N8N.botImage x) = false) →
  N8N.process x random s = s
  ∧ N8N.botpress_webhook body random s = (N8N.WebhookReceived, N8N.cleanup s).
Proof.
  intros x H.
  assert (Hp : N8N.process x random s = s).
  { destruct H as [H|[H|[H|[[Hb (cid & um & Hc & Hu & Ht)]|(Hb & Hl & Hi)]]]].
    - apply process_not_storable, storable_needs_conversation.
      subst x. unfold N8N.extract. destruct (N8N.body_data body) as [d|]; [done|].
      rewrite H. by destruct (_ || _).
    - unfold N8N.process. by rewrite H.
    - unfold N8N.process. by rewrite H.
    - unfold N8N.process. rewrite Hb, Hc. simpl. rewrite Hu, Ht.
      rewrite bool_decide_eq_true_2 by done. simpl. by destruct (N8N.isUserMessage _).
    - unfold N8N.process. rewrite Hb, Hl, Hi. simpl. rewrite andb_false_r. simpl.
      by destruct (N8N.isUserMessage _). }
  split; [done|]. unfold N8N.botpress_webhook. fold x. by rewrite Hp.
Qed.

Lemma webhook_stores_nothing_witness :
  let body := {| N8N.body_data :=
                   Some {| N8N.f_conversationId := None;
                           N8N.f_payload_text := Some "Goedemiddag, waarmee kan ik u helpen?";
                           N8N.f_payload_image := None; N8N.f_payload_imageUrl := None;
                           N8N.f_text := None; N8N.f_image := None; N8N.f_imageUrl := None;
                           N8N.f_isBot := N8N.FlagTrue |};
                 N8N.top := {| N8N.f_conversationId := Some "c1";
                               N8N.f_payload_text := None;
                               N8N.f_payload_image := None; N8N.f_payload_imageUrl := None;
                               N8N.f_text := Some "Hi there"; N8N.f_image := None;
                               N8N.f_imageUrl := None; N8N.f_isBot := N8N.FlagTrue |} |} in
  N8N.process (N8N.extract body) "k3x9pq" initial = initial
  ∧ N8N.process
      (N8N.extract
         {| N8N.body_data := None;
            N8N.top := {| N8N.f_conversationId := Some "c1";
                          N8N.f_payload_text := None;
                          N8N.f_payload_image := None; N8N.f_payload_imageUrl := None;
                          N8N.f_text := Some "Waar is mijn bestelling?";
                          N8N.f_image := Some "https://example.org/a.png";
                          N8N.f_imageUrl := None; N8N.f_isBot := N8N.FlagAbsent |} |})
      "" (run initial [Track (Some "c1") (Some "Waar is mijn bestelling?")])
    = run initial [Track (Some "c1") (Some "Waar is mijn bestelling?")].
Proof.
  intros body. split.
  - apply (webhook_stores_nothing body "k3x9pq" initial). left. reflexivity.
  - apply webhook_stores_nothing. right. right. right. left.
    split; [reflexivity|].
    exists "c1", {| um_text := "Waar is mijn bestelling?"; um_timestamp := 0;
                    um_trackedAt := 0 |}.
    split; [reflexivity|]. split; [vm_compute; reflexivity|reflexivity].
Defined.

(** ** What the fallback branch stores *)




(** ** What a stored message looks like *)

Lemma objs_process_new x random s :
  objs (N8N.process x random s) = objs s
  ∨ ∃ id, N8N.storable x = true
          ∧ objs (N8N.process x random s) = objs s ++ [webhook_message x (clock s) id].
Proof.
  unfold N8N.process.
  destruct (N8N.isBotMessage _).
  - destruct (N8N.storable x) eqn:Hst; [|by left]. right.
    unfold N8N.store_bot_message. eexists. split; [done|].
    crush; rewrite objs_clear_if_set; simpl; reflexivity.
  - destruct (N8N.isUserMessage _); [by left|].
    destruct (N8N.storable x) eqn:Hst; [|left; by rewrite andb_false_r].
    match goal with |- context [if ?b then _ else _] => destruct b end; [|by left].
    right. unfold N8N.store_fallback_message. eexists. split; [done|].
    crush; rewrite objs_clear_if_set; simpl; reflexivity.
Qed.

Lemma Forall_deliver (P : Message → Prop) l s :
  (∀ o, P o → P (mark_delivered o)) → Forall P (objs s) → Forall P (objs (deliver l s)).
Proof.
  intros Hmark H. unfold deliver; simpl.
  induction l as [|m l IH]; simpl; [done|].
  apply Forall_alter; [done|]. intros o _ Ho. by apply Hmark.
Qed.

Lemma objs_step_Forall (P : Message → Prop) s e :
  (∀ o, P o → P (mark_delivered o)) →
  (∀ body random x id, e = Webhook body random → N8N.storable x = true →
     P (webhook_message x (clock s) id)) →
  (∀ cid msgs msg, e = MonitorTick cid msgs →
     Direct.is_new_bot_message cid s msg = true → P (Direct.to_message (clock s) msg)) →
  Forall P (objs s) → Forall P (objs (step s e)).
Proof.
  intros Hmark Hweb Hmon H.
  destruct e as [oc otxt|c|body random|c msgs|timer|ms| |]; cbn [step].
  - by rewrite objs_track.
  - unfold bot_response. crush. by apply Forall_deliver.
  - unfold N8N.botpress_webhook. cbn [snd]. rewrite objs_cleanup.
    destruct (objs_process_new (N8N.extract body) random s) as [->|(id & Hst & ->)]; [done|].
    apply Forall_app. split; [done|]. apply Forall_singleton. by eapply Hweb.
  - unfold Direct.monitor_tick.
    destruct (0 <? length _)%nat; [|done].
    assert (Hnew : Forall P (Direct.to_message (clock s) <$>
              filter (λ msg, Direct.is_new_bot_message c s msg = true) msgs)).
    { apply Forall_fmap, Forall_forall. intros msg [Hf _]%list_elem_of_filter.
      by eapply Hmon. }
    crush; rewrite objs_clear_if_set, objs_push_all; simpl;
      apply Forall_app; by split.
  - destruct (fire timer s) eqn:E; simpl; [|done]. by rewrite (objs_fire timer s).
  - done.
  - done.
  - done.
Qed.

Lemma objs_run_Forall (P : Message → Prop) (Q : Event → Prop) :
  (∀ o, P o → P (mark_delivered o)) →
  (∀ body random x now id, Q (Webhook body random) → N8N.storable x = true →
     P (webhook_message x now id)) →
  (∀ cid msgs msg s, Q (MonitorTick cid msgs) →
     Direct.is_new_bot_message cid s msg = true → P (Direct.to_message (clock s) msg)) →
  ∀ es s, Forall Q es → Forall P (objs s) → Forall P (objs (run s es)).
Proof.
  intros Hmark Hweb Hmon es. induction es as [|e es IH]; intros s Hes H; [done|].
  apply Forall_cons in Hes as [He Hes]. simpl. apply IH; [done|].
  apply objs_step_Forall; [done| | |done].
  - intros body random x id -> Hst. by eapply Hweb.
  - intros cid msgs msg -> Hnew. by eapply Hmon.
Qed.

(** X4.  In every reachable state, of either backend, a stored message has
    a text or an image, and neither is the empty string. *)
Theorem stored_messages_have_content (es : list Event) (m : nat) (o : Message) :
  objs (run initial es) !! m = Some o → has_content o.
Proof.
  intros Hm.
  assert (H : Forall has_content (objs (run initial es))).
  { apply (objs_run_Forall has_content (fun _ => True)); try done.
    - intros body random x now id _ Hst. unfold has_content, webhook_message; simpl.
      split; [apply or_null_not_empty|]. split; [apply or_null_not_empty|].
      unfold N8N.storable in Hst.
      apply andb_true_iff in Hst as [[_ Hc%orb_true_iff]%andb_true_iff _].
      destruct Hc as [Hc|Hc]; [left|right]; rewrite or_null_truthy by done;
        by apply truthy_is_Some.
    - intros cid msgs msg s _ Hnew. unfold has_content, Direct.to_message; simpl.
      split; [apply or_null_not_empty|]. split; [apply or_null_not_empty|].
      unfold Direct.is_new_bot_message in Hnew.
      apply andb_true_iff in Hnew as [[_ Ht]%andb_true_iff _].
      left. rewrite or_null_truthy by done. by apply truthy_is_Some.
    - by apply Forall_true. }
  rewrite Forall_forall in H. apply H. by eapply list_elem_of_lookup_2.
Qed.

Lemma stored_messages_have_content_witness :
  has_content
    {| text := Some "Hi there"; image := None; timestamp := 0; receivedAt := 0;
       msgId := "bot-msg-0-k3x9pq"; delivered := false |}.
Proof.
  apply (stored_messages_have_content [webhook "c1" "Hi there" N8N.FlagTrue "k3x9pq"] 0%nat).
  vm_compute. reflexivity.
Defined.

(** X5.  In every state the webhook backend can reach, no stored text holds
    the template placeholder. *)
Theorem webhook_backend_stores_no_placeholder
  (es : list Event) (m : nat) (o : Message) (t : string) :
  Forall (fun e => n8n_event e = true) es →
  objs (run initial es) !! m = Some o → text o = Some t →
  Js.includes "{{ $json" t = false.
Proof.
  intros Hes Hm.
  set (P := fun o : Message => ∀ t, text o = Some t → Js.includes "{{ $json" t = false).
  assert (H : Forall P (objs (run initial es))).
  { apply (objs_run_Forall P (fun e => n8n_event e = true)); try done.
    - intros body random x now id _ Hst t'. unfold webhook_message; simpl.
      unfold N8N.storable in Hst. apply andb_true_iff in Hst as [_ Hf].
      unfold N8N.placeholder_free in Hf. unfold Js.or_null.
      destruct (Js.truthy (N8N.botText x)) eqn:Et; [|done].
      simpl in Hf. intros E. rewrite E in Hf. simpl in Hf.
      by apply negb_true_iff in Hf. }
  rewrite Forall_forall in H. apply H. by eapply list_elem_of_lookup_2.
Qed.

Lemma webhook_backend_stores_no_placeholder_witness :
  Js.includes "{{ $json" "Hi there" = false.
Proof.
  apply (webhook_backend_stores_no_placeholder
           [webhook "c1" "Hi there" N8N.FlagTrue "k3x9pq"] 0%nat
           {| text := Some "Hi there"; image := None; timestamp := 0; receivedAt := 0;
              msgId := "bot-msg-0-k3x9pq"; delivered := false |}).
  - repeat constructor.
  - vm_compute. reflexivity.
  - reflexivity.
Defined.

(** ** What the monitor collects *)

(** X6.  The monitor of the direct backend skips a listed message whose
    [userId] is its [conversationId], one without text (an image alone is
    not enough) and one whose text is the tracked user message: a tick that
    lists only such messages changes nothing.  So in every state the direct
    backend can reach, every stored message has a text that is not empty. *)
Theorem direct_backend_stores_text_only :
  (∀ cid msgs s,
     (∀ msg, msg ∈ msgs →
        Direct.v_userId msg = Direct.v_conversationId msg
        ∨ Js.truthy (Direct.v_payload_text msg) = false
        ∨ ∃ um, userMessages s !! cid = Some um
                ∧ Direct.v_payload_text msg = Some (um_text um)) →
     Direct.monitor_tick cid msgs s = s)
  ∧ (∀ es m o,
       Forall (fun e => direct_event e = true) es →
       objs (run initial es) !! m = Some o →
       ∃ t, text o = Some t ∧ t ≠ "").
Proof.
  split.
  - intros cid msgs s H. unfold Direct.monitor_tick.
    rewrite filter_none; [done|].
    intros msg Hm. specialize (H msg Hm). unfold Direct.is_new_bot_message.
    destruct H as [->|[->|(um & -> & ->)]].
    + by rewrite String.eqb_refl.
    + rewrite andb_false_r. done.
    + rewrite bool_decide_eq_true_2 by done. simpl. by rewrite andb_false_r.
  - intros es m o Hes Hm.
    set (P := fun o : Message => ∃ t, text o = Some t ∧ t ≠ "").
    assert (H : Forall P (objs (run initial es))).
    { apply (objs_run_Forall P (fun e => direct_event e = true)); try done.
      intros cid msgs msg s _ Hnew. unfold P, Direct.to_message; simpl.
      unfold Direct.is_new_bot_message in Hnew.
      apply andb_true_iff in Hnew as [[_ Ht]%andb_true_iff _].
      rewrite or_null_truthy by done.
      destruct (Direct.v_payload_text msg) as [t|]; [|done]. exists t. split; [done|].
      intros ->. done. }
    rewrite Forall_forall in H. apply H. by eapply list_elem_of_lookup_2.
Qed.

Lemma direct_backend_stores_text_only_witness :
  Direct.monitor_tick "c1"
    [{| Direct.v_id := "m1"; Direct.v_userId := "bot"; Direct.v_conversationId := "c1";
        Direct.v_payload_text := None;
        Direct.v_payload_image := Some "https://example.org/a.png";
        Direct.v_createdAt := 1000 |}]
    initial
  = initial.
Proof.
  apply (proj1 direct_backend_stores_text_only).
  intros msg Hmsg. apply list_elem_of_singleton in Hmsg as ->.
  right. left. reflexivity.
Defined.

(** ** Tracking and polling *)

(** X7.  A tracking call with a text and a conversation id, one that is not
    the name of an inherited property, succeeds; it records the text with
    the time of the call, deletes the entries of the conversation in
    [botMessages] and [globalMessages], so that a poll of the conversation
    finds no messages, cancels the timer the deleted buffer held and no
    other one, leaves the timer registry as it is, and does not change what
    a poll of any other conversation answers. *)
Theorem track_starts_new_cycle (cid txt : string) (s : State) :
  Js.inherited cid = false → cid ≠ "" → txt ≠ "" →
  let s' := (track_user_message (Some cid) (Some txt) s).2 in
  (track_user_message (Some cid) (Some txt) s).1 = TrackOk
  ∧ userMessages s'
    = <[cid := {| um_text := txt; um_timestamp := clock s; um_trackedAt := clock s |}]>
        (userMessages s)
  ∧ botMessages s' = delete cid (botMessages s)
  ∧ globalMessages s' = delete cid (globalMessages s)
  ∧ bot_response cid s' = (NoMessages, s')
  ∧ clock s' = clock s ∧ objs s' = objs s ∧ arrs s' = arrs s ∧ convs s' = convs s
  ∧ conversationTimeouts s' = conversationTimeouts s
  ∧ (∀ c v h t, botMessages s !! cid = Some c → convs s !! c = Some v →
       deliveryTimeoutId v = Some h → timers s !! h = Some t →
       timers s' !! h = Some (cancel t))
  ∧ (∀ h, (∀ c v, botMessages s !! cid = Some c → convs s !! c = Some v →
             deliveryTimeoutId v ≠ Some h) →
          timers s' !! h = timers s !! h)
  ∧ (∀ cid', cid' ≠ cid → (bot_response cid' s').1 = (bot_response cid' s).1).
Proof.
  intros _ Hc Ht s'. subst s'. unfold track_user_message.
  destruct (String.eqb_spec cid ""); [done|]. destruct (String.eqb_spec txt ""); [done|].
  cbn [orb fst snd].
  set (s1 := match botMessages s !! cid with
             | Some c => set_botMessages (delete cid)
                           (clear_if_set (convs s !! c ≫= deliveryTimeoutId) s)
             | None => s
             end).
  assert (Hb : botMessages s1 = delete cid (botMessages s)).
  { subst s1. destruct (botMessages s !! cid) eqn:E; simpl.
    - by rewrite botMessages_clear_if_set.
    - symmetry. by apply delete_id. }
  assert (Hframe : clock s1 = clock s ∧ objs s1 = objs s ∧ arrs s1 = arrs s
                   ∧ convs s1 = convs s ∧ globalMessages s1 = globalMessages s
                   ∧ userMessages s1 = userMessages s
                   ∧ conversationTimeouts s1 = conversationTimeouts s).
  { subst s1. destruct (botMessages s !! cid); simpl; [|done].
    by rewrite clock_clear_if_set, objs_clear_if_set, arrs_clear_if_set,
      convs_clear_if_set, globalMessages_clear_if_set, userMessages_clear_if_set,
      conversationTimeouts_clear_if_set. }
  destruct Hframe as (F1 & F2 & F3 & F4 & F5 & F6 & F7).
  split; [done|]. simpl. rewrite Hb, F1, F2, F3, F4, F5, F6, F7.
  repeat (split; [done|]). split.
  { unfold bot_response, conversationData_for. simpl.
    by rewrite Hb, F5, !lookup_delete_eq. }
  repeat (split; [done|]). split; [|split].
  - intros c v h t Hbm Hv Hh Hth. subst s1. rewrite Hbm, Hv. simpl. rewrite Hh. simpl.
    by rewrite list_lookup_alter_eq, Hth.
  - intros h Hh. subst s1. destruct (botMessages s !! cid) as [c|] eqn:Hbm; [|done].
    simpl. destruct (convs s !! c) as [v|] eqn:Hv; [|done]. simpl.
    destruct (deliveryTimeoutId v) as [h'|] eqn:Hd; [|done]. simpl.
    rewrite list_lookup_alter_ne; [done|]. intros ->. by eapply Hh.
  - intros cid' Hne. unfold bot_response, conversationData_for, undelivered_sorted,
      undelivered, by_timestamp, timestamp_of, array_of. simpl.
    rewrite Hb, F2, F3, F4, F5, F7, !lookup_delete_ne by done. crush.
Qed.

Lemma track_starts_new_cycle_witness :
  bot_response "c1"
    (track_user_message (Some "c1") (Some "next question") example_finalized).2
  = (NoMessages,
     (track_user_message (Some "c1") (Some "next question") example_finalized).2).
Proof.
  apply (track_starts_new_cycle "c1" "next question" example_finalized);
    [reflexivity|discriminate|discriminate].
Defined.

(** X8.  A poll changes nothing but the [delivered] flag of the messages it
    returns: buffers, timers, tracked user messages and the timer registry
    are what they were, and a poll that does not answer READY leaves the
    whole state as it is. *)
Theorem poll_changes_only_delivered_flags (cid : string) (s : State) :
  let r := (bot_response cid s).1 in
  let s' := (bot_response cid s).2 in
  clock s' = clock s ∧ arrs s' = arrs s ∧ convs s' = convs s ∧ timers s' = timers s
  ∧ botMessages s' = botMessages s ∧ globalMessages s' = globalMessages s
  ∧ userMessages s' = userMessages s
  ∧ conversationTimeouts s' = conversationTimeouts s
  ∧ (∀ ms, r = Ready ms →
       ∀ m, objs s' !! m
            = if decide (m ∈ ms) then mark_delivered <$> objs s !! m else objs s !! m)
  ∧ ((∀ ms, r ≠ Ready ms) → s' = s).
Proof.
  intros r s'. subst r s'. unfold bot_response.
  destruct (conversationData_for cid s) as [[a [|]]|]; simpl;
    [destruct (0 <? length (array_of s a))%nat; simpl;
     [destruct (0 <? length (undelivered_sorted s (array_of s a)))%nat eqn:E; simpl|]
    |destruct (0 <? length (array_of s a))%nat; simpl|];
    repeat (split; [done|]).
  - split; [|intros H; by destruct (H _ eq_refl)].
    intros ms [= <-] m. by rewrite lookup_foldr_mark.
  - by split.
  - by split.
  - by split.
  - by split.
  - by split.
Qed.

Lemma ties_ordered_NoDup o l : ties_ordered o l → NoDup l.
Proof.
  intros H. apply NoDup_alt. intros i j x Hi Hj.
  destruct (Nat.lt_trichotomy i j) as [Hlt|[->|Hlt]]; [|done|].
  - pose proof (ties_ordered_pair o l i j x x H Hlt Hi Hj eq_refl). lia.
  - pose proof (ties_ordered_pair o l j i x x H Hlt Hj Hi eq_refl). lia.
Qed.

Lemma distinct_ids_ext o o' l :
  (length o ≤ length o')%nat →
  (∀ m, (m < length o)%nat → id_of o' m = id_of o m) →
  distinct_ids o l → distinct_ids o' l.
Proof.
  intros Hlen Hid [Ha Hn]. split.
  - eapply Forall_impl; [exact Ha|]. simpl. lia.
  - rewrite (Forall_fmap_ext_1 (id_of o') (id_of o)); [done|].
    eapply Forall_impl; [exact Ha|]. simpl. intros m Hm. by apply Hid.
Qed.

Lemma distinct_ids_perm o l l' : l' ≡ₚ l → distinct_ids o l → distinct_ids o l'.
Proof. intros Hp [Ha Hn]. split; by rewrite Hp. Qed.

Lemma distinct_ids_nil o : distinct_ids o [].
Proof. split; constructor. Qed.

Lemma distinct_heap_same s s' :
  objs s' = objs s → arrs s' = arrs s → distinct_heap s → distinct_heap s'.
Proof. unfold distinct_heap. by intros -> ->. Qed.

Lemma id_of_mark l o m : id_of (foldr (alter mark_delivered) o l) m = id_of o m.
Proof.
  unfold id_of. rewrite lookup_foldr_mark. case_decide; [|done].
  by destruct (o !! m).
Qed.

Lemma distinct_heap_array_of s a : distinct_heap s → distinct_ids (objs s) (array_of s a).
Proof.
  intros Hh. unfold array_of. destruct (arrs s !! a) as [l|] eqn:E; simpl.
  - apply Hh. by eapply list_elem_of_lookup_2.
  - apply distinct_ids_nil.
Qed.

Lemma distinct_heap_sorted (x : State) a s s' :
  objs s' = objs s →
  (arrs s' = alter (Js.sort (by_timestamp x)) a (arrs s)
   ∨ arrs s' = alter (Js.sort (by_timestamp x)) a (arrs s) ++ [[]]
   ∨ arrs s' = alter (Js.sort (by_timestamp x)) a (arrs s ++ [[]])
   ∨ arrs s' = alter (Js.sort (by_timestamp x)) a (arrs s ++ [[]]) ++ [[]]) →
  distinct_heap s → distinct_heap s'.
Proof.
  intros Ho Ha Hs l Hl. rewrite Ho.
  assert (Hsorted : ∀ h : list (list nat), (∀ k, k ∈ h → distinct_ids (objs s) k) →
            ∀ k, k ∈ alter (Js.sort (by_timestamp x)) a h → distinct_ids (objs s) k).
  { intros h Hh k [Hk|(y & Hy & ->)]%elem_of_alter_list; [by apply Hh|].
    eapply distinct_ids_perm; [apply sort_permuted|].
    apply Hh. by eapply list_elem_of_lookup_2. }
  assert (Hnil : ∀ h : list (list nat), (∀ k, k ∈ h → distinct_ids (objs s) k) →
            ∀ k, k ∈ h ++ [[]] → distinct_ids (objs s) k).
  { intros h Hh k [Hk|Hk]%elem_of_app; [by apply Hh|].
    apply list_elem_of_singleton in Hk as ->. apply distinct_ids_nil. }
  destruct Ha as [Ha|[Ha|[Ha|Ha]]]; rewrite Ha in Hl; revert l Hl;
    repeat first [ apply Hsorted | apply Hnil ]; exact Hs.
Qed.

Lemma distinct_heap_finalize_timeout cid s :
  distinct_heap s → distinct_heap (N8N.finalize_timeout cid s).
Proof.
  intros Hs. unfold N8N.finalize_timeout.
  destruct (globalMessages s !! cid) as [a|]; simpl;
    destruct (botMessages s !! cid) as [c|]; simpl.
  - eapply (distinct_heap_sorted s a s); [done|by left|done].
  - eapply (distinct_heap_sorted s a s); [done|right; by left|done].
  - eapply (distinct_heap_sorted _ (length (arrs s)) s); [done|right; right; by left|done].
  - eapply (distinct_heap_sorted _ (length (arrs s)) s); [done|by do 3 right|done].
Qed.

Lemma distinct_heap_finalizeMessages cid s :
  distinct_heap s → distinct_heap (Direct.finalizeMessages cid s).
Proof.
  intros Hs. unfold Direct.finalizeMessages.
  destruct (globalMessages s !! cid) as [a|]; simpl; [|done].
  destruct (0 <? length (array_of s a))%nat; simpl; [|done].
  destruct (botMessages s !! cid) as [c|]; simpl.
  - eapply (distinct_heap_sorted s a s); [done|by left|done].
  - eapply (distinct_heap_sorted s a s); [done|right; by left|done].
Qed.

Lemma distinct_heap_fire h s s' : fire h s = Some s' → distinct_heap s → distinct_heap s'.
Proof.
  unfold fire. destruct (timers s !! h) as [t|]; [|done].
  destruct (_ && _); [|done]. intros [= <-] Hs.
  destruct (callback t) as [cid|c|cid]; cbn [run_callback].
  - by apply distinct_heap_finalize_timeout.
  - done.
  - by apply distinct_heap_finalizeMessages.
Qed.

Lemma id_of_app o new m : (m < length o)%nat → id_of (o ++ new) m = id_of o m.
Proof. intros Hm. unfold id_of. by rewrite lookup_app_l. Qed.

Lemma id_of_new o (new : list Message) :
  id_of (o ++ new) <$> seq (length o) (length new) = Some ∘ msgId <$> new.
Proof.
  revert o. induction new as [|x new IH]; intros o; [done|]. simpl. f_equal.
  - unfold id_of. by rewrite list_lookup_middle.
  - specialize (IH (o ++ [x])). rewrite length_app, <- app_assoc in IH. simpl in IH.
    by rewrite Nat.add_1_r in IH.
Qed.

Lemma distinct_heap_monitor_tick cid msgs s :
  NoDup (Direct.v_id <$> msgs) →
  distinct_heap s → distinct_heap (Direct.monitor_tick cid msgs s).
Proof.
  intros Hnd Hs.
  set (fresh := filter (fun msg => Direct.is_new_bot_message cid s msg = true) msgs).
  destruct (decide (fresh = [])) as [E|E].
  { unfold Direct.monitor_tick. fold fresh. by rewrite E. }
  destruct (monitor_tick_shape cid msgs s E) as (a & base & Hobjs & _ & _ & Harr & Hcase).
  fold fresh in Hobjs, Harr.
  set (new := Direct.to_message (clock s) <$> fresh) in *.
  assert (Hlen : length fresh = length new) by (subst new; by rewrite length_fmap).
  rewrite Hlen in Harr.
  assert (Hkeep : ∀ l, distinct_ids (objs s) l → distinct_ids (objs s ++ new) l).
  { intros l. apply distinct_ids_ext; [rewrite length_app; lia|].
    intros m Hm. by apply id_of_app. }
  assert (Hbase : ∀ l, l ∈ base → distinct_ids (objs s) l).
  { destruct Hcase as [(_ & ->)|(_ & _ & ->)]; [done|].
    intros l [Hl|Hl]%elem_of_app; [by apply Hs|].
    apply list_elem_of_singleton in Hl as ->. apply distinct_ids_nil. }
  assert (Hold : ∀ l, base !! a = Some l →
            l = from_option (array_of s) [] (globalMessages s !! cid)).
  { intros l Hl. destruct Hcase as [(Hg & ->)|(Hg & -> & ->)]; rewrite Hg; simpl.
    - unfold array_of. by rewrite Hl.
    - rewrite list_lookup_middle in Hl by done. by injection Hl as <-. }
  intros l Hl. rewrite Hobjs. rewrite Harr in Hl.
  apply elem_of_alter_list in Hl as [Hl|(y & Hy & ->)]; [by apply Hkeep, Hbase|].
  assert (Hy' : distinct_ids (objs s) y) by (apply Hbase; by eapply list_elem_of_lookup_2).
  destruct (Hkeep y Hy') as [Ha Hn]. split.
  - apply Forall_app. split; [done|]. apply Forall_forall.
    intros m Hm%elem_of_seq. rewrite length_app. lia.
  - rewrite fmap_app, id_of_new. apply NoDup_app. split; [done|]. split.
    + intros x Hx Hx'.
      apply list_elem_of_fmap in Hx as (m & -> & Hm).
      apply list_elem_of_fmap in Hx' as (o & Hid & Ho).
      subst new. apply list_elem_of_fmap in Ho as (msg & -> & Hmsg).
      apply list_elem_of_filter in Hmsg as [Hnew _].
      destruct Hy' as [Hay _]. rewrite Forall_forall in Hay. specialize (Hay m Hm).
      rewrite id_of_app in Hid by done.
      rewrite (Hold y Hy) in Hm.
      pose proof (new_has_fresh_id cid s msg m Hnew Hm) as Hfresh.
      unfold Direct.has_id in Hfresh. unfold id_of in Hid.
      destruct (objs s !! m) as [om|]; [|done]. simpl in *.
      injection Hid as Hid. rewrite Hid in Hfresh.
      by rewrite String.eqb_refl in Hfresh.
    + subst new. rewrite <- list_fmap_compose.
      change (NoDup (Some ∘ Direct.v_id <$> fresh)). rewrite list_fmap_compose.
      apply (NoDup_fmap_2 Some).
      eapply sublist_NoDup; [exact Hnd|].
      apply fmap_sublist, sublist_filter.
Qed.

Lemma distinct_heap_step s e :
  direct_event e = true → distinct_listing e → distinct_heap s → distinct_heap (step s e).
Proof.
  intros He Hl Hs. destruct e as [oc otxt|c|body random|c msgs|timer|ms| |]; try done;
    cbn [step].
  - destruct (track_heap oc otxt s) as (_ & Ha & _).
    eapply distinct_heap_same; [apply objs_track|done|done].
  - unfold bot_response.
    destruct (conversationData_for c s) as [[a [|]]|]; try done;
      destruct (0 <? length (array_of s a))%nat; try done.
    destruct (0 <? length (undelivered_sorted s (array_of s a)))%nat; try done.
    cbn [snd]. unfold distinct_heap, deliver; simpl.
    intros l Hin. eapply distinct_ids_ext; [| |by apply Hs].
    + by rewrite length_foldr_mark.
    + intros m _. apply id_of_mark.
  - by apply distinct_heap_monitor_tick.
  - destruct (fire timer s) as [s'|] eqn:E; simpl; [|done]. by eapply distinct_heap_fire.
Qed.

Lemma distinct_heap_run es s :
  Forall (fun e => direct_event e = true) es → Forall distinct_listing es →
  distinct_heap s → distinct_heap (run s es).
Proof.
  revert s. induction es as [|e es IH]; intros s He Hl Hs; [done|].
  apply Forall_cons in He as [He Hes]. apply Forall_cons in Hl as [Hl Hls].
  simpl. by apply IH, distinct_heap_step.
Qed.

Lemma distinct_heap_initial : distinct_heap initial.
Proof. intros l Hl. by apply elem_of_nil in Hl. Qed.

(** X9.  In every reachable state the messages of a READY answer are
    pairwise distinct message objects.  Two of them can carry the same id:
    the webhook backend makes the id from the time of arrival, and the
    monitor of the direct backend compares a listed message with the stored
    ones only, not with the messages of the same listing.  In the direct
    backend, when no listing names an id twice, the ids of a READY answer
    are pairwise distinct. *)
Theorem poll_ready_no_duplicates
  (es : list Event) (cid : string) (ms : list nat) (s' : State) :
  bot_response cid (run initial es) = (Ready ms, s') →
  NoDup ms
  ∧ (Forall (fun e => direct_event e = true) es → Forall distinct_listing es →
     NoDup ((fun m => msgId <$> objs (run initial es) !! m) <$> ms)).
Proof.
  intros Hpoll.
  destruct (poll_ready_inv _ _ _ _ Hpoll) as (a & _ & -> & _).
  pose proof (ordered_run es initial ordered_initial) as Ho.
  split.
  - unfold undelivered_sorted. rewrite by_timestamp_key, sort_perm.
    apply NoDup_filter. eapply ties_ordered_NoDup.
    apply (ordered_heap_array_of (objs (run initial es)) (run initial es) a Ho).
  - intros Hes Hl.
    pose proof (distinct_heap_run es initial Hes Hl distinct_heap_initial) as Hd.
    destruct (distinct_heap_array_of _ a Hd) as [_ Hn].
    unfold undelivered_sorted. rewrite by_timestamp_key, sort_perm.
    eapply sublist_NoDup; [exact Hn|].
    apply fmap_sublist, sublist_filter.
Qed.

Lemma poll_ready_no_duplicates_witness :
  let m1 := {| Direct.v_id := "m1"; Direct.v_userId := "bot";
               Direct.v_conversationId := "c1";
               Direct.v_payload_text := Some "Hi there";
               Direct.v_payload_image := None;
               Direct.v_createdAt := 1000 |} in
  let m2 := {| Direct.v_id := "m2"; Direct.v_userId := "bot";
               Direct.v_conversationId := "c1";
               Direct.v_payload_text := Some "How can I help?";
               Direct.v_payload_image := None;
               Direct.v_createdAt := 1200 |} in
  let twice := [Track (Some "c1") (Some "hello"); MonitorTick "c1" [m1; m1];
                Elapse 5000; Fire 0] in
  let once := [Track (Some "c1") (Some "hello"); MonitorTick "c1" [m1];
               Elapse 2000; MonitorTick "c1" [m1; m2]; Elapse 5000; Fire 1] in
  (punctual initial twice = true
   ∧ NoDup [0%nat; 1%nat]
   ∧ (msgId <$> objs (run initial twice)) = ["m1"; "m1"])
  ∧ (punctual initial once = true
     ∧ NoDup [Some "m1"; Some "m2"]).
Proof.
  intros m1 m2 twice once.
  assert (H1 : bot_response "c1" (run initial twice)
               = (Ready [0%nat; 1%nat], deliver [0%nat; 1%nat] (run initial twice)))
    by (vm_compute; reflexivity).
  assert (H2 : bot_response "c1" (run initial once)
               = (Ready [0%nat; 1%nat], deliver [0%nat; 1%nat] (run initial once)))
    by (vm_compute; reflexivity).
  split.
  - split; [vm_compute; reflexivity|]. split; [|vm_compute; reflexivity].
    exact (proj1 (poll_ready_no_duplicates twice "c1" _ _ H1)).
  - split; [vm_compute; reflexivity|].
    assert (Hd : Forall (fun e => direct_event e = true) once) by repeat constructor.
    assert (Hl : Forall distinct_listing once).
    { repeat apply Forall_cons_2; try apply Forall_nil_2; cbn [distinct_listing];
        try exact I; apply (bool_decide_unpack _); vm_compute; exact I. }
    pose proof (proj2 (poll_ready_no_duplicates once "c1" _ _ H2) Hd Hl) as Hn.
    vm_compute in Hn. exact Hn.
Defined.

(** ** Finalization with nothing collected *)

(** X10.  When the six-second timeout of the webhook backend fires for a
    conversation that has no entry in [globalMessages] and none in
    [botMessages] (a tracking call has deleted them), it files an empty
    finalized buffer for the conversation, to which a poll answers that
    there are no messages, and deletes the tracked user message.
    [finalizeMessages] of the direct backend, when nothing is collected,
    files nothing: it only deletes the tracked user message and the entry
    of the timer registry. *)
Theorem finalize_without_fragments :
  (∀ cid s,
     globalMessages s !! cid = None → botMessages s !! cid = None →
     let s' := N8N.finalize_timeout cid s in
     ∃ c v, botMessages s' !! cid = Some c ∧ convs s' !! c = Some v
       ∧ allMessagesReceived v = true ∧ content s' v = []
       ∧ bot_response cid s' = (NoMessages, s')
       ∧ userMessages s' !! cid = None
       ∧ conversationTimeouts s' !! cid = None)
  ∧ (∀ cid s,
       from_option (array_of s) [] (globalMessages s !! cid) = [] →
       let s' := Direct.finalizeMessages cid s in
       botMessages s' = botMessages s ∧ convs s' = convs s ∧ arrs s' = arrs s
       ∧ objs s' = objs s ∧ globalMessages s' = globalMessages s
       ∧ userMessages s' = delete cid (userMessages s)
       ∧ conversationTimeouts s' = delete cid (conversationTimeouts s)).
Proof.
  split.
  - intros cid s Hg Hb s'. subst s'. unfold N8N.finalize_timeout.
    rewrite Hg. simpl. rewrite Hb. simpl.
    eexists. eexists. split; [apply lookup_insert_eq|]. split.
    { rewrite list_lookup_alter_eq, lookup_app_r, Nat.sub_diag by done. 
      simpl. reflexivity. }
    simpl. split; [done|].
    assert (Harr : alter (Js.sort (by_timestamp (set_arrs (λ h, h ++ [[]]) s)))
                     (length (arrs s)) (arrs s ++ [[]]) !! length (arrs s) = Some []).
    { by rewrite list_lookup_alter_eq, lookup_app_r, Nat.sub_diag. }
    split.
    { unfold content, array_of; simpl.
      rewrite lookup_app_l by (rewrite length_alter, length_app; simpl; lia).
      by rewrite Harr. }
    split; [|split; apply lookup_delete_eq].
    unfold bot_response, conversationData_for. simpl.
    rewrite lookup_insert_eq.
    rewrite list_lookup_alter_eq, lookup_app_r, Nat.sub_diag by done.
    simpl. unfold array_of. simpl.
    rewrite lookup_app_l by (rewrite length_alter, length_app; simpl; lia).
    by rewrite Harr.
  - intros cid s He s'. subst s'. unfold Direct.finalizeMessages.
    destruct (globalMessages s !! cid) as [a|]; simpl in *; [|done].
    by rewrite He.
Qed.

(** ** Clearing all state *)

Lemma registry_only_le s s' : timers_le s s' → registry_only s → registry_only s'.
Proof.
  intros [_ Hle] H h t' Ht' Hp.
  destruct (Hle h t' Ht') as (t & Ht & _ & Hc & Hpp). rewrite Hc.
  apply (H h t Ht). by apply Hpp.
Qed.

Lemma registry_only_step s e :
  direct_event e = true → registry_only s → registry_only (step s e).
Proof.
  intros He H. destruct e as [oc otxt|c|body random|c msgs|timer|ms| |]; try done;
    cbn [step].
  - eapply registry_only_le; [|done]. apply track_frame.
  - intros h t. rewrite timers_poll. apply H.
  - destruct (decide (filter (fun msg => Direct.is_new_bot_message c s msg = true) msgs = []))
      as [E|E].
    + unfold Direct.monitor_tick. by rewrite E.
    + pose proof (rearmed_monitor_tick c msgs s E) as Hre.
      intros h t Ht Hp.
      destruct (rearmed_others _ _ _ _ h t Hre Ht Hp) as [->|(t0 & Ht0 & Hp0 & Hc & _)].
      * destruct (rearmed_fresh _ _ _ _ Hre) as [_ Hf]. rewrite Hf in Ht.
        injection Ht as <-. simpl. eauto.
      * rewrite <- Hc. by eapply H.
  - destruct (fire timer s) as [s'|] eqn:E; simpl; [|done].
    eapply registry_only_le; [|done]. by eapply fire_heap.
  - eapply registry_only_le; [|done]. apply timers_le_clear_all.
Qed.

Lemma registry_only_run es s :
  Forall (fun e => direct_event e = true) es → registry_only s → registry_only (run s es).
Proof.
  revert s. induction es as [|e es IH]; intros s Hes H; [done|].
  apply Forall_cons in Hes as [He Hes]. simpl. by apply IH, registry_only_step.
Qed.

(** X11.  The clear-all call of the direct backend.  After it a poll of a
    conversation, whose id is not the name of an inherited property, answers
    that there are no messages, no user message is tracked, the timer
    registry is empty and every countdown it held is cancelled.  In a state
    the direct backend has reached no finalize countdown is pending after
    the call, and none of those that exist at the call ever goes off later.
    The call does not stop the monitors, whose interval and stop timers are
    not in the registry: with nothing tracked or collected to compare a
    listing with, a tick after the call collects every listed message that
    is not the user's and has a text, and arms a new countdown for the
    conversation, which goes off five seconds later. *)
Theorem direct_clear_all_resets :
  (∀ s cid, Js.inherited cid = false →
     bot_response cid (Direct.clear_all s) = (NoMessages, Direct.clear_all s))
  ∧ (∀ s, userMessages (Direct.clear_all s) = ∅
          ∧ conversationTimeouts (Direct.clear_all s) = ∅
          ∧ objs (Direct.clear_all s) = objs s)
  ∧ (∀ es h t cid,
       timers (Direct.clear_all (run initial es)) !! h = Some t →
       timer_conversation (callback t) = Some cid → pending t = false)
  ∧ (∀ es h,
       Forall (fun e => direct_event e = true) es →
       fire h (Direct.clear_all (run initial es)) = None
       ∧ ∀ es', (h < length (timers (run initial es)))%nat →
                fire h (run (Direct.clear_all (run initial es)) es') = None)
  ∧ (∀ s cid msgs,
       Js.inherited cid = false →
       let fresh :=
         filter (fun msg => negb (String.eqb (Direct.v_userId msg)
                                             (Direct.v_conversationId msg))
                            && Js.truthy (Direct.v_payload_text msg) = true) msgs in
       fresh ≠ [] →
       let s' := Direct.monitor_tick cid msgs (Direct.clear_all s) in
       objs s' = objs s ++ (Direct.to_message (clock s) <$> fresh)
       ∧ collected cid s' = seq (length (objs s)) (length fresh)
       ∧ conversationTimeouts s' !! cid = Some (length (timers s))
       ∧ timers s' !! length (timers s)
         = Some {| due := clock s + 5000; callback := DirectFinalize cid; pending := true |}
       ∧ is_Some (fire (length (timers s)) (step s' (Elapse 5000)))).
Proof.
  assert (Hreg : ∀ es h t cid,
       timers (Direct.clear_all (run initial es)) !! h = Some t →
       timer_conversation (callback t) = Some cid → pending t = false).
  { intros es h t cid Ht Hc. simpl in Ht. rewrite lookup_foldr_cancel in Ht.
    pose proof (single_timer_run es initial single_timer_initial) as Hsingle.
    destruct (timers (run initial es) !! h) as [t0|] eqn:E0.
    - case_decide as Hin; simpl in Ht; injection Ht as <-; [done|].
      destruct (pending t0) eqn:Hp; [|done]. exfalso. apply Hin.
      pose proof (Hsingle h t0 cid E0 Hp Hc) as Hr.
      apply list_elem_of_fmap. exists (cid, h). split; [done|].
      by apply elem_of_map_to_list.
    - by case_decide. }
  assert (Hnone : ∀ es h t,
       Forall (fun e => direct_event e = true) es →
       timers (Direct.clear_all (run initial es)) !! h = Some t → pending t = false).
  { intros es h t Hes Ht. destruct (pending t) eqn:Hp; [|done]. exfalso.
    assert (Hro : registry_only (Direct.clear_all (run initial es))).
    { eapply registry_only_le; [apply timers_le_clear_all|].
      apply registry_only_run; [done|]. intros h0 t0 E. by destruct h0. }
    destruct (Hro h t Ht Hp) as [cid Hc].
    pose proof (Hreg es h t cid Ht Hc). congruence. }
  split; [|split; [|split; [|split]]].
  - intros s cid _. unfold bot_response, conversationData_for. simpl.
    by rewrite !lookup_empty.
  - done.
  - exact Hreg.
  - intros es h Hes. split.
    + unfold fire.
      destruct (timers (Direct.clear_all (run initial es)) !! h) as [t|] eqn:Ht; [|done].
      by rewrite (Hnone es h t Hes Ht).
    + intros es' Hh.
      destruct (lookup_lt_is_Some_2 (timers (Direct.clear_all (run initial es))) h)
        as [t Ht].
      { by rewrite (timers_le_length _ _ (timers_le_clear_all _)). }
      destruct (timers_ext_run es' _ h t Ht) as (t' & Ht' & _ & _ & Hp).
      unfold fire. rewrite Ht'.
      destruct (pending t') eqn:Hp'; [|done].
      specialize (Hp eq_refl). by rewrite (Hnone es h t Hes Ht) in Hp.
  - intros s cid msgs _ fresh Hne.
    set (s0 := Direct.clear_all s). intros s'.
    assert (Hf : filter (fun msg => Direct.is_new_bot_message cid s0 msg = true) msgs = fresh).
    { subst fresh. apply list_filter_iff. intros msg.
      unfold Direct.is_new_bot_message. simpl. rewrite !lookup_empty. simpl.
      by rewrite andb_true_r, andb_true_r. }
    assert (Hne0 : filter (fun msg => Direct.is_new_bot_message cid s0 msg = true) msgs ≠ [])
      by by rewrite Hf.
    destruct (monitor_tick_shape cid msgs s0 Hne0) as (a & base & Ho & Hc & Hg & Ha & Hcase).
    rewrite Hf in Ho, Ha. fold s' in Ho, Hc, Hg, Ha.
    destruct Hcase as [[Hga _]|(_ & -> & ->)]; [done|].
    destruct (rearmed_fresh _ _ _ _ (rearmed_monitor_tick cid msgs s0 Hne0)) as [R1 R2].
    fold s' in R1, R2.
    assert (Hlen : length (timers s0) = length (timers s))
      by apply (timers_le_length _ _ (timers_le_clear_all s)).
    rewrite Hlen in R1, R2.
    split; [exact Ho|]. split; [|split; [exact R1|split; [exact R2|]]].
    + unfold collected, array_of. rewrite Hg, lookup_insert_eq. simpl. rewrite Ha.
      by rewrite list_lookup_alter_eq, list_lookup_middle.
    + unfold fire. simpl. rewrite R2. simpl. rewrite Hc.
      change (clock s0) with (clock s). rewrite Z.leb_refl. by eexists.
Qed.

Lemma direct_clear_all_resets_witness :
  let m1 := {| Direct.v_id := "m1"; Direct.v_userId := "bot";
               Direct.v_conversationId := "c1";
               Direct.v_payload_text := Some "Hi there";
               Direct.v_payload_image := None;
               Direct.v_createdAt := 1000 |} in
  let es := [Track (Some "c1") (Some "hello"); Elapse 2000; MonitorTick "c1" [m1];
             Elapse 1000] in
  let s := run initial es in
  let s' := Direct.monitor_tick "c1" [m1] (Direct.clear_all s) in
  punctual initial (es ++ [ClearAllDirect; MonitorTick "c1" [m1]; Elapse 5000]) = true
  ∧ fire 0 (run (Direct.clear_all s) [MonitorTick "c1" [m1]; Elapse 5000]) = None
  ∧ collected "c1" s' = [1%nat]
  ∧ timers s' !! 1%nat
    = Some {| due := 8000; callback := DirectFinalize "c1"; pending := true |}
  ∧ is_Some (fire 1 (step s' (Elapse 5000))).
Proof.
  intros m1 es s s'.
  destruct direct_clear_all_resets as (_ & _ & _ & Hcancelled & Htick).
  split; [vm_compute; reflexivity|]. split.
  - apply (Hcancelled es 0%nat); [repeat constructor|]. vm_compute. lia.
  - destruct (Htick s "c1" [m1]) as (_ & H2 & _ & H4 & H5).
    + reflexivity.
    + vm_compute. discriminate.
    + split; [exact H2|]. split; [exact H4|exact H5].
Defined.

(** X12.  The clear-all call of the webhook backend empties [botMessages]
    and [userMessages] only.  What the tagged branch has collected stays in
    [globalMessages]: when no timer is registered for the conversation, a
    poll after the call still answers READY with every undelivered message
    of that buffer; and a timer fires after the call exactly when it would
    have fired without it. *)
Theorem webhook_clear_all_keeps_global_storage :
  (∀ s, botMessages (N8N.clear_all s) = ∅ ∧ userMessages (N8N.clear_all s) = ∅
        ∧ globalMessages (N8N.clear_all s) = globalMessages s
        ∧ conversationTimeouts (N8N.clear_all s) = conversationTimeouts s
        ∧ timers (N8N.clear_all s) = timers s)
  ∧ (∀ s cid a m,
       globalMessages s !! cid = Some a → conversationTimeouts s !! cid = None →
       m ∈ array_of s a → undelivered s m = true →
       ∃ ms, (bot_response cid (N8N.clear_all s)).1 = Ready ms ∧ m ∈ ms)
  ∧ (∀ s h, fire h (N8N.clear_all s) = None ↔ fire h s = None).
Proof.
  split; [done|]. split.
  - intros s cid a m Hg Hr Hm Hu.
    exists (undelivered_sorted s (array_of s a)).
    assert (Hin : m ∈ undelivered_sorted s (array_of s a))
      by (by apply elem_of_undelivered_sorted).
    split; [|done].
    unfold bot_response, conversationData_for. simpl. rewrite lookup_empty, Hg, Hr. simpl.
    change (array_of (N8N.clear_all s) a) with (array_of s a).
    change (undelivered_sorted (N8N.clear_all s)) with (undelivered_sorted s).
    destruct (array_of s a) as [|x l] eqn:El; [by apply elem_of_nil in Hm|]. simpl.
    destruct (undelivered_sorted s (x :: l)); [by apply elem_of_nil in Hin|done].
  - intros s h. unfold fire. simpl.
    destruct (timers s !! h) as [t|]; [|done].
    destruct (pending t && (due t <=? clock s)); [|done]. done.
Qed.

(** ** The middleware *)

(** X13.  The request timeout is five seconds exactly for the URLs that
    contain [/webhook], and thirty seconds for all others.  The route of the
    webhook itself, [/api/botpress-webhook], does not contain it: the
    timeout of a call to it is that of its query string alone, thirty
    seconds when there is none. *)
Theorem request_timeout_spec :
  (∀ url, N8N.request_timeout url = 5000 ↔ contains "/webhook" url)
  ∧ (∀ url, N8N.request_timeout url ≠ 5000 → N8N.request_timeout url = 30000)
  ∧ (∀ query, N8N.request_timeout ("/api/botpress-webhook" +:+ query)
              = N8N.request_timeout query)
  ∧ N8N.request_timeout "/api/botpress-webhook" = 30000.
Proof.
  split; [|split; [|split]].
  - intros url. rewrite <- includes_spec. unfold N8N.request_timeout.
    destruct (Js.includes "/webhook" url); split; done.
  - intros url. unfold N8N.request_timeout. by destruct (Js.includes _ _).
  - intros query. unfold N8N.request_timeout.
    replace (Js.includes "/webhook" ("/api/botpress-webhook" +:+ query))
      with (Js.includes "/webhook" query); [done|].
    symmetry. rewrite !append_cons.
    repeat (rewrite includes_cons_ne by done). done.
  - reflexivity.
Qed.

(** X14.  The [origin] function of the CORS configuration allows every
    origin, listed or not, whatever the environment holds. *)
Theorem cors_origin_allows_all (VERCEL_LINK VERCEL_LINK_2 origin : option string) :
  N8N.cors_origin VERCEL_LINK VERCEL_LINK_2 origin = true.
Proof.
  unfold N8N.cors_origin. destruct (negb (Js.truthy origin)); [done|].
  by destruct (_ || _).
Qed.

(** ** The debug listing *)

(** X15.  The text the debug listing shows for a message: nothing when the
    message has no text; the text itself when it has at most 50 characters;
    its first 50 characters followed by three dots otherwise. *)
Theorem text_preview_spec (text : option string) :
  match text with
  | None | Some "" => N8N.text_preview text = None
  | Some t =>
      if (String.length t <=? 50)%nat then N8N.text_preview text = Some t
      else ∃ shown rest,
             t = shown +:+ rest ∧ String.length shown = 50%nat
             ∧ N8N.text_preview text = Some (shown +:+ "...")
  end.
Proof.
  destruct text as [t|]; [|done]. destruct t as [|c t]; [done|].
  set (s := String c t). unfold N8N.text_preview.
  change (Js.truthy (Some s)) with true. change (default "" (Some s)) with s. cbv iota.
  destruct (Nat.leb_spec (String.length s) 50) as [Hle|Hgt].
  - destruct (Nat.ltb_spec 50 (String.length s)); [lia|].
    rewrite substring_0_short by done. by rewrite append_nil_r.
  - destruct (Nat.ltb_spec 50 (String.length s)); [|lia].
    destruct (substring_0_split 50 s) as (rest & E & L); [lia|].
    by exists (substring 0 50 s), rest.
Qed.

(** ** The upload handler of the direct backend *)

Lemma kbIdForKey_tag kb : Direct.kbIdForKey kb = "kb-" +:+ Direct.kbId_tag kb.
Proof.
  unfold Direct.kbIdForKey, Direct.kbId_tag.
  destruct (String.prefix "kb-" kb) eqn:E; [|done].
  pose proof E as [post ->]%prefix_spec.
  assert (Hs : substring 3 (String.length ("kb-" +:+ post) - 3) ("kb-" +:+ post) = post).
  { rewrite length_append. simpl. rewrite Nat.sub_0_r.
    pose proof (substring_drop 0 post) as H. rewrite Nat.sub_0_r in H.
    symmetry. destruct post; [done|]. apply H. simpl. lia. }
  by rewrite Hs.
Qed.

(** X16.  The key under which a file is registered starts with [kb-] and
    names the knowledge base the [kbId] tag names: the key prefix is [kb-]
    followed by the tag, whether the configured id carries the prefix or
    not; normalizing twice changes nothing. *)
Theorem knowledge_base_key_and_tag (kb : string) :
  Direct.kbIdForKey kb = "kb-" +:+ Direct.kbId_tag kb
  ∧ String.prefix "kb-" (Direct.kbIdForKey kb) = true
  ∧ Direct.kbIdForKey (Direct.kbIdForKey kb) = Direct.kbIdForKey kb
  ∧ Direct.kbId_tag (Direct.kbIdForKey kb) = Direct.kbId_tag kb
  ∧ (String.prefix "kb-" kb = false → Direct.kbId_tag kb = kb).
Proof.
  unfold Direct.kbIdForKey, Direct.kbId_tag.
  destruct (String.prefix "kb-" kb) eqn:E.
  - rewrite E. pose proof E as [post ->]%prefix_spec.
    assert (Hs : substring 3 (String.length ("kb-" +:+ post) - 3) ("kb-" +:+ post) = post).
    { rewrite length_append. simpl. rewrite Nat.sub_0_r.
      pose proof (substring_drop 0 post) as H. rewrite Nat.sub_0_r in H.
      symmetry. destruct post; [done|]. apply H. simpl. lia. }
    rewrite Hs. done.
  - assert (E' : String.prefix "kb-" ("kb-" +:+ kb) = true)
      by (apply prefix_spec; by exists kb).
    rewrite E'. split; [done|]. split; [done|]. split; [done|]. split; [|done].
    rewrite length_append. simpl.
    pose proof (substring_drop 0 kb) as H. rewrite !Nat.sub_0_r in *.
    destruct kb; [done|]. symmetry. apply H. simpl. lia.
Qed.

Lemma unlink_if_exists_eq p (files : gset string) :
  Direct.unlink_if_exists p files = files ∖ {[p]}.
Proof.
  unfold Direct.unlink_if_exists. case_decide as Hp; [done|].
  apply set_eq. intros x. rewrite elem_of_difference, elem_of_singleton.
  split; [|by intros [? _]]. intros Hx. split; [done|]. by intros ->.
Qed.

(** X17.  Without a file the upload handler answers 400, sends no request
    and leaves the upload directory alone.  With a file, whatever the two
    requests come back with and whether the call succeeds or fails, the
    temporary file is gone afterwards and every other file of the upload
    directory is still there. *)
Theorem upload_removes_temporary_file
  (kb : option string) (file : option Direct.UploadedFile) (title : option string)
  (now : Z) (register : Direct.RegisterResult) (content : Direct.ContentResult)
  (files : gset string) :
  let files' := (Direct.upload kb file title now register content files).2 in
  match file with
  | None =>
      Direct.upload kb file title now register content files
      = (Direct.UploadNoFile, [], files)
  | Some f =>
      (Direct.path f ∉ files')
      ∧ ∀ p, p ≠ Direct.path f → (p ∈ files' ↔ p ∈ files)
  end.
Proof.
  intros files'. subst files'. destruct file as [f|]; [|done].
  assert (H : (Direct.upload kb (Some f) title now register content files).2
              = files ∖ {[Direct.path f]}).
  { unfold Direct.upload.
    destruct kb as [k|]; simpl; [|apply unlink_if_exists_eq].
    destruct register as [m|st tx|m|fo rd]; simpl; try apply unlink_if_exists_eq.
    destruct (_ && _); simpl; [|apply unlink_if_exists_eq].
    case_decide; simpl; [|apply unlink_if_exists_eq].
    destruct content; simpl; try apply unlink_if_exists_eq. done. }
  rewrite H. split.
  - rewrite elem_of_difference, elem_of_singleton. by intros [_ ?].
  - intros p Hp. rewrite elem_of_difference, elem_of_singleton.
    split; [by intros [? _]|by intros].
Qed.

(** X18.  The requests of an upload.  Without a configured knowledge base
    nothing is sent.  Otherwise the first request registers the file, under
    a key made of [kb-], the [kbId] tag, the time and the file name; the
    content is sent, once, only when the registration came back with an
    upload URL and a file id and the temporary file could be read; and the
    call answers 200 only when the content request succeeded, with the id
    the registration gave. *)
Theorem upload_requests
  (kb : option string) (f : Direct.UploadedFile) (title : option string)
  (now : Z) (register : Direct.RegisterResult) (content : Direct.ContentResult)
  (files : gset string) :
  let response := (Direct.upload kb (Some f) title now register content files).1.1 in
  let sent := (Direct.upload kb (Some f) title now register content files).1.2 in
  let shown := default (Direct.originalname f) (Js.or title (Some (Direct.originalname f))) in
  (kb = None → sent = [] ∧ response = Direct.UploadFailed Direct.KnowledgeBaseUnset)
  ∧ (∀ k, kb = Some k →
       ∃ rest,
         sent = Direct.PutFile
                  ("kb-" +:+ Direct.kbId_tag k +:+ "/" +:+ Js.number_to_string now
                   +:+ "-" +:+ Direct.originalname f)
                  (Direct.mimetype f) (Direct.size f) (Direct.kbId_tag k) shown
                :: rest
         ∧ (rest = [] ∨ ∃ url, rest = [Direct.PutContent url (Direct.mimetype f)]))
  ∧ (∀ url ct, Direct.PutContent url ct ∈ sent →
       ∃ fo rd, register = Direct.RegisterOk fo rd
                ∧ Direct.uploadUrl (default rd fo) = Some url ∧ url ≠ ""
                ∧ Js.truthy (Direct.fileId (default rd fo)) = true
                ∧ Direct.path f ∈ files)
  ∧ (∀ id name key t, response = Direct.UploadOk id name key t →
       content = Direct.ContentOk ∧ name = Direct.originalname f ∧ t = shown
       ∧ length sent = 2%nat
       ∧ ∃ fo rd, register = Direct.RegisterOk fo rd
                  ∧ Direct.fileId (default rd fo) = Some id).
Proof.
  intros response sent shown. subst response sent. unfold Direct.upload.
  destruct kb as [k|]; simpl.
  2:{ split; [done|]. split; [done|]. split; [|done].
      intros url ct H. by apply elem_of_nil in H. }
  split; [done|].
  assert (Hkey : Direct.kbIdForKey k +:+ "/" +:+ Js.number_to_string now
                 +:+ "-" +:+ Direct.originalname f
                 = "kb-" +:+ Direct.kbId_tag k +:+ "/" +:+ Js.number_to_string now
                   +:+ "-" +:+ Direct.originalname f).
  { rewrite kbIdForKey_tag. by rewrite append_assoc. }
  rewrite Hkey.
  assert (Hone : ∀ x url ct, Direct.PutContent url ct ∈ [x] →
            ∀ a b c d e, x = Direct.PutFile a b c d e → False).
  { intros x url ct Hin a b c d e ->. by apply list_elem_of_singleton in Hin. }
  destruct register as [m|st tx|m|fo rd]; simpl.
  1-3: (split; [intros k' [= <-]; eexists; split; [reflexivity|by left]|];
        split; [|done]; intros url ct H; exfalso; by eapply Hone).
  destruct (Js.truthy (Direct.uploadUrl (default rd fo))) eqn:Eu; simpl.
  2:{ split; [intros k' [= <-]; eexists; split; [reflexivity|by left]|].
      split; [|done]. intros url ct H. exfalso. by eapply Hone. }
  destruct (Js.truthy (Direct.fileId (default rd fo))) eqn:Ei; simpl.
  2:{ split; [intros k' [= <-]; eexists; split; [reflexivity|by left]|].
      split; [|done]. intros url ct H. exfalso. by eapply Hone. }
  assert (Hu : ∃ u, Direct.uploadUrl (default rd fo) = Some u ∧ u ≠ "").
  { destruct (Direct.uploadUrl (default rd fo)) as [u|]; [|done]. exists u.
    split; [done|]. by intros ->. }
  destruct Hu as (u & Hu & Hune).
  assert (Hid : ∃ i, Direct.fileId (default rd fo) = Some i).
  { destruct (Direct.fileId (default rd fo)) as [i|]; [by exists i|done]. }
  destruct Hid as (i & Hid).
  case_decide as Hp; simpl.
  2:{ split; [intros k' [= <-]; eexists; split; [reflexivity|by left]|].
      split; [|done]. intros url ct H. exfalso. by eapply Hone. }
  assert (Hsent : ∀ url ct x,
            Direct.PutContent url ct ∈ [x; Direct.PutContent (default "" (Direct.uploadUrl (default rd fo))) (Direct.mimetype f)] →
            (∀ a b c d e, x = Direct.PutFile a b c d e → 
             ∃ fo0 rd0, Direct.RegisterOk fo rd = Direct.RegisterOk fo0 rd0
                ∧ Direct.uploadUrl (default rd0 fo0) = Some url ∧ url ≠ ""
                ∧ Js.truthy (Direct.fileId (default rd0 fo0)) = true
                ∧ Direct.path f ∈ files)).
  { intros url ct x Hin a b c d e ->.
    apply elem_of_cons in Hin as [Hin|Hin]; [done|].
    apply list_elem_of_singleton in Hin. injection Hin as -> ->.
    exists fo, rd. rewrite Hu. done. }
  destruct content as [m|st|]; simpl.
  1-2: (split; [intros k' [= <-]; eexists; split; [reflexivity|right; by eexists]|];
        split; [|done]; intros url ct H; by eapply Hsent).
  split; [intros k' [= <-]; eexists; split; [reflexivity|right; by eexists]|].
  split; [intros url ct H; by eapply Hsent|].
  intros id name key t [= <- <- <- <-]. rewrite Hid. simpl.
  split; [done|]. split; [done|]. split; [done|]. split; [done|]. by exists fo, rd.
Qed.

(** ** The polling loop of the chat front end *)

Lemma poll_step fuel attempts attempt now st :
  Chat.poll (S fuel) attempts attempt now st
  = match delivers (attempt attempts) with
    | Some data_messages =>
        Some ({| Chat.messages := Chat.messages st ++ (Chat.of_backend <$> data_messages);
                 Chat.displayedMessageIds :=
                   Chat.displayedMessageIds st
                   ∪ list_to_set (Chat.id <$> (Chat.of_backend <$> data_messages));
                 Chat.isLoading := false |}, S attempts)
    | None =>
        if (Chat.maxAttempts <=? S attempts)%nat
        then Some (Chat.stop_with (last_word (attempt attempts) (now attempts)) st, S attempts)
        else Chat.poll fuel (S attempts) attempt now st
    end.
Proof.
  simpl. destruct (attempt attempts) as [|status|[|] [l|]]; reflexivity.
Qed.

Lemma poll_total fuel attempts attempt now st :
  (attempts < Chat.maxAttempts)%nat → (Chat.maxAttempts - attempts ≤ fuel)%nat →
  ∃ st' n,
    Chat.poll fuel attempts attempt now st = Some (st', n)
    ∧ (attempts < n ≤ Chat.maxAttempts)%nat
    ∧ Chat.isLoading st' = false
    ∧ (∀ j, (attempts ≤ j < n - 1)%nat → delivers (attempt j) = None)
    ∧ match delivers (attempt (n - 1)%nat) with
      | Some l =>
          Chat.messages st' = Chat.messages st ++ (Chat.of_backend <$> l)
          ∧ Chat.displayedMessageIds st'
            = Chat.displayedMessageIds st ∪ list_to_set (msgId <$> l)
      | None =>
          n = Chat.maxAttempts
          ∧ Chat.messages st'
            = Chat.messages st ++ [last_word (attempt (n - 1)%nat) (now (n - 1)%nat)]
          ∧ Chat.displayedMessageIds st' = Chat.displayedMessageIds st
      end.
Proof.
  remember (Chat.maxAttempts - attempts)%nat as d eqn:Hd.
  revert fuel attempts Hd. induction d as [|d IH]; intros fuel attempts Hd Ha Hf; [lia|].
  destruct fuel as [|fuel]; [lia|]. rewrite poll_step.
  destruct (delivers (attempt attempts)) as [l|] eqn:E.
  - eexists. exists (S attempts). split; [reflexivity|]. split; [lia|]. split; [done|].
    split; [intros j Hj; lia|].
    replace (S attempts - 1)%nat with attempts by lia. rewrite E. simpl.
    split; [done|]. f_equal. f_equal. rewrite <- list_fmap_compose.
    apply list_fmap_ext. intros i x _. by destruct x.
  - destruct (Nat.leb_spec Chat.maxAttempts (S attempts)).
    + eexists. exists (S attempts). split; [reflexivity|]. split; [lia|]. split; [done|].
      split; [intros j Hj; lia|].
      replace (S attempts - 1)%nat with attempts by lia. rewrite E. simpl.
      split; [lia|done].
    + destruct (IH fuel (S attempts)) as (st' & n & Hp & Hn & Hl & Hnone & Hlast);
        [lia|lia|lia|].
      exists st', n. split; [done|]. split; [lia|]. split; [done|]. split; [|done].
      intros j Hj. destruct (decide (j = attempts)) as [->|]; [done|].
      apply Hnone. lia.
Qed.

(** X19.  The polling loop ends, after at most 30 requests, with the
    loading flag off and the messages shown so far still there in front.
    Without a conversation id it sends no request.  Otherwise it stops at
    the first answer that carries messages and appends them, in the order
    and with the ids of the answer; when none of 30 answers carries
    messages it appends one message of its own: the error message when the
    last request was rejected, the timeout message otherwise. *)
Theorem poll_loop_outcome
  (fuel : nat) (conversationId : option string)
  (attempt : nat → Chat.Attempt) (now : nat → Z) (st : Chat.ChatState) :
  (Chat.maxAttempts ≤ fuel)%nat →
  ∃ st' n,
    Chat.pollForBotResponse fuel conversationId attempt now st = Some (st', n)
    ∧ (n ≤ Chat.maxAttempts)%nat
    ∧ Chat.isLoading st' = false
    ∧ (∀ j, (j < n - 1)%nat → delivers (attempt j) = None)
    ∧ if Js.truthy conversationId then
        (1 ≤ n)%nat
        ∧ match delivers (attempt (n - 1)%nat) with
          | Some l =>
              Chat.messages st' = Chat.messages st ++ (Chat.of_backend <$> l)
              ∧ Chat.displayedMessageIds st'
                = Chat.displayedMessageIds st ∪ list_to_set (msgId <$> l)
          | None =>
              n = Chat.maxAttempts
              ∧ Chat.messages st'
                = Chat.messages st
                  ++ [last_word (attempt (n - 1)%nat) (now (n - 1)%nat)]
              ∧ Chat.displayedMessageIds st' = Chat.displayedMessageIds st
          end
      else n = 0%nat ∧ Chat.messages st' = Chat.messages st
           ∧ Chat.displayedMessageIds st' = Chat.displayedMessageIds st.
Proof.
  intros Hfuel. unfold Chat.pollForBotResponse.
  destruct (Js.truthy conversationId).
  - destruct (poll_total fuel 0 attempt now st) as (st' & n & Hp & Hn & Hl & Hnone & Hlast).
    { unfold Chat.maxAttempts. lia. }
    { lia. }
    exists st', n. split; [done|]. split; [lia|]. split; [done|]. split.
    + intros j Hj. apply Hnone. lia.
    + split; [lia|done].
  - eexists. exists 0%nat. split; [reflexivity|]. split; [lia|]. split; [done|].
    split; [intros j Hj; lia|done].
Qed.

Lemma poll_loop_outcome_witness :
  ∃ st' n,
    Chat.pollForBotResponse 30 (Some "c1")
      (fun k => if (k =? 2)%nat
                then Chat.AttemptData true
                       (Some [{| text := Some "Hi there"; image := None; timestamp := 0;
                                 receivedAt := 0; msgId := "bot-msg-0-k3x9pq";
                                 delivered := true |}])
                else Chat.AttemptData false None)
      (fun k => 2000 * Z.of_nat k)
      {| Chat.messages := []; Chat.displayedMessageIds := ∅; Chat.isLoading := true |}
    = Some (st', n)
    ∧ (n ≤ Chat.maxAttempts)%nat ∧ Chat.isLoading st' = false.
Proof.
  destruct (poll_loop_outcome 30 (Some "c1")
      (fun k => if (k =? 2)%nat
                then Chat.AttemptData true
                       (Some [{| text := Some "Hi there"; image := None; timestamp := 0;
                                 receivedAt := 0; msgId := "bot-msg-0-k3x9pq";
                                 delivered := true |}])
                else Chat.AttemptData false None)
      (fun k => 2000 * Z.of_nat k)
      {| Chat.messages := []; Chat.displayedMessageIds := ∅; Chat.isLoading := true |})
    as (st' & n & H1 & H2 & H3 & _).
  - unfold Chat.maxAttempts. lia.
  - exists st', n. split; [exact H1|]. split; [exact H2|exact H3].
Defined.

(** ** A whole cycle of the webhook backend *)

Lemma sort_sorted_id {A} (cmp : A → A → Z) l :
  StronglySorted (fun x y => cmp x y <= 0) l → Js.sort cmp l = l.
Proof.
  induction 1 as [|x l Hs IH Hx]; [done|]. simpl. rewrite IH.
  destruct l as [|y l']; [done|]. simpl.
  apply Forall_cons in Hx as [Hxy _].
  by destruct (Z.leb_spec (cmp x y) 0); [|lia].
Qed.

Lemma collecting_cycle_elapse cid texts ms s :
  collecting_cycle cid texts s → collecting_cycle cid texts (step s (Elapse ms)).
Proof.
  intros (Hb & Ht & Hu & Hs & Hc & Hr). simpl.
  split; [done|]. split; [done|]. split; [done|]. split; [done|]. split.
  - eapply Forall_impl; [exact Hc|]. simpl. intros m Hm.
    unfold timestamp_of in *. simpl. lia.
  - intros Hne. destruct (Hr Hne) as (Hg & h & t & H1 & H2 & H3 & H4 & H5).
    split; [done|]. exists h, t. simpl. repeat split; try done. lia.
Qed.

Lemma store_bot_message_new cid x random s :
  ∃ a base,
    objs (N8N.store_bot_message cid x random s)
    = objs s ++ [webhook_message x (clock s)
                   ("bot-msg-" +:+ Js.number_to_string (clock s) +:+ "-" +:+ random)]
    ∧ convs (N8N.store_bot_message cid x random s) = convs s
    ∧ botMessages (N8N.store_bot_message cid x random s) = botMessages s
    ∧ clock (N8N.store_bot_message cid x random s) = clock s
    ∧ globalMessages (N8N.store_bot_message cid x random s) !! cid = Some a
    ∧ arrs (N8N.store_bot_message cid x random s)
      = alter (fun l => l ++ [length (objs s)]) a base
    ∧ (globalMessages s !! cid = Some a ∧ base = arrs s
       ∨ globalMessages s !! cid = None ∧ a = length (arrs s) ∧ base = arrs s ++ [[]]).
Proof.
  unfold N8N.store_bot_message.
  destruct (globalMessages s !! cid) as [a|] eqn:Hg; simpl.
  - exists a, (arrs s).
    rewrite objs_clear_if_set, clock_clear_if_set, globalMessages_clear_if_set,
      arrs_clear_if_set, convs_clear_if_set, botMessages_clear_if_set. simpl.
    repeat split; try done. by left.
  - exists (length (arrs s)), (arrs s ++ [[]]).
    rewrite objs_clear_if_set, clock_clear_if_set, globalMessages_clear_if_set,
      arrs_clear_if_set, convs_clear_if_set, botMessages_clear_if_set. simpl.
    repeat split; try done; [by rewrite lookup_insert_eq|by right].
Qed.


Lemma StronglySorted_ext_elem {A} (R R' : relation A) l :
  (∀ x y, x ∈ l → y ∈ l → R x y → R' x y) →
  StronglySorted R l → StronglySorted R' l.
Proof.
  intros H Hs. induction Hs as [|x l Hs IH Hx]; constructor.
  - apply IH. intros a b Ha Hb. apply H; by right.
  - rewrite Forall_forall in *. intros y Hy. apply H; [by left|by right|by apply Hx].
Qed.

Lemma step_tagged_webhook cid txt random s :
  cid ≠ "" → txt ≠ "" → Js.includes "{{ $json" txt = false →
  let x := {| N8N.conversationId := Some cid; N8N.botText := Some txt;
              N8N.botImage := None; N8N.isBot := N8N.FlagTrue |} in
  step s (webhook cid txt N8N.FlagTrue random)
  = N8N.cleanup (N8N.store_bot_message cid x random s).
Proof.
  intros Hc Ht Hp x. simpl. unfold N8N.botpress_webhook, N8N.extract. simpl.
  apply String.eqb_neq in Hc, Ht. rewrite Hc. simpl.
  unfold Js.or. simpl. unfold N8N.process. simpl.
  unfold N8N.storable, N8N.placeholder_free. simpl. rewrite Hc, Ht, Hp. simpl. done.
Qed.

Lemma collecting_cycle_fragment cid texts txt random s :
  heap_closed s → no_own_handle s →
  cid ≠ "" → txt ≠ "" → Js.includes "{{ $json" txt = false →
  collecting_cycle cid texts s →
  collecting_cycle cid (texts ++ [txt]) (step s (webhook cid txt N8N.FlagTrue random)).
Proof.
  intros Hh Hn Hc Ht Hp (Hb & Htx & Hu & Hs & Hck & Hr).
  rewrite step_tagged_webhook by done.
  set (x := {| N8N.conversationId := Some cid; N8N.botText := Some txt;
               N8N.botImage := None; N8N.isBot := N8N.FlagTrue |}).
  set (s1 := N8N.store_bot_message cid x random s).
  destruct (store_bot_message_new cid x random s)
    as (a & base & Ho & Hcv & Hbm & Hcl & Hg & Ha & Hcase). fold s1 in Ho, Hcv, Hbm, Hcl, Hg, Ha.
  set (o := webhook_message x (clock s)
              ("bot-msg-" +:+ Js.number_to_string (clock s) +:+ "-" +:+ random)) in *.
  assert (Hto : text o = Some txt).
  { subst o. simpl. unfold Js.or_null. simpl.
    pose proof Ht as Ht'. apply String.eqb_neq in Ht'. by rewrite Ht'. }
  assert (Hdo : delivered o = false) by done.
  assert (Hso : timestamp o = clock s) by done.
  clearbody o.
  assert (Hn1 : no_own_handle s1).
  { intros c v Hv. rewrite Hcv in Hv. by eapply Hn. }
  assert (Hh1 : heap_closed s1) by by apply heap_closed_store_bot_message.
  destruct (no_own_handle_cleanup s1 Hn1) as [_ Htm].
  destruct (cleanup_swept s1 (proj1 Hh1)) as [So Sc Sg Sr [ext Sa] _ _ _ _ Sb].
  set (s2 := N8N.cleanup s1) in *. clearbody s2.
  assert (Hcol : collected cid s2 = collected cid s ++ [length (objs s)]).
  { unfold collected. rewrite Sg, Hg. simpl. unfold array_of. rewrite Sa, Ha.
    destruct Hcase as [[Hga ->]|(Hga & -> & ->)]; rewrite Hga; simpl.
    - destruct Hh as (_ & Hgl & _). pose proof (Hgl _ _ Hga) as Hlt.
      rewrite lookup_app_l by by rewrite length_alter.
      rewrite list_lookup_alter_eq.
      destruct (lookup_lt_is_Some_2 _ _ Hlt) as [l El]. by rewrite El.
    - rewrite lookup_app_l by (rewrite length_alter, length_app; simpl; lia).
      rewrite list_lookup_alter_eq, list_lookup_middle by done. done. }
  assert (Hold : ∀ m, m ∈ collected cid s → objs s2 !! m = objs s !! m).
  { intros m Hm. rewrite Forall_forall in Hu. specialize (Hu m Hm).
    unfold undelivered in Hu. rewrite So, Ho.
    destruct (objs s !! m) as [om|] eqn:E; [|done].
    rewrite lookup_app_l; [done|]. by eapply lookup_lt_Some. }
  assert (Hnew : objs s2 !! length (objs s) = Some o).
  { rewrite So, Ho. by apply list_lookup_middle. }
  assert (Hts : ∀ m, m ∈ collected cid s → timestamp_of s2 m = timestamp_of s m).
  { intros m Hm. unfold timestamp_of. by rewrite Hold. }
  assert (Htn : timestamp_of s2 (length (objs s)) = clock s).
  { unfold timestamp_of. by rewrite Hnew. }
  assert (Hun : undelivered s2 (length (objs s)) = true).
  { unfold undelivered. rewrite Hnew. simpl. by rewrite Hdo. }
  assert (Hck2 : clock s2 = clock s) by congruence.
  split; [|split; [|split; [|split; [|split]]]].
  - eapply lookup_weaken_None; [|exact Sb]. by rewrite Hbm.
  - rewrite Hcol. unfold texts_of in *. rewrite !fmap_app, <- Htx. simpl.
    rewrite Hnew. simpl. rewrite Hto. f_equal.
    apply Forall_fmap_ext_1, Forall_forall. intros m Hm. by rewrite Hold.
  - rewrite Hcol. apply Forall_app. split.
    + rewrite Forall_forall in *. intros m Hm. unfold undelivered. rewrite Hold by done.
      by apply Hu.
    + by apply Forall_singleton.
  - rewrite Hcol. apply StronglySorted_app_2.
    + intros m1 m2 H1 ->%list_elem_of_singleton. unfold by_timestamp.
      rewrite Hts, Htn by done. rewrite Forall_forall in Hck. specialize (Hck m1 H1). lia.
    + eapply StronglySorted_ext_elem; [|exact Hs]. intros m1 m2 H1 H2.
      unfold by_timestamp. by rewrite !Hts.
    + repeat constructor.
  - rewrite Hcol, Hck2. apply Forall_app. split.
    + rewrite Forall_forall in *. intros m Hm. rewrite Hts by done. by apply Hck.
    + apply Forall_singleton. by rewrite Htn.
  - intros _. split; [by rewrite Sg, Hg|].
    destruct (rearmed_fresh _ _ _ _ (rearmed_store_bot_message cid x random s)) as [R1 R2].
    fold s1 in R1, R2.
    eexists _, _. rewrite Sr, Htm, Hck2. split; [exact R1|]. split; [exact R2|].
    simpl. repeat split; try done; lia.
Qed.

Lemma tagged_arrival cid f :
  cid ≠ "" → Forall (fun e => tagged e = true) (arrival cid f).
Proof.
  intros Hc%String.eqb_neq. repeat constructor.
  simpl. unfold N8N.extract. simpl. by rewrite Hc.
Qed.

Lemma collecting_cycle_arrivals cid fragments : ∀ texts s,
  heap_closed s → no_own_handle s → cid ≠ "" →
  Forall (fun f => fragment_text f ≠ ""
                   ∧ Js.includes "{{ $json" (fragment_text f) = false) fragments →
  collecting_cycle cid texts s →
  collecting_cycle cid (texts ++ (fragment_text <$> fragments))
    (run s (concat (arrival cid <$> fragments))).
Proof.
  induction fragments as [|f fs IH]; intros texts s Hh Hn Hc Hf Hcy.
  - simpl. by rewrite app_nil_r.
  - apply Forall_cons in Hf as [[Ht Hp] Hf].
    rewrite !fmap_cons. rewrite (cons_middle _ texts), app_assoc.
    change (run s (concat (arrival cid f :: (arrival cid <$> fs))))
      with (run (run s (arrival cid f)) (concat (arrival cid <$> fs))).
    apply IH; try done.
    + by apply heap_closed_run.
    + apply no_own_handle_run; [by apply tagged_arrival|done].
    + apply collecting_cycle_fragment; try done. by apply collecting_cycle_elapse.
Qed.

Lemma collecting_cycle_track cid question s :
  cid ≠ "" → question ≠ "" →
  collecting_cycle cid [] (step s (Track (Some cid) (Some question))).
Proof.
  intros Hc Hq.
  destruct (track_resets_buffer cid question s Hc Hq) as (_ & Hb & Hg & _).
  simpl. unfold collecting_cycle, collected. rewrite Hb, Hg. simpl.
  repeat split; try done; constructor.
Qed.

Lemma filter_all {A : Type} (P : A → Prop) `{∀ x, Decision (P x)} (l : list A) :
  Forall P l → filter P l = l.
Proof.
  induction 1 as [|x l Hx Hl IH]; [done|].
  by rewrite filter_cons, decide_True, IH.
Qed.

Lemma finalize_timeout_collected cid a s :
  globalMessages s !! cid = Some a → botMessages s !! cid = None →
  (a < length (arrs s))%nat →
  objs (N8N.finalize_timeout cid s) = objs s
  ∧ conversationData_for cid (N8N.finalize_timeout cid s) = Some (a, true)
  ∧ array_of (N8N.finalize_timeout cid s) a = Js.sort (by_timestamp s) (array_of s a).
Proof.
  intros Hg Hb Ha. unfold N8N.finalize_timeout. rewrite Hg. simpl. rewrite Hb. simpl.
  split; [done|]. split.
  - unfold conversationData_for. simpl. rewrite lookup_insert_eq.
    rewrite list_lookup_alter_eq, list_lookup_middle by done. done.
  - unfold array_of. simpl.
    rewrite lookup_app_l by by rewrite length_alter.
    rewrite list_lookup_alter_eq.
    destruct (lookup_lt_is_Some_2 _ _ Ha) as [l El]. by rewrite El.
Qed.

Lemma collected_finalized cid texts s :
  heap_closed s → collecting_cycle cid texts s → texts ≠ [] →
  (bot_response cid s).1 = StillCollecting (length texts) true
  ∧ (countdown_due cid s = true →
     ∃ h s' ms,
       conversationTimeouts s !! cid = Some h
       ∧ fire h s = Some s'
       ∧ bot_response cid s' = (Ready ms, deliver ms s')
       ∧ texts_of s' ms = Some <$> texts).
Proof.
  intros Hh (Hb & Htx & Hu & Hs & Hck & Hr) Hne.
  destruct (Hr Hne) as ([a Hg] & h & t & H1 & H2 & H3 & H4 & _).
  assert (Ha : (a < length (arrs s))%nat) by (destruct Hh as (_ & Hgl & _); by eapply Hgl).
  assert (Hcol : collected cid s = array_of s a) by (unfold collected; by rewrite Hg).
  rewrite Hcol in *.
  assert (Hlen : length (array_of s a) = length texts).
  { apply (f_equal length) in Htx. unfold texts_of in Htx. by rewrite !length_fmap in Htx. }
  assert (Hpos : (0 <? length (array_of s a))%nat = true).
  { apply Nat.ltb_lt. rewrite Hlen. destruct texts; [done|simpl; lia]. }
  split.
  - unfold bot_response, conversationData_for. rewrite Hb, Hg, H1. simpl.
    rewrite Hpos. simpl. by rewrite Hlen.
  - intros H5. unfold countdown_due in H5. rewrite H1, H2 in H5. simpl in H5.
    apply Z.leb_le in H5.
    set (sc := clearTimeout h s).
    destruct (finalize_timeout_collected cid a sc Hg Hb Ha) as (Fo & Fc & Fa).
    rewrite (sort_sorted_id (by_timestamp sc)) in Fa by exact Hs.
    change (array_of sc a) with (array_of s a) in Fa.
    exists h, (N8N.finalize_timeout cid sc), (array_of s a).
    split; [done|]. split.
    { unfold fire. rewrite H2, H3. simpl.
      destruct (Z.leb_spec (due t) (clock s)); [|lia]. by rewrite H4. }
    set (s' := N8N.finalize_timeout cid sc) in *. clearbody s'.
    assert (Hf : filter (fun m => undelivered s' m = true) (array_of s a) = array_of s a).
    { apply filter_all. eapply Forall_impl; [exact Hu|]. simpl. intros m Hm.
      unfold undelivered in *. by rewrite Fo. }
    split.
    + unfold bot_response. rewrite Fc, Fa, Hpos. simpl.
      unfold undelivered_sorted. rewrite Hf.
      rewrite sort_sorted_id.
      * by rewrite Hpos.
      * eapply StronglySorted_ext_elem; [|exact Hs]. intros x y _ _.
        unfold by_timestamp, timestamp_of. by rewrite Fo.
    + rewrite <- Htx. unfold texts_of. by rewrite Fo.
Qed.

(** X20.  A whole cycle of the webhook backend, in an execution: after any
    history of tagged calls the question is tracked, for a conversation
    whose id is not the name of an inherited property; fragments flagged
    [isBot: true] arrive, each with a text that is not empty and without
    the template placeholder; then [wait] milliseconds pass; and all along,
    from the start of the history, no timer is left pending past its due
    time, so each fragment arrives before the countdown of the one before
    has run out and no other timer comes due during the cycle.  Then a poll
    answers that the fragments are still being collected, with their number.
    When the wait is six seconds, the countdown registered for the
    conversation is due and goes off, and the poll after it answers READY
    with exactly the fragments of the cycle, in the order of their
    arrival. *)
Theorem tagged_cycle_delivers_all
  (es : list Event) (cid question : string) (fragments : list Fragment) (wait : N) :
  Forall (fun e => tagged e = true) es →
  Js.inherited cid = false →
  cid ≠ "" → question ≠ "" → fragments ≠ [] →
  Forall (fun f => fragment_text f ≠ "" ∧ ¬ contains "{{ $json" (fragment_text f))
    fragments →
  punctual initial (es ++ cycle cid question fragments wait) = true →
  let s := run initial (es ++ cycle cid question fragments wait) in
  (bot_response cid s).1 = StillCollecting (length fragments) true
  ∧ (wait = 6000%N →
     ∃ h s' ms,
       conversationTimeouts s !! cid = Some h
       ∧ fire h s = Some s'
       ∧ bot_response cid s' = (Ready ms, deliver ms s')
       ∧ texts_of s' ms = Some ∘ fragment_text <$> fragments).
Proof.
  intros Hes _ Hc Hq Hne Hf _ s.
  assert (Hf' : Forall (fun f => fragment_text f ≠ ""
                   ∧ Js.includes "{{ $json" (fragment_text f) = false) fragments).
  { eapply Forall_impl; [exact Hf|]. simpl. intros f [H1 H2]. split; [done|].
    destruct (Js.includes _ _) eqn:E; [|done]. by apply includes_spec in E. }
  set (s0 := run initial es).
  set (st := step s0 (Track (Some cid) (Some question))).
  set (sc := run st (concat (arrival cid <$> fragments))).
  assert (Es : s = step sc (Elapse wait)).
  { subst s sc st s0. unfold cycle, run. rewrite foldl_app. simpl. by rewrite foldl_app. }
  assert (Hn0 : no_own_handle s0) by (apply no_own_handle_run; [done|apply no_own_handle_initial]).
  assert (Hnt : no_own_handle st) by (by apply no_own_handle_step).
  assert (Hht : heap_closed st) by apply heap_closed_step, heap_closed_reachable.
  pose proof (collecting_cycle_arrivals cid fragments [] st Hht Hnt Hc Hf'
                (collecting_cycle_track cid question s0 Hc Hq)) as Hcy.
  fold sc in Hcy. rewrite app_nil_l in Hcy.
  assert (Hhc : heap_closed sc) by by apply heap_closed_run.
  assert (Hne' : fragment_text <$> fragments ≠ []) by by intros E%fmap_nil_inv.
  destruct (collected_finalized cid (fragment_text <$> fragments) s) as (P1 & P2).
  - rewrite Es. by apply heap_closed_step.
  - rewrite Es. by apply collecting_cycle_elapse.
  - done.
  - rewrite length_fmap in P1. split; [done|]. intros Hw.
    destruct P2 as (h & s' & ms & P2 & P3 & P4 & P5).
    + destruct Hcy as (_ & _ & _ & _ & _ & Hr).
      destruct (Hr Hne') as (_ & h' & t' & G1 & G2 & _ & _ & G5).
      rewrite Es, Hw. unfold countdown_due. simpl. rewrite G1, G2. simpl.
      apply Z.leb_le. lia.
    + exists h, s', ms. repeat split; try done.
      by rewrite P5, <- list_fmap_compose.
Qed.

Lemma tagged_cycle_delivers_all_witness :
  ∃ h s' ms,
    conversationTimeouts
      (run initial
         (cycle "c1" "Wat zijn de openingsuren?"
            [{| gap := 1200; fragment_text := "Goedemiddag!"; fragment_random := "k3x9pq" |};
             {| gap := 800; fragment_text := "Wij zijn open van 9 tot 18 uur.";
                fragment_random := "p0q7zr" |}] 6000)) !! "c1" = Some h
    ∧ fire h
        (run initial
           (cycle "c1" "Wat zijn de openingsuren?"
              [{| gap := 1200; fragment_text := "Goedemiddag!"; fragment_random := "k3x9pq" |};
               {| gap := 800; fragment_text := "Wij zijn open van 9 tot 18 uur.";
                  fragment_random := "p0q7zr" |}] 6000)) = Some s'
    ∧ bot_response "c1" s' = (Ready ms, deliver ms s')
    ∧ texts_of s' ms = [Some "Goedemiddag!"; Some "Wij zijn open van 9 tot 18 uur."].
Proof.
  destruct (tagged_cycle_delivers_all [] "c1" "Wat zijn de openingsuren?"
              [{| gap := 1200; fragment_text := "Goedemiddag!"; fragment_random := "k3x9pq" |};
               {| gap := 800; fragment_text := "Wij zijn open van 9 tot 18 uur.";
                  fragment_random := "p0q7zr" |}] 6000)
    as (_ & Hfire).
  - constructor.
  - reflexivity.
  - done.
  - done.
  - done.
  - repeat constructor; try done; by intros E%includes_spec.
  - vm_compute. reflexivity.
  - destruct (Hfire eq_refl) as (h & s' & ms & H1 & H2 & H3 & H4).
    exists h, s', ms. split; [exact H1|]. split; [exact H2|]. split; [exact H3|exact H4].
Defined.

(** ** A whole cycle of the direct backend *)

Lemma insert_fmap {A B} (f : A → B) (cmpA : A → A → Z) (cmpB : B → B → Z) x l :
  (∀ x y, cmpB (f x) (f y) = cmpA x y) →
  f <$> Js.insert cmpA x l = Js.insert cmpB (f x) (f <$> l).
Proof.
  intros H. induction l as [|y l IH]; [done|].
  rewrite fmap_cons. cbn [Js.insert]. rewrite H.
  destruct (cmpA x y <=? 0); [done|]. by rewrite fmap_cons, IH.
Qed.

Lemma sort_fmap {A B} (f : A → B) (cmpA : A → A → Z) (cmpB : B → B → Z) l :
  (∀ x y, cmpB (f x) (f y) = cmpA x y) →
  f <$> Js.sort cmpA l = Js.sort cmpB (f <$> l).
Proof.
  intros H. induction l as [|x l IH]; [done|].
  rewrite fmap_cons. cbn [Js.sort].
  by rewrite (insert_fmap f cmpA cmpB), IH.
Qed.

Lemma existsb_fmap {A B} (f : A → bool) (g : B → bool) l l' :
  f <$> l = g <$> l' → existsb f l = existsb g l'.
Proof.
  revert l'. induction l as [|x l IH]; intros [|y l'] E; try done.
  simpl in *. injection E as -> E. by rewrite (IH l').
Qed.

Lemma lookup_seq_app {A} (o new : list A) :
  (fun m => (o ++ new) !! m) <$> seq (length o) (length new) = Some <$> new.
Proof.
  revert o. induction new as [|x new IH]; intros o; [done|]. simpl.
  rewrite list_lookup_middle by done. f_equal.
  specialize (IH (o ++ [x])). rewrite length_app, <- app_assoc in IH. simpl in IH.
  by rewrite Nat.add_1_r in IH.
Qed.

Lemma monitoring_elapse cid question seen ms s :
  monitoring cid question seen s → monitoring cid question seen (step s (Elapse ms)).
Proof.
  intros (Hb & Hu & Hsh & Hun & Hr). simpl.
  split; [done|]. split; [done|]. split; [done|]. split; [done|].
  intros Hne. destruct (Hr Hne) as (Hg & h & t & H1 & H2 & H3 & H4 & H5).
  split; [done|]. exists h, t. simpl. repeat split; try done. lia.
Qed.

Lemma monitoring_filter cid question seen s msg :
  monitoring cid question seen s →
  Direct.is_new_bot_message cid s msg = is_answer question seen msg.
Proof.
  intros (Hb & (um & Hu & Hq) & Hsh & Hun & Hr).
  unfold Direct.is_new_bot_message, is_answer. rewrite Hu, Hq.
  f_equal. f_equal. fold (collected cid s).
  apply existsb_fmap.
  unfold shown_of in Hsh.
  apply (f_equal (fmap (from_option (fun x : Shown => String.eqb x.1.1.1 (Direct.v_id msg)) false))) in Hsh.
  rewrite <- !list_fmap_compose in Hsh.
  etrans; [|etrans; [exact Hsh|]]; apply list_fmap_ext; intros i x _; simpl.
  - unfold Direct.has_id. by destruct (objs s !! x).
  - done.
Qed.

Lemma botMessages_monitor_tick cid msgs s :
  botMessages (Direct.monitor_tick cid msgs s) = botMessages s.
Proof.
  unfold Direct.monitor_tick. crush;
    rewrite botMessages_clear_if_set;
    match goal with
    | |- botMessages (Direct.push_all ?a ?ms ?s) = _ =>
        by rewrite (proj1 (proj2 (push_all_frame a ms s)))
    end.
Qed.

Lemma monitoring_tick cid question seen msgs s :
  heap_closed s → monitoring cid question seen s →
  monitoring cid question
    (seen ++ filter (fun msg => is_answer question seen msg = true) msgs)
    (step s (MonitorTick cid msgs)).
Proof.
  intros Hh Hm. cbn [step].
  assert (Hfil : filter (fun msg => Direct.is_new_bot_message cid s msg = true) msgs
                 = filter (fun msg => is_answer question seen msg = true) msgs).
  { apply list_filter_iff. intros msg. by rewrite (monitoring_filter _ _ _ _ _ Hm). }
  rewrite <- Hfil.
  set (fresh := filter (fun msg => Direct.is_new_bot_message cid s msg = true) msgs).
  destruct (decide (fresh = [])) as [E|Hne].
  { rewrite E, app_nil_r. unfold Direct.monitor_tick. fold fresh. by rewrite E. }
  destruct (monitor_tick_shape cid msgs s Hne) as (a & base & Ho & Hcl & Hg & Ha & Hcase).
  fold fresh in Ho, Ha.
  pose proof (botMessages_monitor_tick cid msgs s) as Hbm.
  pose proof (userMessages_monitor_tick cid msgs s) as Hum.
  destruct (rearmed_fresh _ _ _ _ (rearmed_monitor_tick cid msgs s Hne)) as [R1 R2].
  set (s' := Direct.monitor_tick cid msgs s) in *. clearbody s'.
  destruct Hm as (Hb & Hu & Hsh & Hun & Hr).
  assert (Hcol : collected cid s' = collected cid s ++ seq (length (objs s)) (length fresh)).
  { unfold collected. rewrite Hg, lookup_insert_eq. simpl. unfold array_of. rewrite Ha.
    destruct Hcase as [[Hga ->]|(Hga & -> & ->)]; rewrite Hga; simpl.
    - destruct Hh as (_ & Hgl & _). pose proof (Hgl _ _ Hga) as Hlt.
      rewrite list_lookup_alter_eq.
      destruct (lookup_lt_is_Some_2 _ _ Hlt) as [l El]. by rewrite El.
    - rewrite list_lookup_alter_eq, list_lookup_middle by done. done. }
  assert (Hold : ∀ m, m ∈ collected cid s → objs s' !! m = objs s !! m).
  { intros m Hm. rewrite Forall_forall in Hun. specialize (Hun m Hm).
    unfold undelivered in Hun. rewrite Ho.
    destruct (objs s !! m) as [om|] eqn:E; [|done].
    rewrite lookup_app_l; [done|]. by eapply lookup_lt_Some. }
  assert (Hnew : (fun m => objs s' !! m) <$> seq (length (objs s)) (length fresh)
                 = Some <$> (Direct.to_message (clock s) <$> fresh)).
  { rewrite Ho. rewrite <- (length_fmap (Direct.to_message (clock s)) fresh).
    apply lookup_seq_app. }
  split; [by rewrite Hbm|]. split; [by rewrite Hum|]. split; [|split].
  - rewrite Hcol. unfold shown_of in *. rewrite !fmap_app, <- Hsh. f_equal.
    + apply Forall_fmap_ext_1, Forall_forall. intros m Hm. by rewrite Hold.
    + trans (fmap shown <$> ((fun m => objs s' !! m) <$> seq (length (objs s)) (length fresh)));
        [by rewrite <- list_fmap_compose|].
      rewrite Hnew, <- !list_fmap_compose. apply Forall_fmap_ext_1, Forall_forall.
      intros v [Hv _]%list_elem_of_filter. simpl. unfold shown, listed_as. simpl.
      unfold Direct.is_new_bot_message in Hv.
      apply andb_prop in Hv as [[_ Hv]%andb_prop _].
      by rewrite (or_null_truthy _ Hv).
  - rewrite Hcol. apply Forall_app. split.
    + rewrite Forall_forall in *. intros m Hm. unfold undelivered. rewrite Hold by done.
      by apply Hun.
    + apply Forall_forall. intros m Hm.
      apply (list_elem_of_fmap_2 (fun m => objs s' !! m)) in Hm. rewrite Hnew in Hm.
      apply list_elem_of_fmap in Hm as (o & Eo & Ho').
      apply list_elem_of_fmap in Ho' as (v & -> & _).
      unfold undelivered. by rewrite Eo.
  - intros _. split; [by rewrite Hg, lookup_insert_eq|].
    eexists _, _. rewrite Hcl. split; [exact R1|]. split; [exact R2|].
    simpl. repeat split; try done; lia.
Qed.

Lemma monitoring_ticks cid question listings : ∀ seen s,
  heap_closed s → monitoring cid question seen s →
  monitoring cid question (answers question seen listings)
    (run s (concat (tick cid <$> listings))).
Proof.
  induction listings as [|l ls IH]; intros seen s Hh Hm; [done|].
  rewrite fmap_cons.
  change (run s (concat (tick cid l :: (tick cid <$> ls))))
    with (run (run s (tick cid l)) (concat (tick cid <$> ls))).
  cbn [answers]. apply IH; [by apply heap_closed_run|].
  apply monitoring_tick; [by apply heap_closed_step|by apply monitoring_elapse].
Qed.

Lemma monitoring_track cid question s :
  cid ≠ "" → question ≠ "" →
  monitoring cid question [] (step s (Track (Some cid) (Some question))).
Proof.
  intros Hc Hq.
  destruct (track_resets_buffer cid question s Hc Hq) as (Hu & Hb & Hg & _).
  simpl. unfold monitoring, collected. rewrite Hb, Hg. simpl.
  repeat split; try done. eexists. split; [exact Hu|done].
Qed.

Lemma finalizeMessages_collected cid a s :
  globalMessages s !! cid = Some a → botMessages s !! cid = None →
  (a < length (arrs s))%nat → (0 <? length (array_of s a))%nat = true →
  objs (Direct.finalizeMessages cid s) = objs s
  ∧ conversationData_for cid (Direct.finalizeMessages cid s) = Some (a, true)
  ∧ array_of (Direct.finalizeMessages cid s) a
    = Js.sort (by_timestamp s) (array_of s a).
Proof.
  intros Hg Hb Ha Hpos. unfold Direct.finalizeMessages. rewrite Hg, Hpos. simpl.
  rewrite Hb. simpl.
  split; [done|]. split.
  - unfold conversationData_for. simpl. rewrite lookup_insert_eq.
    rewrite list_lookup_alter_eq, list_lookup_middle by done. done.
  - unfold array_of. simpl.
    rewrite lookup_app_l by by rewrite length_alter.
    rewrite list_lookup_alter_eq.
    destruct (lookup_lt_is_Some_2 _ _ Ha) as [l El]. by rewrite El.
Qed.

Lemma sort_sort {A} (key : A → Z) l :
  Js.sort (by_key key) (Js.sort (by_key key) l) = Js.sort (by_key key) l.
Proof.
  apply sort_sorted_id.
  eapply StronglySorted_ext_elem; [|apply sort_sorted].
  intros x y _ _. unfold by_key. simpl. lia.
Qed.

Lemma monitoring_finalized cid question seen s :
  heap_closed s → monitoring cid question seen s → seen ≠ [] →
  (bot_response cid s).1 = StillCollecting (length seen) true
  ∧ (countdown_due cid s = true →
     ∃ h s' ms,
       conversationTimeouts s !! cid = Some h
       ∧ fire h s = Some s'
       ∧ bot_response cid s' = (Ready ms, deliver ms s')
       ∧ shown_of s' ms = Some ∘ listed_as <$> Js.sort by_createdAt seen).
Proof.
  intros Hh (Hb & Hu & Hsh & Hun & Hr) Hne.
  destruct (Hr Hne) as ([a Hg] & h & t & H1 & H2 & H3 & H4 & _).
  assert (Ha : (a < length (arrs s))%nat) by (destruct Hh as (_ & Hgl & _); by eapply Hgl).
  assert (Hcol : collected cid s = array_of s a) by (unfold collected; by rewrite Hg).
  rewrite Hcol in *.
  assert (Hlen : length (array_of s a) = length seen).
  { apply (f_equal length) in Hsh. unfold shown_of in Hsh. by rewrite !length_fmap in Hsh. }
  assert (Hpos : (0 <? length (array_of s a))%nat = true).
  { apply Nat.ltb_lt. rewrite Hlen. destruct seen; [done|simpl; lia]. }
  split.
  - unfold bot_response, conversationData_for. rewrite Hb, Hg, H1. simpl.
    rewrite Hpos. simpl. by rewrite Hlen.
  - intros H5. unfold countdown_due in H5. rewrite H1, H2 in H5. simpl in H5.
    apply Z.leb_le in H5.
    set (sc := clearTimeout h s).
    destruct (finalizeMessages_collected cid a sc Hg Hb Ha Hpos) as (Fo & Fc & Fa).
    change (array_of sc a) with (array_of s a) in Fa.
    change (by_timestamp sc) with (by_timestamp s) in Fa.
    change (objs sc) with (objs s) in Fo.
    set (ms := Js.sort (by_timestamp s) (array_of s a)) in *.
    exists h, (Direct.finalizeMessages cid sc), ms.
    split; [done|]. split.
    { unfold fire. rewrite H2, H3. simpl.
      destruct (Z.leb_spec (due t) (clock s)); [|lia]. by rewrite H4. }
    set (s' := Direct.finalizeMessages cid sc) in *. clearbody s'.
    assert (Hp : ms ≡ₚ array_of s a) by apply sort_perm.
    assert (Hf : filter (fun m => undelivered s' m = true) ms = ms).
    { apply filter_all. rewrite Hp. eapply Forall_impl; [exact Hun|]. simpl. intros m Hm.
      unfold undelivered in *. by rewrite Fo. }
    assert (Hposm : (0 <? length ms)%nat = true) by by rewrite Hp.
    split.
    + unfold bot_response. rewrite Fc, Fa, Hposm. simpl.
      unfold undelivered_sorted. rewrite Hf.
      assert (Hss : Js.sort (by_timestamp s') ms = ms).
      { unfold by_timestamp, timestamp_of. rewrite Fo. apply (sort_sort (timestamp_of s)). }
      by rewrite Hss, Hposm.
    + unfold shown_of. rewrite Fo. subst ms.
      rewrite (sort_fmap (fun m => shown <$> objs s !! m) (by_timestamp s)
                 (by_key (from_option (fun x : Shown => x.2) 0))).
      * fold (shown_of s (array_of s a)). rewrite Hsh.
        symmetry. by apply sort_fmap.
      * intros x y. unfold by_key, by_timestamp, timestamp_of.
        by destruct (objs s !! x), (objs s !! y).
Qed.

(** X21.  A whole cycle of the direct backend, in an execution: after any
    history the question is tracked, for a conversation whose id is not the
    name of an inherited property; the monitor ticks any number of times;
    then [wait] milliseconds pass; and all along, from the start of the
    history, no timer is left pending past its due time, so no countdown
    comes due before the end of the cycle.  What the ticks collect is read
    off the listings alone: each tick adds, in the order of its listing,
    the listed messages that are not the user's (their [userId] is not
    their [conversationId]), have a text, other than the question, and whose
    id no earlier tick has collected.  When this is not empty, a poll
    answers that the messages are still being collected, with their number;
    and when the countdown registered for the conversation is due at the
    end of the wait, it goes off, and the poll after it answers READY with
    exactly the collected messages, with the id, text, image and time stamp
    of the listing, sorted by creation time, messages of the same time in
    the order they were collected. *)
Theorem monitored_cycle_delivers_sorted
  (es : list Event) (cid question : string) (listings : list Listing) (wait : N) :
  Js.inherited cid = false →
  cid ≠ "" → question ≠ "" →
  answers question [] listings ≠ [] →
  punctual initial (es ++ direct_cycle cid question listings wait) = true →
  let s := run initial (es ++ direct_cycle cid question listings wait) in
  (bot_response cid s).1
  = StillCollecting (length (answers question [] listings)) true
  ∧ (countdown_due cid s = true →
     ∃ h s' ms,
       conversationTimeouts s !! cid = Some h
       ∧ fire h s = Some s'
       ∧ bot_response cid s' = (Ready ms, deliver ms s')
       ∧ shown_of s' ms
         = Some ∘ listed_as <$> Js.sort by_createdAt (answers question [] listings)).
Proof.
  intros _ Hc Hq Hne _ s.
  set (s0 := run initial es).
  set (st := step s0 (Track (Some cid) (Some question))).
  set (sc := run st (concat (tick cid <$> listings))).
  assert (Es : s = step sc (Elapse wait)).
  { subst s sc st s0. unfold direct_cycle, run. rewrite foldl_app. simpl. by rewrite foldl_app. }
  assert (Hht : heap_closed st) by apply heap_closed_step, heap_closed_reachable.
  pose proof (monitoring_ticks cid question listings [] st Hht
                (monitoring_track cid question s0 Hc Hq)) as Hm.
  fold sc in Hm.
  assert (Hhc : heap_closed sc) by by apply heap_closed_run.
  apply (monitoring_finalized cid question).
  - rewrite Es. by apply heap_closed_step.
  - rewrite Es. by apply monitoring_elapse.
  - done.
Qed.

Lemma monitored_cycle_delivers_sorted_witness :
  ∃ h s' ms,
    fire h
      (run initial
         (direct_cycle "c1" "Wat kost een laadpaal?"
            [{| since := 2000;
                listed := [{| Direct.v_id := "m1"; Direct.v_userId := "c1";
                              Direct.v_conversationId := "c1";
                              Direct.v_payload_text := Some "Wat kost een laadpaal?";
                              Direct.v_payload_image := None; Direct.v_createdAt := 50 |};
                           {| Direct.v_id := "m3"; Direct.v_userId := "bot";
                              Direct.v_conversationId := "c1";
                              Direct.v_payload_text := Some "Vanaf 900 euro.";
                              Direct.v_payload_image := None; Direct.v_createdAt := 300 |}] |};
             {| since := 2000;
                listed := [{| Direct.v_id := "m3"; Direct.v_userId := "bot";
                              Direct.v_conversationId := "c1";
                              Direct.v_payload_text := Some "Vanaf 900 euro.";
                              Direct.v_payload_image := None; Direct.v_createdAt := 300 |};
                           {| Direct.v_id := "m2"; Direct.v_userId := "bot";
                              Direct.v_conversationId := "c1";
                              Direct.v_payload_text := Some "Goede vraag!";
                              Direct.v_payload_image := None; Direct.v_createdAt := 100 |}] |};
             {| since := 2000;
                listed := [{| Direct.v_id := "m3"; Direct.v_userId := "bot";
                              Direct.v_conversationId := "c1";
                              Direct.v_payload_text := Some "Vanaf 900 euro.";
                              Direct.v_payload_image := None; Direct.v_createdAt := 300 |};
                           {| Direct.v_id := "m2"; Direct.v_userId := "bot";
                              Direct.v_conversationId := "c1";
                              Direct.v_payload_text := Some "Goede vraag!";
                              Direct.v_payload_image := None; Direct.v_createdAt := 100 |}] |};
             {| since := 2000;
                listed := [{| Direct.v_id := "m3"; Direct.v_userId := "bot";
                              Direct.v_conversationId := "c1";
                              Direct.v_payload_text := Some "Vanaf 900 euro.";
                              Direct.v_payload_image := None; Direct.v_createdAt := 300 |};
                           {| Direct.v_id := "m2"; Direct.v_userId := "bot";
                              Direct.v_conversationId := "c1";
                              Direct.v_payload_text := Some "Goede vraag!";
                              Direct.v_payload_image := None; Direct.v_createdAt := 100 |}] |}]
            1000)) = Some s'
    ∧ bot_response "c1" s' = (Ready ms, deliver ms s')
    ∧ shown_of s' ms
      = [Some ("m2", Some "Goede vraag!", None, 100);
         Some ("m3", Some "Vanaf 900 euro.", None, 300)].
Proof.
  destruct (monitored_cycle_delivers_sorted [] "c1" "Wat kost een laadpaal?"
            [{| since := 2000;
                listed := [{| Direct.v_id := "m1"; Direct.v_userId := "c1";
                              Direct.v_conversationId := "c1";
                              Direct.v_payload_text := Some "Wat kost een laadpaal?";
                              Direct.v_payload_image := None; Direct.v_createdAt := 50 |};
                           {| Direct.v_id := "m3"; Direct.v_userId := "bot";
                              Direct.v_conversationId := "c1";
                              Direct.v_payload_text := Some "Vanaf 900 euro.";
                              Direct.v_payload_image := None; Direct.v_createdAt := 300 |}] |};
             {| since := 2000;
                listed := [{| Direct.v_id := "m3"; Direct.v_userId := "bot";
                              Direct.v_conversationId := "c1";
                              Direct.v_payload_text := Some "Vanaf 900 euro.";
                              Direct.v_payload_image := None; Direct.v_createdAt := 300 |};
                           {| Direct.v_id := "m2"; Direct.v_userId := "bot";
                              Direct.v_conversationId := "c1";
                              Direct.v_payload_text := Some "Goede vraag!";
                              Direct.v_payload_image := None; Direct.v_createdAt := 100 |}] |};
             {| since := 2000;
                listed := [{| Direct.v_id := "m3"; Direct.v_userId := "bot";
                              Direct.v_conversationId := "c1";
                              Direct.v_payload_text := Some "Vanaf 900 euro.";
                              Direct.v_payload_image := None; Direct.v_createdAt := 300 |};
                           {| Direct.v_id := "m2"; Direct.v_userId := "bot";
                              Direct.v_conversationId := "c1";
                              Direct.v_payload_text := Some "Goede vraag!";
                              Direct.v_payload_image := None; Direct.v_createdAt := 100 |}] |};
             {| since := 2000;
                listed := [{| Direct.v_id := "m3"; Direct.v_userId := "bot";
                              Direct.v_conversationId := "c1";
                              Direct.v_payload_text := Some "Vanaf 900 euro.";
                              Direct.v_payload_image := None; Direct.v_createdAt := 300 |};
                           {| Direct.v_id := "m2"; Direct.v_userId := "bot";
                              Direct.v_conversationId := "c1";
                              Direct.v_payload_text := Some "Goede vraag!";
                              Direct.v_payload_image := None; Direct.v_createdAt := 100 |}] |}]
            1000)
    as (_ & Hfire).
  - reflexivity.
  - done.
  - done.
  - done.
  - vm_compute. reflexivity.
  - destruct Hfire as (h & s' & ms & _ & H2 & H3 & H4); [vm_compute; reflexivity|].
    exists h, s', ms. split; [exact H2|]. split; [exact H3|exact H4].
Defined.

(** ** The polling loop of ChatProvider.tsx *)

Lemma poll_once_empty displayed k a now st :
  empty_answer a = true →
  ChatProvider.poll_once displayed k a now st
  = ChatProvider.after_empty (ChatProvider.empty_poll k) now st.
Proof.
  destruct a as [|status|[l|]]; try done. simpl. intros H%bool_decide_eq_true. by rewrite H.
Qed.

Lemma poll_once_fresh displayed k a now st :
  undisplayed displayed a ≠ [] →
  ChatProvider.poll_once displayed k a now st
  = ChatProvider.Stop
      {| ChatProvider.messages :=
           ChatProvider.messages st ++ (ChatProvider.FromBackend <$> undisplayed displayed a);
         ChatProvider.displayedMessageIds :=
           ChatProvider.displayedMessageIds st
           ∪ list_to_set (msgId <$> undisplayed displayed a);
         ChatProvider.isLoading := false |}.
Proof.
  destruct a as [|status|[l|]]; try done. simpl. intros Hne.
  destruct l as [|m l]; [done|].
  set (new := filter _ (m :: l)) in *.
  replace (0 <? length (m :: l))%nat with true by done. cbv iota.
  rewrite length_fmap. destruct new as [|x rest] eqn:E; [done|].
  replace (0 <? length (x :: rest))%nat with true by done. cbv iota.
  do 3 f_equal. rewrite <- list_fmap_compose. done.
Qed.

Lemma after_empty_spec k now st :
  match ChatProvider.after_empty k now st with
  | ChatProvider.Stop st' =>
      ChatProvider.isLoading st' = false
      ∧ ChatProvider.displayedMessageIds st' = ChatProvider.displayedMessageIds st
      ∧ (ChatProvider.messages st'
           = ChatProvider.messages st ++ [ChatProvider.timeoutMessage now]
         ∧ (ChatProvider.maxAttempts ≤ S (ChatProvider.attempts k))%nat
         ∨ ChatProvider.messages st' = ChatProvider.messages st
           ∧ (ChatProvider.maxEmptyPolls ≤ ChatProvider.consecutiveEmptyPolls k)%nat)
  | ChatProvider.Again k' =>
      ChatProvider.attempts k' = S (ChatProvider.attempts k)
      ∧ ChatProvider.consecutiveEmptyPolls k' = ChatProvider.consecutiveEmptyPolls k
      ∧ (ChatProvider.attempts k' < ChatProvider.maxAttempts)%nat
      ∧ (ChatProvider.consecutiveEmptyPolls k' < ChatProvider.maxEmptyPolls)%nat
  end.
Proof.
  unfold ChatProvider.after_empty.
  destruct (Nat.leb_spec ChatProvider.maxAttempts (S (ChatProvider.attempts k))).
  - simpl. split; [done|]. split; [done|]. by left.
  - destruct (Nat.leb_spec ChatProvider.maxEmptyPolls (ChatProvider.consecutiveEmptyPolls k)).
    + simpl. split; [done|]. split; [done|]. right. by rewrite app_nil_r.
    + simpl. done.
Qed.

Lemma poll_once_stale displayed k a now st :
  undisplayed displayed a = [] →
  match ChatProvider.poll_once displayed k a now st with
  | ChatProvider.Stop st' =>
      ChatProvider.isLoading st' = false
      ∧ ChatProvider.displayedMessageIds st' = ChatProvider.displayedMessageIds st
      ∧ (ChatProvider.messages st' = ChatProvider.messages st ++ [final_word a now]
         ∧ (ChatProvider.maxAttempts ≤ S (ChatProvider.attempts k))%nat
         ∨ ChatProvider.messages st' = ChatProvider.messages st
           ∧ a ≠ ChatProvider.AttemptRejects
           ∧ (ChatProvider.maxEmptyPolls ≤ S (ChatProvider.consecutiveEmptyPolls k))%nat)
  | ChatProvider.Again k' =>
      ChatProvider.attempts k' = S (ChatProvider.attempts k)
      ∧ (ChatProvider.attempts k' < ChatProvider.maxAttempts)%nat
      ∧ (ChatProvider.consecutiveEmptyPolls k'
         ≤ S (ChatProvider.consecutiveEmptyPolls k))%nat
  end.
Proof.
  intros Hu.
  assert (Hempty : ∀ k0,
    (ChatProvider.consecutiveEmptyPolls k0 ≤ ChatProvider.consecutiveEmptyPolls k)%nat →
    ChatProvider.attempts k0 = ChatProvider.attempts k →
    a ≠ ChatProvider.AttemptRejects →
    match ChatProvider.after_empty (ChatProvider.empty_poll k0) now st with
    | ChatProvider.Stop st' =>
        ChatProvider.isLoading st' = false
        ∧ ChatProvider.displayedMessageIds st' = ChatProvider.displayedMessageIds st
        ∧ (ChatProvider.messages st' = ChatProvider.messages st ++ [final_word a now]
           ∧ (ChatProvider.maxAttempts ≤ S (ChatProvider.attempts k))%nat
           ∨ ChatProvider.messages st' = ChatProvider.messages st
             ∧ a ≠ ChatProvider.AttemptRejects
             ∧ (ChatProvider.maxEmptyPolls ≤ S (ChatProvider.consecutiveEmptyPolls k))%nat)
    | ChatProvider.Again k' =>
        ChatProvider.attempts k' = S (ChatProvider.attempts k)
        ∧ (ChatProvider.attempts k' < ChatProvider.maxAttempts)%nat
        ∧ (ChatProvider.consecutiveEmptyPolls k'
           ≤ S (ChatProvider.consecutiveEmptyPolls k))%nat
    end).
  { intros k0 Hc Ha Hr.
    pose proof (after_empty_spec (ChatProvider.empty_poll k0) now st) as H.
    destruct (ChatProvider.after_empty _ _ _) as [st'|k'].
    - destruct H as (H1 & H2 & [[H3 H4]|[H3 H4]]); (split; [done|]); (split; [done|]).
      + left. simpl in H4. rewrite Ha in H4. split; [|done]. rewrite H3.
        by destruct a.
      + right. simpl in H4. split; [done|]. split; [done|]. lia.
    - destruct H as (H1 & H2 & H3 & H4). simpl in *. rewrite Ha in H1.
      split; [done|]. split; [done|]. lia. }
  destruct a as [|status|data_messages].
  - unfold ChatProvider.poll_once.
    destruct (Nat.leb_spec ChatProvider.maxAttempts (S (ChatProvider.attempts k))).
    + simpl. split; [done|]. split; [done|]. by left.
    + simpl. split; [done|]. split; [done|]. lia.
  - unfold ChatProvider.poll_once. by apply Hempty.
  - unfold ChatProvider.poll_once.
    destruct (0 <? length (default [] data_messages))%nat eqn:El; [|by apply Hempty].
    destruct data_messages as [l|]; [|done]. simpl in Hu, El |- *. rewrite Hu. simpl.
    destruct (ChatProvider.lastMessageCount k <? length l)%nat;
      apply Hempty; simpl; try done; lia.
Qed.

Lemma poll_unfold fuel displayed k attempt now st :
  ChatProvider.poll (S fuel) displayed k attempt now st
  = match ChatProvider.poll_once displayed k (attempt (ChatProvider.attempts k))
            (now (ChatProvider.attempts k)) st with
    | ChatProvider.Stop st' => Some (st', S (ChatProvider.attempts k))
    | ChatProvider.Again k' => ChatProvider.poll fuel displayed k' attempt now st
    end.
Proof. reflexivity. Qed.

Lemma chat_provider_poll_total fuel displayed k attempt now st :
  (ChatProvider.attempts k < ChatProvider.maxAttempts)%nat →
  (ChatProvider.maxAttempts - ChatProvider.attempts k ≤ fuel)%nat →
  (ChatProvider.consecutiveEmptyPolls k ≤ ChatProvider.attempts k)%nat →
  ∃ st' n,
    ChatProvider.poll fuel displayed k attempt now st = Some (st', n)
    ∧ (ChatProvider.attempts k < n ≤ ChatProvider.maxAttempts)%nat
    ∧ ChatProvider.isLoading st' = false
    ∧ (∀ j, (ChatProvider.attempts k ≤ j < n - 1)%nat →
            undisplayed displayed (attempt j) = [])
    ∧ match undisplayed displayed (attempt (n - 1)%nat) with
      | [] =>
          ChatProvider.displayedMessageIds st' = ChatProvider.displayedMessageIds st
          ∧ (ChatProvider.messages st'
             = ChatProvider.messages st
               ++ [final_word (attempt (n - 1)%nat) (now (n - 1)%nat)]
             ∧ n = ChatProvider.maxAttempts
             ∨ ChatProvider.messages st' = ChatProvider.messages st
               ∧ attempt (n - 1)%nat ≠ ChatProvider.AttemptRejects
               ∧ (ChatProvider.maxEmptyPolls ≤ n)%nat)
      | l =>
          ChatProvider.messages st'
          = ChatProvider.messages st ++ (ChatProvider.FromBackend <$> l)
          ∧ ChatProvider.displayedMessageIds st'
            = ChatProvider.displayedMessageIds st ∪ list_to_set (msgId <$> l)
      end.
Proof.
  remember (ChatProvider.maxAttempts - ChatProvider.attempts k)%nat as d eqn:Hd.
  revert fuel k Hd. induction d as [|d IH]; intros fuel k Hd Ha Hf Hc; [lia|].
  destruct fuel as [|fuel]; [lia|]. rewrite poll_unfold.
  destruct (undisplayed displayed (attempt (ChatProvider.attempts k))) as [|m l] eqn:E.
  - pose proof (poll_once_stale displayed k _ (now (ChatProvider.attempts k)) st E) as H.
    destruct (ChatProvider.poll_once _ _ _ _ _) as [st'|k'].
    + destruct H as (H1 & H2 & H3).
      exists st', (S (ChatProvider.attempts k)).
      replace (S (ChatProvider.attempts k) - 1)%nat with (ChatProvider.attempts k) by lia.
      rewrite E. split; [done|]. split; [lia|]. split; [done|].
      split; [intros j Hj; lia|]. split; [done|].
      destruct H3 as [[H3 H4]|(H3 & H4 & H5)]; [left|right].
      * split; [done|]. lia.
      * split; [done|]. split; [done|]. lia.
    + destruct H as (H1 & H2 & H3).
      destruct (IH fuel k') as (st' & n & P1 & P2 & P3 & P4 & P5); [lia|lia|lia|lia|].
      exists st', n. split; [done|]. split; [lia|]. split; [done|]. split; [|done].
      intros j Hj. destruct (decide (j = ChatProvider.attempts k)) as [->|]; [done|].
      apply P4. lia.
  - rewrite poll_once_fresh by by rewrite E.
    eexists _, (S (ChatProvider.attempts k)).
    replace (S (ChatProvider.attempts k) - 1)%nat with (ChatProvider.attempts k) by lia.
    rewrite E. split; [reflexivity|]. split; [lia|]. split; [done|].
    split; [intros j Hj; lia|]. done.
Qed.

Lemma chat_provider_poll_empty r : ∀ fuel displayed k attempt now st,
  (r = ChatProvider.maxEmptyPolls - ChatProvider.consecutiveEmptyPolls k)%nat →
  (0 < r)%nat → (r ≤ fuel)%nat →
  (ChatProvider.attempts k + r < ChatProvider.maxAttempts)%nat →
  (∀ j, (ChatProvider.attempts k ≤ j < ChatProvider.attempts k + r)%nat →
        empty_answer (attempt j) = true) →
  ChatProvider.poll fuel displayed k attempt now st
  = Some (ChatProvider.stop_with [] st, (ChatProvider.attempts k + r)%nat).
Proof.
  induction r as [|r IH]; intros fuel displayed k attempt now st Hr Hpos Hf Ha He; [lia|].
  destruct fuel as [|fuel]; [lia|]. rewrite poll_unfold.
  rewrite poll_once_empty by (apply He; lia).
  unfold ChatProvider.after_empty, ChatProvider.empty_poll.
  cbn [ChatProvider.attempts ChatProvider.consecutiveEmptyPolls
       ChatProvider.lastMessageCount].
  destruct (Nat.leb_spec ChatProvider.maxAttempts (S (ChatProvider.attempts k))); [lia|].
  destruct (Nat.leb_spec ChatProvider.maxEmptyPolls (S (ChatProvider.consecutiveEmptyPolls k))).
  - assert (r = 0)%nat as -> by lia. do 2 f_equal. lia.
  - rewrite (IH fuel);
      cbn [ChatProvider.attempts ChatProvider.consecutiveEmptyPolls
           ChatProvider.lastMessageCount]; try lia.
    + do 2 f_equal. lia.
    + intros j Hj. apply He. lia.
Qed.

(** X22.  The polling loop of ChatProvider.tsx ends, after at most 60
    requests, with the loading flag off and the messages shown so far still
    there in front.  Without a conversation id it sends no request.
    Otherwise it stops at the first answer that carries a message whose id
    was not displayed when the loop started, and appends the messages of
    that answer that were not displayed, in the order of the answer.  When
    no answer does, it ends in one of two ways: after the sixtieth request
    with one message of its own (the error message when that request was
    rejected, the timeout message otherwise), or earlier, after at least
    twenty requests, without a message, on an answer that was not a
    rejection. *)
Theorem chat_provider_poll_outcome
  (fuel : nat) (conversationId : option string) (displayed : gset string)
  (attempt : nat → ChatProvider.Attempt) (now : nat → Z) (st : ChatProvider.ChatState) :
  (ChatProvider.maxAttempts ≤ fuel)%nat →
  ∃ st' n,
    ChatProvider.pollForBotResponse fuel conversationId displayed attempt now st
    = Some (st', n)
    ∧ (n ≤ ChatProvider.maxAttempts)%nat
    ∧ ChatProvider.isLoading st' = false
    ∧ (∀ j, (j < n - 1)%nat → undisplayed displayed (attempt j) = [])
    ∧ if Js.truthy conversationId then
        (1 ≤ n)%nat
        ∧ match undisplayed displayed (attempt (n - 1)%nat) with
          | [] =>
              ChatProvider.displayedMessageIds st' = ChatProvider.displayedMessageIds st
              ∧ (ChatProvider.messages st'
                 = ChatProvider.messages st
                   ++ [final_word (attempt (n - 1)%nat) (now (n - 1)%nat)]
                 ∧ n = ChatProvider.maxAttempts
                 ∨ ChatProvider.messages st' = ChatProvider.messages st
                   ∧ attempt (n - 1)%nat ≠ ChatProvider.AttemptRejects
                   ∧ (ChatProvider.maxEmptyPolls ≤ n)%nat)
          | l =>
              ChatProvider.messages st'
              = ChatProvider.messages st ++ (ChatProvider.FromBackend <$> l)
              ∧ ChatProvider.displayedMessageIds st'
                = ChatProvider.displayedMessageIds st ∪ list_to_set (msgId <$> l)
          end
      else n = 0%nat ∧ ChatProvider.messages st' = ChatProvider.messages st
           ∧ ChatProvider.displayedMessageIds st' = ChatProvider.displayedMessageIds st.
Proof.
  intros Hfuel. unfold ChatProvider.pollForBotResponse.
  destruct (Js.truthy conversationId).
  - destruct (chat_provider_poll_total fuel displayed
                {| ChatProvider.attempts := 0; ChatProvider.consecutiveEmptyPolls := 0;
                   ChatProvider.lastMessageCount := 0 |} attempt now st)
      as (st' & n & Hp & Hn & Hl & Hnone & Hlast).
    { unfold ChatProvider.maxAttempts. simpl. lia. }
    { unfold ChatProvider.maxAttempts in *. simpl. lia. }
    { simpl. lia. }
    exists st', n. simpl in Hn. split; [done|]. split; [lia|]. split; [done|]. split.
    + intros j Hj. apply Hnone. simpl. lia.
    + split; [lia|done].
  - eexists. exists 0%nat. split; [reflexivity|]. split; [lia|]. split; [done|].
    split; [intros j Hj; lia|]. simpl. by rewrite app_nil_r.
Qed.

Lemma chat_provider_poll_outcome_witness :
  ∃ st' n,
    ChatProvider.pollForBotResponse 60 (Some "c1") {["welcome-1"]}
      (fun k => if (k =? 3)%nat
                then ChatProvider.AttemptData
                       (Some [{| text := Some "Hi there"; image := None; timestamp := 0;
                                 receivedAt := 0; msgId := "bot-msg-0-k3x9pq";
                                 delivered := true |}])
                else ChatProvider.AttemptData None)
      (fun k => 2000 * Z.of_nat k)
      {| ChatProvider.messages := []; ChatProvider.displayedMessageIds := {["welcome-1"]};
         ChatProvider.isLoading := true |}
    = Some (st', n)
    ∧ (n ≤ ChatProvider.maxAttempts)%nat ∧ ChatProvider.isLoading st' = false.
Proof.
  destruct (chat_provider_poll_outcome 60 (Some "c1") {["welcome-1"]}
      (fun k => if (k =? 3)%nat
                then ChatProvider.AttemptData
                       (Some [{| text := Some "Hi there"; image := None; timestamp := 0;
                                 receivedAt := 0; msgId := "bot-msg-0-k3x9pq";
                                 delivered := true |}])
                else ChatProvider.AttemptData None)
      (fun k => 2000 * Z.of_nat k)
      {| ChatProvider.messages := []; ChatProvider.displayedMessageIds := {["welcome-1"]};
         ChatProvider.isLoading := true |})
    as (st' & n & H1 & H2 & H3 & _).
  - unfold ChatProvider.maxAttempts. lia.
  - exists st', n. split; [exact H1|]. split; [exact H2|exact H3].
Defined.

(** X23.  When the first twenty answers carry no message at all and none
    is a rejection (the backend answers that it has no messages or is
    still collecting, or with an error status), the loop of
    ChatProvider.tsx stops after exactly twenty requests: the loading flag
    goes off and nothing is appended, neither a bot message nor the timeout
    message. *)
Theorem chat_provider_gives_up_silently
  (fuel : nat) (conversationId : option string) (displayed : gset string)
  (attempt : nat → ChatProvider.Attempt) (now : nat → Z) (st : ChatProvider.ChatState) :
  Js.truthy conversationId = true →
  (ChatProvider.maxEmptyPolls ≤ fuel)%nat →
  (∀ j, (j < ChatProvider.maxEmptyPolls)%nat → empty_answer (attempt j) = true) →
  ChatProvider.pollForBotResponse fuel conversationId displayed attempt now st
  = Some ({| ChatProvider.messages := ChatProvider.messages st;
             ChatProvider.displayedMessageIds := ChatProvider.displayedMessageIds st;
             ChatProvider.isLoading := false |}, ChatProvider.maxEmptyPolls).
Proof.
  intros Hc Hf He. unfold ChatProvider.pollForBotResponse. rewrite Hc.
  rewrite (chat_provider_poll_empty ChatProvider.maxEmptyPolls); simpl; try done.
  - unfold ChatProvider.stop_with. by rewrite app_nil_r.
  - unfold ChatProvider.maxEmptyPolls. lia.
  - unfold ChatProvider.maxEmptyPolls, ChatProvider.maxAttempts. lia.
  - intros j Hj. apply He. lia.
Qed.

Lemma chat_provider_gives_up_silently_witness :
  ChatProvider.pollForBotResponse 20 (Some "c1") {["welcome-1"]}
    (fun _ => ChatProvider.AttemptData None) (fun k => 2000 * Z.of_nat k)
    {| ChatProvider.messages := [ChatProvider.Local "user-0" "Hallo" false (Some 0)];
       ChatProvider.displayedMessageIds := {["welcome-1"]};
       ChatProvider.isLoading := true |}
  = Some ({| ChatProvider.messages := [ChatProvider.Local "user-0" "Hallo" false (Some 0)];
             ChatProvider.displayedMessageIds := {["welcome-1"]};
             ChatProvider.isLoading := false |}, 20%nat).
Proof.
  assert (H1 : Js.truthy (Some "c1") = true) by reflexivity.
  assert (H2 : (ChatProvider.maxEmptyPolls ≤ 20)%nat)
    by (unfold ChatProvider.maxEmptyPolls; lia).
  assert (H3 : ∀ j, (j < ChatProvider.maxEmptyPolls)%nat →
               empty_answer ((fun _ => ChatProvider.AttemptData None) j) = true)
    by (intros j _; reflexivity).
  exact (chat_provider_gives_up_silently 20 (Some "c1") {["welcome-1"]}
           (fun _ => ChatProvider.AttemptData None) (fun k => 2000 * Z.of_nat k)
           {| ChatProvider.messages := [ChatProvider.Local "user-0" "Hallo" false (Some 0)];
              ChatProvider.displayedMessageIds := {["welcome-1"]};
              ChatProvider.isLoading := true |} H1 H2 H3).
Defined.

(** ** Links in the chat window *)

Lemma strip_prefix_spec p s r : WebChat.strip_prefix p s = Some r ↔ s = p +:+ r.
Proof.
  revert s. induction p as [|a p IH]; intros s; simpl.
  - change ("" +:+ r) with r. split; [by intros [= ->]|by intros ->].
  - rewrite append_cons. destruct s as [|b s]; [done|].
    destruct (Ascii.eqb_spec a b) as [->|Hne].
    + rewrite IH. split; [by intros ->|by intros [= ->]].
    + split; [done|]. intros [= -> _]. done.
Qed.

Lemma url_chars_spec s :
  ∃ rest, s = WebChat.url_chars s +:+ rest
          ∧ all_url_chars (WebChat.url_chars s) = true
          ∧ WebChat.url_chars (WebChat.url_chars s) = WebChat.url_chars s
          ∧ WebChat.url_chars rest = "".
Proof.
  induction s as [|c s (rest & E & Ha & Hi & Hr)]; [by exists ""|]. simpl.
  destruct (WebChat.url_char c) eqn:Ec.
  - exists rest. rewrite append_cons, <- E. simpl. rewrite Ec, Ha, Hi. done.
  - exists (String c s). simpl. by rewrite Ec.
Qed.

Lemma url_chars_append r b :
  WebChat.url_chars r ≠ "" → WebChat.url_chars (r +:+ b) ≠ "".
Proof.
  destruct r as [|c r]; [done|]. rewrite append_cons. simpl.
  by destruct (WebChat.url_char c).
Qed.

Lemma match_scheme_spec p s m :
  WebChat.match_scheme p s = Some m →
  ∃ u rest, m = p +:+ u ∧ u ≠ "" ∧ all_url_chars u = true ∧ WebChat.url_chars u = u
            ∧ s = m +:+ rest ∧ WebChat.url_chars rest = "".
Proof.
  unfold WebChat.match_scheme.
  destruct (WebChat.strip_prefix p s) as [r|] eqn:E; [|done].
  apply strip_prefix_spec in E as ->.
  destruct (url_chars_spec r) as (rest & Er & Ha & Hi & Hr).
  destruct (WebChat.url_chars r) as [|c u] eqn:Eu; [done|].
  intros [= <-]. exists (String c u), rest.
  split; [done|]. split; [done|]. split; [done|]. split; [done|]. split; [|done].
  by rewrite append_assoc, <- Er.
Qed.

Lemma match_scheme_append p a b :
  is_Some (WebChat.match_scheme p a) → is_Some (WebChat.match_scheme p (a +:+ b)).
Proof.
  unfold WebChat.match_scheme.
  destruct (WebChat.strip_prefix p a) as [r|] eqn:E; [|by intros [? ?]].
  apply strip_prefix_spec in E as ->.
  assert (E : WebChat.strip_prefix p ((p +:+ r) +:+ b) = Some (r +:+ b))
    by (apply strip_prefix_spec; by rewrite append_assoc).
  rewrite E. intros H.
  assert (Hne : WebChat.url_chars r ≠ "") by (destruct (WebChat.url_chars r); [by destruct H|done]).
  apply (url_chars_append r b) in Hne.
  by destruct (WebChat.url_chars (r +:+ b)).
Qed.

Lemma match_here_append a b :
  is_Some (WebChat.match_here a) → is_Some (WebChat.match_here (a +:+ b)).
Proof.
  unfold WebChat.match_here. intros H.
  destruct (WebChat.match_scheme "https://" a) as [m|] eqn:E1.
  - destruct (match_scheme_append "https://" a b) as [m' ->]; [by rewrite E1|]. done.
  - destruct (WebChat.match_scheme "https://" (a +:+ b)); [done|].
    by apply match_scheme_append.
Qed.

Lemma match_here_spec s m :
  WebChat.match_here s = Some m →
  ∃ p u rest, (p = "http://" ∨ p = "https://") ∧ m = p +:+ u ∧ u ≠ ""
              ∧ all_url_chars u = true ∧ s = m +:+ rest
              ∧ is_Some (WebChat.match_here m) ∧ WebChat.url_chars rest = "".
Proof.
  unfold WebChat.match_here.
  destruct (WebChat.match_scheme "https://" s) as [m1|] eqn:E1.
  - intros [= <-].
    destruct (match_scheme_spec _ _ _ E1) as (u & rest & -> & Hu & Ha & Hi & Hs & Hr).
    exists "https://", u, rest. repeat split; try done; [by right|].
    unfold WebChat.match_scheme.
    assert (E : WebChat.strip_prefix "https://" ("https://" +:+ u) = Some u)
      by by apply strip_prefix_spec.
    rewrite E, Hi. by destruct u.
  - intros E2.
    destruct (match_scheme_spec _ _ _ E2) as (u & rest & -> & Hu & Ha & Hi & Hs & Hr).
    exists "http://", u, rest. repeat split; try done; [by left|].
    assert (E : WebChat.match_scheme "http://" ("http://" +:+ u) = Some ("http://" +:+ u)).
    { unfold WebChat.match_scheme.
      assert (E : WebChat.strip_prefix "http://" ("http://" +:+ u) = Some u)
        by by apply strip_prefix_spec.
      rewrite E, Hi. by destruct u. }
    rewrite E. by destruct (WebChat.match_scheme "https://" _).
Qed.

Lemma matches_spec t : WebChat.matches t = false ↔ url_free t.
Proof.
  unfold url_free. induction t as [|c t IH].
  - simpl. split; [|done]. intros _ pre post E.
    destruct pre; [|done]. by destruct post.
  - cbn [WebChat.matches]. destruct (WebChat.match_here (String c t)) as [m|] eqn:E.
    + split; [done|]. intros H. specialize (H "" (String c t) eq_refl). congruence.
    + rewrite IH. split.
      * intros H pre post Ep. destruct pre as [|a pre].
        -- change ("" +:+ post) with post in Ep. by subst.
        -- rewrite append_cons in Ep. injection Ep as -> ->. by eapply H.
      * intros H pre post ->. apply (H (String c pre)). by rewrite append_cons.
Qed.

Lemma matches_match m : is_Some (WebChat.match_here m) → WebChat.matches m = true.
Proof. intros [x E]. destruct m; cbn [WebChat.matches]; by rewrite E. Qed.

Lemma append_snoc_inv pre post text c :
  pre +:+ post = text +:+ String c "" → post ≠ "" →
  ∃ post0, post = post0 +:+ String c "" ∧ text = pre +:+ post0.
Proof.
  revert text. induction pre as [|a pre IH]; intros text E Hne.
  - change ("" +:+ post) with post in E. by exists text.
  - rewrite append_cons in E. destruct text as [|b text].
    + change ("" +:+ String c "") with (String c "") in E. injection E as -> E.
      destruct pre; [by destruct post|done].
    + rewrite append_cons in E. injection E as -> E.
      destruct (IH text E Hne) as (post0 & -> & ->). exists post0.
      by rewrite append_cons.
Qed.

Lemma head_of_match p u rest c s :
  p ≠ "" → String c s = (p +:+ u) +:+ rest →
  ∃ m', p +:+ u = String c m' ∧ s = m' +:+ rest.
Proof.
  destruct p as [|a p]; [done|]. intros _. rewrite !append_cons. intros [= -> ->].
  by eexists.
Qed.

Lemma split_from_head s : ∀ skip text skipped rest,
  s = skipped +:+ rest → String.length skipped = skip →
  ∃ x y l, WebChat.split_from s skip text = (text +:+ x) :: l ∧ rest = x +:+ y.
Proof.
  induction s as [|c s IH]; intros skip text skipped rest Es Hlen.
  - destruct skipped; [|done]. change ("" +:+ rest) with rest in Es. subst rest.
    exists "", "", []. by rewrite append_nil_r.
  - destruct skip as [|skip].
    + destruct skipped; [|done]. change ("" +:+ rest) with rest in Es. subst rest.
      cbn [WebChat.split_from]. destruct (WebChat.match_here (String c s)) as [m|].
      * exists "", (String c s). eexists. by rewrite append_nil_r.
      * destruct (IH 0%nat (text +:+ String c "") "" s eq_refl eq_refl)
          as (x & y & l & E & ->).
        exists (String c x), y, l. rewrite E, append_assoc. by rewrite !append_cons.
    + destruct skipped as [|a skipped]; [done|]. rewrite append_cons in Es.
      injection Es as -> ->. cbn [WebChat.split_from]. injection Hlen as Hlen.
      by apply (IH skip text skipped rest).
Qed.

Lemma url_chars_head x y : WebChat.url_chars (x +:+ y) = "" → WebChat.url_chars x = "".
Proof.
  destruct x as [|c x]; [done|]. rewrite append_cons. simpl.
  by destruct (WebChat.url_char c).
Qed.

Lemma split_from_spec s : ∀ skip text skipped rest,
  s = skipped +:+ rest → String.length skipped = skip →
  (∀ pre post, text = pre +:+ post → post ≠ "" →
               WebChat.match_here (post +:+ rest) = None) →
  join (WebChat.split_from s skip text) = text +:+ rest
  ∧ alternating ((fun part => if WebChat.matches part then WebChat.Link part
                             else WebChat.Text part)
                 <$> WebChat.split_from s skip text).
Proof.
  induction s as [|c s IH]; intros skip text skipped rest Es Hlen Hinv.
  - destruct skipped; [|done]. change ("" +:+ rest) with rest in Es. subst rest.
    cbn [WebChat.split_from]. split; [done|].
    assert (Hfree : url_free text).
    { intros pre post E. destruct post as [|a post]; [done|].
      rewrite <- (append_nil_r (String a post)). by eapply Hinv. }
    rewrite fmap_cons, (proj2 (matches_spec text) Hfree). by constructor.
  - destruct skip as [|skip].
    + destruct skipped; [|done]. change ("" +:+ rest) with rest in Es. subst rest.
      cbn [WebChat.split_from].
      assert (Hfree : url_free text).
      { intros pre post E. destruct post as [|a post]; [done|].
        destruct (WebChat.match_here (String a post)) as [x|] eqn:Ex; [|done].
        destruct (match_here_append (String a post) (String c s)) as [y Ey];
          [by rewrite Ex|].
        rewrite (Hinv pre (String a post)) in Ey; done. }
      destruct (WebChat.match_here (String c s)) as [m|] eqn:Em.
      * destruct (match_here_spec _ _ Em)
          as (p & u & rest & Hp & -> & Hu & Ha & Hs & Hm & Hr).
        assert (∃ m', p +:+ u = String c m' ∧ s = m' +:+ rest) as (m' & Em' & ->).
        { apply head_of_match; [by destruct Hp as [-> | ->]|done]. }
        rewrite Em'. replace (String.length (String c m') - 1)%nat with (String.length m')
          by (simpl; lia).
        destruct (IH (String.length m') "" m' rest eq_refl eq_refl) as [Hj Halt].
        { intros pre post E. by destruct pre, post. }
        split.
        -- cbn [join foldr]. fold (join (WebChat.split_from (m' +:+ rest) (String.length m') "")).
           rewrite Hj. change ("" +:+ rest) with rest. by rewrite append_cons.
        -- rewrite !fmap_cons, (proj2 (matches_spec text) Hfree).
           rewrite <- Em', (matches_match _ Hm).
           destruct (split_from_head (m' +:+ rest) (String.length m') "" m' rest
                       eq_refl eq_refl) as (x & y & l & El & Ey).
           rewrite El in Halt |- *. change ("" +:+ x) with x in *.
           rewrite fmap_cons in Halt |- *.
           assert (Hx : WebChat.url_chars x = "")
             by (apply (url_chars_head x y); by rewrite <- Ey).
           destruct (WebChat.matches x) eqn:Hmx; [inversion Halt|].
           constructor; [done| |done|done]. exists p, u. done.
      * destruct (IH 0%nat (text +:+ String c "") "" s eq_refl eq_refl) as [Hj Halt].
        { intros pre post E Hne.
          destruct (append_snoc_inv _ _ _ _ (eq_sym E) Hne) as (post0 & -> & ->).
          rewrite append_assoc, append_cons. change ("" +:+ s) with s.
          destruct post0 as [|a post0]; [done|]. by eapply Hinv. }
        split; [|done]. rewrite Hj, append_assoc, append_cons. done.
    + destruct skipped as [|a skipped]; [done|]. rewrite append_cons in Es.
      injection Es as -> ->. cbn [WebChat.split_from]. injection Hlen as Hlen.
      by apply (IH skip text skipped rest).
Qed.

(** X24.  [formatMessageWithLinks] loses and adds nothing: the pieces,
    one after the other, are the text.  Plain texts and links come in turn,
    a plain text (which may be empty) first and last.  A link is [http://]
    or [https://] and then at least one character, none of them white space
    or one of [)], []], [}]; the text after a link does not start with a
    character the link could still have taken; and no position of a plain
    text starts a URL. *)
Theorem links_partition_the_text (text : string) :
  join (piece_text <$> WebChat.formatMessageWithLinks text) = text
  ∧ alternating (WebChat.formatMessageWithLinks text).
Proof.
  unfold WebChat.formatMessageWithLinks, WebChat.split.
  destruct (split_from_spec text 0 "" "" text eq_refl eq_refl) as [Hj Halt].
  { intros pre post E. by destruct pre, post. }
  split; [|done]. rewrite <- list_fmap_compose.
  change ("" +:+ text) with text in Hj. rewrite <- Hj at 2.
  unfold join. f_equal. clear.
  induction (WebChat.split_from text 0 "") as [|x l IH]; [done|].
  rewrite fmap_cons, IH. simpl. by destruct (WebChat.matches x).
Qed.

(** ** Messages stay with their conversation *)

Lemma owns_allocated s cid a : heap_closed s → owns s cid a → (a < length (arrs s))%nat.
Proof.
  intros (Hal & Hg & _) [H|(c & v & _ & Hc & <-)]; [by eapply Hg|by eapply Hal].
Qed.

Lemma custody_same born s s' :
  (∀ cid a, owns s' cid a → owns s cid a) →
  (∀ cid a, owns s' cid a → ∀ x, x ∈ array_of s' a → x ∈ array_of s a) →
  custody born s s' ∧ (one_owner s → one_owner s').
Proof.
  intros Ho Ha. split.
  - intros cid a x H Hx. left. exists a. split; [by apply Ho|by eapply Ha].
  - intros H1 cid1 cid2 a O1 O2. eapply H1; by apply Ho.
Qed.

Lemma custody_kept born s s' :
  one_owner s →
  (∀ cid a, owns s' cid a → owns s cid a) →
  (∀ cid a, owns s' cid a → ∀ x, x ∈ array_of s' a → x ∈ array_of s a) →
  custody born s s' ∧ one_owner s'.
Proof.
  intros H1 Ho Ha. destruct (custody_same born s s' Ho Ha) as [? H]. split; [done|by apply H].
Qed.

Lemma custody_trans born s s1 s2 :
  custody born s s1 → custody None s1 s2 → custody born s s2.
Proof.
  intros H1 H2 cid a x Ho Hx.
  destruct (H2 cid a x Ho Hx) as [(a0 & Ho0 & Hx0)|[_ ?]]; [|done].
  by apply (H1 cid a0 x).
Qed.

Lemma custody_track oc otxt s :
  custody None s (track_user_message oc otxt s).2
  ∧ (one_owner s → one_owner (track_user_message oc otxt s).2).
Proof.
  apply custody_same.
  - intros cid a. unfold track_user_message, owns.
    destruct oc as [c|], otxt as [t|]; simpl; try done.
    destruct (_ || _); simpl; [done|].
    assert (Hsub : ∀ (m : gmap string nat) k k' v, delete k m !! k' = Some v → m !! k' = Some v).
    { intros m k k' v H. destruct (decide (k = k')) as [->|Hne];
        [by rewrite lookup_delete_eq in H|by rewrite lookup_delete_ne in H]. }
    destruct (botMessages s !! c) as [c0|] eqn:Eb; simpl.
    + rewrite convs_clear_if_set. intros [H|(c1 & v & H1 & H2 & H3)].
      * left. eapply Hsub. rewrite globalMessages_clear_if_set in H. exact H.
      * right. exists c1, v. split; [|done]. eapply Hsub.
        rewrite botMessages_clear_if_set in H1. exact H1.
    + intros [H|(c1 & v & H1 & H2 & H3)]; [left; by eapply Hsub|right; by exists c1, v].
  - intros cid a _ x. unfold array_of. by rewrite (proj1 (proj2 (track_heap oc otxt s))).
Qed.

Lemma custody_poll cid s :
  custody None s (bot_response cid s).2 ∧ (one_owner s → one_owner (bot_response cid s).2).
Proof.
  apply custody_same.
  - intros c a. unfold bot_response. by crush.
  - intros c a _ x. unfold bot_response. by crush.
Qed.

Lemma custody_push cid new s s' a base :
  heap_closed s → one_owner s →
  globalMessages s' = <[cid := a]> (globalMessages s) →
  botMessages s' = botMessages s → convs s' = convs s →
  arrs s' = alter (fun l => l ++ new) a base →
  (globalMessages s !! cid = Some a ∧ base = arrs s
   ∨ globalMessages s !! cid = None ∧ a = length (arrs s) ∧ base = arrs s ++ [[]]) →
  Forall (fun x => (length (objs s) ≤ x)%nat) new →
  custody (Some cid) s s' ∧ one_owner s'.
Proof.
  intros Hh H1 Hg Hb Hc Ha Hcase Hnew.
  assert (F1 : ∀ a', a' ≠ a → (a' < length (arrs s))%nat → array_of s' a' = array_of s a').
  { intros a' Hne Hlt. unfold array_of. rewrite Ha, list_lookup_alter_ne by done.
    destruct Hcase as [[_ ->]|(_ & _ & ->)]; [done|by rewrite lookup_app_l]. }
  assert (F2 : ∀ x, x ∈ array_of s' a →
            x ∈ array_of s a ∧ globalMessages s !! cid = Some a ∨ x ∈ new).
  { intros x. unfold array_of. rewrite Ha, list_lookup_alter_eq.
    destruct Hcase as [[Hga ->]|(Hga & -> & ->)].
    - destruct (arrs s !! a) as [l|] eqn:El; simpl; [|by intros ?%elem_of_nil].
      intros [H|H]%elem_of_app; [left|by right]. done.
    - rewrite list_lookup_middle by done. simpl. intros H. by right. }
  assert (F3 : ∀ cid' a', owns s' cid' a' → owns s cid' a' ∨ (cid' = cid ∧ a' = a)).
  { intros cid' a' [H|(c & v & H2 & H3 & H4)].
    - rewrite Hg in H. destruct (decide (cid = cid')) as [->|Hne].
      + rewrite lookup_insert_eq in H. right. by injection H as <-.
      + rewrite lookup_insert_ne in H by done. left. by left.
    - left. right. exists c, v. by rewrite <- Hb, <- Hc. }
  assert (Hfresh : ∀ cid', owns s cid' a → globalMessages s !! cid = Some a).
  { intros cid' Ho. destruct Hcase as [[? _]|(_ & -> & _)]; [done|].
    apply (owns_allocated _ _ _ Hh) in Ho. lia. }
  assert (Hmine : ∀ cid', owns s cid' a → cid' = cid).
  { intros cid' Ho. apply (H1 cid' cid a Ho). left. by eapply Hfresh. }
  split.
  - intros cid' a' x Ho Hx.
    assert (Hpush : cid' = cid → a' = a →
              (∃ a0, owns s cid' a0 ∧ x ∈ array_of s a0)
              ∨ (length (objs s) ≤ x)%nat ∧ Some cid = Some cid').
    { intros -> ->. destruct (F2 x Hx) as [[Hx0 Hg0]|Hx0].
      - left. exists a. split; [by left|done].
      - right. split; [|done]. rewrite Forall_forall in Hnew. by apply Hnew. }
    destruct (F3 _ _ Ho) as [Ho'|[-> ->]]; [|by apply Hpush].
    destruct (decide (a' = a)) as [->|Hne]; [apply Hpush; [by apply Hmine|done]|].
    left. exists a'. split; [done|]. rewrite <- F1; [done|done|by eapply owns_allocated].
  - intros c1 c2 a' O1 O2.
    destruct (F3 _ _ O1) as [O1'|[E1 Ea1]], (F3 _ _ O2) as [O2'|[E2 Ea2]].
    + by eapply H1.
    + subst. by apply Hmine.
    + subst. symmetry. by apply Hmine.
    + by subst.
Qed.

Lemma store_bot_message_maps cid x random s :
  botMessages (N8N.store_bot_message cid x random s) = botMessages s
  ∧ convs (N8N.store_bot_message cid x random s) = convs s.
Proof.
  unfold N8N.store_bot_message.
  destruct (globalMessages s !! cid); simpl;
    by rewrite botMessages_clear_if_set, convs_clear_if_set.
Qed.

Lemma custody_store_bot_message cid x random s :
  heap_closed s → one_owner s →
  custody (Some cid) s (N8N.store_bot_message cid x random s)
  ∧ one_owner (N8N.store_bot_message cid x random s).
Proof.
  intros Hh H1.
  destruct (store_bot_message_shape cid x random s)
    as (a & o & base & Ho & _ & _ & Hg & Ha & Hcase).
  destruct (store_bot_message_maps cid x random s) as [Hb Hc].
  eapply custody_push; try done. by apply Forall_singleton.
Qed.

Lemma convs_monitor_tick cid msgs s : convs (Direct.monitor_tick cid msgs s) = convs s.
Proof.
  unfold Direct.monitor_tick. crush;
    rewrite convs_clear_if_set;
    match goal with
    | |- convs (Direct.push_all ?a ?ms ?s) = _ =>
        by rewrite (proj1 (proj2 (proj2 (proj2 (proj2 (push_all_frame a ms s))))))
    end.
Qed.

Lemma custody_monitor_tick cid msgs s :
  heap_closed s → one_owner s →
  custody (Some cid) s (Direct.monitor_tick cid msgs s)
  ∧ one_owner (Direct.monitor_tick cid msgs s).
Proof.
  intros Hh H1.
  set (fresh := filter (fun msg => Direct.is_new_bot_message cid s msg = true) msgs).
  destruct (decide (fresh = [])) as [E|Hne].
  { assert (Es : Direct.monitor_tick cid msgs s = s)
      by (unfold Direct.monitor_tick; fold fresh; by rewrite E).
    rewrite Es. split; [|done]. intros c a x Ho Hx. left. by exists a. }
  destruct (monitor_tick_shape cid msgs s Hne) as (a & base & Ho & _ & Hg & Ha & Hcase).
  eapply custody_push; try done.
  - apply botMessages_monitor_tick.
  - apply convs_monitor_tick.
  - apply Forall_forall. intros x Hx%elem_of_seq. lia.
Qed.

Lemma custody_file cid a cstar s s' :
  heap_closed s → one_owner s →
  globalMessages s' = globalMessages s →
  (∀ a', (a' < length (arrs s))%nat → array_of s' a' ≡ₚ array_of s a') →
  (globalMessages s !! cid = Some a ∨ (length (arrs s) ≤ a)%nat ∧ array_of s' a = []) →
  (botMessages s !! cid = Some cstar ∧ botMessages s' = botMessages s
   ∨ cstar = length (convs s) ∧ botMessages s' = <[cid := cstar]> (botMessages s)) →
  (∀ v, convs s' !! cstar = Some v → messages v = a) →
  (∀ c, c ≠ cstar → convs s' !! c = convs s !! c) →
  custody None s s' ∧ one_owner s'.
Proof.
  intros Hh H1 Hg Hperm Ha Hb Hstar Hother.
  assert (G : ∀ cid' a', owns s' cid' a' → owns s cid' a' ∨ (cid' = cid ∧ a' = a)).
  { intros cid' a' [H|(c & v & H2 & H3 & H4)]; [left; left; by rewrite <- Hg|].
    destruct (decide (c = cstar)) as [->|Hne].
    - right. split; [|by rewrite <- H4; apply Hstar].
      destruct Hb as [[Hb1 Hb2]|[Hb1 Hb2]].
      + rewrite Hb2 in H2. destruct Hh as (_ & _ & _ & Hinj). by eapply Hinj.
      + rewrite Hb2 in H2. destruct (decide (cid = cid')) as [->|Hc]; [done|].
        rewrite lookup_insert_ne in H2 by done.
        destruct Hh as (_ & _ & Hlt & _). apply Hlt in H2. lia.
    - left. right. exists c, v. rewrite <- Hother by done. split; [|done].
      destruct Hb as [[Hb1 Hb2]|[Hb1 Hb2]]; [by rewrite <- Hb2|].
      rewrite Hb2 in H2. destruct (decide (cid = cid')) as [->|Hc].
      + rewrite lookup_insert_eq in H2. by injection H2 as <-.
      + by rewrite lookup_insert_ne in H2. }
  split.
  - intros cid' a' x Ho Hx. left.
    destruct (G _ _ Ho) as [Ho'|[-> ->]].
    + exists a'. split; [done|]. rewrite <- (Hperm a'); [done|by eapply owns_allocated].
    + destruct Ha as [Ha|[_ Ha]]; [|rewrite Ha in Hx; by apply elem_of_nil in Hx].
      exists a. split; [by left|].
      rewrite <- (Hperm a); [done|]. destruct Hh as (_ & Hgl & _). by eapply Hgl.
  - intros c1 c2 a' O1 O2.
    assert (Hmine : ∀ cid', owns s cid' a → cid' = cid).
    { intros cid' Ho. destruct Ha as [Ha|[Ha _]].
      - apply (H1 cid' cid a Ho). by left.
      - apply (owns_allocated _ _ _ Hh) in Ho. lia. }
    destruct (G _ _ O1) as [O1'|[E1 Ea1]], (G _ _ O2) as [O2'|[E2 Ea2]].
    + by eapply H1.
    + subst. by apply Hmine.
    + subst. symmetry. by apply Hmine.
    + by subst.
Qed.

Lemma array_of_sort_in_place a s a' :
  array_of (sort_in_place a s) a' ≡ₚ array_of s a'.
Proof.
  unfold array_of, sort_in_place. simpl.
  destruct (decide (a' = a)) as [->|Hne].
  - rewrite list_lookup_alter_eq. destruct (arrs s !! a) as [l|]; simpl; [|done].
    rewrite by_timestamp_key. apply sort_perm.
  - by rewrite list_lookup_alter_ne.
Qed.

Lemma lookup_snoc_ne {A} (l : list A) (x : A) (c : nat) :
  c ≠ length l → (l ++ [x]) !! c = l !! c.
Proof.
  intros Hne. destruct (decide (c < length l)%nat) as [Hlt|Hge].
  - by rewrite lookup_app_l.
  - rewrite !lookup_ge_None_2; [done|lia|rewrite length_app; simpl; lia].
Qed.

Lemma custody_finalize_timeout cid s :
  heap_closed s → one_owner s →
  custody None s (N8N.finalize_timeout cid s) ∧ one_owner (N8N.finalize_timeout cid s).
Proof.
  intros Hh H1. unfold N8N.finalize_timeout.
  destruct (globalMessages s !! cid) as [a|] eqn:Hg; cbn beta iota delta [new_array].
  - destruct (botMessages (sort_in_place a s) !! cid) as [c|] eqn:Hb; simpl in Hb.
    + eapply (custody_file cid a c); try done.
      * intros a' _. exact (array_of_sort_in_place a s a').
      * by left.
      * by left.
      * intros v. simpl. rewrite list_lookup_alter_eq.
        destruct (convs s !! c); simpl; [by intros [= <-]|done].
      * intros c' Hne. simpl. by rewrite list_lookup_alter_ne.
    + eapply (custody_file cid a (length (convs s))); try done.
      * intros a' Ha'. unfold array_of. simpl.
        rewrite lookup_app_l by by rewrite length_alter.
        exact (array_of_sort_in_place a s a').
      * by left.
      * by right.
      * intros v. simpl. rewrite list_lookup_alter_eq, list_lookup_middle by done.
        by intros [= <-].
      * intros c' Hne. simpl. rewrite list_lookup_alter_ne by done.
        by apply lookup_snoc_ne.
  - set (s1 := sort_in_place _ _).
    assert (Hperm : ∀ a', (a' < length (arrs s))%nat → array_of s1 a' = array_of s a').
    { intros a' Ha'. unfold array_of. simpl.
      rewrite list_lookup_alter_ne by lia. by rewrite lookup_app_l. }
    assert (Hnew : array_of s1 (length (arrs s)) = []).
    { unfold array_of. simpl. by rewrite list_lookup_alter_eq, list_lookup_middle. }
    assert (Hlen : length (arrs s1) = S (length (arrs s))).
    { simpl. rewrite length_alter, length_app. simpl. lia. }
    destruct (botMessages s1 !! cid) as [c|] eqn:Hb; simpl in Hb.
    + eapply (custody_file cid (length (arrs s)) c); try done.
      * intros a' Ha'. by rewrite <- Hperm.
      * right. split; [lia|]. exact Hnew.
      * by left.
      * intros v. simpl. rewrite list_lookup_alter_eq.
        destruct ((convs s) !! c); simpl; [by intros [= <-]|done].
      * intros c' Hne. simpl. by rewrite list_lookup_alter_ne.
    + eapply (custody_file cid (length (arrs s)) (length (convs s))); try done.
      * intros a' Ha'. rewrite <- Hperm by done. unfold array_of. simpl.
        rewrite lookup_app_l; [done|]. rewrite length_alter, length_app. simpl. lia.
      * right. split; [lia|]. rewrite <- Hnew. unfold array_of. simpl.
        rewrite lookup_app_l; [done|]. rewrite length_alter, length_app. simpl. lia.
      * by right.
      * intros v. simpl. rewrite list_lookup_alter_eq, list_lookup_middle by done.
        by intros [= <-].
      * intros c' Hne. simpl. rewrite list_lookup_alter_ne by done.
        by apply lookup_snoc_ne.
Qed.

Lemma custody_finalizeMessages cid s :
  heap_closed s → one_owner s →
  custody None s (Direct.finalizeMessages cid s)
  ∧ one_owner (Direct.finalizeMessages cid s).
Proof.
  intros Hh H1. unfold Direct.finalizeMessages.
  destruct (globalMessages s !! cid) as [a|] eqn:Hg.
  2:{ by apply custody_kept. }
  destruct (0 <? length (array_of s a))%nat.
  2:{ by apply custody_kept. }
  destruct (botMessages (sort_in_place a s) !! cid) as [c|] eqn:Hb; simpl in Hb.
  - eapply (custody_file cid a c); try done.
    + intros a' _. exact (array_of_sort_in_place a s a').
    + by left.
    + by left.
    + intros v. simpl. rewrite list_lookup_alter_eq.
      destruct (convs s !! c); simpl; [by intros [= <-]|done].
    + intros c' Hne. simpl. by rewrite list_lookup_alter_ne.
  - eapply (custody_file cid a (length (convs s))); try done.
    + intros a' Ha'. unfold array_of. simpl.
      rewrite lookup_app_l by by rewrite length_alter.
      exact (array_of_sort_in_place a s a').
    + by left.
    + by right.
    + intros v. simpl. rewrite list_lookup_alter_eq, list_lookup_middle by done.
      by intros [= <-].
    + intros c' Hne. simpl. rewrite list_lookup_alter_ne by done.
      by apply lookup_snoc_ne.
Qed.

Lemma custody_fallback_timeout c s :
  custody None s (N8N.fallback_timeout c s) ∧ (one_owner s → one_owner (N8N.fallback_timeout c s)).
Proof.
  apply custody_same; [|done].
  intros cid a [H|(c' & v & H2 & H3 & H4)]; [by left|]. right.
  simpl in H3. destruct (decide (c' = c)) as [->|Hne].
  - rewrite list_lookup_alter_eq in H3. destruct (convs s !! c) as [v0|] eqn:E; [|done].
    exists c, v0. injection H3 as <-. done.
  - rewrite list_lookup_alter_ne in H3 by done. by exists c', v.
Qed.

Lemma custody_clearTimeout h s :
  custody None s (clearTimeout h s) ∧ (one_owner s → one_owner (clearTimeout h s)).
Proof. by apply custody_same. Qed.

Lemma custody_fire h s s' :
  heap_closed s → one_owner s → fire h s = Some s' →
  custody None s s' ∧ one_owner s'.
Proof.
  intros Hh H1. unfold fire. destruct (timers s !! h) as [t|]; [|done].
  destruct (_ && _); [|done]. intros [= <-].
  assert (Hh' : heap_closed (clearTimeout h s)) by done.
  assert (H1' : one_owner (clearTimeout h s)) by done.
  assert (Hc : custody None s (clearTimeout h s)) by apply custody_clearTimeout.
  destruct (callback t) as [cid|c|cid]; cbn [run_callback].
  - destruct (custody_finalize_timeout cid (clearTimeout h s) Hh' H1') as [H2 H3].
    split; [exact (custody_trans _ _ _ _ Hc H2)|done].
  - destruct (custody_fallback_timeout c (clearTimeout h s)) as [H2 H3].
    split; [exact (custody_trans _ _ _ _ Hc H2)|by apply H3].
  - destruct (custody_finalizeMessages cid (clearTimeout h s) Hh' H1') as [H2 H3].
    split; [exact (custody_trans _ _ _ _ Hc H2)|done].
Qed.

Lemma custody_clear_all_n8n s :
  custody None s (N8N.clear_all s) ∧ (one_owner s → one_owner (N8N.clear_all s)).
Proof.
  apply custody_same; [|done].
  intros cid a [H|(c & v & H2 & _)]; [by left|]. simpl in H2. by rewrite lookup_empty in H2.
Qed.

Lemma custody_clear_all_direct s :
  custody None s (Direct.clear_all s) ∧ (one_owner s → one_owner (Direct.clear_all s)).
Proof.
  apply custody_same; [|done].
  intros cid a [H|(c & v & H2 & _)]; simpl in *; by rewrite lookup_empty in *.
Qed.

Lemma custody_buffer cid a cstar s s' :
  heap_closed s → one_owner s →
  globalMessages s' = globalMessages s →
  (botMessages s !! cid = Some cstar ∧ botMessages s' = botMessages s
   ∨ cstar = length (convs s) ∧ botMessages s' = <[cid := cstar]> (botMessages s)) →
  (∀ v, convs s' !! cstar = Some v → messages v = a) →
  (∀ c, c ≠ cstar → convs s' !! c = convs s !! c) →
  (owns s cid a ∨ (length (arrs s) ≤ a)%nat) →
  (∀ a', a' ≠ a → (a' < length (arrs s))%nat → array_of s' a' = array_of s a') →
  (∀ x, x ∈ array_of s' a →
        x ∈ array_of s a ∧ owns s cid a ∨ (length (objs s) ≤ x)%nat) →
  custody (Some cid) s s' ∧ one_owner s'.
Proof.
  intros Hh H1 Hg Hb Hstar Hother Ha Hsame Hnew.
  assert (G : ∀ cid' a', owns s' cid' a' → owns s cid' a' ∨ (cid' = cid ∧ a' = a)).
  { intros cid' a' [H|(c & v & H2 & H3 & H4)]; [left; left; by rewrite <- Hg|].
    destruct (decide (c = cstar)) as [->|Hne].
    - right. split; [|by rewrite <- H4; apply Hstar].
      destruct Hb as [[Hb1 Hb2]|[Hb1 Hb2]].
      + rewrite Hb2 in H2. destruct Hh as (_ & _ & _ & Hinj). by eapply Hinj.
      + rewrite Hb2 in H2. destruct (decide (cid = cid')) as [->|Hc]; [done|].
        rewrite lookup_insert_ne in H2 by done.
        destruct Hh as (_ & _ & Hlt & _). apply Hlt in H2. lia.
    - left. right. exists c, v. rewrite <- Hother by done. split; [|done].
      destruct Hb as [[Hb1 Hb2]|[Hb1 Hb2]]; [by rewrite <- Hb2|].
      rewrite Hb2 in H2. destruct (decide (cid = cid')) as [->|Hc].
      + rewrite lookup_insert_eq in H2. by injection H2 as <-.
      + by rewrite lookup_insert_ne in H2. }
  assert (Hmine : ∀ cid', owns s cid' a → cid' = cid).
  { intros cid' Ho. destruct Ha as [Ha|Ha].
    - by apply (H1 cid' cid a Ho).
    - apply (owns_allocated _ _ _ Hh) in Ho. lia. }
  split.
  - intros cid' a' x Ho Hx.
    assert (Hpush : cid' = cid → a' = a →
              (∃ a0, owns s cid' a0 ∧ x ∈ array_of s a0)
              ∨ (length (objs s) ≤ x)%nat ∧ Some cid = Some cid').
    { intros -> ->. destruct (Hnew x Hx) as [[Hx0 Ho0]|Hx0]; [left; by exists a|by right]. }
    destruct (G _ _ Ho) as [Ho'|[-> ->]]; [|by apply Hpush].
    destruct (decide (a' = a)) as [->|Hne]; [apply Hpush; [by apply Hmine|done]|].
    left. exists a'. split; [done|]. rewrite <- Hsame; [done|done|by eapply owns_allocated].
  - intros c1 c2 a' O1 O2.
    destruct (G _ _ O1) as [O1'|[E1 Ea1]], (G _ _ O2) as [O2'|[E2 Ea2]].
    + by eapply H1.
    + subst. by apply Hmine.
    + subst. symmetry. by apply Hmine.
    + by subst.
Qed.

Lemma custody_store_fallback_message cid x s :
  heap_closed s → one_owner s →
  custody (Some cid) s (N8N.store_fallback_message cid x s)
  ∧ one_owner (N8N.store_fallback_message cid x s).
Proof.
  intros Hh H1. unfold N8N.store_fallback_message.
  destruct (botMessages s !! cid) as [c|] eqn:Hb;
    cbn beta iota delta [new_conversationData new_array new_message setTimeout].
  - assert (Hc : ∃ v, convs s !! c = Some v).
    { destruct Hh as (_ & _ & Hlt & _). apply lookup_lt_is_Some_2. by eapply Hlt. }
    destruct Hc as [v Hv]. rewrite Hv. cbn [from_option].
    eapply (custody_buffer cid (messages v) c); [done|done|..].
    + simpl. by rewrite ?globalMessages_clear_if_set.
    + left. split; [done|]. simpl. by rewrite ?botMessages_clear_if_set.
    + intros v'. simpl. rewrite ?convs_clear_if_set. simpl.
      rewrite list_lookup_alter_eq, Hv. simpl. by intros [= <-].
    + intros c' Hne. simpl. rewrite ?convs_clear_if_set. simpl.
      by rewrite list_lookup_alter_ne.
    + left. right. by exists c, v.
    + intros a' Hne _. unfold array_of. simpl. rewrite ?arrs_clear_if_set. simpl.
      by rewrite !list_lookup_alter_ne.
    + intros y. unfold array_of. simpl. rewrite ?arrs_clear_if_set. simpl.
      rewrite !list_lookup_alter_eq.
      destruct (arrs s !! messages v) as [l|] eqn:El; simpl; [|by intros ?%elem_of_nil].
      rewrite by_timestamp_key, sort_perm.
      intros [H | ->%list_elem_of_singleton]%elem_of_app; [left|by right].
      split; [done|]. right. by exists c, v.
  - simpl. rewrite !list_lookup_middle by done. cbn [from_option messages].
    eapply (custody_buffer cid (length (arrs s)) (length (convs s))); [done|done|..].
    + simpl. by rewrite ?globalMessages_clear_if_set.
    + right. split; [done|]. simpl. by rewrite ?botMessages_clear_if_set.
    + intros v'. simpl. rewrite ?convs_clear_if_set. simpl.
      rewrite list_lookup_alter_eq, list_lookup_middle by done. simpl. by intros [= <-].
    + intros c' Hne. simpl. rewrite ?convs_clear_if_set. simpl.
      rewrite list_lookup_alter_ne by done. by apply lookup_snoc_ne.
    + by right.
    + intros a' Hne Hlt. unfold array_of. simpl. rewrite ?arrs_clear_if_set. simpl.
      rewrite !list_lookup_alter_ne by done. by rewrite lookup_app_l.
    + intros y. unfold array_of. simpl. rewrite ?arrs_clear_if_set. simpl.
      rewrite !list_lookup_alter_eq, list_lookup_middle by done. simpl.
      intros ->%list_elem_of_singleton. by right.
Qed.

Lemma cleanup_entry_conv ago s key c v :
  convs s !! c = Some v →
  ∃ v', convs (N8N.cleanup_entry ago s (key, c)) !! c = Some v'
        ∧ (v' = v ∧ arrs (N8N.cleanup_entry ago s (key, c)) = arrs s
           ∨ messages v' = length (arrs s)
             ∧ arrs (N8N.cleanup_entry ago s (key, c))
               = arrs s ++ [filter (recent ago s) (content s v)]).
Proof.
  intros Ev. unfold N8N.cleanup_entry. rewrite Ev.
  destruct (negb (allMessagesReceived v) && has (deliveryTimeoutId v));
    [exists v; split; [done|by left]|].
  fold (content s v). change (filter _ (content s v)) with (filter (recent ago s) (content s v)).
  set (kept := filter (recent ago s) (content s v)).
  destruct (bool_decide (length kept ≠ length (content s v))); simpl;
    destruct (bool_decide (length kept = 0%nat)); simpl;
    rewrite ?convs_clear_if_set, ?arrs_clear_if_set; simpl;
    rewrite ?list_lookup_alter_eq, ?Ev; simpl; eexists; split; try reflexivity;
    (by left) || (by right).
Qed.

Lemma pruned_refl s : allocated s → pruned s s.
Proof. intros Ha c v Hv. exists v. split; [done|]. split; [done|by left]. Qed.

Lemma pruned_step ago s0 s entry :
  swept ago s0 s → pruned s0 s → pruned s0 (N8N.cleanup_entry ago s entry).
Proof.
  intros Hs Hp. destruct entry as [key c].
  destruct Hs as [_ _ _ _ (ext & Hext) _ Hal _ _ _].
  destruct (cleanup_entry_frame ago s key c) as (_ & _ & _ & _ & Fo).
  pose proof (cleanup_entry_arrs ago s key c) as Farr.
  assert (Hgrow : ∃ ext', arrs (N8N.cleanup_entry ago s (key, c)) = arrs s ++ ext').
  { destruct Farr as [E|(v & _ & _ & E)]; rewrite E; [exists []; by rewrite app_nil_r|eauto]. }
  destruct Hgrow as (ext' & Hgrow). clear Farr.
  destruct (convs s !! c) as [v|] eqn:Ev;
    [|by rewrite (cleanup_entry_absent ago s key c Ev)].
  destruct (cleanup_entry_conv ago s key c v Ev) as (v' & Ev' & Hcase).
  set (s' := N8N.cleanup_entry ago s (key, c)) in *. clearbody s'.
  assert (Hold : ∀ a, (a < length (arrs s))%nat → array_of s' a = array_of s a).
  { intros a Ha. by eapply array_of_app. }
  intros c1 v1 E1. destruct (decide (c1 = c)) as [->|Hne].
  - rewrite Ev' in E1. injection E1 as <-.
    destruct (Hp c v Ev) as (v0 & E0 & Hsub & Hidx).
    exists v0. split; [done|].
    destruct Hcase as [[-> Ea]|[Em Ea]].
    + split.
      * intros x Hx. apply Hsub. rewrite <- Hold; [done|by eapply Hal].
      * destruct Hidx as [?|[Hlt Huniq]]; [by left|right]. split; [done|].
        intros c2 v2 E2 Hm. destruct (decide (c2 = c)) as [->|Hc2]; [done|].
        rewrite Fo in E2 by done. by eapply Huniq.
    + split.
      * intros x. rewrite Em. unfold array_of at 1. rewrite Ea.
        rewrite list_lookup_middle by done. simpl.
        intros [_ Hx]%list_elem_of_filter. by apply Hsub.
      * right. split; [rewrite Em, Hext, length_app; lia|].
        intros c2 v2 E2 Hm. destruct (decide (c2 = c)) as [->|Hc2]; [done|].
        rewrite Fo in E2 by done. apply Hal in E2. lia.
  - rewrite Fo in E1 by done.
    destruct (Hp c1 v1 E1) as (v0 & E0 & Hsub & Hidx).
    exists v0. split; [done|]. split.
    + intros x Hx. apply Hsub. rewrite <- Hold; [done|by eapply Hal].
    + destruct Hidx as [?|[Hlt Huniq]]; [by left|right]. split; [done|].
      intros c2 v2 E2 Hm. destruct (decide (c2 = c)) as [->|Hc2].
      * rewrite Ev' in E2. injection E2 as <-.
        destruct Hcase as [[-> _]|[Em _]]; [by eapply Huniq|].
        apply Hal in E1. lia.
      * rewrite Fo in E2 by done. by eapply Huniq.
Qed.

Lemma pruned_cleanup s : allocated s → pruned s (N8N.cleanup s).
Proof.
  intros Ha. unfold N8N.cleanup.
  set (ago := clock s - 5 * 60 * 1000).
  assert (H : swept ago s (foldl (N8N.cleanup_entry ago) s (map_to_list (botMessages s)))
              ∧ pruned s (foldl (N8N.cleanup_entry ago) s (map_to_list (botMessages s)))).
  { apply (foldl_invariant (fun x => swept ago s x ∧ pruned s x)).
    - split; [by apply swept_start|by apply pruned_refl].
    - intros x b _ [Hs Hp]. split; [by apply swept_step|by apply pruned_step]. }
  exact (proj2 H).
Qed.

Lemma custody_cleanup s :
  heap_closed s → one_owner s →
  custody None s (N8N.cleanup s) ∧ one_owner (N8N.cleanup s).
Proof.
  intros Hh H1. pose proof Hh as (Hal & Hgl & Hbl & Hinj).
  pose proof (pruned_cleanup s Hal) as Hp.
  destruct (cleanup_swept s Hal) as [_ _ Sg _ [ext Sa] _ _ _ _ Sb].
  set (s' := N8N.cleanup s) in *. clearbody s'.
  assert (Hold : ∀ a, (a < length (arrs s))%nat → array_of s' a = array_of s a).
  { intros a Ha. by eapply array_of_app. }
  assert (Hconv : ∀ cid c v, botMessages s' !! cid = Some c → convs s' !! c = Some v →
            ∃ v0, botMessages s !! cid = Some c ∧ convs s !! c = Some v0
                  ∧ (∀ x, x ∈ array_of s' (messages v) → x ∈ array_of s (messages v0))
                  ∧ (messages v = messages v0
                     ∨ (length (arrs s) ≤ messages v)%nat
                       ∧ ∀ c2 v2, convs s' !! c2 = Some v2 →
                                  messages v2 = messages v → c2 = c)).
  { intros cid c v Hb Hc. destruct (Hp c v Hc) as (v0 & E0 & Hsub & Hidx).
    exists v0. split; [by eapply lookup_weaken|done]. }
  split.
  - intros cid a x [Hg|(c & v & Hb & Hc & <-)] Hx; left.
    + rewrite Sg in Hg. exists a. split; [by left|].
      rewrite <- Hold; [done|by eapply Hgl].
    + destruct (Hconv _ _ _ Hb Hc) as (v0 & Hb0 & Hc0 & Hsub & _).
      exists (messages v0). split; [right; by exists c, v0|by apply Hsub].
  - intros c1 c2 a [Hg1|(k1 & v1 & Hb1 & Hc1 & Hm1)] [Hg2|(k2 & v2 & Hb2 & Hc2 & Hm2)].
    + rewrite Sg in Hg1, Hg2. apply (H1 c1 c2 a); by left.
    + rewrite Sg in Hg1.
      destruct (Hconv _ _ _ Hb2 Hc2) as (v0 & Hb0 & Hc0 & _ & [Hi|[Hi _]]).
      * apply (H1 c1 c2 a); [by left|]. right. exists k2, v0. by rewrite <- Hi.
      * apply Hgl in Hg1. lia.
    + rewrite Sg in Hg2.
      destruct (Hconv _ _ _ Hb1 Hc1) as (v0 & Hb0 & Hc0 & _ & [Hi|[Hi _]]).
      * apply (H1 c1 c2 a); [|by left]. right. exists k1, v0. by rewrite <- Hi.
      * apply Hgl in Hg2. lia.
    + destruct (Hconv _ _ _ Hb1 Hc1) as (v01 & Hb01 & Hc01 & _ & Hi1).
      destruct (Hconv _ _ _ Hb2 Hc2) as (v02 & Hb02 & Hc02 & _ & Hi2).
      destruct Hi1 as [Hi1|[Hi1 Hu1]].
      * destruct Hi2 as [Hi2|[Hi2 _]].
        -- apply (H1 c1 c2 a); right;
             [exists k1, v01; by rewrite <- Hi1|exists k2, v02; by rewrite <- Hi2].
        -- apply Hal in Hc01. lia.
      * assert (k2 = k1) as -> by (eapply Hu1; [exact Hc2|congruence]).
        by eapply Hinj.
Qed.

Lemma custody_refl born s : custody born s s.
Proof. intros cid a x Ho Hx. left. by exists a. Qed.

Lemma custody_process x random s :
  heap_closed s → one_owner s →
  custody (N8N.conversationId x) s (N8N.process x random s)
  ∧ one_owner (N8N.process x random s).
Proof.
  intros Hh H1. unfold N8N.process.
  assert (Hcid : N8N.storable x = true →
            N8N.conversationId x = Some (default "" (N8N.conversationId x))).
  { unfold N8N.storable. destruct (N8N.conversationId x); [done|]. simpl. done. }
  destruct (N8N.isBotMessage (N8N.isBot x)).
  - destruct (N8N.storable x) eqn:Es; [|split; [apply custody_refl|done]].
    rewrite (Hcid eq_refl) at 1. by apply custody_store_bot_message.
  - destruct (N8N.isUserMessage (N8N.isBot x)); [split; [apply custody_refl|done]|].
    match goal with |- context [if ?b then _ else _] => destruct b eqn:Eb end;
      [|split; [apply custody_refl|done]].
    apply andb_prop in Eb as [_ Es].
    rewrite (Hcid Es) at 1. by apply custody_store_fallback_message.
Qed.

Lemma custody_step s e :
  heap_closed s → one_owner s →
  custody (event_conversation e) s (step s e) ∧ one_owner (step s e).
Proof.
  intros Hh H1. destruct e as [oc otxt|c|body random|c msgs|h|ms| |]; cbn [step event_conversation].
  - destruct (custody_track oc otxt s) as [? H]. split; [done|by apply H].
  - destruct (custody_poll c s) as [? H]. split; [done|by apply H].
  - unfold N8N.botpress_webhook. cbn [snd].
    destruct (custody_process (N8N.extract body) random s Hh H1) as [Hc Ho].
    destruct (custody_cleanup (N8N.process (N8N.extract body) random s)) as [Hc' Ho'];
      [by apply heap_closed_process|done|].
    split; [exact (custody_trans _ _ _ _ Hc Hc')|done].
  - by apply custody_monitor_tick.
  - destruct (fire h s) as [s'|] eqn:E; simpl; [|split; [apply custody_refl|done]].
    by eapply custody_fire.
  - by apply custody_kept.
  - destruct (custody_clear_all_n8n s) as [? H]. split; [done|by apply H].
  - destruct (custody_clear_all_direct s) as [? H]. split; [done|by apply H].
Qed.

Lemma one_owner_run es : ∀ s, heap_closed s → one_owner s → one_owner (run s es).
Proof.
  induction es as [|e es IH]; intros s Hh H1; [done|]. simpl. apply IH.
  - by apply heap_closed_step.
  - by apply custody_step.
Qed.

Lemma one_owner_initial : one_owner initial.
Proof.
  intros c1 c2 a [H|(c & v & H & _)]; simpl in H; by rewrite lookup_empty in H.
Qed.

Lemma objs_le_length s s' : objs_le s s' → (length (objs s) ≤ length (objs s'))%nat.
Proof.
  intros H. destruct (objs s) as [|o l] eqn:E using rev_ind; [simpl; lia|].
  destruct (H (length l) o) as (o' & Ho' & _); [by rewrite E, list_lookup_middle|].
  apply lookup_lt_Some in Ho'. rewrite length_app. simpl. lia.
Qed.

Lemma belongs_run (m : nat) (born : option string) es : ∀ s,
  heap_closed s → one_owner s → (m < length (objs s))%nat →
  (∀ cid a, owns s cid a → m ∈ array_of s a → born = Some cid) →
  ∀ cid a, owns (run s es) cid a → m ∈ array_of (run s es) a → born = Some cid.
Proof.
  induction es as [|e es IH]; intros s Hh H1 Hm Hp; [done|]. simpl.
  destruct (custody_step s e Hh H1) as [Hc Ho].
  apply IH; [by apply heap_closed_step|done| |].
  - pose proof (objs_le_length _ _ (objs_le_step s e)). lia.
  - intros cid a Hown Hin.
    destruct (Hc cid a m Hown Hin) as [(a0 & Ho0 & Hx0)|[Hge _]]; [by eapply Hp|lia].
Qed.

Lemma conversationData_for_owns cid s a flag :
  conversationData_for cid s = Some (a, flag) → owns s cid a.
Proof.
  unfold conversationData_for, owns.
  destruct (botMessages s !! cid) as [c|] eqn:Eb.
  - destruct (convs s !! c) as [v|] eqn:Ec; [|done]. simpl. intros [= <- _].
    right. by exists c, v.
  - destruct (globalMessages s !! cid) as [a'|]; [|done]. intros [= <- _]. by left.
Qed.

(** X25.  A poll returns to a conversation only messages that were stored
    for it, in either backend and in every history: when a message object
    is created by an event and a later poll of the conversation [cid]
    answers READY with it, the event was a webhook call whose conversation
    id is [cid] or a monitor tick of [cid].  So no message collected for
    one conversation is ever delivered to another. *)
Theorem poll_returns_own_messages
  (es es' : list Event) (e : Event) (cid : string) (m : nat) (ms : list nat) :
  (length (objs (run initial es)) ≤ m < length (objs (step (run initial es) e)))%nat →
  (bot_response cid (run (step (run initial es) e) es')).1 = Ready ms →
  m ∈ ms →
  event_conversation e = Some cid.
Proof.
  intros Hm Hr Hin. set (s := run initial es) in *.
  assert (Hh : heap_closed s) by apply heap_closed_reachable.
  assert (H1 : one_owner s) by (apply one_owner_run; [apply heap_closed_initial|apply one_owner_initial]).
  assert (Ho : ordered s) by (apply ordered_run, ordered_initial).
  destruct (custody_step s e Hh H1) as [Hc H1'].
  destruct (bot_response cid (run (step s e) es')) as [r sf] eqn:Er. simpl in Hr. subst r.
  destruct (poll_ready_inv _ _ _ _ Er) as (a & Hcd & -> & _ & _).
  apply elem_of_undelivered_sorted in Hin as [_ Hin].
  apply conversationData_for_owns in Hcd.
  eapply (belongs_run m (event_conversation e) es' (step s e)); try done.
  - by apply heap_closed_step.
  - lia.
  - intros cid' a' Hown Hx.
    destruct (Hc cid' a' m Hown Hx) as [(a0 & Ho0 & Hx0)|[_ ?]]; [|done].
    destruct (ordered_heap_array_of (objs s) s a0 Ho) as [Hlt _].
    rewrite Forall_forall in Hlt. apply Hlt in Hx0. lia.
Qed.

Lemma poll_returns_own_messages_witness :
  (bot_response "c1"
     (run (step (run initial [Track (Some "c1") (Some "hello")])
             (webhook "c1" "Hi there" N8N.FlagTrue "k3x9pq"))
        [Elapse 6000; Fire 0])).1 = Ready [0%nat]
  ∧ event_conversation (webhook "c1" "Hi there" N8N.FlagTrue "k3x9pq") = Some "c1".
Proof.
  assert (H : (bot_response "c1"
     (run (step (run initial [Track (Some "c1") (Some "hello")])
             (webhook "c1" "Hi there" N8N.FlagTrue "k3x9pq"))
        [Elapse 6000; Fire 0])).1 = Ready [0%nat]) by (vm_compute; reflexivity).
  split; [exact H|].
  apply (poll_returns_own_messages [Track (Some "c1") (Some "hello")]
           [Elapse 6000; Fire 0] (webhook "c1" "Hi there" N8N.FlagTrue "k3x9pq")
           "c1" 0%nat [0%nat]).
  - vm_compute. lia.
  - exact H.
  - by left.
Defined.
